(* ===== verification/_CoqProject ===== *)
-Q . S2P
Prelude.v
Base.v
ByteIO.v
Packets.v
PacketProps.v
PacketTypes.v
Transport.v
PacketReader.v
Subscription.v
Shared.v
Transceiver.v
TransceiverOut.v
TransceiverProps.v
Samples.v
TransceiverRuns.v
Bounds.v
Shutdown.v
Futures.v
Wrappers.v
Wakers.v
Client.v
Connect.v
Wire.v
Discipline.v
System.v
SystemRuns.v
TlsConfig.v
