(* ===== verification/Prelude.v ===== *)
(** * Verification of lmc-rs, a lightweight MQTT v3 client

    lmc-rs is an asynchronous MQTT v3 client. A [Client] (src/src/lib.rs) is a
    handle that builds commands and puts them into a queue; a transceiver task
    (src/src/transceiver/) owns the connection, takes commands from the queue,
    sends and receives packets, keeps the tree of subscriptions and dispatches
    messages to their recipients; what the two share (src/src/shared.rs) are
    counters for packet and callback IDs, the maps on which publications wait
    for their acknowledgements, and the state of each subscription. Futures
    (src/src/futures.rs) wait on those maps.

    ** How the code is modelled

    The code is embedded shallowly. Code that changes a state [S] and may fail
    with an [E] is a function [stm S E A]: from a state to an [outcome] and the
    new state. An outcome is a value, an error that [?] propagates, a panic,
    undefined behaviour (an access outside of a buffer, the reading of a byte
    that was never written, text that is not UTF-8), or [OutOfFuel] in the
    loops that need fuel. A buffer that is filled through raw pointers is a
    list of bytes that may not have been written yet; that of a received message
    includes the padding of its header. In two places the code declares bytes to
    be initialised that are not ([assume_init] in [IncomingPublish_decode] and
    the slice over spare capacity in [recv_n]); the model goes on there, and
    makes reading them undefined ([arc_padding_uninit], [spare_slice]).
    Machine integers are [Z]; wrapping, shifts past the width, overflow and
    indexing out of range are written out where the code can meet them. The
    target is 64-bit and little-endian. Logging is left out. [panic_in_test!]
    is a panic if [cfg_test] holds; the theorems on the transceiver are about
    [production] builds, with debug assertions on.

    An [async] function is a function of the events that occur at its await
    points: [select!] is an [Event], one of the branches that were enabled
    together with what it resolved to; between two steps any other task may act
    on the shared state ([ClientActs], [run_client]). What the crate only calls
    is a parameter with its documented behaviour as a law: tokio's [TcpStream]
    and rustls' connection ([TcpStream], [TlsConnection], with their [..Ok]
    classes), the channels and callbacks of recipients ([Recipients]), the
    clock ([Clock], [ClockOk]: it does not go backwards). A waker, a channel
    and a callback are names of what they refer to. A mutable reference into
    the subscription tree is a value with the function that writes it back.
    A mutex is a section of code that is one step; [Wrappers] shows the one
    section in which a panic can poison it.

    ** Files

    - [Prelude]: outcomes, the monad, weakest preconditions ([wp], [safe]),
      relations that code respects ([respects]), bytes, bit operations, lists.
    - [Base]: QoS levels (lib.rs), errors (errors.rs), I/O errors, UTF-8.
    - [ByteIO]: transceiver/byte_io.rs, the reader and the writer of MQTT data
      types, with the contracts [reads] and [writes].
    - [Packets]: transceiver/packets.rs, every packet, its encoder and its
      decoder, those of the test broker included.
    - [PacketProps]: building a packet is safe and yields its frame; every
      packet is decoded to what it was built from; decoding is total and safe.
    - [PacketTypes]: the dispatch of [from_bytes] on the type of a packet.
    - [Transport]: transport.rs and tls/mod.rs, the trait as a class, its
      promises as the class [TransportOk], and the proof that TCP and TLS keep
      them if the stream and the TLS connection keep theirs.
    - [PacketReader]: transceiver/packet_reader.rs; its invariant, reassembly
      of packets from a stream that is cut anywhere, progress.
    - [Subscription]: transceiver/commands.rs and transceiver/subscription.rs;
      the tree refines a map from filters to recipients ([view]), dispatching
      offers a message once to everybody whose filter matches.
    - [Shared]: shared.rs.
    - [Transceiver]: transceiver/mod.rs and transceiver/util.rs, from the
      transmission of a packet to the main loop and the shutdown.
    - [TransceiverOut]: the output side: [stream] is what was sent followed by
      what is pending, and queueing and writing act on it as on a list.
    - [TransceiverProps]: the invariant [tr_ok] of the transceiver, the part
      of it that an error of the transport leaves ([tr_weak]), and the effect of
      every packet, command and alarm, errors included ([io_failed]).
    - [Samples]: a concrete clock, connection and transceiver on which the
      theorems are instantiated.
    - [TransceiverRuns]: the relation [run] of the steps of the main loop that
      return, the last step that [fails], and what holds of all runs: the invariant, no panic, the broker's packets in
      order, output in order, QoS 2 messages delivered once.
    - [Bounds]: sizes and times: the header against a reference in base 128,
      the size of every packet, the memory of the reader, the keep-alive.
    - [Shutdown]: the start of a task, its disconnection, after an error and
      without, and the release of those who wait for it.
    - [Futures]: futures.rs; a pending future is woken when its answer arrives.
    - [Wrappers]: wrappers.rs, the wrapper of the standard mutex and its
      poisoning; parking_lot is a parameter with its documented law.
    - [Wakers]: whatever the transceiver does, on every outcome, a registered
      waker stays registered or is woken ([gentle]).
    - [Client]: lib.rs and subs.rs, the methods of a connected client as
      programs ([prog]) that act on the shared state, send commands and wait on
      futures, one atomic step at a time ([advance]); publications and
      subscriptions from the call to the broker's answer.
    - [Connect]: options.rs and [Client::connect], as a function of what the
      network and the task answer ([Network], [ConnectionConfig], [conn_rx]).
    - [Wire]: every byte the main loop of a task sends belongs to a packet the
      broker decodes.
    - [Discipline]: what a task may do to the shared state, as a predicate on
      programs ([tame]) that every method of the client satisfies.
    - [System]: the composition: user tasks, the command queue, the shutdown
      handle (lib.rs, [ClientShutdownHandle]) and the transceiver as one step
      relation [sys_step] over one shared state, from the start of the task to
      its end. A step of the transceiver is one turn of its loops ([loop_step],
      which [task_step_steps] relates to [task_step]), a step of a task is one
      of [advance]; [Phase] says where the task of the transceiver is, in the
      loop that reads included. The release of those who wait, four sections
      and the wake-ups, is one step.
    - [SystemRuns]: a scheduler that is sound for [sys_step], and executions.
    - [TlsConfig]: tls/mod.rs, tls/client_auth.rs, tls/dangerous.rs and the TLS
      constructors of options.rs, with rustls and rustls-pemfile as parameters
      ([CryptoLib]).

    ** What the theorems show

    Packets: a packet whose fields are in range is built without a panic and
    without assuming an unwritten byte to be initialised; encoding and decoding
    are inverse; arbitrary input is rejected or decoded to a packet whose
    accessors stay in range and read only what was written. Reading: packets are recovered from the stream however
    it is cut. Subscriptions: an abstract map is the specification, the tree
    the implementation. Transceiver: each handler has a functional
    specification on every branch; the invariant holds in every run, and a step
    that fails with an error of the transport, which ends the main loop, leaves
    what the disconnection needs; what has been sent is then a prefix of what
    was to be sent. And the
    specification of the receiving side of QoS 2 ([delivered]) is refined by
    every run, so that a message is delivered exactly once. Futures: no wake-up
    is lost. Client: a publication or a subscription registers before it sends
    its command, waits however often it is polled, and returns once the
    transceiver has handled the broker's answer; a publication that cannot be
    sent leaves nothing behind. Connecting: the CONNECT packet carries the
    options, and the result is the first answer of the broker. System: the
    assumptions under which runs were studied hold when the transceiver is
    composed with the client's methods, as long as their arguments fit in a
    packet ([Call_ok]), so that its theorems apply; nothing panics, except where
    the wait for a subscription is polled or cancelled; as long as the counter of
    packet IDs has not started again, nobody who waits for an acknowledgement
    is forgotten. Where the code does not do what it means to, the behaviour is
    stated as it is: [failed_resend_then_disconnect], [malformed_header_spins],
    [closed_connection_strands_waiters], [late_publication_waits_forever],
    [subscribe_future_stale_index], [cancelled_subscription_poisons],
    [reused_id_loses_waker], [subscribe_closed_then_hangs],
    [connect_timeout_leaves_task], [client_auth_without_certificate], and the
    lemmas [plus_is_literal], [hash_excludes_parent], [get_misses_invalid],
    [packet_id_reaches_zero], [long_topic_panics] and [ipv6_literal_cut].

    ** Bounds and fuel

    [continue_writing_packet] runs with [write_fuel], the number of bytes
    pending plus two, which [write_fuel_enough] shows to suffice. [prune] and
    [binary_search] take the length of their vector, [Node_dispatch],
    [Node_get] and [Node_get_or_create] one more than the length of the topic,
    the decoders of topic lists one more than the bytes left, and [key_loop]
    one more than the bytes of the PEM file; each is proved to suffice where
    the function is used. The read loop of the task
    ends when the transport has nothing left to read, which no fuel bounds in
    advance: it takes its fuel as an argument and the theorems hold for every
    amount; [read_loop_ends] shows how much is enough if a bounded number of
    bytes arrives, the header of [malformed_header_spins] excepted.

    ** Not modelled

    The test broker (src/src/tests/mini_broker) and its synchronous transport
    could be modelled next, as a peer for end-to-end runs. A theorem that no
    subscription is forgotten does not hold of the code as it is
    ([subscribe_future_stale_index]). Not planned: the allocation of packet
    buffers, the formatting of errors, and the conversions that
    [def_enum_with_intos!] derives. *)

From Stdlib Require Import ZArith Lia.
From stdpp Require Import base list numbers gmap.

Local Open Scope Z_scope.

(* ------------------------------------------------------------------ *)
(** ** Machine integers                                                *)
(* ------------------------------------------------------------------ *)

(** Rust's unsigned integers are [Z]; the predicates below say which values
    a [u8], [u16], [u32] or (64-bit) [usize] can hold. *)
Abbreviation u8 := Z (only parsing).
Abbreviation u16 := Z (only parsing).
Abbreviation u32 := Z (only parsing).
Abbreviation usize := Z (only parsing).

Definition is_u8 (x : Z) : Prop := 0 <= x < 2 ^ 8.
Definition is_u16 (x : Z) : Prop := 0 <= x < 2 ^ 16.
Definition is_u32 (x : Z) : Prop := 0 <= x < 2 ^ 32.
Definition is_usize (x : Z) : Prop := 0 <= x < 2 ^ 64.

Definition wrap8 (x : Z) : Z := x mod 2 ^ 8.
Definition wrap16 (x : Z) : Z := x mod 2 ^ 16.
Definition wrap32 (x : Z) : Z := x mod 2 ^ 32.
Definition wrap64 (x : Z) : Z := x mod 2 ^ 64.

(** Bitwise complement at a width: [!x] in Rust. *)
Definition not8 (x : Z) : Z := 2 ^ 8 - 1 - x.
Definition not64 (x : Z) : Z := 2 ^ 64 - 1 - x.

(** Byte strings; a Rust [str] is one that is valid UTF-8. *)
Abbreviation bytes := (list Z) (only parsing).
Abbreviation str := (list Z) (only parsing).
Abbreviation len l := (Z.of_nat (length l)).

Definition bytes_ok (l : bytes) : Prop := Forall is_u8 l.

(* ------------------------------------------------------------------ *)
(** ** Results and effects                                             *)
(* ------------------------------------------------------------------ *)

(** Rust's [Result]. *)
Inductive result (A E : Type) : Type :=
| Ok (a : A)
| Err (e : E).
Arguments Ok {A E} a.
Arguments Err {A E} e.

Definition is_err {A E} (r : result A E) : bool :=
  match r with Ok _ => false | Err _ => true end.

(** How a call ends: with a value, with the error that [?] propagates, with a
    panic, in undefined behaviour (an [unsafe] contract was broken), or, for
    the loops that need it, without having finished in the steps allowed. *)
Inductive outcome (E A : Type) : Type :=
| Ret (a : A)
| Throw (e : E)
| Panic
| UB
| OutOfFuel.
Arguments Ret {E A} a.
Arguments Throw {E A} e.
Arguments Panic {E A}.
Arguments UB {E A}.
Arguments OutOfFuel {E A}.

(** Code that mutates a state [S] and may fail with an [E]. *)
Definition stm (S E A : Type) : Type := S -> outcome E A * S.

#[global] Instance stm_ret S E : MRet (stm S E) := fun _ a s => (Ret a, s).
#[global] Instance stm_bind S E : MBind (stm S E) := fun _ _ k m s =>
  match m s with
  | (Ret a, s') => k a s'
  | (Throw e, s') => (Throw e, s')
  | (Panic, s') => (Panic, s')
  | (UB, s') => (UB, s')
  | (OutOfFuel, s') => (OutOfFuel, s')
  end.

Definition throw {S E A} (e : E) : stm S E A := fun s => (Throw e, s).
Definition panic {S E A} : stm S E A := fun s => (Panic, s).
Definition undefined {S E A} : stm S E A := fun s => (UB, s).
Definition out_of_fuel {S E A} : stm S E A := fun s => (OutOfFuel, s).
Definition get {S E} : stm S E S := fun s => (Ret s, s).
Definition gets {S E A} (f : S -> A) : stm S E A := fun s => (Ret (f s), s).
Definition modify {S E} (f : S -> S) : stm S E unit := fun s => (Ret tt, f s).

(** [assert!] and the bounds check of an index expression. *)
Definition assert_ {S E} (b : bool) : stm S E unit :=
  if b then mret tt else panic.

(** [debug_assert!]: a panic in builds with debug assertions and nothing in the
    others. The code modelled is that of a build that has them, so that what
    never panics here does not in the others either. *)
Definition debug_assert {S E} (b : bool) : stm S E unit := assert_ b.

(** The [panic_in_test!] macro of [transceiver/util.rs]: a panic in test
    builds, a log entry otherwise. *)
Class BuildCfg : Type := cfg_test : bool.

(** The build that users run. *)
Definition production : BuildCfg := false.

Definition panic_in_test `{BuildCfg} {S E} : stm S E unit :=
  if cfg_test then panic else mret tt.

(** A call whose [io::Result] the caller inspects instead of using [?]. *)
Definition attempt {S E A} (m : stm S E A) : stm S E (result A E) := fun s =>
  match m s with
  | (Ret a, s') => (Ret (Ok a), s')
  | (Throw e, s') => (Ret (Err e), s')
  | (Panic, s') => (Panic, s')
  | (UB, s') => (UB, s')
  | (OutOfFuel, s') => (OutOfFuel, s')
  end.

(** Stateless fallible code run inside stateful code. *)
Definition lift {S E A} (o : outcome E A) : stm S E A := fun s => (o, s).

(** Infallible code inside fallible code. *)
Definition infallible {St E A} (o : outcome Empty_set A) : stm St E A := fun s =>
  match o with
  | Ret a => (Ret a, s)
  | Throw e => match e with end
  | Panic => (Panic, s)
  | UB => (UB, s)
  | OutOfFuel => (OutOfFuel, s)
  end.

(** Code over a component of the state. *)
Definition zoom {S T E A} (getT : S -> T) (setT : T -> S -> S)
    (m : stm T E A) : stm S E A := fun s =>
  let '(o, t) := m (getT s) in (o, setT t s).

(** ** Weakest preconditions

    [wp m Q R s]: started in [s], [m] neither panics, nor meets undefined
    behaviour, nor runs out of fuel; if it returns [a] in [s'] then [Q a s'],
    and if it fails with [e] in [s'] then [R e s']. *)
Definition wp {S E A} (m : stm S E A) (Q : A -> S -> Prop) (R : E -> S -> Prop)
    (s : S) : Prop :=
  match m s with
  | (Ret a, s') => Q a s'
  | (Throw e, s') => R e s'
  | _ => False
  end.

Section wp_rules.
Context {S E : Type}.
Implicit Types s : S.

Lemma wp_ret {A} (a : A) (Q : A -> S -> Prop) (R : E -> S -> Prop) s :
  Q a s -> wp (mret a) Q R s.
Proof. done. Qed.

Lemma wp_throw {A} (e : E) (Q : A -> S -> Prop) (R : E -> S -> Prop) s :
  R e s -> wp (throw e) Q R s.
Proof. done. Qed.

Lemma wp_gets {A} (f : S -> A) (Q : A -> S -> Prop) (R : E -> S -> Prop) s :
  Q (f s) s -> wp (gets f) Q R s.
Proof. done. Qed.

Lemma wp_modify (f : S -> S) (Q : unit -> S -> Prop) (R : E -> S -> Prop) s :
  Q tt (f s) -> wp (modify f) Q R s.
Proof. done. Qed.

Lemma wp_assert (b : bool) (Q : unit -> S -> Prop) (R : E -> S -> Prop) s :
  b = true -> Q tt s -> wp (assert_ b) Q R s.
Proof. by intros ->. Qed.

Lemma wp_bind {A B} (m : stm S E A) (k : A -> stm S E B) Q R s :
  wp m (fun a => wp (k a) Q R) R s -> wp (m ≫= k) Q R s.
Proof. unfold wp, mbind, stm_bind. by destruct (m s) as [[] ?]. Qed.

Lemma wp_mono {A} (m : stm S E A) (Q Q' : A -> S -> Prop) (R R' : E -> S -> Prop) s :
  wp m Q R s -> (forall a s', Q a s' -> Q' a s') ->
  (forall e s', R e s' -> R' e s') -> wp m Q' R' s.
Proof. unfold wp. destruct (m s) as [[] ?]; naive_solver. Qed.

Lemma wp_attempt {A} (m : stm S E A) (Q : result A E -> S -> Prop) (R : E -> S -> Prop) s :
  wp m (fun a => Q (Ok a)) (fun e => Q (Err e)) s -> wp (attempt m) Q R s.
Proof. unfold wp, attempt. by destruct (m s) as [[] ?]. Qed.

Lemma wp_zoom {T A} (g : S -> T) (p : T -> S -> S) (m : stm T E A) Q R s :
  wp m (fun a t => Q a (p t s)) (fun e t => R e (p t s)) (g s) ->
  wp (zoom g p m) Q R s.
Proof. unfold wp, zoom. by destruct (m (g s)) as [[] ?]. Qed.

Lemma wp_infallible {A} (o : outcome Empty_set A) a (Q : A -> S -> Prop) (R : E -> S -> Prop) s :
  o = Ret a -> Q a s -> wp (infallible o) Q R s.
Proof. by intros ->. Qed.

Lemma wp_get (Q : S -> S -> Prop) (R : E -> S -> Prop) s : Q s s -> wp get Q R s.
Proof. done. Qed.

Lemma wp_if {A} (b : bool) (m1 m2 : stm S E A) Q R s :
  (b = true -> wp m1 Q R s) -> (b = false -> wp m2 Q R s) ->
  wp (if b then m1 else m2) Q R s.
Proof. destruct b; auto. Qed.

(** Reading a [wp] fact back as an equation on the run. *)
Lemma wp_run {A} (m : stm S E A) (Q : A -> S -> Prop) (R : E -> S -> Prop) s :
  wp m Q R s ->
  (exists a s', m s = (Ret a, s') /\ Q a s') \/
  (exists e s', m s = (Throw e, s') /\ R e s').
Proof. unfold wp. destruct (m s) as [[] ?]; naive_solver. Qed.

Lemma wp_inv {A} (m : stm S E A) (Q : A -> S -> Prop) (R : E -> S -> Prop) s a s' :
  wp m Q R s -> m s = (Ret a, s') -> Q a s'.
Proof. unfold wp. intros Hw Hm. by rewrite Hm in Hw. Qed.

Lemma wp_inv_throw {A} (m : stm S E A) (Q : A -> S -> Prop) (R : E -> S -> Prop) s e s' :
  wp m Q R s -> m s = (Throw e, s') -> R e s'.
Proof. unfold wp. intros Hw Hm. by rewrite Hm in Hw. Qed.

Lemma wp_run_ret {A} (m : stm S E A) (Q : A -> S -> Prop) s :
  wp m Q (fun _ _ => False) s -> exists a s', m s = (Ret a, s') /\ Q a s'.
Proof. intros [?|(?&?&?&[])]%wp_run; done. Qed.
End wp_rules.

(** [safe m Q R s]: as [wp], but [m] may also still be running when the steps
    allowed are over. *)
Definition safe {S E A} (m : stm S E A) (Q : A -> S -> Prop) (R : E -> S -> Prop)
    (s : S) : Prop :=
  match m s with
  | (Ret a, s') => Q a s'
  | (Throw e, s') => R e s'
  | (OutOfFuel, _) => True
  | _ => False
  end.

Section safe_rules.
Context {S E : Type}.
Implicit Types s : S.

Lemma safe_wp {A} (m : stm S E A) (Q : A -> S -> Prop) (R : E -> S -> Prop) s :
  wp m Q R s -> safe m Q R s.
Proof. unfold wp, safe. by destruct (m s) as [[] ?]. Qed.

Lemma safe_bind {A B} (m : stm S E A) (k : A -> stm S E B) Q R s :
  safe m (fun a => safe (k a) Q R) R s -> safe (m ≫= k) Q R s.
Proof. unfold safe, mbind, stm_bind. by destruct (m s) as [[] ?]. Qed.

Lemma safe_mono {A} (m : stm S E A) (Q Q' : A -> S -> Prop) (R R' : E -> S -> Prop) s :
  safe m Q R s -> (forall a s', Q a s' -> Q' a s') ->
  (forall e s', R e s' -> R' e s') -> safe m Q' R' s.
Proof. unfold safe. destruct (m s) as [[] ?]; naive_solver. Qed.

Lemma safe_if {A} (b : bool) (m1 m2 : stm S E A) Q R s :
  (b = true -> safe m1 Q R s) -> (b = false -> safe m2 Q R s) ->
  safe (if b then m1 else m2) Q R s.
Proof. destruct b; auto. Qed.

Lemma safe_run {A} (m : stm S E A) (Q : A -> S -> Prop) (R : E -> S -> Prop) s a s' :
  safe m Q R s -> m s = (Ret a, s') -> Q a s'.
Proof. unfold safe. intros Hs Hm. by rewrite Hm in Hs. Qed.

(** The first half of a sequence, then the rest. *)
Lemma safe_wp_bind {A B} (m : stm S E A) (k : A -> stm S E B) Q R s :
  wp m (fun a => safe (k a) Q R) R s -> safe (m ≫= k) Q R s.
Proof. intros H. by apply safe_bind, safe_wp. Qed.

(** Code that is known to end: reading its result as an equation. *)
Lemma safe_eqn {A} (m : stm S E A) (Q : A -> S -> Prop) (R : E -> S -> Prop) s :
  wp m (fun _ _ => True) (fun _ _ => True) s -> (forall a s', m s = (Ret a, s') -> Q a s') ->
  (forall e s', m s = (Throw e, s') -> R e s') -> safe m Q R s.
Proof. unfold wp, safe. destruct (m s) as [[] ?]; naive_solver. Qed.
End safe_rules.

(** Reading a sequence that has returned. *)
Lemma bind_inv {S E A B} (m : stm S E A) (k : A -> stm S E B) s b s' : (m ≫= k) s = (Ret b, s') ->
  exists a s1, m s = (Ret a, s1) /\ k a s1 = (Ret b, s').
Proof. unfold mbind, stm_bind. destruct (m s) as [[a|e| | |] s1]; try done. eauto. Qed.

(** ** Relations that code respects

    [respects R m]: whatever the outcome of [m], the state after it is related
    to the one before. Closed under sequencing when [R] is a preorder. *)
Definition respects {S E A} (R : S -> S -> Prop) (m : stm S E A) : Prop := forall s, R s (m s).2.

Section respects_rules.
Context {S E : Type} {R : S -> S -> Prop} `{!PreOrder R}.

Lemma respects_bind {A B} (m : stm S E A) (k : A -> stm S E B) :
  respects R m -> (forall a, respects R (k a)) -> respects R (m ≫= k).
Proof.
  intros Hm Hk s. unfold mbind, stm_bind. specialize (Hm s). destruct (m s) as [[a|e| | |] s1]; [|exact Hm..].
  transitivity s1; [exact Hm|apply Hk].
Qed.

Lemma respects_attempt {A} (m : stm S E A) : respects R m -> respects R (attempt m).
Proof. intros Hm s. unfold attempt. specialize (Hm s). destruct (m s) as [[a|e| | |] s1]; exact Hm. Qed.

Lemma respects_modify (f : S -> S) : (forall s, R s (f s)) -> respects R (modify (E := E) f).
Proof. intros Hf s. apply Hf. Qed.

Lemma respects_zoom {U A} (g : S -> U) (p : U -> S -> S) (m : stm U E A) :
  (forall u s, R s (p u s)) -> respects R (zoom g p m).
Proof. intros Hp s. unfold zoom. destruct (m (g s)) as [o u]. apply Hp. Qed.

Lemma respects_infallible {A} (o : outcome Empty_set A) : respects R (infallible (E := E) o).
Proof. intros s. destruct o as [|[]| | |]; reflexivity. Qed.

Lemma respects_same {A} (o : S -> outcome E A) : respects R (fun s => (o s, s)).
Proof. intros s. cbn. reflexivity. Qed.

Lemma respects_run {A} (m : stm S E A) s o s' : respects R m -> m s = (o, s') -> R s s'.
Proof. intros Hm Hs. specialize (Hm s). by rewrite Hs in Hm. Qed.
End respects_rules.

Create HintDb lmc.
#[export] Hint Resolve wp_ret wp_throw wp_gets wp_modify : lmc.

(** One step of symbolic execution of monadic code. *)
Ltac wp_step :=
  lazymatch goal with
  | |- wp (_ ≫= _) _ _ _ => apply wp_bind
  | |- wp (mret _) _ _ _ => apply wp_ret
  | |- wp (throw _) _ _ _ => apply wp_throw
  | |- wp (gets _) _ _ _ => apply wp_gets
  | |- wp get _ _ _ => apply wp_get
  | |- wp (modify _) _ _ _ => apply wp_modify
  | |- wp (assert_ _) _ _ _ => apply wp_assert
  | |- wp (attempt _) _ _ _ => apply wp_attempt
  | |- wp (if _ then _ else _) _ _ _ => apply wp_if; intros
  end.
Ltac wp_steps := repeat (wp_step; cbn beta).

(** Case analysis on every [match] and [if] of the goal or a hypothesis. *)
Ltac split_match :=
  match goal with
  | |- context [match ?x with _ => _ end] => destruct x eqn:?
  | H : context [match ?x with _ => _ end] |- _ => destruct x eqn:?
  end.

(* ------------------------------------------------------------------ *)
(** ** Finite case analysis on bytes                                   *)
(* ------------------------------------------------------------------ *)

(** A boolean property of a byte is settled by running it on all of them. *)
Lemma seqZ_forall (p : Z -> bool) (n : Z) :
  forallb p (seqZ 0 n) = true -> forall x, 0 <= x < n -> p x = true.
Proof.
  intros H x Hx. rewrite forallb_forall in H. apply H.
  apply list_elem_of_In, elem_of_seqZ. lia.
Qed.

Lemma byte_forall (p : Z -> bool) :
  forallb p (seqZ 0 256) = true -> forall x, is_u8 x -> p x = true.
Proof. intros H x Hx. apply (seqZ_forall p 256 H). exact Hx. Qed.

(* ------------------------------------------------------------------ *)
(** ** Bit operations as arithmetic                                    *)
(* ------------------------------------------------------------------ *)

Lemma land_low (x n : Z) : 0 <= n -> Z.land x (2 ^ n - 1) = x mod 2 ^ n.
Proof. intros. rewrite <- Z.land_ones by lia. by rewrite Z.ones_equiv, Z.sub_1_r. Qed.

Lemma lor_disjoint (a b n : Z) :
  0 <= n -> 0 <= a < 2 ^ n -> Z.lor a (Z.shiftl b n) = a + b * 2 ^ n.
Proof.
  intros Hn Ha. rewrite <- Z.shiftl_mul_pow2 by lia.
  symmetry. rewrite <- Z.add_lor_land.
  assert (Z.land a (Z.shiftl b n) = 0) as ->; [|lia].
  apply Z.bits_inj'. intros i Hi. rewrite Z.land_spec, Z.bits_0.
  destruct (Z_lt_dec i n).
  - rewrite Z.shiftl_spec_low by lia. by rewrite andb_false_r.
  - rewrite (Z.testbit_eqb a i) by lia.
    rewrite Z.div_small; [done|]. split; [lia|].
    eapply Z.lt_le_trans; [apply Ha|]. apply Z.pow_le_mono_r; lia.
Qed.

Lemma shiftr_div (x n : Z) : 0 <= n -> Z.shiftr x n = x / 2 ^ n.
Proof. apply Z.shiftr_div_pow2. Qed.

(* ------------------------------------------------------------------ *)
(** ** Lists                                                           *)
(* ------------------------------------------------------------------ *)

Section list_facts.
Context {A : Type}.
Implicit Types l k : list A.

Lemma take_app_exact l k n : n = length l -> take n (l ++ k) = l.
Proof. intros ->. apply take_app_length. Qed.

Lemma drop_app_exact l k n : n = length l -> drop n (l ++ k) = k.
Proof. intros ->. apply drop_app_length. Qed.

Lemma filter_all (P : A -> Prop) `{forall x, Decision (P x)} l : Forall P l -> filter P l = l.
Proof. induction 1; [done|]. rewrite filter_cons_True by done. by f_equal. Qed.

Lemma elem_of_concat (ls : list (list A)) (x : A) : x ∈ concat ls <-> exists l, x ∈ l /\ l ∈ ls.
Proof.
  induction ls as [|l ls IH]; cbn.
  - split; [by intros ?%elem_of_nil|by intros (? & _ & ?%elem_of_nil)].
  - rewrite elem_of_app, IH. setoid_rewrite elem_of_cons. naive_solver.
Qed.

Lemma mapM_Some (l : list A) : mapM id (Some <$> l) = Some l.
Proof. induction l as [|x l IH]; [done|]. cbn in *. by rewrite IH. Qed.
End list_facts.
