(* ===== verification/Base.v ===== *)
(** * Shared vocabulary of the crate

    The quality-of-service levels of [lib.rs], the error enumerations of
    [errors.rs], I/O errors, and the UTF-8 check of the standard library that
    the packet decoders call. *)

From Stdlib Require Import ZArith Lia.
From stdpp Require Import base list numbers.
From S2P Require Import Prelude.

Local Open Scope Z_scope.

(* ------------------------------------------------------------------ *)
(** ** Quality of service                                              *)
(* ------------------------------------------------------------------ *)

Inductive QoS : Type :=
| AtMostOnce
| AtLeastOnce
| ExactlyOnce.

#[global] Instance QoS_eq_dec : EqDecision QoS.
Proof. solve_decision. Defined.

(** [qos as u8]: the discriminants of the enumeration. *)
Definition QoS_as_u8 (q : QoS) : u8 :=
  match q with AtMostOnce => 0 | AtLeastOnce => 1 | ExactlyOnce => 2 end.

(** The derived [PartialOrd] compares discriminants. *)
Definition QoS_ge (a b : QoS) : bool := QoS_as_u8 b <=? QoS_as_u8 a.

(** The [match] on 0, 1, 2 that every decoder of a QoS field has. *)
Definition QoS_of_u8 (x : u8) : option QoS :=
  if x =? 0 then Some AtMostOnce else if x =? 1 then Some AtLeastOnce
  else if x =? 2 then Some ExactlyOnce else None.

(* ------------------------------------------------------------------ *)
(** ** Errors                                                          *)
(* ------------------------------------------------------------------ *)

Inductive ServerConnectError : Type :=
| UnacceptableProtocolVersion
| IdentifierRejected
| ServerUnavailable
| BadUserNameOrPassword
| NotAuthorized
| Unknown (code : u8)
| ProtocolError.

(** [core::str::Utf8Error]. *)
Record Utf8Error : Type := mkUtf8Error {
  valid_up_to : nat;
  error_len : option nat
}.

Inductive PacketDecodeError : Type :=
| ReachedEndUnexpectedly
| Utf8Err (e : Utf8Error)
| MalformedPacket
| ReachedMaxSize
| InvalidPacketId (id : u8).

(** [io::ErrorKind], the kinds the crate creates or tests for by name. *)
Inductive ErrorKind : Type :=
| WouldBlock
| UnexpectedEof
| ConnectionReset
| Other
| OtherKind (n : nat).

#[global] Instance ErrorKind_eq_dec : EqDecision ErrorKind.
Proof. solve_decision. Defined.

Record io_error : Type := mkIoError {
  kind : ErrorKind;
  payload_error : option PacketDecodeError
}.

(** [impl Into<io::Error> for PacketDecodeError]. *)
Definition PacketDecodeError_into (e : PacketDecodeError) : io_error :=
  mkIoError Other (Some e).

Definition is_would_block (e : io_error) : bool := bool_decide (kind e = WouldBlock).

(* ------------------------------------------------------------------ *)
(** ** UTF-8 validation ([core::str::from_utf8])                       *)
(* ------------------------------------------------------------------ *)

Definition in_range (lo hi x : Z) : bool := (lo <=? x) && (x <=? hi).
Definition is_cont (b : u8) : bool := in_range 0x80 0xBF b.

(** The second byte allowed after a three-byte or four-byte lead. *)
Definition second_of_3 (b0 b1 : u8) : bool :=
  (b0 =? 0xE0) && in_range 0xA0 0xBF b1 ||
  in_range 0xE1 0xEC b0 && is_cont b1 ||
  (b0 =? 0xED) && in_range 0x80 0x9F b1 ||
  in_range 0xEE 0xEF b0 && is_cont b1.

Definition second_of_4 (b0 b1 : u8) : bool :=
  (b0 =? 0xF0) && in_range 0x90 0xBF b1 ||
  in_range 0xF1 0xF3 b0 && is_cont b1 ||
  (b0 =? 0xF4) && in_range 0x80 0x8F b1.

Fixpoint utf8_check (l : bytes) (pos : nat) : option Utf8Error :=
  let fail n := Some (mkUtf8Error pos n) in
  match l with
  | [] => None
  | b0 :: l1 =>
    if b0 <? 0x80 then utf8_check l1 (S pos)
    else if in_range 0xC2 0xDF b0 then
      match l1 with
      | [] => fail None
      | b1 :: l2 => if is_cont b1 then utf8_check l2 (2 + pos)%nat else fail (Some 1%nat)
      end
    else if in_range 0xE0 0xEF b0 then
      match l1 with
      | [] => fail None
      | b1 :: l2 =>
        if second_of_3 b0 b1 then
          match l2 with
          | [] => fail None
          | b2 :: l3 => if is_cont b2 then utf8_check l3 (3 + pos)%nat else fail (Some 2%nat)
          end
        else fail (Some 1%nat)
      end
    else if in_range 0xF0 0xF4 b0 then
      match l1 with
      | [] => fail None
      | b1 :: l2 =>
        if second_of_4 b0 b1 then
          match l2 with
          | [] => fail None
          | b2 :: l3 =>
            if is_cont b2 then
              match l3 with
              | [] => fail None
              | b3 :: l4 => if is_cont b3 then utf8_check l4 (4 + pos)%nat else fail (Some 3%nat)
              end
            else fail (Some 2%nat)
          end
        else fail (Some 1%nat)
      end
    else fail (Some 1%nat)
  end.

Definition from_utf8 (l : bytes) : result str Utf8Error :=
  match utf8_check l 0 with None => Ok l | Some e => Err e end.

(** What makes a byte string a Rust [str]. *)
Definition is_str (l : bytes) : Prop := utf8_check l 0 = None.

(* ------------------------------------------------------------------ *)
(** ** Facts                                                           *)
(* ------------------------------------------------------------------ *)

Lemma QoS_of_as_u8 (q : QoS) : QoS_of_u8 (QoS_as_u8 q) = Some q.
Proof. by destruct q. Qed.

Lemma QoS_of_u8_Some (x : u8) (q : QoS) : QoS_of_u8 x = Some q -> x = QoS_as_u8 q.
Proof. unfold QoS_of_u8. repeat split_match; intros [= <-]; cbn; lia. Qed.

Lemma QoS_ge_ALO (q : QoS) : QoS_ge q AtLeastOnce = match q with AtMostOnce => false | _ => true end.
Proof. by destruct q. Qed.

Lemma from_utf8_str (l : bytes) : is_str l -> from_utf8 l = Ok l.
Proof. unfold from_utf8, is_str. by intros ->. Qed.

Lemma from_utf8_Ok (l s : bytes) : from_utf8 l = Ok s -> s = l /\ is_str l.
Proof. unfold from_utf8, is_str. by destruct (utf8_check l 0); intros [= <-]. Qed.

#[export] Hint Resolve QoS_of_as_u8 from_utf8_str : lmc.
