(* ===== verification/ByteIO.v ===== *)
(** * [transceiver/byte_io.rs]: reading and writing MQTT data types

    A [ByteReader] is a slice that every read shortens; a [ByteWriter] is the
    not yet initialised tail of a buffer of [MaybeUninit<u8>]. *)

From Stdlib Require Import ZArith Lia.
From stdpp Require Import base list numbers.
From S2P Require Import Prelude Base.

Local Open Scope Z_scope.

(* ------------------------------------------------------------------ *)
(** ** Byte order                                                      *)
(* ------------------------------------------------------------------ *)

Inductive endianness : Type := Little | Big.

(** The bytes a [u16] has in memory, and back. *)
Definition u16_to_mem (en : endianness) (x : u16) : bytes :=
  match en with Little => [x mod 256; x / 256] | Big => [x / 256; x mod 256] end.

Definition u16_of_mem (en : endianness) (l : bytes) : u16 :=
  match en, l with
  | Little, [a; b] => a + 256 * b
  | Big, [a; b] => 256 * a + b
  | _, _ => 0
  end.

(** [u16::to_be] and [u16::from_be]: byte swap on a little-endian target. *)
Definition to_be (en : endianness) (x : u16) : u16 :=
  match en with Little => (x mod 256) * 256 + x / 256 | Big => x end.
Definition from_be (en : endianness) (x : u16) : u16 := to_be en x.

(** The development fixes the byte order of x86-64; the lemmas on byte order
    hold for both. *)
Definition native : endianness := Little.

Record BigEndian : Type := mkBigEndian { be_raw : u16 }.
Definition BigEndian_from_native (v : u16) : BigEndian := mkBigEndian (to_be native v).
Definition BigEndian_to_native (x : BigEndian) : u16 := from_be native (be_raw x).

(* ------------------------------------------------------------------ *)
(** ** [ByteReader]                                                    *)
(* ------------------------------------------------------------------ *)

(** The state is the slice [self.0]. *)
Abbreviation reader A := (stm (list Z) PacketDecodeError A).

(** [read_trivial::<T>]: [size] is [size_of::<T>()] and [view] turns the
    bytes of a [T] in memory into its value. *)
Definition read_trivial {T} (size : nat) (view : bytes -> T) : reader T := fun s =>
  if (length s <? size)%nat then (Throw ReachedEndUnexpectedly, s)
  else (Ret (view (take size s)), drop size s).

Definition read_u8 : reader u8 := fun s =>
  if (length s <? 1)%nat then (Throw ReachedEndUnexpectedly, s)
  else match s with
       | b :: s' => (Ret b, s')
       | [] => (Panic, s)
       end.

Definition read_u16 : reader BigEndian :=
  raw ← read_trivial 2 (u16_of_mem native);
  mret (mkBigEndian raw).

(** The length check and the split of [read_byte_array]. *)
Definition split_slice (n : nat) : reader bytes := fun s =>
  if (length s <? n)%nat then (Throw ReachedEndUnexpectedly, s)
  else (Ret (take n s), drop n s).

Definition read_byte_array : reader bytes :=
  raw ← read_trivial 2 (u16_of_mem native);
  split_slice (Z.to_nat (from_be native raw)).

Definition read_utf8 : reader str :=
  slice ← read_byte_array;
  match from_utf8 slice with
  | Ok s => mret s
  | Err e => throw (Utf8Err e)
  end.

Definition remaining : reader nat := gets length.

Definition read_remaining : reader bytes := fun s => (Ret s, []).

(* ------------------------------------------------------------------ *)
(** ** [ByteWriter]                                                    *)
(* ------------------------------------------------------------------ *)

(** The whole buffer ([None] is an uninitialised byte) and the offset at
    which the writer's slice [self.0] starts. *)
Record ByteWriter : Type := mkByteWriter {
  buf : list (option Z);
  off : nat
}.

Definition space_left (w : ByteWriter) : nat := length (buf w) - off w.

(** Writing takes no [Result]: it either succeeds or panics. *)
Abbreviation writer A := (stm ByteWriter Empty_set A).

(** [copy_nonoverlapping] into the start of the slice, without its check:
    writing past the end of the slice is undefined behaviour. *)
Definition copy_to_slice (data : bytes) : writer unit := fun w =>
  if (space_left w <? length data)%nat then (UB, w)
  else (Ret tt, mkByteWriter (take (off w) (buf w) ++ (Some <$> data)
                              ++ drop (off w + length data) (buf w)) (off w)).

(** [AddOffset::add_offset]: re-slicing past the end panics. *)
Definition add_offset (n : nat) : writer unit := fun w =>
  if (space_left w <? n)%nat then (Panic, w)
  else (Ret tt, mkByteWriter (buf w) (off w + n)).

(** [write_trivial(&data)], given the bytes of [data] in memory. *)
Definition write_trivial (data : bytes) : writer unit :=
  w ← get;
  assert_ (length data <=? space_left w)%nat;;
  copy_to_slice data;;
  add_offset (length data).

Definition write_u8 (byte : u8) : writer unit :=
  w ← get;
  assert_ (1 <=? space_left w)%nat;;
  copy_to_slice [byte];;
  add_offset 1.

Definition write_u16 (data : BigEndian) : writer unit :=
  write_trivial (u16_to_mem native (be_raw data)).

Definition write_bytes (data : bytes) : writer unit :=
  let array_len := length data in
  assert_ (Z.of_nat array_len <? 2 ^ 16);;
  let array_len_be := to_be native (Z.of_nat array_len) in
  let total_len := (2 + array_len)%nat in
  w ← get;
  assert_ (total_len <=? space_left w)%nat;;
  copy_to_slice (u16_to_mem native array_len_be ++ data);;
  add_offset total_len.

Definition write_bytes_no_len (data : bytes) : writer unit :=
  w ← get;
  assert_ (length data <=? space_left w)%nat;;
  copy_to_slice data;;
  add_offset (length data).

Definition finish_and_check : writer unit :=
  w ← get;
  assert_ (space_left w <=? 0)%nat.

(* ------------------------------------------------------------------ *)
(** ** Contracts of readers and writers                                *)
(* ------------------------------------------------------------------ *)

(** [reads m a data]: on an input that starts with [data], [m] returns [a]
    and leaves what follows [data]. *)
Definition reads {A} (m : reader A) (a : A) (data : bytes) : Prop :=
  forall rest, m (data ++ rest) = (Ret a, rest).

(** [writes m a data]: with room for [data], [m] returns [a] having put
    exactly [data] at the offset and moved past it, leaving the rest of the
    buffer alone. *)
Definition writes {A} (m : writer A) (a : A) (data : bytes) : Prop :=
  forall pre old post, length old = length data ->
  m (mkByteWriter (pre ++ old ++ post) (length pre)) =
    (Ret a, mkByteWriter (pre ++ (Some <$> data) ++ post) (length pre + length data)).

(** The wire form of a [u16] and of a length-prefixed byte string. *)
Definition wire_u16 (x : u16) : bytes := [x / 256; x mod 256].
Definition wire_bytes (l : bytes) : bytes := wire_u16 (len l) ++ l.

Lemma u16_wire (en : endianness) (x : u16) :
  is_u16 x -> u16_to_mem en (to_be en x) = wire_u16 x.
Proof.
  unfold is_u16, wire_u16. destruct en; cbn; [|done]. intros Hx.
  f_equal; [|f_equal].
  - rewrite Z.add_comm, Z.mod_add by lia. apply Z.mod_small.
    split; [apply Z.div_pos; lia | apply Z.div_lt_upper_bound; lia].
  - rewrite Z.div_add_l by lia. rewrite (Z.div_small (x / 256)); [lia|].
    split; [apply Z.div_pos; lia | apply Z.div_lt_upper_bound; lia].
Qed.

Lemma u16_unwire (en : endianness) (a b : u8) :
  is_u8 a -> is_u8 b -> from_be en (u16_of_mem en [a; b]) = 256 * a + b.
Proof.
  unfold is_u8. destruct en; cbn; [|done]. intros Ha Hb.
  rewrite (Z.mul_comm 256 b), Z.mod_add, Z.div_add, Z.mod_small, Z.div_small by lia. lia.
Qed.

Lemma wire_u16_value (x : u16) :
  is_u16 x -> from_be native (u16_of_mem native (wire_u16 x)) = x.
Proof.
  intros Hx. unfold is_u16 in Hx. unfold wire_u16. rewrite u16_unwire.
  - pose proof (Z.div_mod x 256). lia.
  - split; [apply Z.div_pos; lia | apply Z.div_lt_upper_bound; lia].
  - apply Z.mod_pos_bound. lia.
Qed.

Lemma wire_u16_length (x : u16) : length (wire_u16 x) = 2%nat.
Proof. done. Qed.

Lemma wire_bytes_length (l : bytes) : length (wire_bytes l) = (2 + length l)%nat.
Proof. done. Qed.

Section reader_rules.
Context {A B : Type}.

Lemma reads_ret (a : A) : reads (mret a) a [].
Proof. done. Qed.

Lemma reads_bind (m : reader A) (k : A -> reader B) a b d1 d2 :
  reads m a d1 -> reads (k a) b d2 -> reads (m ≫= k) b (d1 ++ d2).
Proof. intros Hm Hk rest. unfold mbind, stm_bind. by rewrite <- (assoc_L (++)), Hm, Hk. Qed.

(** A reader that consumes all of its input, as the last field of a packet. *)
Lemma reads_end (m : reader A) a d : reads m a d -> m d = (Ret a, []).
Proof. intros H. specialize (H []). by rewrite app_nil_r in H. Qed.
End reader_rules.

Lemma reads_trivial {T} (view : bytes -> T) (d : bytes) n :
  length d = n -> reads (read_trivial n view) (view d) d.
Proof.
  intros Hd rest. unfold read_trivial.
  destruct (Nat.ltb_spec (length (d ++ rest)) n) as [H|_].
  - rewrite length_app in H. lia.
  - by rewrite take_app_exact, drop_app_exact by done.
Qed.

Lemma reads_u8 (b : u8) : reads read_u8 b [b].
Proof. done. Qed.

Lemma reads_u16 (x : u16) :
  reads read_u16 (mkBigEndian (u16_of_mem native (wire_u16 x))) (wire_u16 x).
Proof.
  rewrite <- (app_nil_r (wire_u16 x)) at 2.
  apply reads_bind with (u16_of_mem native (wire_u16 x)); [|done].
  by apply reads_trivial.
Qed.

Lemma reads_byte_array (l : bytes) : is_u16 (len l) -> reads read_byte_array l (wire_bytes l).
Proof.
  intros Hl. unfold read_byte_array, wire_bytes.
  eapply reads_bind; [by apply reads_trivial|].
  rewrite wire_u16_value by done. rewrite Nat2Z.id. intros rest. unfold split_slice.
  destruct (Nat.ltb_spec (length (l ++ rest)) (length l)) as [H|_].
  - rewrite length_app in H. lia.
  - by rewrite take_app_exact, drop_app_exact.
Qed.

Lemma reads_utf8 (l : str) : is_u16 (len l) -> is_str l -> reads read_utf8 l (wire_bytes l).
Proof.
  intros Hl Hs. rewrite <- (app_nil_r (wire_bytes l)). unfold read_utf8.
  eapply reads_bind; [by apply reads_byte_array|]. by rewrite from_utf8_str.
Qed.

Section writer_rules.
Context {A B : Type}.

Lemma writes_ret (a : A) : writes (mret a) a [].
Proof. intros pre [|] post; [|done]. intros _. cbn. by rewrite Nat.add_0_r. Qed.

Lemma writes_bind (m : writer A) (k : A -> writer B) a b d1 d2 :
  writes m a d1 -> writes (k a) b d2 -> writes (m ≫= k) b (d1 ++ d2).
Proof.
  intros Hm Hk pre old post Hold. rewrite length_app in Hold.
  assert (exists o1 o2, old = o1 ++ o2 /\ length o1 = length d1 /\ length o2 = length d2)
    as (o1 & o2 & -> & H1 & H2).
  { exists (take (length d1) old), (drop (length d1) old).
    rewrite take_drop, length_take, length_drop. repeat split; lia. }
  unfold mbind, stm_bind.
  rewrite <- (assoc_L (++)), Hm by done.
  rewrite (assoc_L (++) pre).
  replace (length pre + length d1)%nat with (length (pre ++ (Some <$> d1)))
    by (rewrite length_app, length_fmap; done).
  rewrite Hk by done.
  rewrite fmap_app, !length_app, length_fmap, <- !(assoc_L (++)).
  by rewrite Nat.add_assoc.
Qed.

End writer_rules.

Lemma writes_bind_unit {B} (m : writer unit) (k : writer B) b d1 d2 :
  writes m tt d1 -> writes k b d2 -> writes (m;; k) b (d1 ++ d2).
Proof. intros. by apply writes_bind with tt. Qed.

(** Every primitive write is a room check followed by a copy and a move. *)
Lemma writes_checked (data : bytes) :
  writes (w ← get; assert_ (length data <=? space_left w)%nat;;
          copy_to_slice data;; add_offset (length data)) tt data.
Proof.
  intros pre old post Hold.
  assert (space_left (mkByteWriter (pre ++ old ++ post) (length pre))
          = (length data + length post)%nat) as Hsp.
  { unfold space_left; cbn. rewrite !length_app. lia. }
  unfold mbind, stm_bind; cbn -[Nat.leb Nat.ltb space_left]. rewrite Hsp.
  destruct (Nat.leb_spec (length data) (length data + length post)); [|lia].
  cbn -[Nat.leb Nat.ltb space_left]. unfold copy_to_slice. rewrite Hsp.
  destruct (Nat.ltb_spec (length data + length post) (length data)); [lia|].
  cbn -[Nat.leb Nat.ltb space_left]. unfold add_offset, space_left; cbn -[Nat.leb Nat.ltb].
  rewrite take_app_length, <- Hold, drop_app_ge by lia.
  replace (length pre + length old - length pre)%nat with (length old) by lia.
  rewrite drop_app_length, !length_app, length_fmap.
  destruct (Nat.ltb_spec (length pre + (length data + length post) - length pre) (length old));
    [lia|]. done.
Qed.

Lemma writes_trivial (data : bytes) : writes (write_trivial data) tt data.
Proof. apply writes_checked. Qed.

Lemma writes_u8 (b : u8) : writes (write_u8 b) tt [b].
Proof. apply (writes_checked [b]). Qed.

Lemma writes_u16 (x : u16) :
  is_u16 x -> writes (write_u16 (BigEndian_from_native x)) tt (wire_u16 x).
Proof. intros Hx. unfold write_u16. cbn [be_raw BigEndian_from_native].
  rewrite u16_wire by done. apply writes_trivial. Qed.

Lemma writes_bytes (l : bytes) : is_u16 (len l) -> writes (write_bytes l) tt (wire_bytes l).
Proof.
  intros Hl. unfold write_bytes. unfold is_u16 in Hl.
  destruct (Z.ltb_spec (len l) (2 ^ 16)); [|lia].
  rewrite u16_wire by done.
  apply (writes_checked (wire_u16 (len l) ++ l)).
Qed.

Lemma writes_bytes_no_len (l : bytes) : writes (write_bytes_no_len l) tt l.
Proof. apply writes_checked. Qed.

#[export] Hint Resolve reads_ret reads_u8 reads_u16 reads_byte_array reads_utf8
  writes_ret writes_u8 writes_u16 writes_bytes writes_bytes_no_len writes_trivial : lmc.
