(* ===== verification/Packets.v ===== *)
(** * [transceiver/packets.rs]: the MQTT packets

    The fixed header, the [Encode] trait with its in-place construction of a
    packet, and every packet with its encoder and its decoder, the decoders
    the test broker uses included. *)

From Stdlib Require Import ZArith Lia.
From stdpp Require Import base list numbers.
From S2P Require Import Prelude Base ByteIO.

Local Open Scope Z_scope.

Definition MAX_HEADER_SIZE : nat := 5.

(* ------------------------------------------------------------------ *)
(** ** Packet types and the control field                              *)
(* ------------------------------------------------------------------ *)

Inductive PacketType : Type :=
| TConnect | TConnAck | TPublish | TPubAck | TPubRec | TPubRel | TPubComp
| TSubscribe | TSubAck | TUnsubscribe | TUnsubAck | TPingReq | TPingResp
| TDisconnect.

#[global] Instance PacketType_eq_dec : EqDecision PacketType.
Proof. solve_decision. Defined.

(** [t as u8]. *)
Definition PacketType_as_u8 (t : PacketType) : u8 :=
  match t with
  | TConnect => 1 | TConnAck => 2 | TPublish => 3 | TPubAck => 4 | TPubRec => 5
  | TPubRel => 6 | TPubComp => 7 | TSubscribe => 8 | TSubAck => 9
  | TUnsubscribe => 10 | TUnsubAck => 11 | TPingReq => 12 | TPingResp => 13
  | TDisconnect => 14
  end.

Record ControlField : Type := mkControlField { ctrl_byte : u8 }.

Definition from_type_and_flags (t : PacketType) (flags : u8) : outcome Empty_set ControlField :=
  if 16 <=? flags then Panic
  else Ret (mkControlField (Z.lor (wrap8 (Z.shiftl (PacketType_as_u8 t) 4)) flags)).

Definition packet_type_of (c : ControlField) : u8 :=
  Z.shiftr (Z.land (ctrl_byte c) 0xf0) 4.

Definition flags_of (c : ControlField) : u8 := Z.land (ctrl_byte c) 0x0f.

(* ------------------------------------------------------------------ *)
(** ** The remaining-length field                                      *)
(* ------------------------------------------------------------------ *)

(** The loop over [dst]: the head of the list is [dst[i]]; [None] is the
    final [panic!]. Returns the number of bytes written and [dst]. *)
Fixpoint encode_packet_size (sz : usize) (dst : bytes) : option (nat * bytes) :=
  match dst with
  | [] => None
  | _ :: dst' =>
    let b := Z.land sz 0x7f in
    let sz' := Z.shiftr (Z.land sz (not64 0x7f)) 7 in
    if sz' <=? 0 then Some (1%nat, b :: dst')
    else match encode_packet_size sz' dst' with
         | None => None
         | Some (n, d) => Some (S n, Z.lor b 0x80 :: d)
         end
  end.

(* ------------------------------------------------------------------ *)
(** ** The [Packet] and [Encode] traits                                *)
(* ------------------------------------------------------------------ *)

Class Packet (P : Type) : Type := packet_type : PacketType.
Arguments packet_type P {_}.

Class Encode (P : Type) : Type := {
  compute_size : P -> outcome Empty_set nat;
  encode : P -> writer u8
}.

(** [make_packet_t]: the buffer is allocated uninitialised, the content is
    written from [header_sz] on, and the header is copied in front of it. *)
Definition make_packet_t {P} `{Packet P} `{Encode P} (p : P)
    : outcome Empty_set (list (option Z)) :=
  let header := replicate MAX_HEADER_SIZE 0 in
  match compute_size p with
  | Ret content_sz =>
    match encode_packet_size (Z.of_nat content_sz) (drop 1 header) with
    | None => Panic
    | Some (n, tl) =>
      let header_sz := (n + 1)%nat in
      let ret := replicate (header_sz + content_sz) None in
      match (flags ← encode p; finish_and_check;; mret flags) (mkByteWriter ret header_sz) with
      | (Ret flags, wr) =>
        match from_type_and_flags (packet_type P) flags with
        | Ret c =>
          let header := ctrl_byte c :: tl in
          if (length header <? header_sz)%nat || (length (buf wr) <? header_sz)%nat then UB
          else Ret ((Some <$> take header_sz header) ++ drop header_sz (buf wr))
        | _ => Panic
        end
      | (UB, _) => UB
      | _ => Panic
      end
    end
  | _ => Panic
  end.

(** [assume_init]: undefined behaviour if a byte was never written. *)
Definition assume_init (l : list (option Z)) : outcome Empty_set bytes :=
  match mapM id l with Some bs => Ret bs | None => UB end.

Definition make_packet {P} `{Packet P} `{Encode P} (p : P) : outcome Empty_set bytes :=
  match make_packet_t p with
  | Ret l => assume_init l
  | UB => UB
  | _ => Panic
  end.

Definition make_arc_packet {P} `{Packet P} `{Encode P} (p : P) : outcome Empty_set bytes :=
  match make_packet_t p with
  | Ret l => assume_init l
  | UB => UB
  | _ => Panic
  end.

(* ------------------------------------------------------------------ *)
(** ** CONNECT                                                         *)
(* ------------------------------------------------------------------ *)

Definition USER_NAME : u8 := 128.
Definition PASSWORD : u8 := 64.
Definition WILL_RETAIN : u8 := 32.
Definition WILL_QOS_POS : u8 := 3.
Definition WILL_FLAG : u8 := 4.
Definition CLEAN_SESSION : u8 := 2.

Record ConnectHeader : Type := mkConnectHeader {
  protocol_name_len : BigEndian;
  protocol_name : bytes;
  protocol_level : u8;
  connect_flags : u8;
  hdr_keep_alive : BigEndian
}.

(** The packed layout of the struct: 2 + 4 + 1 + 1 + 2 bytes. *)
Definition sizeof_ConnectHeader : nat := 10.

Definition ConnectHeader_to_mem (h : ConnectHeader) : bytes :=
  u16_to_mem native (be_raw (protocol_name_len h)) ++ protocol_name h ++
  [protocol_level h; connect_flags h] ++ u16_to_mem native (be_raw (hdr_keep_alive h)).

Definition ConnectHeader_of_mem (l : bytes) : ConnectHeader :=
  mkConnectHeader (mkBigEndian (u16_of_mem native (take 2 l))) (take 4 (drop 2 l))
    (nth 6 l 0) (nth 7 l 0) (mkBigEndian (u16_of_mem native (take 2 (drop 8 l)))).

(** [b"MQTT"]. *)
Definition MQTT_name : bytes := [0x4D; 0x51; 0x54; 0x54].

(** [options::LastWill]. *)
Record LastWill : Type := mkLastWill {
  will_topic : str;
  will_message : bytes;
  will_retain : bool;
  will_qos : QoS
}.

Record ConnectPacket : Type := mkConnectPacket {
  clean_session : bool;
  keep_alive : u16;
  client_id : str;
  will : option LastWill;
  username : option str;
  password : option bytes
}.

Definition array_size (a : bytes) : nat := 2 + length a.

#[global] Instance ConnectPacket_Packet : Packet ConnectPacket := TConnect.

Definition ConnectPacket_compute_size (p : ConnectPacket) : nat :=
  sizeof_ConnectHeader + array_size (client_id p)
  + match will p with
    | Some w => array_size (will_topic w) + array_size (will_message w)
    | None => 0
    end
  + match username p with Some x => array_size x | None => 0 end
  + match password p with Some x => array_size x | None => 0 end.

(** The [flags] computed at the top of [encode]. *)
Definition ConnectPacket_flags (p : ConnectPacket) : u8 :=
  let flags := 0 in
  let flags := if clean_session p then Z.lor flags CLEAN_SESSION else flags in
  let flags :=
    match will p with
    | Some w =>
      let flags := Z.lor flags WILL_FLAG in
      let flags := Z.lor flags (wrap8 (Z.shiftl (QoS_as_u8 (will_qos w)) WILL_QOS_POS)) in
      if will_retain w then Z.lor flags WILL_RETAIN else flags
    | None => flags
    end in
  let flags := if bool_decide (is_Some (password p)) then Z.lor flags PASSWORD else flags in
  if bool_decide (is_Some (username p)) then Z.lor flags USER_NAME else flags.

Definition ConnectPacket_encode (p : ConnectPacket) : writer u8 :=
  let hdr := mkConnectHeader (BigEndian_from_native 4) MQTT_name 4
               (ConnectPacket_flags p) (BigEndian_from_native (keep_alive p)) in
  write_trivial (ConnectHeader_to_mem hdr);;
  write_bytes (client_id p);;
  match will p with
  | Some w => write_bytes (will_topic w);; write_bytes (will_message w)
  | None => mret tt
  end;;
  match username p with Some x => write_bytes x | None => mret tt end;;
  match password p with Some x => write_bytes x | None => mret tt end;;
  mret 0.

#[global] Instance ConnectPacket_Encode : Encode ConnectPacket := {|
  compute_size p := Ret (ConnectPacket_compute_size p);
  encode := ConnectPacket_encode
|}.

(** The broker's view of a CONNECT packet (test builds). [ConnectPacket] and
    [IncomingConnectPacket] have the same fields, owned instead of borrowed. *)
Definition IncomingConnectPacket_decode (c : ControlField) : reader ConnectPacket :=
  assert_ (flags_of c =? 0);;
  hdr ← read_trivial sizeof_ConnectHeader ConnectHeader_of_mem;
  assert_ (BigEndian_to_native (protocol_name_len hdr) =? 4);;
  assert_ (bool_decide (protocol_name hdr = MQTT_name));;
  assert_ (protocol_level hdr =? 4);;
  id ← read_utf8;
  w ← (if Z.land (connect_flags hdr) WILL_FLAG =? 0 then mret None
       else topic ← read_utf8;
            message ← read_byte_array;
            match QoS_of_u8 (Z.land (Z.shiftr (connect_flags hdr) WILL_QOS_POS) 3) with
            | Some q => mret (Some (mkLastWill topic message
                          (negb (Z.land (connect_flags hdr) WILL_RETAIN =? 0)) q))
            | None => panic
            end);
  user ← (if Z.land (connect_flags hdr) USER_NAME =? 0 then mret None
          else x ← read_utf8; mret (Some x));
  pass ← (if Z.land (connect_flags hdr) PASSWORD =? 0 then mret None
          else x ← read_byte_array; mret (Some x));
  mret (mkConnectPacket (negb (Z.land (connect_flags hdr) CLEAN_SESSION =? 0))
          (BigEndian_to_native (hdr_keep_alive hdr)) id w user pass).

(* ------------------------------------------------------------------ *)
(** ** CONNACK                                                         *)
(* ------------------------------------------------------------------ *)

Record ConnAckPacket : Type := mkConnAckPacket {
  conn_result : result bool ServerConnectError
}.

#[global] Instance ConnAckPacket_Packet : Packet ConnAckPacket := TConnAck.

(** [ConnAckHeader] is two bytes, [ack_flags] and [return_code]. *)
Definition ConnAckPacket_decode (_ : ControlField) : reader ConnAckPacket :=
  '(ack_flags, return_code) ← read_trivial 2 (fun l => (nth 0 l 0, nth 1 l 0));
  mret (mkConnAckPacket (
    if return_code =? 0 then Ok (negb (Z.land ack_flags 1 =? 0))
    else if return_code =? 1 then Err UnacceptableProtocolVersion
    else if return_code =? 2 then Err IdentifierRejected
    else if return_code =? 3 then Err ServerUnavailable
    else if return_code =? 4 then Err BadUserNameOrPassword
    else if return_code =? 5 then Err NotAuthorized
    else Err (Unknown return_code))).

Definition ConnAckPacket_encode (p : ConnAckPacket) : writer u8 :=
  '(ack_flags, return_code) ←
    match conn_result p with
    | Ok x => mret (if x then 1 else 0, 0)
    | Err UnacceptableProtocolVersion => mret (0, 1)
    | Err IdentifierRejected => mret (0, 2)
    | Err ServerUnavailable => mret (0, 3)
    | Err BadUserNameOrPassword => mret (0, 4)
    | Err NotAuthorized => mret (0, 5)
    | Err (Unknown x) => mret (0, x)
    | Err ProtocolError => panic
    end;
  write_trivial [ack_flags; return_code];;
  mret 0.

#[global] Instance ConnAckPacket_Encode : Encode ConnAckPacket := {|
  compute_size _ := Ret 2%nat;
  encode := ConnAckPacket_encode
|}.

(* ------------------------------------------------------------------ *)
(** ** PUBLISH                                                         *)
(* ------------------------------------------------------------------ *)

Record PublishFlags : Type := mkPublishFlags { flags_byte : u8 }.

Definition DUP : u8 := 8.
Definition QOS_MASK : u8 := 6.
Definition RETAIN : u8 := 1.
Definition ALL_BITS : u8 := Z.lor (Z.lor RETAIN QOS_MASK) DUP.

Definition PublishFlags_new (dup : bool) (qos : QoS) (retain : bool) : PublishFlags :=
  let ret := wrap8 (Z.shiftl (QoS_as_u8 qos) 1) in
  let ret := if dup then Z.lor ret DUP else ret in
  let ret := if retain then Z.lor ret RETAIN else ret in
  mkPublishFlags ret.

Definition was_retained (f : PublishFlags) : bool := negb (Z.land (flags_byte f) RETAIN =? 0).

(** [None] is the [panic!] on both QoS bits set. *)
Definition flags_qos (f : PublishFlags) : option QoS :=
  QoS_of_u8 (Z.shiftr (Z.land (flags_byte f) QOS_MASK) 1).

Definition is_dup (f : PublishFlags) : bool := negb (Z.land (flags_byte f) DUP =? 0).

Definition into_inner (f : PublishFlags) : u8 := flags_byte f.

Definition PublishFlags_try_from (value : u8) : result PublishFlags PacketDecodeError :=
  if negb (Z.land value (not8 ALL_BITS) =? 0) then Err MalformedPacket
  else if QoS_as_u8 ExactlyOnce <? Z.shiftr (Z.land value QOS_MASK) 1 then Err MalformedPacket
  else Ok (mkPublishFlags value).

Record OutgoingPublishPacket : Type := mkOutgoingPublish {
  out_flags : PublishFlags;
  out_topic : str;
  out_packet_id : u16;
  out_payload : bytes
}.

#[global] Instance OutgoingPublish_Packet : Packet OutgoingPublishPacket := TPublish.

Definition OutgoingPublish_compute_size (p : OutgoingPublishPacket) : outcome Empty_set nat :=
  match flags_qos (out_flags p) with
  | None => Panic
  | Some q =>
    let ret := array_size (out_topic p) in
    let ret := if QoS_ge q AtLeastOnce then (ret + 2)%nat else ret in
    Ret (ret + length (out_payload p))%nat
  end.

Definition OutgoingPublish_encode (p : OutgoingPublishPacket) : writer u8 :=
  write_bytes (out_topic p);;
  match flags_qos (out_flags p) with
  | None => panic
  | Some q =>
    if QoS_ge q AtLeastOnce then write_u16 (BigEndian_from_native (out_packet_id p))
    else mret tt
  end;;
  write_bytes_no_len (out_payload p);;
  mret (into_inner (out_flags p)).

#[global] Instance OutgoingPublish_Encode : Encode OutgoingPublishPacket := {|
  compute_size := OutgoingPublish_compute_size;
  encode := OutgoingPublish_encode
|}.

Record PublishPacketInfo : Type := mkPublishInfo {
  info_flags : PublishFlags;
  info_packet_id : u16
}.

Record InternalPublishHeader : Type := mkInternalHeader {
  topic_len : nat;
  hdr_info : PublishPacketInfo
}.

(** The bytes of an [InternalPublishHeader] in memory, on x86-64: [topic_len],
    [packet_id], [flags], and five bytes of padding, which no write of the
    struct initialises. (Rust leaves the order of the fields open; the size of
    16 bytes and the number of padding bytes do not depend on it.) *)
Fixpoint le_bytes (n : nat) (x : Z) : bytes :=
  match n with O => [] | S n => x mod 256 :: le_bytes n (x / 256) end.

Fixpoint le_value (l : bytes) : Z :=
  match l with [] => 0 | b :: l => b + 256 * le_value l end.

Definition HDR_SIZE : nat := 16.

Definition header_bytes (h : InternalPublishHeader) : list (option u8) :=
  (Some <$> le_bytes 8 (Z.of_nat (topic_len h)) ++ le_bytes 2 (info_packet_id (hdr_info h))
            ++ [flags_byte (info_flags (hdr_info h))]) ++ replicate 5 None.

(** The [Arc<[u8]>] of a received message, byte by byte; [None] is a byte that
    was never written. *)
Record IncomingPublishPacket : Type := mkIncomingPublish { arc : list (option u8) }.

(** Writing through a raw pointer, and reading an initialised value back:
    undefined behaviour outside of the buffer, and on a byte that was never
    written. *)
Definition raw_write (pos : nat) (data buf : list (option u8)) : option (list (option u8)) :=
  if (length buf <? pos + length data)%nat then None
  else Some (take pos buf ++ data ++ drop (pos + length data) buf).

Definition raw_read (pos n : nat) (buf : list (option u8)) : outcome Empty_set bytes :=
  if (length buf <? pos + n)%nat then UB
  else match mapM id (take n (drop pos buf)) with Some bs => Ret bs | None => UB end.

Definition outcome_bind {E A B} (o : outcome E A) (k : A -> outcome E B) : outcome E B :=
  match o with Ret a => k a | Throw e => Throw e | Panic => Panic | UB => UB | OutOfFuel => OutOfFuel end.

Definition info (m : IncomingPublishPacket) : outcome Empty_set PublishPacketInfo :=
  outcome_bind (raw_read 8 2 (arc m)) (fun i =>
  outcome_bind (raw_read 10 1 (arc m)) (fun f =>
  Ret (mkPublishInfo (mkPublishFlags (le_value f)) (le_value i)))).

(** The [topic_len] field. *)
Definition read_topic_len (m : IncomingPublishPacket) : outcome Empty_set nat :=
  outcome_bind (raw_read 0 8 (arc m)) (fun n => Ret (Z.to_nat (le_value n))).

(** The bytes of a slice of the buffer from [start] to [stop]: slicing out of
    range panics. *)
Definition arc_slice (start stop : nat) (m : IncomingPublishPacket) : outcome Empty_set bytes :=
  if (stop <? start)%nat || (length (arc m) <? stop)%nat then Panic
  else raw_read start (stop - start) (arc m).

(** [from_utf8_unchecked] is undefined on anything but UTF-8. *)
Definition topic (m : IncomingPublishPacket) : outcome Empty_set str :=
  outcome_bind (read_topic_len m) (fun n =>
  outcome_bind (arc_slice HDR_SIZE (HDR_SIZE + n) m) (fun t =>
  match utf8_check t 0 with None => Ret t | Some _ => UB end)).

Definition payload (m : IncomingPublishPacket) : outcome Empty_set bytes :=
  outcome_bind (read_topic_len m) (fun n => arc_slice (HDR_SIZE + n) (length (arc m)) m).

Definition payload_as_utf8 (m : IncomingPublishPacket) : outcome Empty_set (result str Utf8Error) :=
  outcome_bind (payload m) (fun p => Ret (from_utf8 p)).

(** The [unsafe] block of [decode]: [new_uninit_slice], the header, the topic
    and the payload are written, and [assume_init] changes the type of the
    buffer. The padding of the header is still uninitialised then, which
    [assume_init] does not allow ([arc_padding_uninit] in [PacketProps]); the
    model goes on with the buffer as it is, and reading such a byte is
    undefined. *)
Definition fill_arc (h : InternalPublishHeader) (topic payload : bytes) : option (list (option u8)) :=
  let uninit_arc := replicate (HDR_SIZE + length topic + length payload) None in
  data ← raw_write 0 (header_bytes h) uninit_arc;
  data ← raw_write HDR_SIZE (Some <$> topic) data;
  raw_write (HDR_SIZE + length topic) (Some <$> payload) data.

Definition IncomingPublish_decode (c : ControlField) : reader IncomingPublishPacket :=
  match PublishFlags_try_from (flags_of c) with
  | Err e => throw e
  | Ok flags =>
    topic ← read_utf8;
    packet_id ← match flags_qos flags with
                | None => panic
                | Some q => if QoS_ge q AtLeastOnce
                            then x ← read_u16; mret (BigEndian_to_native x)
                            else mret 0
                end;
    payload ← read_remaining;
    match fill_arc (mkInternalHeader (length topic) (mkPublishInfo flags packet_id)) topic payload with
    | Some uninit_arc => mret (mkIncomingPublish uninit_arc)
    | None => undefined
    end
  end.

(** [to_outgoing] (test builds). *)
Definition to_outgoing (m : IncomingPublishPacket) (qos : QoS) (retain : bool) (packet_id : u16)
    : outcome Empty_set OutgoingPublishPacket :=
  outcome_bind (topic m) (fun t =>
  outcome_bind (payload m) (fun p =>
  Ret (mkOutgoingPublish (PublishFlags_new false qos retain) t packet_id p))).

(* ------------------------------------------------------------------ *)
(** ** PUBACK, PUBREC, PUBREL, PUBCOMP, UNSUBACK                       *)
(* ------------------------------------------------------------------ *)

(** The instances of the [def_simple_packet!] macro. *)
Inductive SimpleKind : Type := KPubAck | KPubRec | KPubRel | KPubComp | KUnsubAck.

Definition simple_type (k : SimpleKind) : PacketType :=
  match k with
  | KPubAck => TPubAck | KPubRec => TPubRec | KPubRel => TPubRel
  | KPubComp => TPubComp | KUnsubAck => TUnsubAck
  end.

Definition simple_flags (k : SimpleKind) : u8 :=
  match k with KPubRel => 2 | _ => 0 end.

Record SimplePacket (k : SimpleKind) : Type := mkSimple { packet_id : u16 }.
Arguments mkSimple {k} packet_id.
Arguments packet_id {k} s.

Abbreviation PubAckPacket := (SimplePacket KPubAck).
Abbreviation PubRecPacket := (SimplePacket KPubRec).
Abbreviation PubRelPacket := (SimplePacket KPubRel).
Abbreviation PubCompPacket := (SimplePacket KPubComp).
Abbreviation UnsubAckPacket := (SimplePacket KUnsubAck).

#[global] Instance SimplePacket_Packet k : Packet (SimplePacket k) := simple_type k.

Definition SimplePacket_decode (k : SimpleKind) (_ : ControlField) : reader (SimplePacket k) :=
  x ← read_u16;
  mret (mkSimple (BigEndian_to_native x)).

Definition SimplePacket_encode {k} (p : SimplePacket k) : writer u8 :=
  write_u16 (BigEndian_from_native (packet_id p));;
  mret (simple_flags k).

#[global] Instance SimplePacket_Encode k : Encode (SimplePacket k) := {|
  compute_size _ := Ret 2%nat;
  encode := SimplePacket_encode
|}.

(* ------------------------------------------------------------------ *)
(** ** SUBSCRIBE                                                       *)
(* ------------------------------------------------------------------ *)

Record SubscribePacket : Type := mkSubscribePacket {
  sub_packet_id : u16;
  sub_topics : list (str * QoS)
}.

#[global] Instance SubscribePacket_Packet : Packet SubscribePacket := TSubscribe.

(** The [for] loop of [compute_size], from the accumulator [ret]. *)
Fixpoint subscribe_size (ret : nat) (topics : list (str * QoS)) : nat :=
  match topics with
  | [] => ret
  | (t, _) :: topics' => subscribe_size (ret + array_size t + 1) topics'
  end.

Fixpoint write_sub_topics (topics : list (str * QoS)) : writer unit :=
  match topics with
  | [] => mret tt
  | (t, q) :: topics' => write_bytes t;; write_u8 (QoS_as_u8 q);; write_sub_topics topics'
  end.

Definition SubscribePacket_encode (p : SubscribePacket) : writer u8 :=
  write_u16 (BigEndian_from_native (sub_packet_id p));;
  write_sub_topics (sub_topics p);;
  mret 2.

#[global] Instance SubscribePacket_Encode : Encode SubscribePacket := {|
  compute_size p := Ret (subscribe_size 2 (sub_topics p));
  encode := SubscribePacket_encode
|}.

(** [while rd.remaining() > 0]; every turn reads at least two bytes, so the
    number of bytes left bounds the number of turns. *)
Fixpoint read_sub_topics (fuel : nat) (acc : list (str * QoS)) : reader (list (str * QoS)) :=
  match fuel with
  | O => out_of_fuel
  | S fuel =>
    n ← remaining;
    if (0 <? n)%nat then
      t ← read_utf8;
      b ← read_u8;
      match QoS_of_u8 b with
      | Some q => read_sub_topics fuel (acc ++ [(t, q)])
      | None => panic
      end
    else mret acc
  end.

(** [IncomingSubscribePacket] (test builds). *)
Definition IncomingSubscribe_decode (c : ControlField) : reader SubscribePacket :=
  assert_ (flags_of c =? 2);;
  id ← read_u16;
  n ← remaining;
  topics ← read_sub_topics (S n) [];
  mret (mkSubscribePacket (BigEndian_to_native id) topics).

(* ------------------------------------------------------------------ *)
(** ** SUBACK                                                          *)
(* ------------------------------------------------------------------ *)

Abbreviation SubscriptionResult := (result QoS unit).

(** On a 64-bit target a [Vec] has 24 bytes and a [SubscriptionResult] one:
    (24 - 8) / 1. *)
Definition MAX_STATIC_SUBS : nat := (24 - 8) / 1.

Inductive SubscriptionResultList : Type :=
| Static (n : nat) (values : list SubscriptionResult)
| Dynamic (values : list SubscriptionResult).

Record SubAckPacket : Type := mkSubAck {
  suback_packet_id : u16;
  suback_list : SubscriptionResultList
}.

#[global] Instance SubAckPacket_Packet : Packet SubAckPacket := TSubAck.

(** [SubAckPacket::new] (test builds). *)
Definition SubAckPacket_new (id : u16) (results : list SubscriptionResult) : SubAckPacket :=
  mkSubAck id
    (if (length results <=? MAX_STATIC_SUBS)%nat
     then Static (length results)
            (results ++ drop (length results) (replicate MAX_STATIC_SUBS (Err tt)))
     else Dynamic results).

Definition sub_results (p : SubAckPacket) : outcome Empty_set (list SubscriptionResult) :=
  match suback_list p with
  | Static n values => if (length values <? n)%nat then Panic else Ret (take n values)
  | Dynamic d => Ret d
  end.

Definition parse_sub_result (r : u8) : result SubscriptionResult PacketDecodeError :=
  if r =? 0 then Ok (Ok AtMostOnce) else if r =? 1 then Ok (Ok AtLeastOnce)
  else if r =? 2 then Ok (Ok ExactlyOnce) else if r =? 128 then Ok (Err tt)
  else Err MalformedPacket.

(** The two [for] loops of [decode]. *)
Fixpoint fill_static (i : nat) (rs : bytes) (values : list SubscriptionResult)
    : reader (list SubscriptionResult) :=
  match rs with
  | [] => mret values
  | r :: rs' =>
    match parse_sub_result r with
    | Err e => throw e
    | Ok v =>
      assert_ (i <? length values)%nat;;
      fill_static (S i) rs' (<[i := v]> values)
    end
  end.

Fixpoint push_results (rs : bytes) (values : list SubscriptionResult)
    : reader (list SubscriptionResult) :=
  match rs with
  | [] => mret values
  | r :: rs' =>
    match parse_sub_result r with
    | Err e => throw e
    | Ok v => push_results rs' (values ++ [v])
    end
  end.

Definition SubAckPacket_decode (_ : ControlField) : reader SubAckPacket :=
  id ← read_u16;
  num_results ← remaining;
  l ← (if (num_results <=? MAX_STATIC_SUBS)%nat then
         rs ← read_remaining;
         values ← fill_static 0 rs (replicate MAX_STATIC_SUBS (Err tt));
         mret (Static num_results values)
       else
         rs ← read_remaining;
         values ← push_results rs [];
         mret (Dynamic values));
  mret (mkSubAck (BigEndian_to_native id) l).

(** [impl Encode for SubAckPacket] (test builds). *)
Definition SubAckPacket_compute_size (p : SubAckPacket) : nat :=
  match suback_list p with
  | Static n _ => n + 2
  | Dynamic x => length x + 2
  end.

Fixpoint write_sub_results (rs : list SubscriptionResult) : writer unit :=
  match rs with
  | [] => mret tt
  | r :: rs' =>
    match r with Ok q => write_u8 (QoS_as_u8 q) | Err _ => write_u8 128 end;;
    write_sub_results rs'
  end.

Definition SubAckPacket_encode (p : SubAckPacket) : writer u8 :=
  write_u16 (BigEndian_from_native (suback_packet_id p));;
  rs ← lift (sub_results p);
  write_sub_results rs;;
  mret 0.

#[global] Instance SubAckPacket_Encode : Encode SubAckPacket := {|
  compute_size p := Ret (SubAckPacket_compute_size p);
  encode := SubAckPacket_encode
|}.

(* ------------------------------------------------------------------ *)
(** ** UNSUBSCRIBE                                                     *)
(* ------------------------------------------------------------------ *)

Record UnsubscribePacket : Type := mkUnsubscribePacket {
  unsub_packet_id : u16;
  unsub_topics : list str
}.

#[global] Instance UnsubscribePacket_Packet : Packet UnsubscribePacket := TUnsubscribe.

Fixpoint unsubscribe_size (ret : nat) (topics : list str) : nat :=
  match topics with
  | [] => ret
  | t :: topics' => unsubscribe_size (ret + array_size t) topics'
  end.

Fixpoint write_unsub_topics (topics : list str) : writer unit :=
  match topics with
  | [] => mret tt
  | t :: topics' => write_bytes t;; write_unsub_topics topics'
  end.

Definition UnsubscribePacket_encode (p : UnsubscribePacket) : writer u8 :=
  write_u16 (BigEndian_from_native (unsub_packet_id p));;
  write_unsub_topics (unsub_topics p);;
  mret 2.

#[global] Instance UnsubscribePacket_Encode : Encode UnsubscribePacket := {|
  compute_size p := Ret (unsubscribe_size 2 (unsub_topics p));
  encode := UnsubscribePacket_encode
|}.

Fixpoint read_unsub_topics (fuel : nat) (acc : list str) : reader (list str) :=
  match fuel with
  | O => out_of_fuel
  | S fuel =>
    n ← remaining;
    if (0 <? n)%nat then
      t ← read_utf8;
      read_unsub_topics fuel (acc ++ [t])
    else mret acc
  end.

(** [IncomingUnsubPacket] (test builds). *)
Definition IncomingUnsub_decode (c : ControlField) : reader UnsubscribePacket :=
  assert_ (flags_of c =? 2);;
  id ← read_u16;
  n ← remaining;
  topics ← read_unsub_topics (S n) [];
  mret (mkUnsubscribePacket (BigEndian_to_native id) topics).

(* ------------------------------------------------------------------ *)
(** ** PINGREQ, DISCONNECT, PINGRESP                                   *)
(* ------------------------------------------------------------------ *)

(** The instances of the [def_empty_outgoing_packet!] macro, and
    [PingRespPacket], which has the same shape. *)
Inductive PingReqPacket : Type := PingReq.
Inductive DisconnectPacket : Type := Disconnect.
Inductive PingRespPacket : Type := PingResp.

#[global] Instance PingReqPacket_Packet : Packet PingReqPacket := TPingReq.
#[global] Instance DisconnectPacket_Packet : Packet DisconnectPacket := TDisconnect.
#[global] Instance PingRespPacket_Packet : Packet PingRespPacket := TPingResp.

Definition empty_encode : writer u8 := mret 0.

#[global] Instance PingReqPacket_Encode : Encode PingReqPacket :=
  {| compute_size _ := Ret 0%nat; encode _ := empty_encode |}.
#[global] Instance DisconnectPacket_Encode : Encode DisconnectPacket :=
  {| compute_size _ := Ret 0%nat; encode _ := empty_encode |}.
#[global] Instance PingRespPacket_Encode : Encode PingRespPacket :=
  {| compute_size _ := Ret 0%nat; encode _ := empty_encode |}.

(** The macro's [decode] (test builds). *)
Definition empty_decode {P} (p : P) (c : ControlField) : reader P :=
  assert_ (flags_of c =? 0);; mret p.

Definition PingRespPacket_decode (_ : ControlField) : reader PingRespPacket := mret PingResp.

(* ------------------------------------------------------------------ *)
(** ** Incoming packets                                                *)
(* ------------------------------------------------------------------ *)

(** What a client can receive. *)
Inductive IncomingPacket : Type :=
| InConnAck (p : ConnAckPacket)
| InSubAck (p : SubAckPacket)
| InPublish (p : IncomingPublishPacket)
| InPubAck (p : PubAckPacket)
| InPubRec (p : PubRecPacket)
| InPubRel (p : PubRelPacket)
| InPubComp (p : PubCompPacket)
| InUnsubAck (p : UnsubAckPacket)
| InPingResp (p : PingRespPacket).

Definition IncomingPacket_type (p : IncomingPacket) : PacketType :=
  match p with
  | InConnAck _ => TConnAck | InSubAck _ => TSubAck | InPublish _ => TPublish
  | InPubAck _ => TPubAck | InPubRec _ => TPubRec | InPubRel _ => TPubRel
  | InPubComp _ => TPubComp | InUnsubAck _ => TUnsubAck | InPingResp _ => TPingResp
  end.

(** [x if x == <$type>::packet_type() as u8]. *)
Definition is_type (c : ControlField) (t : PacketType) : bool :=
  packet_type_of c =? PacketType_as_u8 t.

Definition from_bytes (c : ControlField) : reader IncomingPacket :=
  if is_type c TConnAck then p ← ConnAckPacket_decode c; mret (InConnAck p)
  else if is_type c TSubAck then p ← SubAckPacket_decode c; mret (InSubAck p)
  else if is_type c TPublish then p ← IncomingPublish_decode c; mret (InPublish p)
  else if is_type c TPubAck then p ← SimplePacket_decode KPubAck c; mret (InPubAck p)
  else if is_type c TPubRec then p ← SimplePacket_decode KPubRec c; mret (InPubRec p)
  else if is_type c TPubRel then p ← SimplePacket_decode KPubRel c; mret (InPubRel p)
  else if is_type c TPubComp then p ← SimplePacket_decode KPubComp c; mret (InPubComp p)
  else if is_type c TUnsubAck then p ← SimplePacket_decode KUnsubAck c; mret (InUnsubAck p)
  else if is_type c TPingResp then p ← PingRespPacket_decode c; mret (InPingResp p)
  else throw (InvalidPacketId (packet_type_of c)).

(** What the test broker can receive. *)
Inductive IncomingBrokerPacket : Type :=
| BrConnect (p : ConnectPacket)
| BrSubscribe (p : SubscribePacket)
| BrPublish (p : IncomingPublishPacket)
| BrPubAck (p : PubAckPacket)
| BrPubRec (p : PubRecPacket)
| BrPubRel (p : PubRelPacket)
| BrPubComp (p : PubCompPacket)
| BrUnsubscribe (p : UnsubscribePacket)
| BrPingReq (p : PingReqPacket)
| BrDisconnect (p : DisconnectPacket).

Definition broker_from_bytes (c : ControlField) : reader IncomingBrokerPacket :=
  if is_type c TConnect then p ← IncomingConnectPacket_decode c; mret (BrConnect p)
  else if is_type c TSubscribe then p ← IncomingSubscribe_decode c; mret (BrSubscribe p)
  else if is_type c TPublish then p ← IncomingPublish_decode c; mret (BrPublish p)
  else if is_type c TPubAck then p ← SimplePacket_decode KPubAck c; mret (BrPubAck p)
  else if is_type c TPubRec then p ← SimplePacket_decode KPubRec c; mret (BrPubRec p)
  else if is_type c TPubRel then p ← SimplePacket_decode KPubRel c; mret (BrPubRel p)
  else if is_type c TPubComp then p ← SimplePacket_decode KPubComp c; mret (BrPubComp p)
  else if is_type c TUnsubscribe then p ← IncomingUnsub_decode c; mret (BrUnsubscribe p)
  else if is_type c TPingReq then p ← empty_decode PingReq c; mret (BrPingReq p)
  else if is_type c TDisconnect then p ← empty_decode Disconnect c; mret (BrDisconnect p)
  else throw (InvalidPacketId (packet_type_of c)).
