(* ===== verification/PacketProps.v ===== *)
(** * Theorems on the packets

    The remaining-length field against its definition in the MQTT standard,
    the construction of a packet against the interface [EncodeOk] that every
    packet discharges, and the round trips between the client's and the
    broker's coders. *)

From Stdlib Require Import ZArith Lia.
From stdpp Require Import base list numbers.
From S2P Require Import Prelude Base ByteIO Packets.

Local Open Scope Z_scope.

(* ------------------------------------------------------------------ *)
(** ** Reference definitions                                           *)
(* ------------------------------------------------------------------ *)

(** The remaining-length field: base 128, least significant digit first, the
    top bit of every byte but the last set; at most [k] bytes. *)
Fixpoint remaining_length (k : nat) (n : Z) : bytes :=
  match k with
  | O => []
  | S k => if n <? 128 then [n] else n mod 128 + 128 :: remaining_length k (n / 128)
  end.

(** A whole packet on the wire. *)
Definition frame (t : PacketType) (flags : u8) (body : bytes) : bytes :=
  16 * PacketType_as_u8 t + flags :: remaining_length 4 (len body) ++ body.

(** The largest content the fixed header can announce. *)
Definition MAX_CONTENT : Z := 2 ^ 28.

(** What an [Encode] implementation promises to [make_packet_t]: with the
    fields in range, it writes [enc_body] and returns [enc_flags], and
    [compute_size] announces the length of what it writes. *)
Class EncodeOk (P : Type) `{Packet P} `{Encode P} : Type := {
  enc_valid : P -> Prop;
  enc_body : P -> bytes;
  enc_flags : P -> u8;
  enc_writes p : enc_valid p -> writes (encode p) (enc_flags p) (enc_body p);
  enc_size p : enc_valid p -> compute_size p = Ret (length (enc_body p));
  enc_flags_range p : enc_valid p -> 0 <= enc_flags p < 16
}.

(* ------------------------------------------------------------------ *)
(** ** The control field                                               *)
(* ------------------------------------------------------------------ *)

Definition ctrl_check (t : PacketType) (f : u8) : bool :=
  let c := Z.lor (wrap8 (Z.shiftl (PacketType_as_u8 t) 4)) f in
  (c =? 16 * PacketType_as_u8 t + f)
  && (packet_type_of (mkControlField c) =? PacketType_as_u8 t)
  && (flags_of (mkControlField c) =? f).

Lemma ctrl_facts (t : PacketType) (f : u8) : 0 <= f < 16 ->
  from_type_and_flags t f = Ret (mkControlField (16 * PacketType_as_u8 t + f)) /\
  packet_type_of (mkControlField (16 * PacketType_as_u8 t + f)) = PacketType_as_u8 t /\
  flags_of (mkControlField (16 * PacketType_as_u8 t + f)) = f.
Proof.
  intros Hf.
  assert (ctrl_check t f = true) as Hc.
  { apply (seqZ_forall (ctrl_check t) 16); [|done]. by destruct t. }
  unfold ctrl_check in Hc. rewrite !andb_true_iff, !Z.eqb_eq in Hc.
  destruct Hc as [[H1 H2] H3]. unfold from_type_and_flags.
  destruct (Z.leb_spec 16 f); [lia|]. rewrite H1 in *. auto.
Qed.

Lemma PacketType_as_u8_inj (t t' : PacketType) :
  PacketType_as_u8 t = PacketType_as_u8 t' -> t = t'.
Proof. by destruct t, t'. Qed.

Lemma is_type_ctrl (t t' : PacketType) (f : u8) : 0 <= f < 16 ->
  is_type (mkControlField (16 * PacketType_as_u8 t + f)) t' = bool_decide (t = t').
Proof.
  intros Hf. unfold is_type. destruct (ctrl_facts t f Hf) as (_ & -> & _).
  case_bool_decide as E; [subst; apply Z.eqb_refl|].
  apply Z.eqb_neq. by intros ?%PacketType_as_u8_inj.
Qed.

(* ------------------------------------------------------------------ *)
(** ** The remaining-length field                                      *)
(* ------------------------------------------------------------------ *)

Lemma low7 (n : Z) : Z.land n 0x7f = n mod 128.
Proof. apply (land_low n 7). lia. Qed.

Lemma high7 (n : Z) : is_usize n -> Z.shiftr (Z.land n (not64 0x7f)) 7 = n / 128.
Proof.
  intros Hn. unfold is_usize in Hn.
  rewrite Z.shiftr_land. change (Z.shiftr (not64 0x7f) 7) with (2 ^ 57 - 1).
  rewrite land_low, shiftr_div by lia. change (2 ^ 7) with 128.
  apply Z.mod_small. split; [apply Z.div_pos; lia|]. apply Z.div_lt_upper_bound; lia.
Qed.

Lemma set_bit7 (b : Z) : 0 <= b < 128 -> Z.lor b 0x80 = b + 128.
Proof. intros Hb. apply (lor_disjoint b 1 7); lia. Qed.

Lemma remaining_length_bound (k : nat) (n : Z) : (length (remaining_length k n) <= k)%nat.
Proof. revert n. induction k as [|k IH]; intros n; cbn; [lia|]. split_match; cbn; [lia|].
  specialize (IH (n / 128)). lia. Qed.

Lemma encode_packet_size_fits (dst : bytes) (n : Z) :
  dst <> [] -> 0 <= n < 128 ^ len dst -> is_usize n ->
  let v := remaining_length (length dst) n in
  encode_packet_size n dst = Some (length v, v ++ drop (length v) dst).
Proof.
  revert n. induction dst as [|d dst IH]; intros n Hne Hn Hu; [done|].
  cbn -[Z.land Z.lor Z.shiftr not64]. rewrite low7, high7 by done.
  assert (0 <= n / 128) by (apply Z.div_pos; lia).
  pose proof (Z.mod_pos_bound n 128).
  destruct (Z.ltb_spec n 128).
  - rewrite Z.div_small, Z.mod_small by lia. done.
  - assert (0 < n / 128) by (apply Z.div_str_pos; lia).
    destruct (Z.leb_spec (n / 128) 0); [lia|].
    rewrite IH; [| |split; [lia|]|].
    + rewrite set_bit7 by lia. done.
    + intros ->. cbn in Hn. lia.
    + apply Z.div_lt_upper_bound; [lia|].
      rewrite <- Z.pow_succ_r by lia. cbn [length] in Hn.
      rewrite Nat2Z.inj_succ in Hn. lia.
    + unfold is_usize in *. split; [lia|]. apply Z.div_lt_upper_bound; lia.
Qed.

Lemma encode_packet_size_overflow (dst : bytes) (n : Z) :
  128 ^ len dst <= n -> is_usize n -> encode_packet_size n dst = None.
Proof.
  revert n. induction dst as [|d dst IH]; intros n Hn Hu; [done|].
  cbn -[Z.land Z.lor Z.shiftr not64]. rewrite high7 by done.
  cbn [length] in Hn. rewrite Nat2Z.inj_succ, Z.pow_succ_r in Hn by lia.
  assert (128 ^ len dst <= n / 128) by (apply Z.div_le_lower_bound; lia).
  assert (0 < 128 ^ len dst) by (apply Z.pow_pos_nonneg; lia).
  destruct (Z.leb_spec (n / 128) 0); [lia|].
  rewrite IH; [done|lia|].
  unfold is_usize in *. split; [lia|]. apply Z.div_lt_upper_bound; lia.
Qed.

(* ------------------------------------------------------------------ *)
(** ** Building a packet                                               *)
(* ------------------------------------------------------------------ *)

Section building.
Context {P : Type} `{EncodeOk P}.

Lemma encode_into_buffer (p : P) (n : nat) :
  enc_valid p ->
  (flags ← encode p; finish_and_check;; mret flags)
    (mkByteWriter (replicate (n + length (enc_body p)) None) n) =
  (Ret (enc_flags p),
   mkByteWriter (replicate n None ++ (Some <$> enc_body p)) (n + length (enc_body p))).
Proof.
  intros Hv. rewrite replicate_add.
  pose proof (enc_writes p Hv (replicate n None) (replicate (length (enc_body p)) None) []) as Hw.
  rewrite !app_nil_r, !length_replicate in Hw. specialize (Hw eq_refl).
  unfold mbind at 1, stm_bind at 1. rewrite Hw.
  unfold finish_and_check, assert_, mbind, stm_bind; cbn -[Nat.leb].
  unfold space_left; cbn -[Nat.leb].
  rewrite length_app, length_replicate, length_fmap, Nat.sub_diag. done.
Qed.

Lemma make_packet_t_frame (p : P) :
  enc_valid p -> len (enc_body p) < MAX_CONTENT ->
  make_packet_t p = Ret (Some <$> frame (packet_type P) (enc_flags p) (enc_body p)).
Proof.
  intros Hv Hlen. unfold MAX_CONTENT in Hlen. unfold make_packet_t.
  rewrite enc_size by done.
  set (v := remaining_length 4 (len (enc_body p))).
  assert (length v <= 4)%nat by apply remaining_length_bound.
  change (drop 1 (replicate MAX_HEADER_SIZE 0)) with [0; 0; 0; 0].
  rewrite encode_packet_size_fits; cbn [length]; [|done|lia|unfold is_usize; lia].
  fold v. cbv zeta. rewrite encode_into_buffer by done.
  destruct (ctrl_facts (packet_type P) (enc_flags p)) as (-> & _ & _);
    [by apply enc_flags_range|].
  cbn [buf ctrl_byte]. rewrite !length_app, length_replicate, length_fmap.
  rewrite length_drop. cbn [length].
  destruct (Nat.ltb_spec (S (length v + (4 - length v))) (length v + 1)); [lia|].
  destruct (Nat.ltb_spec (length v + 1 + length (enc_body p)) (length v + 1)); [lia|].
  cbn [orb]. f_equal.
  rewrite (drop_app_exact (replicate _ _)) by (by rewrite length_replicate).
  replace (length v + 1)%nat with (S (length v)) by lia. cbn [take].
  rewrite take_app_length. unfold frame. fold v. rewrite !fmap_cons, fmap_app. done.
Qed.

(** C33: Building a packet whose fields are in range and whose content fits in
    the header's four length bytes never panics, reads no uninitialised byte,
    and gives the packet's wire form: control byte, remaining length, body. *)
Theorem make_packet_correct (p : P) :
  enc_valid p -> len (enc_body p) < MAX_CONTENT ->
  make_arc_packet p = Ret (frame (packet_type P) (enc_flags p) (enc_body p)) /\
  make_packet p = Ret (frame (packet_type P) (enc_flags p) (enc_body p)).
Proof.
  intros Hv Hlen. unfold make_arc_packet, make_packet, assume_init.
  by rewrite make_packet_t_frame, mapM_Some.
Qed.

Lemma make_arc_packet_frame (p : P) :
  enc_valid p -> len (enc_body p) < MAX_CONTENT ->
  make_arc_packet p = Ret (frame (packet_type P) (enc_flags p) (enc_body p)).
Proof.
  intros. unfold make_arc_packet, assume_init. by rewrite make_packet_t_frame, mapM_Some.
Qed.

(** A packet whose content does not fit in the remaining-length field is
    never sent truncated: building it panics. *)
Theorem make_packet_too_big (p : P) :
  enc_valid p -> MAX_CONTENT <= len (enc_body p) -> is_usize (len (enc_body p)) ->
  make_arc_packet p = Panic.
Proof.
  intros Hv Hlen Hu. unfold make_arc_packet, make_packet_t. rewrite enc_size by done.
  rewrite encode_packet_size_overflow; [done|exact Hlen|done].
Qed.
End building.

(* ------------------------------------------------------------------ *)
(** ** Every packet discharges the interface                           *)
(* ------------------------------------------------------------------ *)

Lemma writes_then_ret {A} (m : writer unit) (a : A) (d : bytes) :
  writes m tt d -> writes (m;; mret a) a d.
Proof. intros H. rewrite <- (app_nil_r d). by apply writes_bind_unit; [|apply writes_ret]. Qed.

Ltac writes_auto :=
  repeat first
    [ solve [eauto with lmc]
    | apply writes_then_ret
    | apply writes_bind_unit
    | split_match ].

Definition opt_valid {A} (f : A -> Prop) (o : option A) : Prop :=
  match o with Some x => f x | None => True end.
Definition opt_wire {A} (f : A -> bytes) (o : option A) : bytes :=
  match o with Some x => f x | None => [] end.

Definition wire_len_ok (l : bytes) : Prop := is_u16 (len l).

Lemma opt_writes {A} (f : A -> writer unit) (g : A -> bytes) (V : A -> Prop) o :
  (forall x, V x -> writes (f x) tt (g x)) -> opt_valid V o ->
  writes match o with Some x => f x | None => mret tt end tt (opt_wire g o).
Proof. intros Hf Ho. destruct o; [by apply Hf|apply writes_ret]. Qed.

(** *** CONNECT *)

Definition LastWill_valid (w : LastWill) : Prop :=
  wire_len_ok (will_topic w) /\ wire_len_ok (will_message w).
Definition LastWill_wire (w : LastWill) : bytes :=
  wire_bytes (will_topic w) ++ wire_bytes (will_message w).

Definition ConnectPacket_valid (p : ConnectPacket) : Prop :=
  is_u16 (keep_alive p) /\ wire_len_ok (client_id p) /\ opt_valid LastWill_valid (will p) /\
  opt_valid wire_len_ok (username p) /\ opt_valid wire_len_ok (password p).

Definition ConnectHeader_wire (flags : u8) (ka : u16) : bytes :=
  wire_u16 4 ++ MQTT_name ++ [4; flags] ++ wire_u16 ka.

Definition ConnectPacket_body (p : ConnectPacket) : bytes :=
  ConnectHeader_wire (ConnectPacket_flags p) (keep_alive p) ++ wire_bytes (client_id p) ++
  opt_wire LastWill_wire (will p) ++ opt_wire wire_bytes (username p) ++
  opt_wire wire_bytes (password p).

Lemma ConnectHeader_mem (flags : u8) (ka : u16) : is_u16 ka ->
  ConnectHeader_to_mem (mkConnectHeader (BigEndian_from_native 4) MQTT_name 4 flags
    (BigEndian_from_native ka)) = ConnectHeader_wire flags ka.
Proof.
  intros Hka. unfold ConnectHeader_to_mem, ConnectHeader_wire.
  cbn [protocol_name_len protocol_name protocol_level connect_flags hdr_keep_alive
       be_raw BigEndian_from_native].
  rewrite !u16_wire by (done || unfold is_u16; lia). done.
Qed.

#[global] Instance ConnectPacket_EncodeOk : EncodeOk ConnectPacket.
Proof.
  refine {| enc_valid := ConnectPacket_valid; enc_body := ConnectPacket_body;
            enc_flags := fun _ => 0 |}.
  - intros p (Hka & Hid & Hw & Hu & Hp).
    change (writes (ConnectPacket_encode p) 0 (ConnectPacket_body p)).
    unfold ConnectPacket_encode, ConnectPacket_body.
    rewrite ConnectHeader_mem by done.
    apply writes_bind_unit; [apply writes_trivial|].
    apply writes_bind_unit; [by apply writes_bytes|].
    apply writes_bind_unit.
    { apply opt_writes with LastWill_valid; [|done]. intros w [??].
      apply writes_bind_unit; by apply writes_bytes. }
    apply writes_bind_unit; [by apply opt_writes with wire_len_ok; [apply writes_bytes|]|].
    apply writes_then_ret. by apply opt_writes with wire_len_ok; [apply writes_bytes|].
  - intros p _. cbn [compute_size ConnectPacket_Encode]. f_equal.
    unfold ConnectPacket_body, ConnectPacket_compute_size, sizeof_ConnectHeader, array_size.
    rewrite !length_app, !wire_bytes_length.
    change (length (ConnectHeader_wire _ _)) with 10%nat.
    destruct (will p), (username p), (password p); unfold opt_wire, LastWill_wire;
      rewrite ?length_app, ?wire_bytes_length; cbn [length]; lia.
  - intros. lia.
Defined.

(** *** CONNACK *)

Definition ConnAck_code (r : result bool ServerConnectError) : u8 :=
  match r with
  | Ok _ => 0
  | Err UnacceptableProtocolVersion => 1
  | Err IdentifierRejected => 2
  | Err ServerUnavailable => 3
  | Err BadUserNameOrPassword => 4
  | Err NotAuthorized => 5
  | Err (Unknown x) => x
  | Err ProtocolError => 0
  end.

(** [Unknown] is for the codes that have no name, and [ProtocolError] never
    comes from a broker. *)
Definition ConnAck_valid (p : ConnAckPacket) : Prop :=
  match conn_result p with
  | Err ProtocolError => False
  | Err (Unknown x) => 5 < x < 256
  | _ => True
  end.

#[global] Instance ConnAckPacket_EncodeOk : EncodeOk ConnAckPacket.
Proof.
  refine {| enc_valid := ConnAck_valid;
            enc_body p := [match conn_result p with Ok true => 1 | _ => 0 end;
                           ConnAck_code (conn_result p)];
            enc_flags := fun _ => 0 |}.
  - intros [r] Hv. cbn [encode ConnAckPacket_Encode ConnAckPacket_encode]. unfold ConnAckPacket_encode.
    destruct r as [[]|[]]; cbn in Hv |- *; try done;
      (eapply (writes_bind _ _ _ _ []); [apply writes_ret|];
       apply writes_then_ret, writes_trivial).
  - done.
  - intros. lia.
Defined.

(** *** PUBLISH *)

(** Flags as [PublishFlags::new] and [PublishFlags::try_from] make them. *)
Definition flags_ok (f : PublishFlags) : Prop :=
  0 <= flags_byte f < 16 /\ is_Some (flags_qos f).

Definition OutgoingPublish_valid (p : OutgoingPublishPacket) : Prop :=
  flags_ok (out_flags p) /\ wire_len_ok (out_topic p) /\ is_u16 (out_packet_id p).

Definition publish_id_wire (f : PublishFlags) (id : u16) : bytes :=
  match flags_qos f with
  | Some AtMostOnce | None => []
  | _ => wire_u16 id
  end.

Definition OutgoingPublish_body (p : OutgoingPublishPacket) : bytes :=
  wire_bytes (out_topic p) ++ publish_id_wire (out_flags p) (out_packet_id p) ++ out_payload p.

#[global] Instance OutgoingPublish_EncodeOk : EncodeOk OutgoingPublishPacket.
Proof.
  refine {| enc_valid := OutgoingPublish_valid; enc_body := OutgoingPublish_body;
            enc_flags p := flags_byte (out_flags p) |}.
  - intros p ((Hr & [q Hq]) & Ht & Hid).
    change (writes (OutgoingPublish_encode p) (flags_byte (out_flags p)) (OutgoingPublish_body p)).
    unfold OutgoingPublish_encode, OutgoingPublish_body.
    apply writes_bind_unit; [by apply writes_bytes|].
    apply writes_bind_unit; [|by apply writes_then_ret, writes_bytes_no_len].
    unfold publish_id_wire. rewrite Hq. rewrite QoS_ge_ALO.
    destruct q; cbn; [apply writes_ret|by apply writes_u16..].
  - intros p ((Hr & [q Hq]) & _).
    change (OutgoingPublish_compute_size p = Ret (length (OutgoingPublish_body p))).
    unfold OutgoingPublish_compute_size, OutgoingPublish_body.
    unfold publish_id_wire, array_size. rewrite Hq, QoS_ge_ALO, !length_app, wire_bytes_length.
    destruct q; apply (f_equal Ret); cbn -[length]; rewrite ?wire_u16_length; cbn [length]; lia.
  - intros p ((Hr & _) & _). exact Hr.
Defined.

(** *** PUBACK, PUBREC, PUBREL, PUBCOMP, UNSUBACK *)

#[global] Instance SimplePacket_EncodeOk k : EncodeOk (SimplePacket k).
Proof.
  refine {| enc_valid p := is_u16 (packet_id p); enc_body p := wire_u16 (packet_id p);
            enc_flags _ := simple_flags k |}.
  - intros p Hp. apply writes_then_ret. by apply writes_u16.
  - done.
  - intros _ _. destruct k; cbn; lia.
Defined.

(** *** SUBSCRIBE, SUBACK, UNSUBSCRIBE *)

Definition SubscribePacket_valid (p : SubscribePacket) : Prop :=
  is_u16 (sub_packet_id p) /\ Forall (fun t => wire_len_ok t.1) (sub_topics p).

Definition sub_topic_wire (t : str * QoS) : bytes := wire_bytes t.1 ++ [QoS_as_u8 t.2].

Definition SubscribePacket_body (p : SubscribePacket) : bytes :=
  wire_u16 (sub_packet_id p) ++ concat (sub_topic_wire <$> sub_topics p).

Lemma writes_sub_topics (ts : list (str * QoS)) :
  Forall (fun t => wire_len_ok t.1) ts ->
  writes (write_sub_topics ts) tt (concat (sub_topic_wire <$> ts)).
Proof.
  induction 1 as [|[t q] ts Ht _ IH]; [apply writes_ret|].
  cbn [write_sub_topics fmap list_fmap concat]. unfold sub_topic_wire at 1. cbn [fst snd].
  rewrite <- (assoc_L (++)). apply writes_bind_unit; [by apply writes_bytes|].
  apply writes_bind_unit; [apply writes_u8|done].
Qed.

Lemma subscribe_size_spec (ts : list (str * QoS)) n :
  subscribe_size n ts = (n + length (concat (sub_topic_wire <$> ts)))%nat.
Proof.
  revert n. induction ts as [|[t q] ts IH]; intros n; cbn [subscribe_size fmap list_fmap concat].
  - cbn. lia.
  - rewrite IH. unfold sub_topic_wire at 2. cbn [fst snd].
    rewrite !length_app, wire_bytes_length. unfold array_size. cbn [length]. lia.
Qed.

#[global] Instance SubscribePacket_EncodeOk : EncodeOk SubscribePacket.
Proof.
  refine {| enc_valid := SubscribePacket_valid; enc_body := SubscribePacket_body;
            enc_flags _ := 2 |}.
  - intros p [Hid Ht]. apply writes_bind_unit; [by apply writes_u16|].
    by apply writes_then_ret, writes_sub_topics.
  - intros p _. cbn [compute_size SubscribePacket_Encode]. by rewrite subscribe_size_spec.
  - intros. lia.
Defined.

Definition UnsubscribePacket_valid (p : UnsubscribePacket) : Prop :=
  is_u16 (unsub_packet_id p) /\ Forall wire_len_ok (unsub_topics p).

Definition UnsubscribePacket_body (p : UnsubscribePacket) : bytes :=
  wire_u16 (unsub_packet_id p) ++ concat (wire_bytes <$> unsub_topics p).

Lemma writes_unsub_topics (ts : list str) :
  Forall wire_len_ok ts -> writes (write_unsub_topics ts) tt (concat (wire_bytes <$> ts)).
Proof.
  induction 1 as [|t ts Ht _ IH]; [apply writes_ret|].
  by apply writes_bind_unit; [apply writes_bytes|].
Qed.

Lemma unsubscribe_size_spec (ts : list str) n :
  unsubscribe_size n ts = (n + length (concat (wire_bytes <$> ts)))%nat.
Proof.
  revert n. induction ts as [|t ts IH]; intros n; cbn [unsubscribe_size fmap list_fmap concat].
  - cbn. lia.
  - rewrite IH, length_app, wire_bytes_length. unfold array_size. lia.
Qed.

#[global] Instance UnsubscribePacket_EncodeOk : EncodeOk UnsubscribePacket.
Proof.
  refine {| enc_valid := UnsubscribePacket_valid; enc_body := UnsubscribePacket_body;
            enc_flags _ := 2 |}.
  - intros p [Hid Ht]. apply writes_bind_unit; [by apply writes_u16|].
    by apply writes_then_ret, writes_unsub_topics.
  - intros p _. cbn [compute_size UnsubscribePacket_Encode]. by rewrite unsubscribe_size_spec.
  - intros. lia.
Defined.

Definition sub_result_wire (r : SubscriptionResult) : u8 :=
  match r with Ok q => QoS_as_u8 q | Err _ => 128 end.

(** A SUBACK packet together with the results it stands for. *)
Definition SubAck_holds (p : SubAckPacket) (rs : list SubscriptionResult) : Prop :=
  sub_results p = Ret rs /\ SubAckPacket_compute_size p = (length rs + 2)%nat.

Lemma writes_sub_results (rs : list SubscriptionResult) :
  writes (write_sub_results rs) tt (sub_result_wire <$> rs).
Proof.
  induction rs as [|r rs IH]; [apply writes_ret|]. cbn [write_sub_results fmap list_fmap].
  apply (writes_bind_unit _ _ _ [sub_result_wire r]); [|done].
  destruct r; apply writes_u8.
Qed.

Definition SubAck_results (p : SubAckPacket) : list SubscriptionResult :=
  match sub_results p with Ret rs => rs | _ => [] end.

Definition SubAck_valid (p : SubAckPacket) : Prop :=
  is_u16 (suback_packet_id p) /\ SubAck_holds p (SubAck_results p).

#[global] Instance SubAckPacket_EncodeOk : EncodeOk SubAckPacket.
Proof.
  refine {| enc_valid := SubAck_valid;
            enc_body p := wire_u16 (suback_packet_id p) ++ (sub_result_wire <$> SubAck_results p);
            enc_flags _ := 0 |}.
  - intros p (Hid & Hr & _).
    change (encode p) with (SubAckPacket_encode p). unfold SubAckPacket_encode. rewrite Hr.
    apply writes_bind_unit; [by apply writes_u16|].
    apply (writes_bind _ _ (SubAck_results p) _ []); [intros pre [|] post; [|done]; intros _; cbn|].
    + by rewrite Nat.add_0_r.
    + apply writes_then_ret, writes_sub_results.
  - intros p (_ & _ & Hs). cbn [compute_size SubAckPacket_Encode]. rewrite Hs.
    rewrite length_app, length_fmap, wire_u16_length. f_equal. lia.
  - intros. lia.
Defined.

(** *** PINGREQ, DISCONNECT, PINGRESP *)

#[global] Instance PingReqPacket_EncodeOk : EncodeOk PingReqPacket.
Proof.
  refine {| enc_valid _ := True; enc_body _ := []; enc_flags _ := 0 |}; intros; try lia; try done.
  apply writes_ret.
Defined.

#[global] Instance DisconnectPacket_EncodeOk : EncodeOk DisconnectPacket.
Proof.
  refine {| enc_valid _ := True; enc_body _ := []; enc_flags _ := 0 |}; intros; try lia; try done.
  apply writes_ret.
Defined.

#[global] Instance PingRespPacket_EncodeOk : EncodeOk PingRespPacket.
Proof.
  refine {| enc_valid _ := True; enc_body _ := []; enc_flags _ := 0 |}; intros; try lia; try done.
  apply writes_ret.
Defined.

(* ------------------------------------------------------------------ *)
(** ** Round trips                                                     *)
(* ------------------------------------------------------------------ *)

Lemma BigEndian_wire (x : u16) : is_u16 x ->
  BigEndian_to_native (mkBigEndian (u16_of_mem native (wire_u16 x))) = x.
Proof. apply wire_u16_value. Qed.

Lemma reads_then_ret {A B} (m : reader A) (f : A -> B) a d :
  reads m a d -> reads (x ← m; mret (f x)) (f a) d.
Proof. intros H. rewrite <- (app_nil_r d). by eapply reads_bind; [|apply reads_ret]. Qed.

Lemma reads_assert {B} (b : bool) (k : reader B) x d :
  b = true -> reads k x d -> reads (assert_ b;; k) x d.
Proof. intros -> H. by apply (reads_bind _ _ tt _ []); [apply reads_ret|]. Qed.

Lemma reads_eq {A} (m : reader A) a d d' : reads m a d -> d = d' -> reads m a d'.
Proof. by intros H <-. Qed.

(** An optional field: read when its flag bit is set. *)
Lemma reads_opt {A} (absent : bool) (m : reader (option A)) (f : A -> bytes) o :
  absent = negb (bool_decide (is_Some o)) ->
  (forall x, o = Some x -> reads m (Some x) (f x)) ->
  reads (if absent then mret None else m) o (opt_wire f o).
Proof. intros ->. destruct o; cbn; intros H; [by apply H|apply reads_ret]. Qed.

(** The control byte of a frame names its type and its flags. *)
Definition frame_ctrl (t : PacketType) (flags : u8) : ControlField :=
  mkControlField (16 * PacketType_as_u8 t + flags).

Lemma flags_of_frame (t : PacketType) (f : u8) : 0 <= f < 16 -> flags_of (frame_ctrl t f) = f.
Proof. intros. by apply ctrl_facts. Qed.

Ltac decide_types :=
  repeat first [rewrite bool_decide_true by done | rewrite bool_decide_false by done].
Ltac dispatch_type := rewrite ?is_type_ctrl by (cbn; lia); decide_types.

(** *** CONNECT *)

Lemma connect_flags_facts (p : ConnectPacket) :
  let f := ConnectPacket_flags p in
  (Z.land f WILL_FLAG =? 0) = negb (bool_decide (is_Some (will p))) /\
  (Z.land f USER_NAME =? 0) = negb (bool_decide (is_Some (username p))) /\
  (Z.land f PASSWORD =? 0) = negb (bool_decide (is_Some (password p))) /\
  negb (Z.land f CLEAN_SESSION =? 0) = clean_session p /\
  (forall w, will p = Some w ->
     negb (Z.land f WILL_RETAIN =? 0) = will_retain w /\
     QoS_of_u8 (Z.land (Z.shiftr f WILL_QOS_POS) 3) = Some (will_qos w)).
Proof.
  destruct p as [[] ka id [[t m [] []]|] [u|] [pw|]]; vm_compute;
    repeat split; intros; simplify_eq; done.
Qed.

Definition ConnectPacket_strs (p : ConnectPacket) : Prop :=
  is_str (client_id p) /\ opt_valid (fun w => is_str (will_topic w)) (will p) /\
  opt_valid is_str (username p).

Lemma ConnectHeader_view (flags : u8) (ka : u16) :
  ConnectHeader_of_mem (ConnectHeader_wire flags ka) =
    mkConnectHeader (mkBigEndian (u16_of_mem native (wire_u16 4))) MQTT_name 4 flags
      (mkBigEndian (u16_of_mem native (wire_u16 ka))).
Proof. done. Qed.

Lemma reads_connect (p : ConnectPacket) :
  ConnectPacket_valid p -> ConnectPacket_strs p ->
  reads (IncomingConnectPacket_decode (frame_ctrl TConnect 0)) p (ConnectPacket_body p).
Proof.
  intros (Hka & Hid & Hw & Hu & Hp) (Sid & Sw & Su).
  destruct (connect_flags_facts p) as (Fw & Fu & Fp & Fc & Fq).
  unfold IncomingConnectPacket_decode, ConnectPacket_body.
  apply reads_assert; [by rewrite flags_of_frame by lia|].
  eapply reads_bind; [by apply reads_trivial|]. rewrite ConnectHeader_view.
  cbn [protocol_name_len protocol_name protocol_level connect_flags hdr_keep_alive].
  do 3 (apply reads_assert; [done|]).
  eapply reads_bind; [by apply reads_utf8|].
  eapply (reads_bind _ _ (will p)).
  { apply reads_opt; [done|]. intros [t m r q] Ew. destruct (Fq _ Ew) as [-> ->].
    rewrite Ew in Hw, Sw. destruct Hw as [Ht Hm]. unfold LastWill_wire.
    eapply reads_bind; [by apply reads_utf8|].
    apply (reads_then_ret _ (fun m => Some (mkLastWill t m r q))). by apply reads_byte_array. }
  eapply (reads_bind _ _ (username p)).
  { apply reads_opt; [done|]. intros x Ex. rewrite Ex in Hu, Su.
    apply (reads_then_ret _ Some). by apply reads_utf8. }
  rewrite <- (app_nil_r (opt_wire wire_bytes (password p))).
  eapply (reads_bind _ _ (password p)).
  { apply reads_opt; [done|]. intros x Ex. rewrite Ex in Hp.
    apply (reads_then_ret _ Some). by apply reads_byte_array. }
  rewrite Fc, BigEndian_wire by done. destruct p. apply reads_ret.
Qed.

Lemma connect_decodes (p : ConnectPacket) :
  ConnectPacket_valid p -> ConnectPacket_strs p -> len (ConnectPacket_body p) < MAX_CONTENT ->
  make_arc_packet p = Ret (frame TConnect 0 (ConnectPacket_body p)) /\
  broker_from_bytes (frame_ctrl TConnect 0) (ConnectPacket_body p) = (Ret (BrConnect p), []).
Proof.
  intros Hv Hs Hl. split; [exact (make_arc_packet_frame p Hv Hl)|].
  apply reads_end. unfold broker_from_bytes, frame_ctrl. dispatch_type.
  apply (reads_then_ret _ BrConnect). by apply reads_connect.
Qed.

(** The broker decodes the CONNECT packet a client builds back to the
    client's own settings, every optional field included, and consumes all
    of it. *)
Theorem connect_roundtrip (p : ConnectPacket) :
  ConnectPacket_valid p -> ConnectPacket_strs p -> len (ConnectPacket_body p) < MAX_CONTENT ->
  make_arc_packet p = Ret (frame TConnect 0 (ConnectPacket_body p)) /\
  broker_from_bytes (frame_ctrl TConnect 0) (ConnectPacket_body p) = (Ret (BrConnect p), []).
Proof. apply connect_decodes. Qed.

(** *** PUBLISH *)

Lemma flags_ok_cases (f : PublishFlags) : flags_ok f ->
  PublishFlags_try_from (flags_byte f) = Ok f.
Proof.
  destruct f as [b]. intros [Hb Hq]. cbn in Hb.
  unfold PublishFlags_try_from. cbn [flags_byte].
  assert (negb (Z.land b (not8 ALL_BITS) =? 0) = false) as ->.
  { apply negb_false_iff. by apply (seqZ_forall (fun b => Z.land b (not8 ALL_BITS) =? 0) 16). }
  destruct Hq as [q Hq]. apply QoS_of_u8_Some in Hq. cbn [flags_byte] in Hq. rewrite Hq.
  by destruct q.
Qed.

Lemma PublishFlags_new_ok (dup : bool) (q : QoS) (retain : bool) :
  flags_ok (PublishFlags_new dup q retain).
Proof. destruct dup, q, retain; (split; [vm_compute; split; congruence | vm_compute; eauto]). Qed.

(** The packet ID a decoder reports: zero for [AtMostOnce]. *)
Definition effective_id (f : PublishFlags) (id : u16) : u16 :=
  match flags_qos f with Some AtMostOnce | None => 0 | _ => id end.

(** The buffer of a message with these contents. *)
Definition message (f : PublishFlags) (i : u16) (t : str) (d : bytes) : IncomingPublishPacket :=
  mkIncomingPublish (header_bytes (mkInternalHeader (length t) (mkPublishInfo f i)) ++ (Some <$> t ++ d)).

Lemma le_bytes_length n x : length (le_bytes n x) = n.
Proof. revert x. induction n as [|n IH]; intros x; cbn; [done|]. by rewrite IH. Qed.

Lemma le_round_trip n x : 0 <= x < 256 ^ Z.of_nat n -> le_value (le_bytes n x) = x.
Proof.
  revert x. induction n as [|n IH]; intros x Hx; cbn [le_bytes le_value].
  - change (256 ^ Z.of_nat 0) with 1 in Hx. lia.
  - rewrite Nat2Z.inj_succ, Z.pow_succ_r in Hx by lia. rewrite IH.
    + pose proof (Z.div_mod x 256). lia.
    + split; [apply Z.div_pos; lia|]. apply Z.div_lt_upper_bound; lia.
Qed.

Lemma header_bytes_length h : length (header_bytes h) = HDR_SIZE.
Proof. unfold header_bytes. by rewrite length_app, length_fmap, !length_app, !le_bytes_length. Qed.

Lemma mapM_init (l : bytes) : mapM id (Some <$> l : list (option u8)) = Some l.
Proof. induction l as [|b l IH]; [done|]. cbn. by rewrite IH. Qed.

(** Reading initialised bytes between others. *)
Lemma raw_read_app (l r : list (option u8)) (bs : bytes) pos n : pos = length l -> n = length bs ->
  raw_read pos n (l ++ (Some <$> bs) ++ r) = Ret bs.
Proof.
  intros -> ->. unfold raw_read. destruct (Nat.ltb_spec (length (l ++ (Some <$> bs) ++ r)) (length l + length bs)) as [Hl|_].
  { rewrite !length_app, length_fmap in Hl. lia. }
  rewrite drop_app_length, take_app_le, take_ge by (by rewrite length_fmap). by rewrite mapM_init.
Qed.

Lemma raw_write_replicate (l data : list (option u8)) k : (length data <= k)%nat ->
  raw_write (length l) data (l ++ replicate k None) = Some ((l ++ data) ++ replicate (k - length data) None).
Proof.
  intros Hk. unfold raw_write. destruct (Nat.ltb_spec (length (l ++ replicate k (None : option u8))) (length l + length data)) as [Hl|_].
  { rewrite length_app, length_replicate in Hl. lia. }
  rewrite take_app_length, <- drop_drop, drop_app_length, drop_replicate, (assoc_L (++)). done.
Qed.

(** The buffer is written in full, and nothing outside of it. *)
Lemma fill_arc_message f i t d :
  fill_arc (mkInternalHeader (length t) (mkPublishInfo f i)) t d = Some (arc (message f i t d)).
Proof.
  unfold fill_arc, message. set (h := header_bytes _). assert (length h = HDR_SIZE) as Hh by apply header_bytes_length.
  pose proof (raw_write_replicate [] h (HDR_SIZE + length t + length d)) as W1. cbn [length app] in W1.
  rewrite W1 by lia. cbn [mbind option_bind].
  pose proof (raw_write_replicate h (Some <$> t) (HDR_SIZE + length t + length d - length h)) as W2.
  rewrite Hh, length_fmap in W2. rewrite Hh, W2 by lia. cbn [mbind option_bind].
  pose proof (raw_write_replicate (h ++ (Some <$> t)) (Some <$> d) (HDR_SIZE + length t + length d - HDR_SIZE - length t)) as W3.
  rewrite length_app, Hh, !length_fmap in W3. rewrite W3 by lia. cbn [arc]. rewrite fmap_app.
  replace (_ - _)%nat with 0%nat by lia. by rewrite app_nil_r, (assoc_L (++)).
Qed.

Lemma message_length f i t d : length (arc (message f i t d)) = (HDR_SIZE + length t + length d)%nat.
Proof. cbn [arc message]. rewrite length_app, header_bytes_length, length_fmap, length_app. lia. Qed.

(** What the accessors read. *)
Lemma message_info f i t d : is_u16 i -> info (message f i t d) = Ret (mkPublishInfo f i).
Proof.
  intros Hi. unfold info, message. cbn [arc]. unfold header_bytes. cbn [topic_len hdr_info info_packet_id info_flags].
  rewrite !fmap_app, <- !(assoc_L (++)).
  rewrite (raw_read_app (Some <$> le_bytes 8 (Z.of_nat (length t))) _ (le_bytes 2 i)) by (by rewrite ?length_fmap, le_bytes_length).
  cbn [outcome_bind]. rewrite (assoc_L (++)).
  rewrite (raw_read_app ((Some <$> le_bytes 8 (Z.of_nat (length t))) ++ (Some <$> le_bytes 2 i)) _ [flags_byte f])
    by (by rewrite ?length_app, ?length_fmap, ?le_bytes_length).
  cbn [outcome_bind]. rewrite le_round_trip by (change (256 ^ Z.of_nat 2) with 65536; unfold is_u16 in Hi; lia).
  cbn [le_value]. rewrite Z.mul_0_r, Z.add_0_r. by destruct f.
Qed.

Lemma message_topic_len f i t d : is_u16 (len t) -> read_topic_len (message f i t d) = Ret (length t).
Proof.
  intros Ht. unfold read_topic_len, message. cbn [arc]. unfold header_bytes. cbn [topic_len hdr_info].
  rewrite !fmap_app, <- !(assoc_L (++)).
  pose proof (fun r => raw_read_app [] r (le_bytes 8 (Z.of_nat (length t))) 0 8 eq_refl) as Hr. cbn [app] in Hr.
  rewrite Hr by (by rewrite le_bytes_length).
  cbn [outcome_bind]. rewrite le_round_trip, Nat2Z.id; [done|].
  change (256 ^ Z.of_nat 8) with (2 ^ 64). unfold is_u16 in Ht. lia.
Qed.

Lemma message_topic f i t d : is_u16 (len t) -> is_str t -> topic (message f i t d) = Ret t.
Proof.
  intros Ht Hs. unfold topic. rewrite message_topic_len by done. cbn [outcome_bind]. unfold arc_slice.
  rewrite message_length. destruct (Nat.ltb_spec (HDR_SIZE + length t) HDR_SIZE); [lia|].
  destruct (Nat.ltb_spec (HDR_SIZE + length t + length d) (HDR_SIZE + length t)); [lia|]. cbn [orb].
  unfold message. cbn [arc]. rewrite fmap_app, raw_read_app by (rewrite ?header_bytes_length; lia).
  cbn [outcome_bind]. by rewrite Hs.
Qed.

Lemma message_payload f i t d : is_u16 (len t) -> payload (message f i t d) = Ret d.
Proof.
  intros Ht. unfold payload. rewrite message_topic_len by done. cbn [outcome_bind]. unfold arc_slice.
  rewrite message_length. destruct (Nat.ltb_spec (HDR_SIZE + length t + length d) (HDR_SIZE + length t)); [lia|].
  rewrite Nat.ltb_irrefl. cbn [orb]. unfold message. cbn [arc].
  rewrite fmap_app, (assoc_L (++)), <- (app_nil_r (Some <$> d)), raw_read_app; [done|..].
  - by rewrite length_app, header_bytes_length, length_fmap.
  - lia.
Qed.

(** The bytes of the buffer that were never written are the padding of the
    header: the contract of [assume_init] is broken for every message. *)
Definition padding_only (m : IncomingPublishPacket) : Prop :=
  forall k, arc m !! k = Some None <-> (11 <= k < HDR_SIZE)%nat.

Lemma message_padding f i t d : padding_only (message f i t d).
Proof.
  intros k. unfold message. cbn [arc]. unfold header_bytes. rewrite <- (assoc_L (++)).
  assert (forall (l : bytes) j, (Some <$> l : list (option u8)) !! j <> Some None) as Hsome.
  { intros l j. rewrite list_lookup_fmap. by destruct (l !! j). }
  assert (length (le_bytes 8 (Z.of_nat (length t)) ++ le_bytes 2 i ++ [flags_byte f]) = 11%nat) as Hl
    by (by rewrite !length_app, !le_bytes_length).
  destruct (decide (k < 11)%nat) as [Hk|Hk].
  { rewrite lookup_app_l by (rewrite length_fmap; cbn [topic_len hdr_info info_packet_id info_flags]; lia). split; [by intros ?%Hsome|lia]. }
  rewrite lookup_app_r by (rewrite length_fmap; cbn [topic_len hdr_info info_packet_id info_flags]; lia).
  rewrite length_fmap. cbn [topic_len hdr_info info_packet_id info_flags]. rewrite Hl.
  destruct (decide (k < 16)%nat) as [Hk'|Hk'].
  - rewrite lookup_app_l by (rewrite length_replicate; lia). rewrite lookup_replicate_2 by lia. unfold HDR_SIZE. split; [lia|done].
  - rewrite lookup_app_r by (rewrite length_replicate; lia). unfold HDR_SIZE. split; [by intros ?%Hsome|lia].
Qed.

Definition received_publish (p : OutgoingPublishPacket) : IncomingPublishPacket :=
  message (out_flags p) (effective_id (out_flags p) (out_packet_id p)) (out_topic p) (out_payload p).

Lemma decode_publish (p : OutgoingPublishPacket) :
  OutgoingPublish_valid p -> is_str (out_topic p) ->
  IncomingPublish_decode (frame_ctrl TPublish (flags_byte (out_flags p))) (OutgoingPublish_body p)
  = (Ret (received_publish p), []).
Proof.
  intros (Hf & Ht & Hid) Hs. pose proof Hf as [Hr [q Hq]].
  unfold IncomingPublish_decode, OutgoingPublish_body.
  rewrite flags_of_frame, flags_ok_cases by done.
  unfold mbind at 1, stm_bind at 1. rewrite reads_utf8 by done.
  unfold received_publish, effective_id, publish_id_wire. rewrite Hq, QoS_ge_ALO.
  destruct q.
  { unfold mbind, stm_bind. cbn [mret stm_ret read_remaining app]. by rewrite fill_arc_message. }
  all: unfold mbind at 1, stm_bind at 1; rewrite (reads_then_ret _ BigEndian_to_native _ _ (reads_u16 _)).
  all: rewrite BigEndian_wire by done; unfold mbind, stm_bind; cbn [read_remaining]; by rewrite fill_arc_message.
Qed.

Lemma effective_id_u16 f i : is_u16 i -> is_u16 (effective_id f i).
Proof. intros Hi. unfold effective_id. by destruct (flags_qos f) as [[]|]. Qed.

Lemma received_parts (p : OutgoingPublishPacket) : OutgoingPublish_valid p -> is_str (out_topic p) ->
  topic (received_publish p) = Ret (out_topic p) /\
  payload (received_publish p) = Ret (out_payload p) /\
  info (received_publish p) = Ret (mkPublishInfo (out_flags p) (effective_id (out_flags p) (out_packet_id p))).
Proof.
  intros (_ & Ht & Hid) Hs. split_and!; [by apply message_topic|by apply message_payload|].
  by apply message_info, effective_id_u16.
Qed.

Lemma publish_decodes (p : OutgoingPublishPacket) :
  OutgoingPublish_valid p -> is_str (out_topic p) ->
  let c := frame_ctrl TPublish (flags_byte (out_flags p)) in
  from_bytes c (OutgoingPublish_body p) = (Ret (InPublish (received_publish p)), []) /\
  broker_from_bytes c (OutgoingPublish_body p) = (Ret (BrPublish (received_publish p)), []).
Proof.
  intros Hv Hs c. pose proof (decode_publish p Hv Hs) as Hd. fold c in Hd. destruct Hv as ((Hr & _) & _).
  assert (forall t, is_type c t = bool_decide (TPublish = t)) as Ht
    by (intros t; by apply is_type_ctrl).
  unfold from_bytes, broker_from_bytes. rewrite !Ht.
  decide_types.
  unfold mbind, stm_bind. rewrite Hd. done.
Qed.

(** C32: A message published with any flags reaches the other side with its
    topic, its payload and its flags intact, and with its packet ID when the
    QoS gives it one. *)
Theorem publish_roundtrip (p : OutgoingPublishPacket) :
  OutgoingPublish_valid p -> is_str (out_topic p) -> len (OutgoingPublish_body p) < MAX_CONTENT ->
  let c := frame_ctrl TPublish (flags_byte (out_flags p)) in
  exists m,
    make_arc_packet p = Ret (frame TPublish (flags_byte (out_flags p)) (OutgoingPublish_body p)) /\
    from_bytes c (OutgoingPublish_body p) = (Ret (InPublish m), []) /\
    broker_from_bytes c (OutgoingPublish_body p) = (Ret (BrPublish m), []) /\
    topic m = Ret (out_topic p) /\ payload m = Ret (out_payload p) /\
    info m = Ret (mkPublishInfo (out_flags p) (effective_id (out_flags p) (out_packet_id p))).
Proof.
  intros Hv Hs Hl c. exists (received_publish p).
  split; [exact (make_arc_packet_frame p Hv Hl)|].
  destruct (publish_decodes p Hv Hs) as [Hf Hb]. destruct (received_parts p Hv Hs) as (-> & -> & ->).
  by split_and!.
Qed.

(** *** SUBSCRIBE and UNSUBSCRIBE *)

Lemma read_sub_topics_all (ts : list (str * QoS)) fuel acc :
  Forall (fun t => wire_len_ok t.1 /\ is_str t.1) ts -> (length ts < fuel)%nat ->
  read_sub_topics fuel acc (concat (sub_topic_wire <$> ts)) = (Ret (acc ++ ts), []).
Proof.
  revert fuel acc. induction ts as [|[t q] ts IH]; intros [|fuel] acc Hts Hf; cbn in Hf; try lia.
  - cbn. by rewrite app_nil_r.
  - apply Forall_cons_1 in Hts as [[Hl Hs] Hts]. cbn [fst] in *.
    cbn [read_sub_topics fmap list_fmap concat]. unfold sub_topic_wire at 1. cbn [fst snd].
    rewrite <- (assoc_L (++)). unfold mbind, stm_bind, remaining, gets.
    rewrite !length_app, wire_bytes_length. cbn [Nat.ltb Nat.leb Nat.add].
    rewrite reads_utf8 by done. rewrite reads_u8, QoS_of_as_u8.
    rewrite IH by (done || lia). by rewrite <- (assoc_L (++)).
Qed.

Lemma sub_topics_length (ts : list (str * QoS)) :
  (length ts <= length (concat (sub_topic_wire <$> ts)))%nat.
Proof.
  induction ts as [|[t q] ts IH]; cbn [fmap list_fmap concat length]; [lia|].
  unfold sub_topic_wire at 1. rewrite !length_app, wire_bytes_length. cbn [length] in *. lia.
Qed.

(** The broker decodes a SUBSCRIBE packet back to the topics and the QoS
    levels the client asked for, whatever their number. *)
Theorem subscribe_roundtrip (p : SubscribePacket) :
  is_u16 (sub_packet_id p) -> Forall (fun t => wire_len_ok t.1 /\ is_str t.1) (sub_topics p) ->
  len (SubscribePacket_body p) < MAX_CONTENT ->
  make_arc_packet p = Ret (frame TSubscribe 2 (SubscribePacket_body p)) /\
  broker_from_bytes (frame_ctrl TSubscribe 2) (SubscribePacket_body p) = (Ret (BrSubscribe p), []).
Proof.
  intros Hid Hts Hl. split.
  { refine (make_arc_packet_frame p _ Hl). split; [done|]. eapply Forall_impl; [|exact Hts]. by intros ? []. }
  unfold broker_from_bytes, frame_ctrl. dispatch_type.
  fold (frame_ctrl TSubscribe 2). unfold IncomingSubscribe_decode, SubscribePacket_body.
  rewrite flags_of_frame by lia. unfold mbind, stm_bind, assert_; cbn [Z.eqb Pos.eqb mret stm_ret].
  rewrite reads_u16. cbn [remaining gets].
  rewrite read_sub_topics_all; [|done|pose proof (sub_topics_length (sub_topics p)); lia].
  rewrite BigEndian_wire by done. by destruct p.
Qed.

Lemma read_unsub_topics_all (ts : list str) fuel acc :
  Forall (fun t => wire_len_ok t /\ is_str t) ts -> (length ts < fuel)%nat ->
  read_unsub_topics fuel acc (concat (wire_bytes <$> ts)) = (Ret (acc ++ ts), []).
Proof.
  revert fuel acc. induction ts as [|t ts IH]; intros [|fuel] acc Hts Hf; cbn in Hf; try lia.
  - cbn. by rewrite app_nil_r.
  - apply Forall_cons_1 in Hts as [[Hl Hs] Hts].
    cbn [read_unsub_topics fmap list_fmap concat]. unfold mbind, stm_bind, remaining, gets.
    rewrite length_app, wire_bytes_length. cbn [Nat.ltb Nat.leb Nat.add].
    rewrite reads_utf8, IH by (done || lia). by rewrite <- (assoc_L (++)).
Qed.

Lemma unsub_topics_length (ts : list str) :
  (length ts <= length (concat (wire_bytes <$> ts)))%nat.
Proof.
  induction ts as [|t ts IH]; cbn [fmap list_fmap concat length]; [lia|].
  rewrite length_app, wire_bytes_length. lia.
Qed.

(** The broker decodes an UNSUBSCRIBE packet back to its topics. *)
Theorem unsubscribe_roundtrip (p : UnsubscribePacket) :
  is_u16 (unsub_packet_id p) -> Forall (fun t => wire_len_ok t /\ is_str t) (unsub_topics p) ->
  len (UnsubscribePacket_body p) < MAX_CONTENT ->
  make_arc_packet p = Ret (frame TUnsubscribe 2 (UnsubscribePacket_body p)) /\
  broker_from_bytes (frame_ctrl TUnsubscribe 2) (UnsubscribePacket_body p)
  = (Ret (BrUnsubscribe p), []).
Proof.
  intros Hid Hts Hl. split.
  { refine (make_arc_packet_frame p _ Hl). split; [done|]. eapply Forall_impl; [|exact Hts]. by intros ? []. }
  unfold broker_from_bytes, frame_ctrl. dispatch_type.
  fold (frame_ctrl TUnsubscribe 2). unfold IncomingUnsub_decode, UnsubscribePacket_body.
  rewrite flags_of_frame by lia. unfold mbind, stm_bind, assert_; cbn [Z.eqb Pos.eqb mret stm_ret].
  rewrite reads_u16. cbn [remaining gets].
  rewrite read_unsub_topics_all; [|done|pose proof (unsub_topics_length (unsub_topics p)); lia].
  rewrite BigEndian_wire by done. by destruct p.
Qed.

(** *** The broker's answers *)

(** Wrapping a simple packet in the constructor of its type. *)
Definition incoming_simple (k : SimpleKind) : SimplePacket k -> IncomingPacket :=
  match k with
  | KPubAck => InPubAck | KPubRec => InPubRec | KPubRel => InPubRel
  | KPubComp => InPubComp | KUnsubAck => InUnsubAck
  end.

Lemma reads_simple (k : SimpleKind) (c : ControlField) (id : u16) :
  is_u16 id -> reads (SimplePacket_decode k c) (mkSimple id) (wire_u16 id).
Proof.
  intros Hid.
  pose proof (reads_then_ret _ (fun x => mkSimple (k := k) (BigEndian_to_native x)) _ _
    (reads_u16 id)) as H.
  cbv beta in H. by rewrite (BigEndian_wire id Hid) in H.
Qed.

(** Every packet of the form "type and packet ID" (PUBACK, PUBREC, PUBREL,
    PUBCOMP, UNSUBACK) survives the wire: the client decodes what it or the
    broker encoded to the same type and the same ID. *)
Theorem ack_roundtrip (k : SimpleKind) (id : u16) :
  is_u16 id ->
  make_arc_packet (mkSimple (k := k) id) = Ret (frame (simple_type k) (simple_flags k) (wire_u16 id)) /\
  from_bytes (frame_ctrl (simple_type k) (simple_flags k)) (wire_u16 id)
  = (Ret (incoming_simple k (mkSimple id)), []).
Proof.
  intros Hid. split.
  { refine (make_arc_packet_frame (mkSimple (k := k) id) Hid _). done. }
  unfold from_bytes, frame_ctrl. rewrite !is_type_ctrl by (destruct k; cbn; lia).
  destruct k; cbn [simple_type simple_flags]; decide_types; apply reads_end;
    [ apply (reads_then_ret _ InPubAck) | apply (reads_then_ret _ InPubRec)
    | apply (reads_then_ret _ InPubRel) | apply (reads_then_ret _ InPubComp)
    | apply (reads_then_ret _ InUnsubAck) ]; by apply reads_simple.
Qed.

(** The client reads from a CONNACK the result the broker put in it: the
    session-present flag, or the refusal with its code. *)
Theorem connack_roundtrip (p : ConnAckPacket) :
  ConnAck_valid p ->
  exists body,
    make_arc_packet p = Ret (frame TConnAck 0 body) /\
    from_bytes (frame_ctrl TConnAck 0) body = (Ret (InConnAck p), []).
Proof.
  intros Hv. eexists. split; [exact (make_arc_packet_frame p Hv ltac:(done))|].
  destruct p as [[[]|[]]]; cbn in Hv; try done.
  change (5 < code < 256) in Hv.
  unfold from_bytes, frame_ctrl. dispatch_type.
  unfold ConnAckPacket_decode, mbind, stm_bind, read_trivial. cbn -[Z.land Z.eqb].
  rewrite (proj2 (Z.eqb_neq code 0)), (proj2 (Z.eqb_neq code 1)), (proj2 (Z.eqb_neq code 2)),
    (proj2 (Z.eqb_neq code 3)), (proj2 (Z.eqb_neq code 4)), (proj2 (Z.eqb_neq code 5)) by lia.
  done.
Qed.

(** Looping over the results of a SUBACK. *)
Lemma parse_sub_result_wire (r : SubscriptionResult) :
  parse_sub_result (sub_result_wire r) = Ok r.
Proof. by destruct r as [[]|[]]. Qed.

Lemma fill_static_all (rs pre post : list SubscriptionResult) s :
  (length rs <= length post)%nat ->
  fill_static (length pre) (sub_result_wire <$> rs) (pre ++ post) s
  = (Ret (pre ++ rs ++ drop (length rs) post), s).
Proof.
  revert pre post. induction rs as [|r rs IH]; intros pre post Hlen; [done|].
  destruct post as [|x post]; cbn in Hlen; [lia|].
  cbn [fill_static fmap list_fmap]. rewrite parse_sub_result_wire.
  destruct (Nat.ltb_spec (length pre) (length (pre ++ x :: post))) as [_|H];
    [|rewrite length_app in H; cbn in H; lia].
  unfold mbind, stm_bind, assert_. cbn [mret stm_ret].
  rewrite insert_app_r_alt, Nat.sub_diag by lia. cbn [insert list_insert].
  rewrite (cons_middle r pre post), (assoc_L (++)).
  replace (S (length pre)) with (length (pre ++ [r])) by (rewrite length_app; cbn; lia).
  rewrite IH by lia. cbn [length drop]. by rewrite <- !(assoc_L (++)).
Qed.

Lemma push_results_all (rs acc : list SubscriptionResult) s :
  push_results (sub_result_wire <$> rs) acc s = (Ret (acc ++ rs), s).
Proof.
  revert acc. induction rs as [|r rs IH]; intros acc; [by rewrite app_nil_r|].
  cbn [push_results fmap list_fmap]. rewrite parse_sub_result_wire, IH.
  by rewrite <- (assoc_L (++)).
Qed.

Lemma SubAck_new_holds (id : u16) (rs : list SubscriptionResult) :
  SubAck_holds (SubAckPacket_new id rs) rs.
Proof.
  unfold SubAck_holds, SubAckPacket_new, sub_results, SubAckPacket_compute_size.
  cbn [suback_list]. destruct (Nat.leb_spec (length rs) MAX_STATIC_SUBS); [|done].
  rewrite length_app. destruct (_ + _ <? _)%nat eqn:E; [apply Nat.ltb_lt in E; lia|].
  by rewrite take_app_length.
Qed.

(** The client reads from a SUBACK the results the broker put in it, in
    order, whether they fit in the in-place array or need a vector, and the
    packet it builds is the one [SubAckPacket::new] builds. *)
Theorem suback_roundtrip (id : u16) (rs : list SubscriptionResult) :
  is_u16 id -> len rs < MAX_CONTENT - 2 ->
  exists body,
    make_arc_packet (SubAckPacket_new id rs) = Ret (frame TSubAck 0 body) /\
    from_bytes (frame_ctrl TSubAck 0) body = (Ret (InSubAck (SubAckPacket_new id rs)), []) /\
    sub_results (SubAckPacket_new id rs) = Ret rs.
Proof.
  intros Hid Hlen. destruct (SubAck_new_holds id rs) as [Hr Hs].
  assert (SubAck_results (SubAckPacket_new id rs) = rs) as Heq
    by (unfold SubAck_results; by rewrite Hr).
  exists (wire_u16 id ++ (sub_result_wire <$> rs)). split_and!; [| |done].
  - pose proof (make_arc_packet_frame (SubAckPacket_new id rs)) as H.
    cbn [enc_valid enc_body enc_flags SubAckPacket_EncodeOk suback_packet_id SubAckPacket_new] in H.
    rewrite Heq in H. apply H.
    + split; [done|]. by rewrite Heq.
    + rewrite length_app, length_fmap, wire_u16_length. lia.
  - unfold from_bytes, frame_ctrl. dispatch_type.
    unfold SubAckPacket_decode, mbind, stm_bind. rewrite reads_u16.
    cbn [remaining gets]. rewrite length_fmap.
    unfold SubAckPacket_new. destruct (Nat.leb_spec (length rs) MAX_STATIC_SUBS).
    + pose proof (fill_static_all rs [] (replicate MAX_STATIC_SUBS (Err tt)) []) as H'.
      cbn [length app] in H'. cbn [read_remaining]. rewrite H' by (rewrite length_replicate; lia).
      by rewrite BigEndian_wire.
    + cbn [read_remaining]. rewrite push_results_all. by rewrite BigEndian_wire.
Qed.

(* ------------------------------------------------------------------ *)
(** ** Decoding arbitrary bytes                                        *)
(* ------------------------------------------------------------------ *)

(** What holds of a decoded packet, whatever the broker sent. *)
Definition IncomingPublish_wf (m : IncomingPublishPacket) : Prop :=
  (exists t, topic m = Ret t /\ is_str t) /\ (exists d, payload m = Ret d) /\
  (exists i, info m = Ret i /\ flags_ok (info_flags i) /\ is_u16 (info_packet_id i)) /\ padding_only m.

Lemma message_wf f i t d : flags_ok f -> is_u16 i -> is_u16 (len t) -> is_str t -> IncomingPublish_wf (message f i t d).
Proof.
  intros Hf Hi Ht Hs. split_and!.
  - exists t. by rewrite message_topic.
  - exists d. by rewrite message_payload.
  - eexists. rewrite message_info by done. by split_and!.
  - apply message_padding.
Qed.

Definition IncomingPacket_wf (p : IncomingPacket) : Prop :=
  match p with
  | InPublish m => IncomingPublish_wf m
  | InSubAck a => is_u16 (suback_packet_id a) /\ exists rs, sub_results a = Ret rs
  | InPubAck a => is_u16 (packet_id a)
  | InPubRec a => is_u16 (packet_id a)
  | InPubRel a => is_u16 (packet_id a)
  | InPubComp a => is_u16 (packet_id a)
  | InUnsubAck a => is_u16 (packet_id a)
  | InConnAck _ | InPingResp _ => True
  end.

Abbreviation any := (fun _ _ => True).

Lemma bytes_ok_u16 (l : bytes) : bytes_ok l -> length l = 2%nat ->
  is_u16 (BigEndian_to_native (mkBigEndian (u16_of_mem native l))).
Proof.
  intros Hl Hlen. destruct l as [|a [|b [|]]]; try done.
  apply Forall_cons_1 in Hl as [Ha Hl]. apply Forall_cons_1 in Hl as [Hb _].
  unfold BigEndian_to_native; cbn [be_raw]. rewrite u16_unwire by done.
  unfold is_u16, is_u8 in *. lia.
Qed.

Lemma wp_read_u16 (Q : BigEndian -> bytes -> Prop) (s : bytes) :
  bytes_ok s ->
  (forall x s', is_u16 (BigEndian_to_native x) -> bytes_ok s' -> Q x s') ->
  wp read_u16 Q any s.
Proof.
  intros Hs HQ. unfold read_u16. apply wp_bind.
  unfold wp, read_trivial. destruct (Nat.ltb_spec (length s) 2); [done|].
  apply HQ; [|by apply Forall_drop].
  apply bytes_ok_u16; [by apply Forall_take|]. rewrite length_take. lia.
Qed.

Lemma wp_read_byte_array (Q : bytes -> bytes -> Prop) (s : bytes) :
  bytes_ok s -> (forall x s', is_u16 (len x) -> bytes_ok s' -> Q x s') -> wp read_byte_array Q any s.
Proof.
  intros Hs HQ. unfold read_byte_array. apply wp_bind.
  unfold wp at 1, read_trivial. destruct (Nat.ltb_spec (length s) 2); [done|].
  unfold wp, split_slice. destruct (Nat.ltb_spec (length (drop 2 s)) (Z.to_nat (from_be native (u16_of_mem native (take 2 s))))); [done|].
  apply HQ; [|by apply Forall_drop, Forall_drop]. rewrite length_take, Nat.min_l by done.
  pose proof (bytes_ok_u16 (take 2 s)) as Hu. unfold BigEndian_to_native in Hu. cbn [be_raw] in Hu.
  destruct Hu as [Hu1 Hu2]; [by apply Forall_take|rewrite length_take; lia|]. rewrite Z2Nat.id by done. by split.
Qed.

Lemma wp_read_utf8 (Q : str -> bytes -> Prop) (s : bytes) :
  bytes_ok s -> (forall x s', is_u16 (len x) -> is_str x -> bytes_ok s' -> Q x s') -> wp read_utf8 Q any s.
Proof.
  intros Hs HQ. unfold read_utf8. apply wp_bind, wp_read_byte_array; [done|].
  intros x s' Hx Hs'. destruct (from_utf8 x) as [t|] eqn:E; [|done].
  apply from_utf8_Ok in E as [-> ?]. by apply HQ.
Qed.

Lemma try_from_flags_ok (v : u8) (f : PublishFlags) :
  0 <= v < 16 -> PublishFlags_try_from v = Ok f -> flags_ok f.
Proof.
  unfold PublishFlags_try_from. intros Hv H. repeat split_match; simplify_eq.
  split; [done|]. unfold flags_qos; cbn [flags_byte].
  assert (0 <= Z.shiftr (Z.land v QOS_MASK) 1).
  { apply Z.shiftr_nonneg, Z.land_nonneg. lia. }
  match goal with H : (_ <? _) = false |- _ => apply Z.ltb_ge in H; cbn in H end.
  unfold QoS_of_u8. repeat split_match; try by eexists. exfalso. lia.
Qed.

Lemma flags_of_range (c : ControlField) : 0 <= flags_of c < 16.
Proof. unfold flags_of. rewrite (land_low _ 4) by lia. apply Z.mod_pos_bound. lia. Qed.

Lemma wp_IncomingPublish_decode (c : ControlField) (s : bytes) :
  bytes_ok s -> wp (IncomingPublish_decode c) (fun m _ => IncomingPublish_wf m) any s.
Proof.
  intros Hs. unfold IncomingPublish_decode.
  destruct (PublishFlags_try_from (flags_of c)) as [f|e] eqn:Ef; [|done].
  pose proof (try_from_flags_ok _ _ (flags_of_range c) Ef) as Hf.
  apply wp_bind, wp_read_utf8; [done|]. intros t s1 Hl Ht Hs1.
  assert (forall id s2, is_u16 id ->
    wp (payload ← read_remaining;
        match fill_arc (mkInternalHeader (length t) (mkPublishInfo f id)) t payload with
        | Some uninit_arc => mret (mkIncomingPublish uninit_arc)
        | None => undefined
        end)
       (fun m _ => IncomingPublish_wf m) any s2) as Hend.
  { intros id s2 Hid. apply wp_bind. unfold wp at 1, read_remaining. rewrite fill_arc_message.
    apply wp_ret. by apply (message_wf f id t s2). }
  pose proof Hf as [_ [q Hq]]. rewrite Hq.
  apply wp_bind. destruct (QoS_ge q AtLeastOnce).
  - apply wp_bind, wp_read_u16; [done|]. intros x s2 Hx _. by apply wp_ret, Hend.
  - apply wp_ret, Hend. done.
Qed.

Lemma fill_static_safe (rs : bytes) i values (s : bytes) :
  (i + length rs <= length values)%nat ->
  wp (fill_static i rs values) (fun v _ => length v = length values) any s.
Proof.
  revert i values. induction rs as [|r rs IH]; intros i values Hl; [done|].
  cbn [fill_static length] in *. destruct (parse_sub_result r); [|done].
  apply wp_bind, wp_assert; [apply Nat.ltb_lt; lia|].
  eapply wp_mono; [apply IH|..]; rewrite ?length_insert; [lia|done|done].
Qed.

Lemma push_results_safe (rs : bytes) values (s : bytes) :
  wp (push_results rs values) any any s.
Proof.
  revert values. induction rs as [|r rs IH]; intros values; [done|].
  cbn [push_results]. destruct (parse_sub_result r); [|done]. apply IH.
Qed.

Lemma wp_SubAck_decode (c : ControlField) (s : bytes) :
  bytes_ok s ->
  wp (SubAckPacket_decode c)
     (fun a _ => is_u16 (suback_packet_id a) /\ exists rs, sub_results a = Ret rs) any s.
Proof.
  intros Hs. unfold SubAckPacket_decode. apply wp_bind, wp_read_u16; [done|].
  intros x s1 Hx Hs1. apply wp_bind, wp_gets, wp_bind, wp_if; intros Hn.
  - apply wp_bind. unfold wp at 1, read_remaining. apply wp_bind. apply Nat.leb_le in Hn.
    eapply wp_mono; [apply fill_static_safe; rewrite length_replicate; done| |done].
    intros v s2 Hv. rewrite length_replicate in Hv. do 2 apply wp_ret. split; [done|].
    unfold sub_results; cbn [suback_list]. destruct (Nat.ltb_spec (length v) (length s1)); [lia|]. eauto.
  - apply wp_bind. unfold wp at 1, read_remaining. apply wp_bind.
    eapply wp_mono; [apply push_results_safe| |done].
    intros v s2 _. do 2 apply wp_ret. split; [done|]. cbn. eauto.
Qed.

Lemma wp_Simple_decode k (c : ControlField) (s : bytes) :
  bytes_ok s -> wp (SimplePacket_decode k c) (fun a _ => is_u16 (packet_id a)) any s.
Proof. intros Hs. apply wp_bind, wp_read_u16; [done|]. intros x s' Hx _. by apply wp_ret. Qed.

Lemma wp_then_ret {S E A B} (m : stm S E A) (f : A -> B) (P : A -> Prop) (Q : B -> Prop) s :
  wp m (fun a _ => P a) any s -> (forall a, P a -> Q (f a)) ->
  wp (x ← m; mret (f x)) (fun b _ => Q b) any s.
Proof. intros Hm HQ. apply wp_bind. eapply wp_mono; [exact Hm| |done]. intros. by apply wp_ret, HQ. Qed.

Lemma from_bytes_safe (c : ControlField) (l : bytes) :
  bytes_ok l -> wp (from_bytes c) (fun p _ => IncomingPacket_wf p) any l.
Proof.
  intros Hl. unfold from_bytes.
  apply wp_if; intros _.
  { apply wp_bind. unfold ConnAckPacket_decode. apply wp_bind. unfold wp, read_trivial.
    by destruct (_ <? _)%nat. }
  apply wp_if; intros _; [by eapply wp_then_ret; [by apply wp_SubAck_decode|]|].
  apply wp_if; intros _; [by eapply wp_then_ret; [by apply wp_IncomingPublish_decode|]|].
  do 5 (apply wp_if; intros _; [by eapply wp_then_ret; [by apply wp_Simple_decode|]|]).
  by apply wp_if; intros _.
Qed.

(** C34: Decoding the bytes of any packet a broker can send does not panic,
    writes nothing outside of the buffer it allocates and reads no byte that
    was never written: it fails with a decode error, or returns a packet whose
    accessors are safe (the topic slice is in range, initialised and valid
    UTF-8, the payload slice is in range and initialised, the flags name a QoS,
    IDs are 16 bits, SUBACK results are in range). The bytes of a message's
    buffer that were never written, in breach of the contract of [assume_init],
    are exactly the five padding bytes of its header, which nothing reads. *)
Theorem from_bytes_total (c : ControlField) (l : bytes) :
  bytes_ok l ->
  (exists e s, from_bytes c l = (Throw e, s)) \/
  (exists p s, from_bytes c l = (Ret p, s) /\ IncomingPacket_wf p).
Proof.
  intros Hl. destruct (wp_run _ _ _ _ (from_bytes_safe c l Hl)) as [(p & s & ? & ?)|(e & s & ? & _)];
    [right|left]; eauto.
Qed.

(** The contract of [assume_init] is broken for every message that is
    received: the padding of the header was never written. *)
Theorem arc_padding_uninit (c : ControlField) (l rest : bytes) (m : IncomingPublishPacket) :
  bytes_ok l -> IncomingPublish_decode c l = (Ret m, rest) -> assume_init (arc m) = UB.
Proof.
  intros Hl E. destruct (wp_inv _ _ _ _ _ _ (wp_IncomingPublish_decode c l Hl) E) as (_ & _ & _ & Hpad).
  unfold assume_init. destruct (mapM id (arc m)) as [bs|] eqn:Em; [exfalso|done].
  assert (arc m !! 11%nat = Some None) as H11 by (apply Hpad; unfold HDR_SIZE; lia).
  apply mapM_Some_1 in Em. destruct (Forall2_lookup_l _ _ _ _ _ Em H11) as (b & _ & Hb). done.
Qed.

(** The publish flags keep their three fields, and the byte the client
    alters to mark a re-sent packet differs only in the DUP flag. *)
Lemma publish_flags_fields (dup : bool) (q : QoS) (retain : bool) :
  let f := PublishFlags_new dup q retain in
  is_dup f = dup /\ flags_qos f = Some q /\ was_retained f = retain /\
  PublishFlags_try_from (into_inner f) = Ok f /\
  Z.lor (16 * PacketType_as_u8 TPublish + flags_byte f) DUP
  = 16 * PacketType_as_u8 TPublish + flags_byte (PublishFlags_new true q retain).
Proof. by destruct dup, q, retain. Qed.

(* ------------------------------------------------------------------ *)
(** ** Concrete instances                                              *)
(* ------------------------------------------------------------------ *)

(** A client ["ab"] with a last will on ["w"], a user name and a password. *)
Definition sample_connect : ConnectPacket :=
  mkConnectPacket true 30 [97; 98] (Some (mkLastWill [119] [1; 2; 255] true ExactlyOnce))
    (Some [117]) (Some [0; 200]).

(** A QoS 2 message on ["a/b"]. *)
Definition sample_publish : OutgoingPublishPacket :=
  mkOutgoingPublish (PublishFlags_new false ExactlyOnce true) [97; 47; 98] 513 [1; 2; 3].

Definition sample_subscribe : SubscribePacket :=
  mkSubscribePacket 7 [([97; 47; 35], AtLeastOnce); ([98], AtMostOnce)].

Definition sample_unsubscribe : UnsubscribePacket :=
  mkUnsubscribePacket 8 [[97; 47; 35]; [98]].

Ltac concrete :=
  repeat split; repeat constructor; try done; try (vm_compute; intuition congruence).

Lemma make_packet_correct_witness :
  make_arc_packet sample_subscribe = Ret (0x82 :: 12 :: SubscribePacket_body sample_subscribe).
Proof. refine (proj1 (make_packet_correct sample_subscribe _ _)); concrete. Defined.

Lemma connect_roundtrip_witness :
  broker_from_bytes (frame_ctrl TConnect 0) (ConnectPacket_body sample_connect)
  = (Ret (BrConnect sample_connect), []).
Proof. refine (proj2 (connect_roundtrip sample_connect _ _ _)); concrete. Defined.

Lemma publish_roundtrip_witness :
  exists m, from_bytes (frame_ctrl TPublish 5) (OutgoingPublish_body sample_publish)
            = (Ret (InPublish m), []) /\ payload m = Ret [1; 2; 3] /\
    info m = Ret (mkPublishInfo (out_flags sample_publish) 513).
Proof.
  destruct (publish_roundtrip sample_publish) as (m & _ & Hd & _ & _ & Hp & Hi); [concrete..|].
  by exists m.
Defined.

Lemma subscribe_roundtrip_witness :
  broker_from_bytes (frame_ctrl TSubscribe 2) (SubscribePacket_body sample_subscribe)
  = (Ret (BrSubscribe sample_subscribe), []).
Proof. refine (proj2 (subscribe_roundtrip sample_subscribe _ _ _)); concrete. Defined.

Lemma unsubscribe_roundtrip_witness :
  broker_from_bytes (frame_ctrl TUnsubscribe 2) (UnsubscribePacket_body sample_unsubscribe)
  = (Ret (BrUnsubscribe sample_unsubscribe), []).
Proof. refine (proj2 (unsubscribe_roundtrip sample_unsubscribe _ _ _)); concrete. Defined.

Lemma ack_roundtrip_witness :
  from_bytes (frame_ctrl TPubRel 2) [1; 2] = (Ret (InPubRel (mkSimple 258)), []).
Proof. refine (proj2 (ack_roundtrip KPubRel 258 _)); concrete. Defined.

Lemma connack_roundtrip_witness :
  exists body, from_bytes (frame_ctrl TConnAck 0) body
               = (Ret (InConnAck (mkConnAckPacket (Err (Unknown 77)))), []).
Proof.
  destruct (connack_roundtrip (mkConnAckPacket (Err (Unknown 77)))) as (b & _ & H); [concrete|].
  by exists b.
Defined.

Lemma suback_roundtrip_witness :
  exists body, from_bytes (frame_ctrl TSubAck 0) body
    = (Ret (InSubAck (SubAckPacket_new 9 (replicate 20 (Ok ExactlyOnce)))), []).
Proof.
  destruct (suback_roundtrip 9 (replicate 20 (Ok ExactlyOnce))) as (b & _ & H & _); [concrete..|].
  by exists b.
Defined.

Lemma from_bytes_total_witness : exists p s,
  from_bytes (mkControlField 0x34) [0; 1; 97; 0; 1; 42] = (Ret p, s) /\ IncomingPacket_wf p.
Proof.
  destruct (from_bytes_total (mkControlField 0x34) [0; 1; 97; 0; 1; 42]) as [(e & s & E)|Hp]; [concrete|vm_compute in E; discriminate|exact Hp].
Defined.

Lemma arc_padding_uninit_witness : exists m rest,
  IncomingPublish_decode (mkControlField 0x34) [0; 1; 97; 0; 1; 42] = (Ret m, rest) /\ assume_init (arc m) = UB.
Proof.
  eexists _, _. split; [vm_compute; reflexivity|].
  apply (arc_padding_uninit (mkControlField 0x34) [0; 1; 97; 0; 1; 42] []); [concrete|vm_compute; reflexivity].
Defined.

(** One byte more than the header can announce. *)
Definition sample_huge : OutgoingPublishPacket :=
  mkOutgoingPublish (PublishFlags_new false AtMostOnce false) [97] 0 (replicate (Z.to_nat (2 ^ 28)) 0).

Lemma sample_huge_len : len (enc_body sample_huge) = 2 ^ 28 + 3.
Proof.
  cbn [enc_body OutgoingPublish_EncodeOk]. unfold OutgoingPublish_body.
  rewrite !length_app. cbn [sample_huge out_payload]. rewrite length_replicate.
  change (length (wire_bytes (out_topic sample_huge))) with 3%nat.
  change (length (publish_id_wire _ _)) with 0%nat. rewrite !Nat2Z.inj_add, Z2Nat.id by lia. lia.
Qed.

Lemma make_packet_too_big_witness : make_arc_packet sample_huge = Panic.
Proof.
  apply (make_packet_too_big sample_huge); [|rewrite sample_huge_len; vm_compute; intuition congruence..].
  repeat split; try done.
Defined.
