(* ===== verification/PacketTypes.v ===== *)
(** * The dispatch on packet types

    [IncomingPacket::from_bytes] picks the decoder by the type in the control
    field. The theorem shows that the choice is right on all sixteen types. *)

From Stdlib Require Import ZArith Lia.
From stdpp Require Import base list numbers sets.
From S2P Require Import Prelude Base ByteIO Packets PacketProps.

Local Open Scope Z_scope.

(** The types that a client can receive. *)
Definition client_types : list PacketType :=
  [TConnAck; TSubAck; TPublish; TPubAck; TPubRec; TPubRel; TPubComp; TUnsubAck; TPingResp].

(** [_check_packet_types]: the types of the variants' structs, in order. *)
Definition check_packet_types : bool :=
  bool_decide ([packet_type ConnAckPacket; packet_type SubAckPacket; packet_type OutgoingPublishPacket;
    packet_type PubAckPacket; packet_type PubRecPacket; packet_type PubRelPacket; packet_type PubCompPacket;
    packet_type UnsubAckPacket; packet_type PingRespPacket] = client_types).

Lemma check_packet_types_holds : check_packet_types = true.
Proof. reflexivity. Qed.

(** No decoder reports a wrong type itself. *)
Definition no_id_error {A} (m : reader A) : Prop := forall l i, (m l).1 <> Throw (InvalidPacketId i).

Lemma no_id_bind {A B} (m : reader A) (k : A -> reader B) :
  no_id_error m -> (forall a, no_id_error (k a)) -> no_id_error (m ≫= k).
Proof.
  intros Hm Hk l i. unfold mbind, stm_bind. specialize (Hm l i).
  destruct (m l) as [[a|e| | |] l']; [apply Hk| |done..]. intros [= ->]. by apply Hm.
Qed.

Lemma no_id_ret {A} (a : A) : no_id_error (mret a).
Proof. by intros l i. Qed.

Lemma no_id_assert (b : bool) : no_id_error (assert_ b).
Proof. intros l i. by destruct b. Qed.

Lemma no_id_trivial {A} n (view : bytes -> A) : no_id_error (read_trivial n view).
Proof. intros l i. unfold read_trivial. by destruct (_ <? _)%nat. Qed.

Lemma no_id_split n : no_id_error (split_slice n).
Proof. intros l i. unfold split_slice. by destruct (_ <? _)%nat. Qed.

Lemma no_id_remaining : no_id_error read_remaining.
Proof. by intros l i. Qed.

Create HintDb no_id.
#[export] Hint Resolve no_id_bind no_id_ret no_id_assert no_id_trivial no_id_split no_id_remaining : no_id.

Lemma no_id_u16 : no_id_error read_u16.
Proof. unfold read_u16. auto with no_id. Qed.

Lemma no_id_utf8 : no_id_error read_utf8.
Proof. unfold read_utf8, read_byte_array. apply no_id_bind; [auto with no_id|]. intros s l i. by destruct (from_utf8 s). Qed.

Lemma parse_sub_result_error r e : parse_sub_result r = Err e -> e = MalformedPacket.
Proof. unfold parse_sub_result. repeat case_match; congruence. Qed.

Lemma no_id_push rs acc : no_id_error (push_results rs acc).
Proof.
  revert acc. induction rs as [|r rs IH]; intros acc; cbn [push_results]; [auto with no_id|].
  destruct (parse_sub_result r) as [v|e] eqn:E; [apply IH|]. apply parse_sub_result_error in E as ->. by intros l i.
Qed.

Lemma no_id_fill k rs acc : no_id_error (fill_static k rs acc).
Proof.
  revert k acc. induction rs as [|r rs IH]; intros k acc; cbn [fill_static]; [auto with no_id|].
  destruct (parse_sub_result r) as [v|e] eqn:E; [auto with no_id|]. apply parse_sub_result_error in E as ->. by intros l i.
Qed.
#[export] Hint Resolve no_id_u16 no_id_utf8 no_id_push no_id_fill : no_id.

Lemma no_id_suback c : no_id_error (SubAckPacket_decode c).
Proof.
  unfold SubAckPacket_decode. apply no_id_bind; [auto with no_id|]. intros id. apply no_id_bind; [by intros l i|]. intros n.
  apply no_id_bind; [|auto with no_id]. destruct (n <=? _)%nat; auto with no_id.
Qed.

Lemma no_id_publish c : no_id_error (IncomingPublish_decode c).
Proof.
  unfold IncomingPublish_decode. destruct (PublishFlags_try_from (flags_of c)) as [f|e] eqn:E.
  - apply no_id_bind; [auto with no_id|]. intros t. apply no_id_bind.
    2: { intros i. apply no_id_bind; [by intros l j|]. intros d. by destruct (fill_arc _ _ _); intros ? ?. }
    destruct (flags_qos f) as [q|]; [destruct (QoS_ge q AtLeastOnce); auto with no_id|by intros l i].
  - assert (e = MalformedPacket) as -> by (revert E; unfold PublishFlags_try_from; repeat case_match; congruence).
    by intros l i.
Qed.

Lemma no_id_connack c : no_id_error (ConnAckPacket_decode c).
Proof. apply no_id_bind; [auto with no_id|]. intros [f r]. auto with no_id. Qed.

Lemma no_id_simple k c : no_id_error (SimplePacket_decode k c).
Proof. apply no_id_bind; [apply no_id_u16|auto with no_id]. Qed.

Lemma no_id_pong c : no_id_error (PingRespPacket_decode c).
Proof. apply no_id_ret. Qed.
#[export] Hint Resolve no_id_suback no_id_publish no_id_connack no_id_simple no_id_pong : no_id.

(** The next branch of the dispatch. *)
Ltac type_case :=
  match goal with |- context [if is_type ?c ?t then _ else _] => destruct (is_type c t) eqn:? end.

Lemma no_id_decoders c t : t ∈ client_types -> is_type c t = true -> no_id_error (from_bytes c).
Proof.
  intros Ht Hc. unfold from_bytes.
  repeat (type_case; [apply no_id_bind; [auto 1 with no_id|intros; apply no_id_ret]|]).
  exfalso. unfold client_types in Ht. do 9 (apply elem_of_cons in Ht as [->|Ht]; [congruence|]). by apply elem_of_nil in Ht.
Qed.

(** Decoding is by type. A packet that was decoded is of the type its
    control field names, the nine types that a client receives are never
    reported as invalid, whatever their content, and every other type is
    reported as such, with nothing read. *)
Theorem from_bytes_by_type c body :
  (forall p rest, from_bytes c body = (Ret p, rest) -> packet_type_of c = PacketType_as_u8 (IncomingPacket_type p)) /\
  (forall t i, t ∈ client_types -> packet_type_of c = PacketType_as_u8 t -> (from_bytes c body).1 <> Throw (InvalidPacketId i)) /\
  ((forall t, t ∈ client_types -> packet_type_of c <> PacketType_as_u8 t) ->
     from_bytes c body = (Throw (InvalidPacketId (packet_type_of c)), body)).
Proof.
  split_and!.
  - intros p rest. unfold from_bytes.
    repeat (type_case; [intros (x & l1 & _ & [= <- _])%bind_inv; by apply Z.eqb_eq|]). done.
  - intros t i Ht Hc. apply (no_id_decoders c t Ht). by apply Z.eqb_eq.
  - intros Hn. assert (forall t, t ∈ client_types -> is_type c t = false) as Hf by (intros t Ht; by apply Z.eqb_neq, Hn).
    unfold from_bytes, client_types in *. rewrite !Hf by set_solver. done.
Qed.

Lemma from_bytes_by_type_witness :
  from_bytes (mkControlField 0x82) [0; 3] = (Throw (InvalidPacketId 8), [0; 3]) /\
  (exists p rest, from_bytes (mkControlField 0x40) [0; 3] = (Ret p, rest) /\ IncomingPacket_type p = TPubAck).
Proof.
  split.
  - apply (from_bytes_by_type (mkControlField 0x82) [0; 3]). intros t Ht.
    repeat (apply elem_of_cons in Ht as [->|Ht]; [vm_compute; congruence|]). by apply elem_of_nil in Ht.
  - eexists _, _. split; [vm_compute; reflexivity|]. apply PacketType_as_u8_inj.
    symmetry. apply (proj1 (from_bytes_by_type (mkControlField 0x40) [0; 3]) _ []). vm_compute. reflexivity.
Defined.
