(* ===== verification/Transport.v ===== *)
(** * [transport.rs] and [tls/mod.rs]: transports

    The [Transport] trait as a class, the promises the rest of the client
    relies on as a second class, and the two implementations: plain TCP over
    tokio's [TcpStream] and TLS over a rustls connection. The stream and the
    TLS connection are parameters, with their documented behaviour as laws. *)

From Stdlib Require Import ZArith Lia.
From stdpp Require Import base list numbers.
From S2P Require Import Prelude Base.

Local Open Scope Z_scope.

Record WantedFlags : Type := mkWanted { want_read : bool; want_write : bool }.

(** [read n] is [read(&mut dst)] with [dst.len() = n]: it returns the bytes it
    put at the start of [dst]; their number is the [usize] of the source. *)
Class Transport (T : Type) : Type := {
  wants : T -> bool -> bool -> WantedFlags;
  pre_read : stm T io_error bool;
  read : Z -> stm T io_error bytes;
  pre_write : stm T io_error unit;
  write : bytes -> bool -> stm T io_error nat;
  flush : stm T io_error unit;
  send_close_notify : T -> T
}.

(** What the reader and the transceiver rely on. [received] is the plaintext
    handed to the caller so far and [sent] the plaintext accepted so far: a
    read delivers the next bytes of the stream and at most as many as asked
    for, a write accepts a prefix of what it is given, and nothing else moves
    either stream. A write that was asked to report zero bytes instead of
    [WouldBlock] does not fail with it, and neither does a flush. *)
Class TransportOk (T : Type) `{Transport T} : Type := {
  received : T -> bytes;
  sent : T -> bytes;
  same_io t t' := received t' = received t /\ sent t' = sent t;
  read_ok n t : 0 < n ->
    wp (read n) (fun bs t' => len bs <= n /\ bytes_ok bs /\
                              received t' = received t ++ bs /\ sent t' = sent t)
       (fun _ t' => same_io t t') t;
  write_ok src z t :
    wp (write src z) (fun n t' => (n <= length src)%nat /\
                                  sent t' = sent t ++ take n src /\ received t' = received t)
       (fun e t' => same_io t t' /\ (z = true -> is_would_block e = false)) t;
  pre_read_ok t : wp pre_read (fun _ t' => same_io t t') (fun _ t' => same_io t t') t;
  pre_write_ok t : wp pre_write (fun _ t' => same_io t t') (fun _ t' => same_io t t') t;
  flush_ok t : wp flush (fun _ t' => same_io t t')
    (fun e t' => same_io t t' /\ is_would_block e = false) t;
  close_notify_ok t : same_io t (send_close_notify t)
}.

(* ------------------------------------------------------------------ *)
(** ** Plain TCP                                                       *)
(* ------------------------------------------------------------------ *)

(** The part of tokio's [TcpStream] the crate calls. *)
Class TcpStream (C : Type) : Type := {
  try_read : Z -> stm C io_error bytes;
  try_write : bytes -> stm C io_error nat
}.

(** [try_read] fills at most the buffer with the next bytes of the stream;
    [try_write] writes a prefix of its argument and says how long it is. *)
Class TcpStreamOk (C : Type) `{TcpStream C} : Type := {
  tcp_in : C -> bytes;
  tcp_out : C -> bytes;
  try_read_ok n c : 0 < n ->
    wp (try_read n) (fun bs c' => len bs <= n /\ bytes_ok bs /\
                                  tcp_in c' = tcp_in c ++ bs /\ tcp_out c' = tcp_out c)
       (fun _ c' => tcp_in c' = tcp_in c /\ tcp_out c' = tcp_out c) c;
  try_write_ok src c :
    wp (try_write src) (fun n c' => (n <= length src)%nat /\
                                    tcp_out c' = tcp_out c ++ take n src /\ tcp_in c' = tcp_in c)
       (fun _ c' => tcp_in c' = tcp_in c /\ tcp_out c' = tcp_out c) c
}.

Record TcpTransport (C : Type) : Type := mkTcpTransport { tcp : C }.
Arguments mkTcpTransport {C} tcp.
Arguments tcp {C} t.

Section tcp_transport.
Context {C : Type} `{TcpStream C}.

Definition on_tcp {A} (m : stm C io_error A) : stm (TcpTransport C) io_error A :=
  zoom tcp (fun c _ => mkTcpTransport c) m.

Definition tcp_wants (_ : TcpTransport C) (rd_hint wr_hint : bool) : WantedFlags :=
  mkWanted rd_hint wr_hint.

Definition tcp_pre_read : stm (TcpTransport C) io_error bool := mret true.

Definition tcp_read (n : Z) : stm (TcpTransport C) io_error bytes := on_tcp (try_read n).

Definition tcp_pre_write : stm (TcpTransport C) io_error unit := mret tt.

Definition tcp_write (src : bytes) (zero_if_would_block : bool)
    : stm (TcpTransport C) io_error nat :=
  if zero_if_would_block then
    r ← attempt (on_tcp (try_write src));
    match r with
    | Ok x => mret x
    | Err err => if is_would_block err then mret 0%nat else throw err
    end
  else on_tcp (try_write src).

Definition tcp_flush : stm (TcpTransport C) io_error unit := mret tt.

#[global] Instance TcpTransport_Transport : Transport (TcpTransport C) := {|
  wants := tcp_wants;
  pre_read := tcp_pre_read;
  read := tcp_read;
  pre_write := tcp_pre_write;
  write := tcp_write;
  flush := tcp_flush;
  send_close_notify t := t
|}.
End tcp_transport.

(* ------------------------------------------------------------------ *)
(** ** TLS                                                             *)
(* ------------------------------------------------------------------ *)

(** The part of a rustls connection the crate calls. [read_tls] and
    [write_tls] work on the stream through [TryRWProxy], which forwards to
    [try_read] and [try_write]; they are operations on both. *)
Class TlsConnection (C L : Type) : Type := {
  tls_wants_read : L -> bool;
  tls_wants_write : L -> bool;
  read_tls : stm (C * L) io_error nat;
  process_new_packets : stm L io_error nat;
  reader_read : Z -> stm L io_error bytes;
  write_tls : stm (C * L) io_error nat;
  writer_write : bytes -> stm L io_error nat;
  writer_flush : stm L io_error unit;
  conn_close_notify : L -> L
}.

Record TlsTransport (C L : Type) : Type := mkTlsTransport { tls_tcp : C; tls : L }.
Arguments mkTlsTransport {C L} tls_tcp tls.
Arguments tls_tcp {C L} t.
Arguments tls {C L} t.

Section tls_transport.
Context {C L : Type} `{TlsConnection C L}.

Definition on_tls {A} (m : stm L io_error A) : stm (TlsTransport C L) io_error A :=
  zoom tls (fun l t => mkTlsTransport (tls_tcp t) l) m.

Definition on_both {A} (m : stm (C * L) io_error A) : stm (TlsTransport C L) io_error A :=
  zoom (fun t => (tls_tcp t, tls t)) (fun cl _ => mkTlsTransport cl.1 cl.2) m.

Definition tls_wants (t : TlsTransport C L) (_ _ : bool) : WantedFlags :=
  mkWanted (tls_wants_read (tls t)) (tls_wants_write (tls t)).

(** The error of [process_new_packets] is wrapped in an [io::Error] of kind
    [Other]; [process_new_packets] returns [plaintext_bytes_to_read()]. *)
Definition tls_process : stm (TlsTransport C L) io_error bool :=
  r ← attempt (on_tls process_new_packets);
  match r with
  | Ok n => mret (0 <? n)%nat
  | Err _ => throw (mkIoError Other None)
  end.

Definition tls_pre_read : stm (TlsTransport C L) io_error bool :=
  r ← attempt (on_both read_tls);
  match r with
  | Err err => if is_would_block err then mret false else tls_process
  | Ok _ => tls_process
  end.

Definition tls_read (n : Z) : stm (TlsTransport C L) io_error bytes := on_tls (reader_read n).

Definition tls_pre_write : stm (TlsTransport C L) io_error unit :=
  r ← attempt (on_both write_tls);
  match r with
  | Ok written => if (written <=? 0)%nat then throw (mkIoError UnexpectedEof None) else mret tt
  | Err err => if is_would_block err then mret tt else throw err
  end.

Definition tls_write (src : bytes) (zero_if_would_block : bool)
    : stm (TlsTransport C L) io_error nat :=
  written ← on_tls (writer_write src);
  if (written <=? 0)%nat && negb zero_if_would_block then throw (mkIoError WouldBlock None)
  else mret written.

Definition tls_flush : stm (TlsTransport C L) io_error unit := on_tls writer_flush.

#[global] Instance TlsTransport_Transport : Transport (TlsTransport C L) := {|
  wants := tls_wants;
  pre_read := tls_pre_read;
  read := tls_read;
  pre_write := tls_pre_write;
  write := tls_write;
  flush := tls_flush;
  send_close_notify t := mkTlsTransport (tls_tcp t) (conn_close_notify (tls t))
|}.
End tls_transport.

(** rustls' plaintext side: [reader().read] delivers the decrypted stream,
    [writer().write] accepts a prefix of its argument, and the other calls
    move ciphertext only. The writer buffers: it has no [WouldBlock]. *)
Class TlsConnectionOk (C L : Type) `{TlsConnection C L} : Type := {
  tls_in : L -> bytes;
  tls_out : L -> bytes;
  tls_same l l' := tls_in l' = tls_in l /\ tls_out l' = tls_out l;
  reader_read_ok n l : 0 < n ->
    wp (reader_read n) (fun bs l' => len bs <= n /\ bytes_ok bs /\
                                     tls_in l' = tls_in l ++ bs /\ tls_out l' = tls_out l)
       (fun _ l' => tls_same l l') l;
  writer_write_ok src l :
    wp (writer_write src) (fun n l' => (n <= length src)%nat /\
                                       tls_out l' = tls_out l ++ take n src /\ tls_in l' = tls_in l)
       (fun e l' => tls_same l l' /\ is_would_block e = false) l;
  read_tls_ok cl : wp read_tls (fun _ cl' => tls_same cl.2 cl'.2) (fun _ cl' => tls_same cl.2 cl'.2) cl;
  write_tls_ok cl : wp write_tls (fun _ cl' => tls_same cl.2 cl'.2) (fun _ cl' => tls_same cl.2 cl'.2) cl;
  process_ok l : wp process_new_packets (fun _ l' => tls_same l l') (fun _ l' => tls_same l l') l;
  writer_flush_ok l : wp writer_flush (fun _ l' => tls_same l l')
    (fun e l' => tls_same l l' /\ is_would_block e = false) l;
  conn_close_ok l : tls_same l (conn_close_notify l)
}.

(* ------------------------------------------------------------------ *)
(** ** A concrete stream                                               *)
(* ------------------------------------------------------------------ *)

(** A scripted TCP stream: what arrives and in which pieces (an empty piece
    is the end of the stream, no piece left means [WouldBlock]), and how many
    bytes each write accepts ([WouldBlock] when the script is over). *)
Record SimStream : Type := mkSim {
  sim_arrivals : list bytes;
  sim_accepts : list nat;
  sim_in : bytes;
  sim_out : bytes
}.

Definition sim_read (n : Z) : stm SimStream io_error bytes := fun c =>
  match sim_arrivals c with
  | [] => (Throw (mkIoError WouldBlock None), c)
  | piece :: rest =>
    let got := wrap8 <$> take (Z.to_nat n) piece in
    let left_over := drop (Z.to_nat n) piece in
    (Ret got, mkSim (if decide (left_over = []) then rest else left_over :: rest)
                (sim_accepts c) (sim_in c ++ got) (sim_out c))
  end.

Definition sim_write (src : bytes) : stm SimStream io_error nat := fun c =>
  match sim_accepts c with
  | [] => (Throw (mkIoError WouldBlock None), c)
  | k :: rest =>
    let n := Nat.min k (length src) in
    (Ret n, mkSim (sim_arrivals c) rest (sim_in c) (sim_out c ++ take n src))
  end.

#[global] Instance SimStream_Tcp : TcpStream SimStream := {|
  try_read := sim_read;
  try_write := sim_write
|}.

(* ------------------------------------------------------------------ *)
(** ** The implementations keep the promises                           *)
(* ------------------------------------------------------------------ *)

Lemma wrap8_ok (l : bytes) : bytes_ok (wrap8 <$> l).
Proof. apply Forall_fmap, Forall_forall. intros x _. apply Z.mod_pos_bound. lia. Qed.

#[global] Instance SimStream_TcpOk : TcpStreamOk SimStream.
Proof.
  refine {| tcp_in := sim_in; tcp_out := sim_out |}.
  - intros n c Hn. unfold wp, try_read; cbn. unfold sim_read.
    destruct (sim_arrivals c) as [|piece rest]; [done|]. split_and!; [|apply wrap8_ok|done|done].
    rewrite length_fmap, length_take. lia.
  - intros src c. unfold wp, try_write; cbn. unfold sim_write.
    destruct (sim_accepts c) as [|k rest]; [done|]. split_and!; [lia|done|done].
Defined.

#[global] Instance TcpTransport_Ok C `{TcpStreamOk C} : TransportOk (TcpTransport C).
Proof.
  refine {| received t := tcp_in (tcp t); sent t := tcp_out (tcp t) |}; cbn.
  - intros n t Hn. apply wp_zoom. by apply try_read_ok.
  - intros src z t. unfold tcp_write. apply wp_if; intros ->.
    + apply wp_bind, wp_attempt, wp_zoom.
      eapply wp_mono; [apply try_write_ok|..]; cbn.
      * done.
      * intros e c' Hc. apply wp_if; intros Hwb; [|done].
        cbn. destruct Hc as [-> ->]. rewrite take_0, app_nil_r. split_and!; [lia|done|done].
    + apply wp_zoom. by eapply wp_mono; [apply try_write_ok|..].
  - done.
  - done.
  - done.
  - done.
Defined.

#[global] Instance TlsTransport_Ok C L `{TlsConnectionOk C L} : TransportOk (TlsTransport C L).
Proof.
  refine {| received t := tls_in (tls t); sent t := tls_out (tls t) |}; cbn.
  - intros n t Hn. apply wp_zoom. by apply reader_read_ok.
  - intros src z t. unfold tls_write. apply wp_bind, wp_zoom.
    eapply wp_mono; [apply writer_write_ok| |]; cbn; [|by intros e l' [? ?]].
    intros n l' (Hn & Ho & Hi). apply wp_if; intros Hc; [|done].
    cbn. apply andb_true_iff in Hc as [Hz Hzb]. apply Nat.leb_le in Hz. destruct z; [done|].
    assert (n = 0%nat) as -> by lia. rewrite take_0, app_nil_r in Ho. done.
  - intros t. unfold tls_pre_read. apply wp_bind, wp_attempt, wp_zoom.
    assert (forall l', tls_same (tls t) l' ->
      forall c, wp tls_process (fun _ t' => tls_in (tls t') = tls_in (tls t) /\ tls_out (tls t') = tls_out (tls t))
        (fun _ t' => tls_in (tls t') = tls_in (tls t) /\ tls_out (tls t') = tls_out (tls t))
        (mkTlsTransport c l')) as Hproc.
    { intros l' [Hi Ho] c. apply wp_bind, wp_attempt, wp_zoom.
      eapply wp_mono; [apply process_ok|..]; cbn; intros ? l'' [Hi' Ho']; cbn; by rewrite Hi', Ho', Hi, Ho. }
    eapply wp_mono; [apply read_tls_ok|..]; cbn; intros ? cl' Hs; [by apply Hproc|].
    apply wp_if; intros _; [done|by apply Hproc].
  - intros t. unfold tls_pre_write. apply wp_bind, wp_attempt, wp_zoom.
    eapply wp_mono; [apply write_tls_ok|..]; cbn; intros ? cl' Hs; apply wp_if; intros _; done.
  - intros t. apply wp_zoom. apply writer_flush_ok.
  - intros t. apply conn_close_ok.
Defined.
