(* ===== verification/PacketReader.v ===== *)
(** * [transceiver/packet_reader.rs]: reassembling packets

    The buffer that accumulates bytes until a packet is complete. The
    theorems show that the packets it returns are the frames of the byte
    stream, in order and however the stream is cut into pieces; that it never
    panics; and the one header on which it makes no progress. *)

From Stdlib Require Import ZArith Lia.
From stdpp Require Import base list numbers.
From S2P Require Import Prelude Base ByteIO Packets PacketProps Transport.

Local Open Scope Z_scope.

(* ------------------------------------------------------------------ *)
(** ** The reader                                                      *)
(* ------------------------------------------------------------------ *)

Record PacketSizeInfo : Type := mkSizeInfo {
  pkt_size : usize;
  start_offset : nat
}.

Record PacketReader : Type := mkReader {
  rd_bytes : bytes;
  rd_size : option PacketSizeInfo
}.

(** [Default::default()]. *)
Definition PacketReader_default : PacketReader := mkReader [] None.

Inductive PacketReadState : Type :=
| Incoming (p : IncomingPacket)
| ConnectionClosed
| NeedMoreData.

Definition MAX_PACKET_SIZE : usize := 512000000.

(** The loop of [parse_packet_size]; the list is [self.bytes[pos..]]. A shift
    by the width of [usize] or more is an arithmetic overflow. *)
Fixpoint parse_size_loop (l : bytes) (pos : nat) (ret shift : Z)
    : outcome io_error (option (Z * nat)) :=
  match l with
  | [] => Ret None
  | b :: l' =>
    if 64 <=? shift then Panic
    else
      let ret := Z.lor ret (wrap64 (Z.shiftl (Z.land b 0x7f) shift)) in
      let pos := S pos in
      if Z.land b 0x80 =? 0 then Ret (Some (ret, pos))
      else parse_size_loop l' pos ret (shift + 7)
  end.

Definition parse_packet_size (bs : bytes) : outcome io_error (option PacketSizeInfo) :=
  match parse_size_loop (drop 1 bs) 1 0 0 with
  | Ret None => Ret None
  | Ret (Some (ret, pos)) =>
    let ret := ret + Z.of_nat pos in
    if 2 ^ 64 <=? ret then Panic
    else if MAX_PACKET_SIZE <? ret then Throw (PacketDecodeError_into ReachedMaxSize)
    else Ret (Some (mkSizeInfo ret pos))
  | Throw e => Throw e
  | Panic => Panic
  | UB => UB
  | OutOfFuel => OutOfFuel
  end.

Section reader.
Context `{BuildCfg} {T : Type} `{Transport T}.

Abbreviation rio A := (stm (PacketReader * T) io_error A).

Definition set_bytes (bs : bytes) : rio unit :=
  modify (fun s => (mkReader bs (rd_size s.1), s.2)).
Definition set_size (o : option PacketSizeInfo) : rio unit :=
  modify (fun s => (mkReader (rd_bytes s.1) o, s.2)).

(** [self.bytes.reserve(n)] and [slice::from_raw_parts_mut] over the spare
    capacity: none of its bytes has been written. (A slice of [u8] over such
    bytes is in breach of the contract of [from_raw_parts_mut]; nothing reads
    them.) *)
Definition spare_slice (n : usize) : list (option u8) := replicate (Z.to_nat n) None.

(** [transport.read(dst)]: what was read is at the start of [dst], the rest of
    it is as it was. *)
Definition read_into (dst : list (option u8)) : stm T io_error (nat * list (option u8)) :=
  got ← read (len dst);
  mret (length got, (Some <$> got) ++ drop (length got) dst).

(** [self.bytes.set_len(pos + read)]: undefined beyond the capacity, and
    unless every byte below the new length was written. *)
Definition set_len (pos_bytes : bytes) (spare : list (option u8)) (read : nat) (n : usize) : rio unit :=
  if n <? Z.of_nat read then undefined
  else match mapM id (take read spare) with
       | Some bs => set_bytes (pos_bytes ++ bs)
       | None => undefined
       end.

Definition recv_n (n : usize) : rio bool :=
  if n <=? 0 then mret false
  else
    r ← zoom snd (fun t s => (s.1, t)) (read_into (spare_slice n));
    let '(read, spare) := r in
    if (read <=? 0)%nat then mret true
    else
      bs ← gets (fun s => rd_bytes s.1);
      set_len bs spare read n;;
      mret false.

(** [self.size = match self.parse_packet_size() { .. }], the same in both
    places: on an error the buffer is cleared. *)
Definition update_size : rio unit :=
  bs ← gets (fun s => rd_bytes s.1);
  match parse_packet_size bs with
  | Ret x => set_size x
  | Throw err => set_bytes [];; throw err
  | Panic => panic
  | UB => undefined
  | OutOfFuel => out_of_fuel
  end.

(** A decode error as the [io::Error] it becomes. *)
Definition decoded (r : outcome PacketDecodeError IncomingPacket) : rio PacketReadState :=
  match r with
  | Ret p => mret (Incoming p)
  | Throw e => throw (PacketDecodeError_into e)
  | Panic => panic
  | UB => undefined
  | OutOfFuel => out_of_fuel
  end.

(** The branch "Packet is ready!". *)
Definition take_packet (si : PacketSizeInfo) : rio PacketReadState :=
  bs ← gets (fun s => rd_bytes s.1);
  let n := Z.to_nat (pkt_size si) in
  match bs with
  | [] => panic
  | b0 :: _ =>
    if (n <? start_offset si)%nat then panic
    else
      let '(ret, rest) := from_bytes (mkControlField b0) (drop (start_offset si) (take n bs)) in
      match ret with
      | Ret _ => if (0 <? length rest)%nat then panic_in_test else mret tt
      | _ => mret tt
      end;;
      (if pkt_size si <? len bs then set_bytes (drop n bs);; update_size
       else set_bytes [];; set_size None);;
      decoded ret
  end.

Definition recv : rio PacketReadState :=
  r ← gets fst;
  match rd_size r with
  | Some si =>
    closed ← (if len (rd_bytes r) <? pkt_size si
              then recv_n (pkt_size si - len (rd_bytes r)) else mret false);
    if closed : bool then mret ConnectionClosed
    else
      bs ← gets (fun s => rd_bytes s.1);
      if pkt_size si <=? len bs then take_packet si
      else mret NeedMoreData
  | None =>
    if (MAX_HEADER_SIZE <? length (rd_bytes r))%nat then panic
    else
      closed ← recv_n (Z.of_nat (MAX_HEADER_SIZE - length (rd_bytes r)));
      if closed : bool then mret ConnectionClosed
      else update_size;; mret NeedMoreData
  end.
End reader.

(* ------------------------------------------------------------------ *)
(** ** Frames and the reader's invariant                               *)
(* ------------------------------------------------------------------ *)

(** [fr] is one packet on the wire, with this control field and content. *)
Definition is_frame (fr : bytes) (c : ControlField) (body : bytes) : Prop :=
  exists b0 tl si, fr = b0 :: tl /\ c = mkControlField b0 /\
    parse_packet_size fr = Ret (Some si) /\ len fr = pkt_size si /\
    body = drop (start_offset si) fr.

Definition size_info_ok (si : PacketSizeInfo) : Prop :=
  (2 <= start_offset si <= MAX_HEADER_SIZE)%nat /\
  Z.of_nat (start_offset si) <= pkt_size si < MAX_CONTENT + 5.

(** Either the fixed header is incomplete, or its size information is that of
    the bytes held; the reader never holds more than the larger of a header
    and the packet. *)
Definition reader_ok (r : PacketReader) : Prop :=
  bytes_ok (rd_bytes r) /\
  match rd_size r with
  | None => (length (rd_bytes r) <= MAX_HEADER_SIZE)%nat /\ parse_packet_size (rd_bytes r) = Ret None
  | Some si =>
    size_info_ok si /\ (start_offset si <= length (rd_bytes r))%nat /\
    parse_packet_size (rd_bytes r) = Ret (Some si) /\
    (len (rd_bytes r) <= 5 \/ len (rd_bytes r) <= pkt_size si)
  end.

(** A complete frame left the bytes held before ([r]) extended with the bytes
    taken from the stream ([chunk]), and decoding it gave [ret]. *)
Definition frame_taken (r : PacketReader) (chunk : bytes)
    (ret : outcome PacketDecodeError IncomingPacket) (r' : PacketReader) : Prop :=
  exists fr c body rest, rd_bytes r ++ chunk = fr ++ rd_bytes r' /\ is_frame fr c body /\
    from_bytes c body = (ret, rest).

(** A full header buffer in which the remaining-length field does not end. *)
Definition stuck (r : PacketReader) : Prop :=
  rd_size r = None /\ length (rd_bytes r) = MAX_HEADER_SIZE.

(** What a successful [recv] did. *)
Definition recv_result (r : PacketReader) (chunk : bytes) (st : PacketReadState)
    (r' : PacketReader) : Prop :=
  match st with
  | Incoming p => frame_taken r chunk (Ret p) r' /\ IncomingPacket_wf p
  | NeedMoreData => rd_bytes r' = rd_bytes r ++ chunk /\ (chunk <> [] \/ stuck r)
  | ConnectionClosed => chunk = [] /\ r' = r
  end.

(** A failed [recv]: the transport failed and nothing moved, or a complete
    frame did not decode. *)
Definition recv_error (r : PacketReader) (chunk : bytes) (e : io_error) (r' : PacketReader) : Prop :=
  (chunk = [] /\ r' = r) \/
  (exists de, frame_taken r chunk (Throw de) r' /\ e = PacketDecodeError_into de).

(* ------------------------------------------------------------------ *)
(** ** Parsing the fixed header                                        *)
(* ------------------------------------------------------------------ *)

Lemma digit_range (b : Z) : 0 <= Z.land b 0x7f < 2 ^ 7.
Proof. rewrite low7. apply (Z.mod_pos_bound b 128). lia. Qed.

Lemma add_digit (ret b shift : Z) : 0 <= shift <= 56 -> 0 <= ret < 2 ^ shift ->
  Z.lor ret (wrap64 (Z.shiftl (Z.land b 0x7f) shift)) = ret + Z.land b 0x7f * 2 ^ shift /\
  0 <= ret + Z.land b 0x7f * 2 ^ shift < 2 ^ (shift + 7).
Proof.
  intros Hs Hr. pose proof (digit_range b) as Hd.
  assert (0 <= ret + Z.land b 0x7f * 2 ^ shift < 2 ^ (shift + 7)) as Hb.
  { rewrite Z.pow_add_r by lia. nia. }
  split; [|done]. unfold wrap64. rewrite Z.mod_small; [by apply lor_disjoint; lia|].
  rewrite Z.shiftl_mul_pow2 by lia. split; [lia|].
  eapply Z.lt_le_trans; [|apply (Z.pow_le_mono_r 2 (shift + 7)); lia]. lia.
Qed.

Lemma parse_loop_range (l : bytes) pos ret shift :
  0 <= shift -> shift + 7 * len l <= 56 -> 0 <= ret < 2 ^ shift ->
  parse_size_loop l pos ret shift = Ret None \/
  exists v p, parse_size_loop l pos ret shift = Ret (Some (v, p)) /\
    (pos < p <= pos + length l)%nat /\ 0 <= v < 2 ^ (shift + 7 * len l).
Proof.
  revert pos ret shift. induction l as [|b l IH]; intros pos ret shift Hs Hl Hr; [by left|].
  cbn [length] in Hl. rewrite Nat2Z.inj_succ in Hl.
  cbn [parse_size_loop]. destruct (Z.leb_spec 64 shift); [lia|]. cbv zeta.
  destruct (add_digit ret b shift) as [-> Hv]; [lia|done|].
  destruct (Z.land b 0x80 =? 0).
  - right. do 2 eexists. split_and!; [done|lia|cbn; lia|lia|].
    eapply Z.lt_le_trans; [apply Hv|]. apply Z.pow_le_mono_r; [lia|]. cbn [length]. lia.
  - destruct (IH (S pos) _ (shift + 7) ltac:(lia) ltac:(lia) Hv) as [->|(v & p & -> & Hp & Hv')];
      [by left|right].
    do 2 eexists. split_and!; [done|lia|cbn; lia|lia|].
    replace (shift + 7 * len (b :: l)) with (shift + 7 + 7 * len l); [lia|].
    cbn [length]. lia.
Qed.

(** The loop looks at the length bytes only. *)
Lemma parse_loop_prefix (l l' : bytes) pos ret shift v p :
  parse_size_loop l pos ret shift = Ret (Some (v, p)) ->
  (pos <= p <= pos + length l)%nat /\
  parse_size_loop (take (p - pos) l ++ l') pos ret shift = Ret (Some (v, p)).
Proof.
  revert pos ret shift. induction l as [|b l IH]; intros pos ret shift H; [done|].
  cbn [parse_size_loop] in H. destruct (64 <=? shift) eqn:E; [done|]. cbv zeta in H.
  destruct (Z.land b 0x80 =? 0) eqn:Eb.
  - injection H as <- <-. replace (S pos - pos)%nat with 1%nat by lia.
    split; [cbn; lia|]. cbn [take app parse_size_loop]. cbv zeta. by rewrite E, Eb.
  - apply IH in H as [Hp H]. replace (p - pos)%nat with (S (p - S pos)) by lia.
    split; [cbn; lia|]. cbn [take app parse_size_loop]. cbv zeta. by rewrite E, Eb.
Qed.

Lemma parse_packet_size_prefix (bs l' : bytes) si n :
  parse_packet_size bs = Ret (Some si) -> (start_offset si <= n)%nat -> bs <> [] ->
  (start_offset si <= length bs)%nat /\ parse_packet_size (take n bs ++ l') = Ret (Some si).
Proof.
  unfold parse_packet_size. intros Hp Hn Hne. destruct bs as [|b0 tl]; [done|].
  change (drop 1 (b0 :: tl)) with tl in Hp. destruct (parse_size_loop tl 1 0 0) as [[[v p]|]| | | |] eqn:El; try done.
  cbv zeta in Hp. destruct (_ <=? _) eqn:E1; [done|]. destruct (_ <? _) eqn:E2; [done|].
  injection Hp as <-. cbn [start_offset] in *.
  destruct (parse_loop_prefix tl (drop (p - 1) (take (n - 1) tl) ++ l') _ _ _ _ _ El) as [Hp Hl].
  split; [cbn; lia|]. destruct n as [|n]; [lia|]. cbn [take app].
  change (drop 1 (b0 :: take n tl ++ l')) with (take n tl ++ l').
  assert (take n tl ++ l' = take (p - 1) tl ++ drop (p - 1) (take (S n - 1) tl) ++ l') as ->.
  { rewrite (assoc_L (++)). f_equal. rewrite <- (take_drop (p - 1) (take n tl)) at 1.
    rewrite take_take, Nat.min_l by lia. by replace (S n - 1)%nat with n by lia. }
  rewrite Hl. by rewrite E1, E2.
Qed.

Lemma parse_packet_size_app (bs l' : bytes) si :
  parse_packet_size bs = Ret (Some si) -> bs <> [] ->
  parse_packet_size (bs ++ l') = Ret (Some si).
Proof.
  intros Hp Hne. destruct (parse_packet_size_prefix bs l' si (length bs + start_offset si) Hp) as [_ H];
    [lia|done|]. rewrite take_ge in H by lia. done.
Qed.

(** On what a reader holds while it waits for a header, parsing neither
    panics nor reports a packet that is too large. *)
Lemma parse_header (bs : bytes) :
  (length bs <= MAX_HEADER_SIZE)%nat ->
  parse_packet_size bs = Ret None \/
  exists si, parse_packet_size bs = Ret (Some si) /\ size_info_ok si /\
    (start_offset si <= length bs)%nat.
Proof.
  unfold MAX_HEADER_SIZE. intros Hl. unfold parse_packet_size.
  pose proof (length_drop bs 1) as Hd.
  destruct (parse_loop_range (drop 1 bs) 1 0 0) as [->|(v & p & -> & Hp & Hv)];
    [lia|lia|lia|by left|].
  assert (2 ^ (0 + 7 * len (drop 1 bs)) <= 2 ^ 28) by (apply Z.pow_le_mono_r; lia).
  cbv zeta. destruct (Z.leb_spec (2 ^ 64) (v + Z.of_nat p)); [lia|].
  unfold MAX_PACKET_SIZE. destruct (Z.ltb_spec 512000000 (v + Z.of_nat p)); [lia|].
  right. eexists. split_and!; [done|..]; unfold size_info_ok, MAX_CONTENT, MAX_HEADER_SIZE;
    cbn [pkt_size start_offset]; lia.
Qed.

(* ------------------------------------------------------------------ *)
(** ** Receiving                                                       *)
(* ------------------------------------------------------------------ *)

Section reader_facts.
#[local] Existing Instance production.
Context {T : Type} `{TransportOk T}.
Implicit Types (r : PacketReader) (t : T).

Lemma wp_recv_n (n : Z) r t : 0 < n ->
  wp (recv_n n)
     (fun closed s => sent s.2 = sent t /\ exists got, len got <= n /\ bytes_ok got /\
        received s.2 = received t ++ got /\
        if closed : bool then got = [] /\ s.1 = r
        else got <> [] /\ s.1 = mkReader (rd_bytes r ++ got) (rd_size r))
     (fun _ s => s.1 = r /\ same_io t s.2) (r, t).
Proof.
  intros Hn. unfold recv_n. apply wp_if; intros E; [lia|]. apply wp_bind, wp_zoom.
  unfold read_into, spare_slice. rewrite length_replicate, Z2Nat.id by lia. apply wp_bind.
  eapply wp_mono; [by apply read_ok|..]; cbn [fst snd]; [|done].
  intros got t' (Hl & Hok & Hr & Hs). apply wp_ret. apply wp_if; intros E2.
  - apply wp_ret. split; [done|]. exists got. destruct got; [done|exfalso; apply Nat.leb_le in E2; cbn [length] in E2; lia].
  - apply wp_bind, wp_gets, wp_bind. unfold set_len. apply wp_if; intros E1; [lia|].
    rewrite take_app_le, take_ge, mapM_init by (by rewrite length_fmap). apply wp_modify, wp_ret. cbn. split; [done|].
    exists got. destruct got; [done|]. done.
Qed.

Lemma wp_update_size r t : bytes_ok (rd_bytes r) -> (length (rd_bytes r) <= MAX_HEADER_SIZE)%nat ->
  wp update_size (fun _ s => rd_bytes s.1 = rd_bytes r /\ s.2 = t /\ reader_ok s.1)
     (fun _ _ => False) (r, t).
Proof.
  intros Hok Hl. unfold update_size. apply wp_bind, wp_gets. cbn [fst].
  unfold MAX_HEADER_SIZE in Hl.
  destruct (parse_header _ Hl) as [E|(si & E & Hsi & Hoff)]; rewrite E;
    apply wp_modify; cbn; (split; [done|]); (split; [done|]); split; cbn; try done.
  split_and!; [done..|]. left. lia.
Qed.

Lemma take_frame (bs : bytes) si b0 tl : bs = b0 :: tl ->
  size_info_ok si -> pkt_size si <= len bs -> parse_packet_size bs = Ret (Some si) ->
  let n := Z.to_nat (pkt_size si) in
  is_frame (take n bs) (mkControlField b0) (drop (start_offset si) (take n bs)).
Proof.
  intros -> [Hoff Hsz] Hlen Hp n.
  destruct (parse_packet_size_prefix (b0 :: tl) [] si n Hp) as [_ Hp']; [lia|done|].
  rewrite app_nil_r in Hp'.
  assert (n = S (n - 1)) as En by lia.
  exists b0, (take (n - 1) tl), si. split_and!; [|done|done| |done].
  - by rewrite En at 1.
  - rewrite length_take. lia.
Qed.

Lemma wp_take_packet r t si chunk rb : reader_ok r -> rd_size r = Some si ->
  pkt_size si <= len (rd_bytes r) -> rd_bytes r = rd_bytes rb ++ chunk ->
  wp (take_packet si)
     (fun st s => s.2 = t /\ reader_ok s.1 /\ recv_result rb chunk st s.1)
     (fun e s => s.2 = t /\ reader_ok s.1 /\ recv_error rb chunk e s.1) (r, t).
Proof.
  intros [Hok Hr] Hsi Hlen Hrb. rewrite Hsi in Hr. destruct Hr as ([Hoff Hsz] & Hoff2 & Hp & Hb).
  unfold take_packet. apply wp_bind, wp_gets. cbn [fst].
  set (bs := rd_bytes r) in *. set (n := Z.to_nat (pkt_size si)).
  destruct bs as [|b0 tl] eqn:Ebs; [cbn in *; lia|].
  destruct (Nat.ltb_spec n (start_offset si)) as [|_]; [lia|].
  pose proof (take_frame (b0 :: tl) si b0 tl eq_refl (conj Hoff Hsz) Hlen Hp) as Hfr.
  cbv zeta in Hfr. fold n in Hfr. set (fr := take n (b0 :: tl)) in *.
  assert (bytes_ok (drop (start_offset si) fr)) as Hbody by by apply Forall_drop, Forall_take.
  pose proof (from_bytes_safe (mkControlField b0) _ Hbody) as Hsafe. unfold wp in Hsafe.
  destruct (from_bytes (mkControlField b0) (drop (start_offset si) fr)) as [ret rest] eqn:Efb.
  assert (forall r', rd_bytes r' = drop n (b0 :: tl) -> frame_taken rb chunk ret r') as Hsplit.
  { intros r' Hr'. exists fr, (mkControlField b0), (drop (start_offset si) fr), rest.
    rewrite Hr', <- Hrb. unfold fr. by rewrite take_drop. }
  apply wp_bind. apply (wp_mono _ (fun _ s => s = (r, t)) _ (fun _ _ => False)); [| |done].
  { destruct ret; try done. by destruct (_ <? _)%nat. }
  intros _ s ->. apply wp_bind.
  apply (wp_mono _ (fun _ s => rd_bytes s.1 = drop n (b0 :: tl) /\ s.2 = t /\ reader_ok s.1)
           _ (fun _ _ => False)); [| |done].
  { apply wp_if; intros E; apply wp_bind, wp_modify; cbn [fst snd].
    - eapply wp_mono; [apply wp_update_size|done|done]; cbn [rd_bytes].
      + by apply Forall_drop.
      + rewrite length_drop. unfold MAX_HEADER_SIZE. lia.
    - apply wp_modify. cbn. rewrite drop_ge by lia. split_and!; [done|done|].
      split; cbn; [constructor|]. split; [unfold MAX_HEADER_SIZE; lia|done]. }
  intros _ s (Hbs & Ht & Hr'). destruct ret as [p|de| | |]; try done.
  - apply wp_ret. split_and!; [done|done|]. split; [by apply Hsplit|done].
  - apply wp_throw. split_and!; [done|done|]. right. exists de. split; [by apply Hsplit|done].
Qed.

(** The invariant survives the arrival of bytes that were asked for. *)
Lemma reader_ok_more r si got : reader_ok r -> rd_size r = Some si -> bytes_ok got ->
  len got <= pkt_size si - len (rd_bytes r) ->
  reader_ok (mkReader (rd_bytes r ++ got) (rd_size r)).
Proof.
  intros [Hok Hr] Hsi Hg Hlen. rewrite Hsi in *. destruct Hr as (Hsz & Hoff & Hp & Hb).
  split; cbn [rd_bytes rd_size]; [by apply Forall_app|].
  rewrite length_app. split_and!; [done|lia| |right; lia].
  apply parse_packet_size_app; [done|]. intros E. rewrite E in Hoff.
  destruct Hsz. cbn in Hoff. lia.
Qed.

(** What [recv] guarantees, as a pre- and postcondition. *)
Definition recv_post r t (P : bytes -> PacketReader -> Prop) (s : PacketReader * T) : Prop :=
  reader_ok s.1 /\ sent s.2 = sent t /\
  exists chunk, received s.2 = received t ++ chunk /\ P chunk s.1.

(** Reading the content of a packet whose header is known. *)
Lemma wp_recv_content r t si : reader_ok r -> rd_size r = Some si ->
  wp recv (fun st => recv_post r t (fun ch r' => recv_result r ch st r'))
          (fun e => recv_post r t (fun ch r' => recv_error r ch e r')) (r, t).
Proof.
  intros Hr Esi. unfold recv. apply wp_bind, wp_gets. cbn [fst]. rewrite Esi.
  apply wp_bind. apply (wp_mono _ (fun closed s => sent s.2 = sent t /\ exists got,
      received s.2 = received t ++ got /\
      if closed : bool then got = [] /\ s.1 = r
      else s.1 = mkReader (rd_bytes r ++ got) (rd_size r) /\ reader_ok s.1 /\
           (got <> [] \/ pkt_size si <= len (rd_bytes r)))
    _ (fun _ s => s.1 = r /\ same_io t s.2)).
  - apply wp_if; intros E.
    + eapply wp_mono; [apply wp_recv_n; lia| |done].
      intros closed s (Hs & got & Hl & Hg & Hrcv & Hc). split; [done|]. exists got.
      split; [done|]. destruct closed; [done|]. destruct Hc as [Hne ->]. split_and!; [done| |by left].
      by apply reader_ok_more with si; [..|lia].
    + apply wp_ret. split; [done|]. exists []. rewrite !app_nil_r.
      split_and!; [done|by destruct r|done|right; lia].
  - intros closed [r' t'] (Hs & got & Hrcv & Hc). cbn [fst snd] in *. apply wp_if; intros ->.
    + destruct Hc as [-> ->]. apply wp_ret. by split_and!; [..|exists []].
    + destruct Hc as (-> & Hr' & Hgot). apply wp_bind, wp_gets. cbn [fst rd_bytes].
      apply wp_if; intros E.
      * eapply wp_mono; [apply (wp_take_packet _ _ si got r); [done|done|cbn; lia|done]|..].
        all: intros ? [r2 t2] (E2 & Hok & Hres); cbn in E2; subst t2.
        all: split_and!; [done|done|]; by exists got.
      * apply wp_ret. split_and!; [done|done|]. exists got. split; [done|]. split; [done|].
        left. destruct Hgot as [?|Hgot]; [done|]. exfalso. rewrite length_app in E. apply Z.leb_gt in E. lia.
  - intros e [r' t'] [E [Hrcv Hs]]. cbn in *. subst r'. split_and!; [done|done|].
    exists []. rewrite app_nil_r. split; [done|]. by left.
Qed.

(** Reading the fixed header. *)
Lemma wp_recv_header r t : reader_ok r -> rd_size r = None ->
  wp recv (fun st => recv_post r t (fun ch r' => recv_result r ch st r'))
          (fun e => recv_post r t (fun ch r' => recv_error r ch e r')) (r, t).
Proof.
  intros Hr Esi. pose proof Hr as [Hok Hw]. rewrite Esi in Hw. destruct Hw as [Hlen _].
  unfold MAX_HEADER_SIZE in Hlen.
  unfold recv. apply wp_bind, wp_gets. cbn [fst]. rewrite Esi. unfold MAX_HEADER_SIZE.
  destruct (Nat.ltb_spec 5 (length (rd_bytes r))) as [|_]; [lia|].
  apply wp_bind. apply (wp_mono _ (fun closed s => sent s.2 = sent t /\ exists got,
      received s.2 = received t ++ got /\ len got <= 5 - len (rd_bytes r) /\ bytes_ok got /\
      if closed : bool then got = [] /\ s.1 = r
      else s.1 = mkReader (rd_bytes r ++ got) (rd_size r) /\ (got <> [] \/ stuck r))
    _ (fun _ s => s.1 = r /\ same_io t s.2)).
  - destruct (decide (length (rd_bytes r) = 5%nat)) as [E5|].
    + rewrite E5. apply wp_ret. split; [done|]. exists []. rewrite !app_nil_r.
      split_and!; [done|cbn; lia|constructor|by destruct r|by right].
    + eapply wp_mono; [apply wp_recv_n; lia| |done].
      intros closed s (Hs & got & Hl & Hg & Hrcv & Hc). split; [done|]. exists got.
      split_and!; [done|lia|done|]. destruct closed; [done|]. destruct Hc as [? ->]. auto.
  - intros closed [r' t'] (Hs & got & Hrcv & Hl & Hg & Hc). cbn [fst snd] in *.
    apply wp_if; intros ->.
    + destruct Hc as [-> ->]. apply wp_ret. by split_and!; [..|exists []].
    + destruct Hc as [-> Hgot]. apply wp_bind. eapply wp_mono; [apply wp_update_size|..]; [| | |done].
      * by apply Forall_app.
      * cbn [rd_bytes]. rewrite length_app. unfold MAX_HEADER_SIZE. lia.
      * intros _ [r2 t2] (Hb & E & Hr2). cbn in E. subst t2. apply wp_ret.
        split_and!; [done|done|]. by exists got.
  - intros e [r' t'] [E [Hrcv Hs]]. cbn in *. subst r'. split_and!; [done|done|].
    exists []. rewrite app_nil_r. split; [done|]. by left.
Qed.

Lemma wp_recv r t : reader_ok r ->
  wp recv (fun st => recv_post r t (fun ch r' => recv_result r ch st r'))
          (fun e => recv_post r t (fun ch r' => recv_error r ch e r')) (r, t).
Proof.
  intros Hr. destruct (rd_size r) as [si|] eqn:E;
    [by apply wp_recv_content with si|by apply wp_recv_header].
Qed.
End reader_facts.

(* ------------------------------------------------------------------ *)
(** ** Frames on the wire                                              *)
(* ------------------------------------------------------------------ *)

(** The decoder of the remaining length inverts its encoder. *)
Lemma parse_loop_encoded (k : nat) (n : Z) (rest : bytes) pos ret shift :
  0 <= n < 128 ^ Z.of_nat k -> (0 < k)%nat -> 0 <= shift -> shift + 7 * Z.of_nat k <= 56 ->
  0 <= ret < 2 ^ shift ->
  parse_size_loop (remaining_length k n ++ rest) pos ret shift
  = Ret (Some (ret + n * 2 ^ shift, (pos + length (remaining_length k n))%nat)).
Proof.
  revert n pos ret shift. induction k as [|k IH]; intros n pos ret shift Hn Hk Hs Hb Hr; [lia|].
  rewrite Nat2Z.inj_succ, Z.pow_succ_r in Hn by lia.
  cbn [remaining_length]. destruct (Z.ltb_spec n 128) as [Hlt|Hge].
  - cbn [app parse_size_loop length]. destruct (Z.leb_spec 64 shift); [lia|]. cbv zeta.
    destruct (add_digit ret n shift) as [-> _]; [lia|done|].
    assert (Z.land n 0x80 = 0) as ->.
    { apply Z.eqb_eq, (seqZ_forall (fun x => Z.land x 0x80 =? 0) 128); [by vm_compute|lia]. }
    rewrite low7, Z.mod_small by lia. cbn [Z.eqb]. do 3 f_equal. lia.
  - cbn [app parse_size_loop length]. destruct (Z.leb_spec 64 shift); [lia|]. cbv zeta.
    pose proof (Z.mod_pos_bound n 128). set (d := n mod 128) in *.
    destruct (add_digit ret (d + 128) shift) as [-> Hv]; [lia|done|].
    assert ((Z.land (d + 128) 0x80 =? 0) = false) as ->.
    { apply negb_true_iff,
        (seqZ_forall (fun x => negb (Z.land (x + 128) 0x80 =? 0)) 128); [by vm_compute|lia]. }
    assert (Z.land (d + 128) 0x7f = d) as Ed.
    { rewrite low7. replace (d + 128) with (d + 1 * 128) by lia.
      rewrite Z.mod_add, Z.mod_small by lia. done. }
    rewrite Ed in *.
    assert (0 < n / 128) by (apply Z.div_str_pos; lia).
    assert (n / 128 < 128 ^ Z.of_nat k) by (apply Z.div_lt_upper_bound; lia).
    rewrite IH; [|lia| |lia|lia|done].
    + do 3 f_equal; [|lia]. rewrite Z.pow_add_r by lia.
      pose proof (Z.div_mod n 128). subst d. nia.
    + destruct k; [cbn in *; lia|lia].
Qed.

Lemma frame_is_frame (t : PacketType) (f : u8) (body : bytes) :
  0 <= f < 16 -> len body < MAX_CONTENT -> is_frame (frame t f body) (frame_ctrl t f) body.
Proof.
  intros Hf Hlen. unfold MAX_CONTENT in Hlen. set (v := remaining_length 4 (len body)).
  pose proof (remaining_length_bound 4 (len body)) as Hv. fold v in Hv.
  exists (16 * PacketType_as_u8 t + f), (v ++ body),
    (mkSizeInfo (len body + Z.of_nat (1 + length v)) (1 + length v)).
  split_and!; [done|done| | |].
  - unfold parse_packet_size, frame. fold v.
    change (drop 1 (16 * PacketType_as_u8 t + f :: v ++ body)) with (v ++ body). unfold v at 1.
    rewrite parse_loop_encoded; [|cbn; lia|lia|lia|cbn; lia|lia]. fold v. cbv zeta.
    rewrite Z.pow_0_r, Z.mul_1_r, Z.add_0_l.
    destruct (Z.leb_spec (2 ^ 64) (len body + Z.of_nat (1 + length v))); [lia|].
    unfold MAX_PACKET_SIZE.
    destruct (Z.ltb_spec 512000000 (len body + Z.of_nat (1 + length v))); [lia|]. done.
  - unfold frame. fold v. cbn [pkt_size length]. rewrite length_app. lia.
  - unfold frame. fold v. cbn [start_offset]. change (1 + length v)%nat with (S (length v)).
    cbn [drop]. by rewrite drop_app_length.
Qed.

(** No frame is a proper prefix of another: a byte stream splits into frames
    in one way. *)
Lemma is_frame_unique (fr fr' x y : bytes) c c' b b' :
  is_frame fr c b -> is_frame fr' c' b' -> fr ++ x = fr' ++ y -> fr = fr' /\ c = c' /\ b = b' /\ x = y.
Proof.
  intros (b0 & tl & si & Efr & Ec & Hp & Hl & Hb) (b0' & tl' & si' & Efr' & Ec' & Hp' & Hl' & Hb') E.
  pose proof (parse_packet_size_app fr x si Hp ltac:(by rewrite Efr)) as H1.
  pose proof (parse_packet_size_app fr' y si' Hp' ltac:(by rewrite Efr')) as H2.
  rewrite E, H2 in H1. injection H1 as ->.
  assert (length fr = length fr') as El by lia.
  apply app_inj_1 in E as [-> ->]; [|done]. naive_solver congruence.
Qed.

(* ------------------------------------------------------------------ *)
(** ** The stream as a sequence of packets                             *)
(* ------------------------------------------------------------------ *)

Section reassembly.
#[local] Existing Instance production.
Context {T : Type} `{TransportOk T}.

(** Any number of [recv] calls, with the packets they returned; a call may
    find nothing to read, and between two calls the transport may be used in
    ways that do not read from the stream. *)
Inductive reader_run : PacketReader * T -> list IncomingPacket -> PacketReader * T -> Prop :=
| run_done s : reader_run s [] s
| run_packet s s1 s2 p ps :
    recv s = (Ret (Incoming p), s1) -> reader_run s1 ps s2 -> reader_run s (p :: ps) s2
| run_more s s1 s2 ps :
    recv s = (Ret NeedMoreData, s1) -> reader_run s1 ps s2 -> reader_run s ps s2
| run_blocked s s1 s2 e ps :
    recv s = (Throw e, s1) -> is_would_block e = true -> reader_run s1 ps s2 -> reader_run s ps s2
| run_other_io r t t1 s2 ps :
    received t1 = received t -> reader_run (r, t1) ps s2 -> reader_run (r, t) ps s2.

(** The decoding of one frame. *)
Definition frame_decodes (fr : bytes) (p : IncomingPacket) : Prop :=
  exists c body rest, is_frame fr c body /\ from_bytes c body = (Ret p, rest).

Lemma recv_step_inv (s s1 : PacketReader * T) (o : outcome io_error PacketReadState) :
  reader_ok s.1 -> recv s = (o, s1) ->
  match o with
  | Ret st => recv_post s.1 s.2 (fun ch r' => recv_result s.1 ch st r') s1
  | Throw e => recv_post s.1 s.2 (fun ch r' => recv_error s.1 ch e r') s1
  | _ => False
  end.
Proof.
  destruct s as [r t]. cbn [fst snd]. intros Hr E. pose proof (wp_recv r t Hr) as Hw.
  unfold wp in Hw. rewrite E in Hw. by destruct o.
Qed.

Lemma reader_run_stream s ps s' : reader_run s ps s' -> reader_ok s.1 ->
  reader_ok s'.1 /\ exists frs new, received s'.2 = received s.2 ++ new /\
    rd_bytes s.1 ++ new = concat frs ++ rd_bytes s'.1 /\ Forall2 frame_decodes frs ps.
Proof.
  induction 1 as [s|s s1 s2 p ps E _ IH|s s1 s2 ps E _ IH|s s1 s2 e ps E He _ IH|r t t1 s2 ps Et _ IH];
    intros Hok.
  - split; [done|]. exists [], []. by rewrite !app_nil_r.
  - apply recv_step_inv in E as (Hok1 & _ & ch & Hch & (fr & c & body & rest & Hsp & Hfr & Hdec) & _);
      [|done].
    destruct (IH Hok1) as (Hok2 & frs & new & Hnew & Hcat & Hall). split; [done|].
    exists (fr :: frs), (ch ++ new). cbn [concat]. split_and!.
    + by rewrite Hnew, Hch, <- (assoc_L (++)).
    + by rewrite (assoc_L (++)), Hsp, <- !(assoc_L (++)), Hcat.
    + constructor; [|done]. by exists c, body, rest.
  - apply recv_step_inv in E as (Hok1 & _ & ch & Hch & Hb & _); [|done].
    destruct (IH Hok1) as (Hok2 & frs & new & Hnew & Hcat & Hall). split; [done|].
    exists frs, (ch ++ new). rewrite Hb, <- (assoc_L (++)) in Hcat.
    split_and!; [by rewrite Hnew, Hch, <- (assoc_L (++))|done|done].
  - apply recv_step_inv in E as (Hok1 & _ & ch & Hch & Herr); [|done].
    destruct (IH Hok1) as (Hok2 & frs & new & Hnew & Hcat & Hall). split; [done|].
    destruct Herr as [[-> Hr]|(de & _ & ->)]; [|done].
    exists frs, new. rewrite Hr in Hcat. rewrite app_nil_r in Hch. by rewrite <- Hch.
  - destruct (IH Hok) as (Hok2 & frs & new & Hnew & Hcat & Hall). split; [done|].
    exists frs, new. cbn [fst snd] in *. by rewrite <- Et.
Qed.

(** C8: One call of [recv] on a reader that keeps its invariant never panics
    and takes no byte into its buffer that was not written or lies beyond its
    capacity; it keeps the invariant, sends nothing, and moves the bytes it took from the stream either into its buffer, or out
    of it as one complete frame that it decodes. *)
Theorem recv_correct (r : PacketReader) (t : T) :
  reader_ok r ->
  (exists st r' t', recv (r, t) = (Ret st, (r', t')) /\ reader_ok r' /\ sent t' = sent t /\
     exists chunk, received t' = received t ++ chunk /\ recv_result r chunk st r') \/
  (exists e r' t', recv (r, t) = (Throw e, (r', t')) /\ reader_ok r' /\ sent t' = sent t /\
     exists chunk, received t' = received t ++ chunk /\ recv_error r chunk e r').
Proof.
  intros Hr. destruct (wp_run _ _ _ _ (wp_recv r t Hr)) as
    [(st & [r' t'] & E & Hok & Hs & Hc)|(e & [r' t'] & E & Hok & Hs & Hc)]; [left|right];
    do 3 eexists; split_and!; eauto.
Qed.

(** Cutting a list of frames where a run of frames of the same stream ends. *)
Lemma frames_prefix (frs : list bytes) (ps : list IncomingPacket) (held : bytes) :
  Forall2 frame_decodes frs ps -> forall fs rest,
  Forall (fun fr => exists c b, is_frame fr c b) fs ->
  concat frs ++ held ++ rest = concat fs ->
  exists fs', fs = frs ++ fs'.
Proof.
  induction 1 as [|fr p frs ps (c & b & rs & Hfr & _) _ IH]; intros fs rest Hfs E; [by exists fs|].
  destruct fs as [|f fs].
  { cbn [concat] in E. exfalso. destruct Hfr as (b0 & tl & si & -> & _). done. }
  apply Forall_cons_1 in Hfs as [(c' & b' & Hf) Hfs]. cbn [concat] in E.
  rewrite <- (assoc_L (++)) in E.
  destruct (is_frame_unique _ _ _ _ _ _ _ _ Hfr Hf E) as (-> & _ & _ & E').
  destruct (IH fs rest Hfs E') as [fs' ->]. by exists fs'.
Qed.

(** The frames of the stream are the packets of the run. *)
Lemma reader_run_frames (t0 t : T) (r : PacketReader) (ps : list IncomingPacket)
    (fs : list (PacketType * u8 * bytes)) (rest : bytes) :
  received t0 = [] ->
  reader_run (PacketReader_default, t0) ps (r, t) ->
  Forall (fun x => 0 <= x.1.2 < 16 /\ len x.2 < MAX_CONTENT) fs ->
  received t ++ rest = concat ((fun x => frame x.1.1 x.1.2 x.2) <$> fs) ->
  exists done_ todo, fs = done_ ++ todo /\
    received t = concat ((fun x => frame x.1.1 x.1.2 x.2) <$> done_) ++ rd_bytes r /\
    Forall2 (fun x p => exists s, from_bytes (frame_ctrl x.1.1 x.1.2) x.2 = (Ret p, s)) done_ ps.
Proof.
  intros Ht0 Hrun Hfs Hall.
  destruct (reader_run_stream _ _ _ Hrun) as (_ & frs & new & Hnew & Hcat & Hdec).
  { split; cbn; [constructor|]. split; [unfold MAX_HEADER_SIZE; lia|done]. }
  cbn [fst snd PacketReader_default rd_bytes app] in *. rewrite Ht0 in Hnew. cbn [app] in Hnew. subst new.
  rewrite Hcat, <- (assoc_L (++)) in Hall.
  assert (Forall (fun fr => exists c b, is_frame fr c b) ((fun x => frame x.1.1 x.1.2 x.2) <$> fs)) as Hfr.
  { apply Forall_fmap. eapply Forall_impl; [|exact Hfs]. intros [[ty f] b] [??].
    do 2 eexists. by apply frame_is_frame. }
  destruct (frames_prefix _ _ _ Hdec _ _ Hfr Hall) as [fs' Efs].
  apply fmap_app_inv in Efs as (done_ & todo & -> & -> & ->).
  exists done_, todo. split_and!; [done|by rewrite Hcat|].
  apply Forall_app in Hfs as [Hfs _]. clear -Hdec Hfs.
  rewrite Forall2_fmap_l in Hdec. revert Hfs.
  induction Hdec as [|x p xs ps (c & b & s & Hd & Hb) _ IH]; intros Hfs; constructor.
  - apply Forall_cons_1 in Hfs as [[Hf Hl] _]. exists s.
    destruct (is_frame_unique _ _ [] [] _ _ _ _ Hd (frame_is_frame _ _ _ Hf Hl) eq_refl)
      as (_ & -> & -> & _). done.
  - apply Forall_cons_1 in Hfs as [_ Hfs]. by apply IH.
Qed.

(** C7: However the stream is cut into pieces, the packets a fresh reader has
    returned are those of the broker's frames, in order, none lost, none
    repeated, none invented: if the bytes received so far are a prefix of a
    sequence of frames, they are the frames decoded so far followed by the
    bytes held. *)
Theorem reassembly (t0 t : T) (r : PacketReader) (ps : list IncomingPacket)
    (fs : list (PacketType * u8 * bytes)) (rest : bytes) :
  received t0 = [] ->
  reader_run (PacketReader_default, t0) ps (r, t) ->
  Forall (fun x => 0 <= x.1.2 < 16 /\ len x.2 < MAX_CONTENT) fs ->
  received t ++ rest = concat ((fun x => frame x.1.1 x.1.2 x.2) <$> fs) ->
  exists done_ todo, fs = done_ ++ todo /\
    received t = concat ((fun x => frame x.1.1 x.1.2 x.2) <$> done_) ++ rd_bytes r /\
    Forall2 (fun x p => exists s, from_bytes (frame_ctrl x.1.1 x.1.2) x.2 = (Ret p, s)) done_ ps.
Proof. apply reader_run_frames. Qed.

(** A reader that is stuck does not move. *)
Lemma stuck_recv (r : PacketReader) (t : T) : stuck r -> parse_packet_size (rd_bytes r) = Ret None ->
  recv (r, t) = (Ret NeedMoreData, (r, t)).
Proof.
  destruct r as [bs sz]. intros [Hs Hl] Hp. cbn in Hs, Hl, Hp. subst sz.
  assert (update_size (mkReader bs None, t) = (Ret tt, (mkReader bs None, t))) as Hu.
  { unfold update_size, mbind, stm_bind, gets. cbn [fst rd_bytes]. by rewrite Hp. }
  unfold recv, mbind, stm_bind, gets. cbn [fst rd_bytes rd_size]. rewrite Hl. cbn.
  change (recv_n (Z.of_nat 0) (mkReader bs None, t)) with (Ret (E := io_error) false, (mkReader bs None, t)).
  cbn. by rewrite Hu.
Qed.

(** The one header on which the reader makes no progress. *)
Lemma malformed_stuck (t : T) (c b1 b2 b3 b4 : u8) :
  Forall (fun b => Z.land b 0x80 <> 0) [b1; b2; b3; b4] ->
  let r := mkReader [c; b1; b2; b3; b4] None in
  recv (r, t) = (Ret NeedMoreData, (r, t)).
Proof.
  intros Hb r. repeat match goal with Hb : Forall _ (_ :: _) |- _ =>
    apply Forall_cons_1 in Hb as [?%Z.eqb_neq Hb] end.
  assert (parse_packet_size [c; b1; b2; b3; b4] = Ret None) as Hp.
  { unfold parse_packet_size. change (drop 1 [c; b1; b2; b3; b4]) with [b1; b2; b3; b4].
    cbn [parse_size_loop]. cbv zeta.
    repeat match goal with E : _ = false |- _ => rewrite E; clear E end. done. }
  by apply stuck_recv.
Qed.

(** A successful [recv] makes progress: it takes bytes from the stream,
    returns a packet of two or more bytes, or reports that the connection is
    closed, except on a header whose four length bytes all have the
    continuation bit set. *)
Theorem recv_progress (r r' : PacketReader) (t t' : T) (st : PacketReadState) :
  reader_ok r -> recv (r, t) = (Ret st, (r', t')) ->
  match st with
  | NeedMoreData => (length (received t) < length (received t'))%nat \/ stuck r
  | ConnectionClosed => r' = r
  | Incoming _ => (length (rd_bytes r') + 2 <= length (rd_bytes r) + (length (received t') - length (received t)))%nat
  end.
Proof.
  intros Hr E. apply recv_step_inv in E as (Hok & _ & ch & Hch & Hres); [|done]. cbn [fst snd] in *.
  rewrite Hch, length_app. destruct st.
  - destruct Hres as [(fr & c & body & rest & Hsp & Hfr & _) _].
    apply (f_equal length) in Hsp. rewrite !length_app in Hsp.
    destruct Hfr as (b0 & tl & si & -> & _ & Hp & _). cbn [length] in Hsp.
    destruct tl as [|]; [done|]. cbn [length] in Hsp. lia.
  - by destruct Hres.
  - destruct Hres as [_ [Hne|Hst]]; [left|by right]. destruct ch; [done|]. cbn [length]. lia.
Qed.
End reassembly.

(* ------------------------------------------------------------------ *)
(** ** Concrete instances                                              *)
(* ------------------------------------------------------------------ *)

Section samples.
#[local] Existing Instance production.

(** A PUBACK for packet 258 and a PUBLISH on ["a"], cut in odd places. *)
Definition sample_stream : TcpTransport SimStream :=
  mkTcpTransport (mkSim [[0x40]; [2; 1]; [2; 0x30; 4; 0; 1]; [97]; [42]] [] [] []).

Definition sample_frames : list (PacketType * u8 * bytes) :=
  [(TPubAck, 0, [1; 2]); (TPublish, 0, [0; 1; 97; 42])].

(** The state after [n] calls of [recv]. *)
Fixpoint after_recvs (n : nat) (s : PacketReader * TcpTransport SimStream)
    : PacketReader * TcpTransport SimStream :=
  match n with O => s | S n => after_recvs n (recv s).2 end.

Lemma reader_ok_default : reader_ok PacketReader_default.
Proof. split; [constructor|]. split; [cbn; unfold MAX_HEADER_SIZE; lia|done]. Qed.

Lemma recv_correct_witness :
  (exists st r' t', recv (PacketReader_default, sample_stream) = (Ret st, (r', t')) /\ reader_ok r') \/
  (exists e r' t', recv (PacketReader_default, sample_stream) = (Throw e, (r', t')) /\ reader_ok r').
Proof.
  destruct (recv_correct PacketReader_default sample_stream reader_ok_default)
    as [(st & r' & t' & ? & ? & _)|(e & r' & t' & ? & ? & _)]; [left|right]; eauto.
Defined.

Lemma reassembly_witness :
  exists done_ todo (ps : list IncomingPacket) r (t : TcpTransport SimStream), sample_frames = done_ ++ todo /\
    length ps = 2%nat /\ received t = concat ((fun x => frame x.1.1 x.1.2 x.2) <$> done_) ++ rd_bytes r.
Proof.
  assert (exists ps, length ps = 2%nat /\
    reader_run (PacketReader_default, sample_stream) ps
      ((after_recvs 6 (PacketReader_default, sample_stream)).1,
       (after_recvs 6 (PacketReader_default, sample_stream)).2)) as (ps & Hps & Hrun).
  { eexists [_; _]. split; [done|].
    do 2 (eapply run_more; [vm_compute; reflexivity|]).
    eapply run_packet; [vm_compute; reflexivity|].
    do 2 (eapply run_more; [vm_compute; reflexivity|]).
    eapply run_packet; [vm_compute; reflexivity|]. apply run_done. }
  destruct (reassembly sample_stream (after_recvs 6 (PacketReader_default, sample_stream)).2
    (after_recvs 6 (PacketReader_default, sample_stream)).1 ps sample_frames [])
    as (d & todo & Hd & Hr & _); [vm_compute; reflexivity|exact Hrun|..].
  { repeat constructor; cbn; lia. }
  { vm_compute. reflexivity. }
  exact (ex_intro _ d (ex_intro _ todo (ex_intro _ ps (ex_intro _ _ (ex_intro _ _
    (conj Hd (conj Hps Hr))))))).
Defined.

Lemma recv_progress_witness :
  (length (received sample_stream)
   < length (received (after_recvs 1 (PacketReader_default, sample_stream)).2))%nat \/
  stuck PacketReader_default.
Proof.
  exact (recv_progress PacketReader_default _ sample_stream _ NeedMoreData
    reader_ok_default eq_refl).
Defined.
End samples.
