(* ===== verification/Subscription.v ===== *)
(** * [transceiver/commands.rs] and [transceiver/subscription.rs]

    The commands the client sends to the transceiver, the recipients of a
    topic (queues and callbacks), and the tree that maps topic filters to
    recipients. The channels and the callbacks are parameters. The theorems
    show that pruning offers a message once to every queue, that callbacks
    stay sorted by ID, and that the tree refines a map from filters to
    recipients in which dispatching visits the matching filters, once each. *)

From Stdlib Require Import ZArith Lia.
From stdpp Require Import base list numbers gmap sorting.
From S2P Require Import Prelude Base ByteIO Packets PacketProps.

Local Open Scope Z_scope.

(* ------------------------------------------------------------------ *)
(** ** Channels and callbacks                                          *)
(* ------------------------------------------------------------------ *)

(** A [mpsc::Sender], a [mpsc::UnboundedSender] and a boxed [FnMut] are
    references to state outside the transceiver; they are names for it here. *)
Abbreviation Sender := nat (only parsing).
Abbreviation UnboundedSender := nat (only parsing).
Abbreviation Closure := nat (only parsing).

(** [Result<(), TrySendError>]. *)
Inductive TrySend : Type := Sent | Full | Closed.

(** The operations of tokio's channels and the call of a user's callback, on
    the state [X] they work on. *)
Class Recipients (X : Type) : Type := {
  try_send : Sender -> IncomingPublishPacket -> X -> TrySend * X;
  send : UnboundedSender -> IncomingPublishPacket -> X -> result unit unit * X;
  call : Closure -> IncomingPublishPacket -> X -> X
}.

Record FastCallback : Type := mkFastCallback { cb_id : u32; cb_f : Closure }.

Inductive SubscriptionKind : Type :=
| Void
| Lossy (queue : Sender)
| Unbounded (queue : UnboundedSender)
| KFastCallback (cb : FastCallback).

Record PublishCommand : Type := mkPublishCommand {
  cmd_packet_id : u16;
  cmd_qos : QoS;
  cmd_packet : bytes
}.

Record SubscribeCommand : Type := mkSubscribeCommand {
  subcmd_topic : str;
  subcmd_qos : QoS;
  subcmd_kind : SubscriptionKind
}.

Inductive UnsubKind : Type :=
| UFastCallback (id : u32)
| Immediate.

Record UnsubCommand : Type := mkUnsubCommand {
  unsubcmd_topic : str;
  unsubcmd_kind : UnsubKind
}.

Inductive Command : Type :=
| CPublish (cmd : PublishCommand)
| CSubscribe (cmd : SubscribeCommand)
| CUnsub (cmd : UnsubCommand)
| CDisconnect.

(* ------------------------------------------------------------------ *)
(** ** The recipients of a filter                                      *)
(* ------------------------------------------------------------------ *)

Record Subscription : Type := mkSubscription {
  lossy_queue : list Sender;
  unbounded_queue : list UnboundedSender;
  fast_callbacks : list FastCallback;
  subscribed : bool
}.

Definition Subscription_default : Subscription := mkSubscription [] [] [] false.

(** [Vec::swap_remove] at an index in range. *)
Definition swap_remove {A} (i : nat) (l : list A) : list A :=
  match last l with
  | Some x => take (length l - 1) (<[i := x]> l)
  | None => l
  end.

(** [prune]: every turn advances [i] or shortens the vector. *)
Fixpoint prune_loop {A X E} (fuel : nat) (predicate : A -> X -> bool * X) (i : nat) (vec : list A)
    : stm X E (list A) :=
  match vec !! i with
  | None => mret vec
  | Some a =>
    match fuel with
    | O => out_of_fuel
    | S fuel => fun e =>
      let '(b, e) := predicate a e in
      if b then prune_loop fuel predicate i (swap_remove i vec) e
      else prune_loop fuel predicate (S i) vec e
    end
  end.

Definition prune {A X E} (vec : list A) (predicate : A -> X -> bool * X) : stm X E (list A) :=
  prune_loop (length vec) predicate 0 vec.

(** [binary_search_by_key] of the standard library, on the list of keys. *)
Fixpoint binary_search_loop (fuel : nat) (key : Z) (keys : list Z) (base size : nat)
    : outcome Empty_set nat :=
  if (size <=? 1)%nat then Ret base
  else
    match fuel with
    | O => OutOfFuel
    | S fuel =>
      let half := (size / 2)%nat in
      let mid := (base + half)%nat in
      match keys !! mid with
      | None => UB
      | Some k => binary_search_loop fuel key keys (if key <? k then base else mid) (size - half)
      end
    end.

Definition binary_search (key : Z) (keys : list Z) : outcome Empty_set (result nat nat) :=
  match keys with
  | [] => Ret (Err 0%nat)
  | _ =>
    match binary_search_loop (length keys) key keys 0 (length keys) with
    | Ret base =>
      match keys !! base with
      | None => UB
      | Some k => Ret (if k =? key then Ok base else Err (if k <? key then S base else base))
      end
    | Throw e => Throw e
    | Panic => Panic
    | UB => UB
    | OutOfFuel => OutOfFuel
    end
  end.

(** [Vec::insert] and [Vec::remove], which panic out of range. *)
Definition vec_insert {St E A} (i : nat) (x : A) (l : list A) : stm St E (list A) :=
  assert_ (i <=? length l)%nat;; mret (take i l ++ x :: drop i l).
Definition vec_remove {St E A} (i : nat) (l : list A) : stm St E (list A) :=
  assert_ (i <? length l)%nat;; mret (take i l ++ drop (S i) l).

Definition set_callbacks (l : list FastCallback) (s : Subscription) : Subscription :=
  mkSubscription (lossy_queue s) (unbounded_queue s) l (subscribed s).

Section subscription.
Context `{BuildCfg} {X E : Type} `{Recipients X}.

Definition queue_closed (msg : IncomingPublishPacket) (q : Sender) (x : X) : bool * X :=
  let '(r, x) := try_send q msg x in
  (match r with Closed => true | _ => false end, x).

Definition unbounded_closed (msg : IncomingPublishPacket) (q : UnboundedSender) (x : X) : bool * X :=
  let '(r, x) := send q msg x in (is_err r, x).

Definition call_all (msg : IncomingPublishPacket) (cbs : list FastCallback) (x : X) : X :=
  fold_left (fun x cb => call (cb_f cb) msg x) cbs x.

Definition Subscription_dispatch (msg : IncomingPublishPacket) (s : Subscription)
    : stm X E Subscription :=
  lossy ← prune (lossy_queue s) (queue_closed msg);
  unbounded ← prune (unbounded_queue s) (unbounded_closed msg);
  modify (call_all msg (fast_callbacks s));;
  mret (mkSubscription lossy unbounded (fast_callbacks s) (subscribed s)).

Definition add_fast_callback (new_cb : FastCallback) : stm Subscription E unit :=
  s ← get;
  if match last (fast_callbacks s) with
     | Some last_cb => cb_id last_cb <? cb_id new_cb
     | None => true
     end
  then modify (set_callbacks (fast_callbacks s ++ [new_cb]))
  else
    r ← infallible (binary_search (cb_id new_cb) (cb_id <$> fast_callbacks s));
    match r with
    | Err index =>
      l ← vec_insert index new_cb (fast_callbacks s);
      modify (set_callbacks l)
    | Ok _ => panic_in_test
    end.

Definition remove_fast_callback (id : u32) : stm Subscription E unit :=
  s ← get;
  r ← infallible (binary_search id (cb_id <$> fast_callbacks s));
  match r with
  | Ok index =>
    l ← vec_remove index (fast_callbacks s);
    modify (set_callbacks l)
  | Err _ => mret tt
  end.

Definition add (kind : SubscriptionKind) : stm Subscription E unit :=
  match kind with
  | Void => mret tt
  | Lossy queue => modify (fun s =>
      mkSubscription (lossy_queue s ++ [queue]) (unbounded_queue s) (fast_callbacks s) (subscribed s))
  | Unbounded queue => modify (fun s =>
      mkSubscription (lossy_queue s) (unbounded_queue s ++ [queue]) (fast_callbacks s) (subscribed s))
  | KFastCallback cb => add_fast_callback cb
  end.
End subscription.

Definition Subscription_clear (s : Subscription) : Subscription := mkSubscription [] [] [] false.

Definition set_subscribed (s : Subscription) : Subscription :=
  mkSubscription (lossy_queue s) (unbounded_queue s) (fast_callbacks s) true.

Definition is_subscribed (s : Subscription) : bool := subscribed s.

(* ------------------------------------------------------------------ *)
(** ** Topics                                                          *)
(* ------------------------------------------------------------------ *)

Definition slash : u8 := 0x2F.
Definition hash : str := [0x23].
Definition star : str := [0x2A].

Record TopicSlicer : Type := mkSlicer { head : str; slicer_tail : option str }.

(** [s.find('/')], as the parts before and after the first slash. *)
Fixpoint find_slash (s : str) : option (str * str) :=
  match s with
  | [] => None
  | b :: s' =>
    if b =? slash then Some ([], s')
    else match find_slash s' with
         | Some (h, t) => Some (b :: h, t)
         | None => None
         end
  end.

Definition TopicSlicer_new (s : str) : TopicSlicer :=
  match find_slash s with
  | Some (h, t) => mkSlicer h (Some t)
  | None => mkSlicer s None
  end.

Definition tail (s : TopicSlicer) : option TopicSlicer := TopicSlicer_new <$> slicer_tail s.

(* ------------------------------------------------------------------ *)
(** ** The tree of filters                                             *)
(* ------------------------------------------------------------------ *)

Inductive SubscriptionSetNode : Type :=
| mkNode (exact : gmap str SubscriptionSetEntry) (any : option SubscriptionSetEntry)
    (any_recursive : Subscription)
with SubscriptionSetEntry : Type :=
| mkEntry (sub : Subscription) (children : SubscriptionSetNode).

Definition exact (n : SubscriptionSetNode) := let 'mkNode x _ _ := n in x.
Definition any_ (n : SubscriptionSetNode) := let 'mkNode _ x _ := n in x.
Definition any_recursive (n : SubscriptionSetNode) := let 'mkNode _ _ x := n in x.
Definition sub (e : SubscriptionSetEntry) := let 'mkEntry x _ := e in x.
Definition children (e : SubscriptionSetEntry) := let 'mkEntry _ x := e in x.

Definition Node_default : SubscriptionSetNode := mkNode ∅ None Subscription_default.
Definition Entry_default : SubscriptionSetEntry := mkEntry Subscription_default Node_default.

Definition set_exact k e (n : SubscriptionSetNode) : SubscriptionSetNode :=
  mkNode (<[k := e]> (exact n)) (any_ n) (any_recursive n).
Definition set_any e (n : SubscriptionSetNode) : SubscriptionSetNode :=
  mkNode (exact n) (Some e) (any_recursive n).
Definition set_any_recursive s (n : SubscriptionSetNode) : SubscriptionSetNode :=
  mkNode (exact n) (any_ n) s.
Definition set_sub s (e : SubscriptionSetEntry) : SubscriptionSetEntry := mkEntry s (children e).
Definition set_children n (e : SubscriptionSetEntry) : SubscriptionSetEntry := mkEntry (sub e) n.

Record SubscriptionSet : Type := mkSet { root : SubscriptionSetNode }.
Definition SubscriptionSet_default : SubscriptionSet := mkSet Node_default.

(** [node.any.get_or_insert_with(..)] and [get_or_create_exact]. *)
Definition get_or_create_any (n : SubscriptionSetNode) : SubscriptionSetEntry :=
  default Entry_default (any_ n).
Definition get_or_create_exact (k : str) (n : SubscriptionSetNode) : SubscriptionSetEntry :=
  default Entry_default (exact n !! k).

Section dispatch.
Context {X E : Type} `{Recipients X}.

(** [SubscriptionSetEntry::dispatch]; [node_dispatch] is the method of the
    children. *)
Definition Entry_dispatch (node_dispatch : TopicSlicer -> SubscriptionSetNode -> stm X E SubscriptionSetNode)
    (tail : option TopicSlicer) (msg : IncomingPublishPacket) (e : SubscriptionSetEntry)
    : stm X E SubscriptionSetEntry :=
  match tail with
  | Some sub_topic =>
    c ← node_dispatch sub_topic (children e);
    mret (set_children c e)
  | None =>
    s ← Subscription_dispatch msg (sub e);
    mret (set_sub s e)
  end.

(** [SubscriptionSetNode::dispatch]; the fuel is a bound on the number of
    components of the topic. *)
Fixpoint Node_dispatch (fuel : nat) (topic : TopicSlicer) (msg : IncomingPublishPacket)
    (n : SubscriptionSetNode) : stm X E SubscriptionSetNode :=
  match fuel with
  | O => out_of_fuel
  | S fuel =>
    let node_dispatch t c := Node_dispatch fuel t msg c in
    s ← Subscription_dispatch msg (any_recursive n);
    let n := set_any_recursive s n in
    n ← match any_ n with
        | Some e => e ← Entry_dispatch node_dispatch (tail topic) msg e; mret (set_any e n)
        | None => mret n
        end;
    match exact n !! head topic with
    | Some e =>
      e ← Entry_dispatch node_dispatch (tail topic) msg e;
      mret (set_exact (head topic) e n)
    | None => mret n
    end
  end.

Definition SubscriptionSet_dispatch (msg : IncomingPublishPacket) (s : SubscriptionSet)
    : stm X E SubscriptionSet :=
  t ← infallible (topic msg);
  n ← Node_dispatch (S (length t)) (TopicSlicer_new t) msg (root s);
  mret (mkSet n).
End dispatch.

(** What a [&mut Subscription] into the tree is: the value, and the tree that
    results from writing through it. *)
Definition borrow (A : Type) : Type := Subscription * (Subscription -> A).

Definition borrow_map {A B} (f : A -> B) (b : borrow A) : borrow B := (b.1, fun s => f (b.2 s)).

(** The [while let] loop and the final [if] of [get_or_create]. The node comes
    back with the entries made on the way, also when the filter turns out to
    be invalid. *)
Fixpoint Node_get_or_create (fuel : nat) (topic : TopicSlicer) (n : SubscriptionSetNode)
    : outcome Empty_set (SubscriptionSetNode * result (borrow SubscriptionSetNode) unit) :=
  match fuel with
  | O => OutOfFuel
  | S fuel =>
    match tail topic with
    | Some tl =>
      if decide (head topic = hash) then Ret (n, Err tt)
      else
        let '(e, put) :=
          if decide (head topic = star) then (get_or_create_any n, fun e => set_any e n)
          else (get_or_create_exact (head topic) n, fun e => set_exact (head topic) e n) in
        let put_children c := put (set_children c e) in
        match Node_get_or_create fuel tl (children e) with
        | Ret (c, Ok b) => Ret (put_children c, Ok (borrow_map put_children b))
        | Ret (c, Err u) => Ret (put_children c, Err u)
        | o => o
        end
    | None =>
      if decide (head topic = hash) then
        Ret (n, Ok (any_recursive n, fun s => set_any_recursive s n))
      else if decide (head topic = star) then
        let e := get_or_create_any n in
        Ret (set_any e n, Ok (sub e, fun s => set_any (set_sub s e) n))
      else
        let e := get_or_create_exact (head topic) n in
        Ret (set_exact (head topic) e n,
             Ok (sub e, fun s => set_exact (head topic) (set_sub s e) n))
    end
  end.

Definition get_or_create (topic : str) (s : SubscriptionSet)
    : outcome Empty_set (SubscriptionSet * result (borrow SubscriptionSet) unit) :=
  match Node_get_or_create (S (length topic)) (TopicSlicer_new topic) (root s) with
  | Ret (n, Ok b) => Ret (mkSet n, Ok (borrow_map mkSet b))
  | Ret (n, Err u) => Ret (mkSet n, Err u)
  | Throw e => Throw e
  | Panic => Panic
  | UB => UB
  | OutOfFuel => OutOfFuel
  end.

Fixpoint Node_get (fuel : nat) (topic : TopicSlicer) (n : SubscriptionSetNode)
    : outcome Empty_set (result (option (borrow SubscriptionSetNode)) unit) :=
  match fuel with
  | O => OutOfFuel
  | S fuel =>
    match tail topic with
    | Some tl =>
      if decide (head topic = hash) then Ret (Err tt)
      else
        let '(oe, put) :=
          if decide (head topic = star) then (any_ n, fun e => set_any e n)
          else (exact n !! head topic, fun e => set_exact (head topic) e n) in
        match oe with
        | None => Ret (Ok None)
        | Some e =>
          match Node_get fuel tl (children e) with
          | Ret (Ok (Some b)) => Ret (Ok (Some (borrow_map (fun c => put (set_children c e)) b)))
          | o => o
          end
        end
    | None =>
      if decide (head topic = hash) then
        Ret (Ok (Some (any_recursive n, fun s => set_any_recursive s n)))
      else if decide (head topic = star) then
        Ret (Ok ((fun e => (sub e, fun s => set_any (set_sub s e) n)) <$> any_ n))
      else
        Ret (Ok ((fun e => (sub e, fun s => set_exact (head topic) (set_sub s e) n))
                 <$> exact n !! head topic))
    end
  end.

Definition get_sub (topic : str) (s : SubscriptionSet)
    : outcome Empty_set (result (option (borrow SubscriptionSet)) unit) :=
  match Node_get (S (length topic)) (TopicSlicer_new topic) (root s) with
  | Ret (Ok (Some b)) => Ret (Ok (Some (borrow_map mkSet b)))
  | Ret (Ok None) => Ret (Ok None)
  | Ret (Err u) => Ret (Err u)
  | Throw e => Throw e
  | Panic => Panic
  | UB => UB
  | OutOfFuel => OutOfFuel
  end.

(** The [?] on [Err(())] is the [Err] of the result. *)
Definition clear (topic : str) {E} : stm SubscriptionSet E (result bool unit) :=
  s ← get;
  r ← infallible (get_sub topic s);
  match r with
  | Err u => mret (Err u)
  | Ok (Some (sub, put)) =>
    if is_subscribed sub then modify (fun _ => put (Subscription_clear sub));; mret (Ok true)
    else mret (Ok false)
  | Ok None => mret (Ok false)
  end.

(* ------------------------------------------------------------------ *)
(** ** Pruning                                                         *)
(* ------------------------------------------------------------------ *)

(** Offering to each element of a list in order, and keeping those that are
    not to be removed: what [prune] does, up to the order. *)
Fixpoint offer_all {A X} (p : A -> X -> bool * X) (l : list A) (x : X) : list A * X :=
  match l with
  | [] => ([], x)
  | a :: l =>
    let '(b, x) := p a x in
    let '(kept, x) := offer_all p l x in
    (if b then kept else a :: kept, x)
  end.

Section prune.
Context {A X E : Type}.
Implicit Types (p : A -> X -> bool * X) (l : list A).

Lemma swap_remove_last l (a : A) : swap_remove (length l) (l ++ [a]) = l.
Proof.
  unfold swap_remove. rewrite last_snoc, length_app. cbn [length].
  rewrite list_insert_id by (by rewrite lookup_app_r, Nat.sub_diag).
  replace (length l + 1 - 1)%nat with (length l) by lia. by rewrite take_app_length.
Qed.

Lemma swap_remove_middle l k (a b : A) :
  swap_remove (length l) (l ++ a :: k ++ [b]) = l ++ b :: k.
Proof.
  unfold swap_remove.
  replace (l ++ a :: k ++ [b]) with ((l ++ a :: k) ++ [b]) by (by rewrite <- (assoc_L (++))).
  rewrite last_snoc, <- (assoc_L (++)), insert_app_r_alt, Nat.sub_diag by lia. cbn [app list_insert insert].
  rewrite length_app. cbn [length]. rewrite length_app. cbn [length].
  replace (l ++ b :: k ++ [b]) with ((l ++ b :: k) ++ [b]) by (by rewrite <- (assoc_L (++))).
  apply take_app_exact. rewrite length_app. cbn [length]. lia.
Qed.

Lemma prune_loop_spec p fuel l1 l2 x : (length l2 <= fuel)%nat ->
  exists visited, visited ≡ₚ l2 /\
    prune_loop (E := E) fuel p (length l1) (l1 ++ l2) x
    = (Ret (l1 ++ (offer_all p visited x).1), (offer_all p visited x).2).
Proof.
  revert l1 l2 x. induction fuel as [|fuel IH]; intros l1 l2 x Hf.
  { destruct l2; [|cbn in Hf; lia]. exists []. split; [done|].
    cbn. rewrite app_nil_r, lookup_ge_None_2 by lia. done. }
  destruct l2 as [|a l2].
  { exists []. split; [done|]. cbn. rewrite app_nil_r, lookup_ge_None_2 by lia. done. }
  cbn [length] in Hf. cbn [prune_loop].
  rewrite lookup_app_r, Nat.sub_diag by lia. cbn [lookup list_lookup].
  destruct (p a x) as [b x1] eqn:Ep. destruct b.
  - destruct l2 as [|z l2 _] using rev_ind.
    + rewrite swap_remove_last. destruct (IH l1 [] x1 ltac:(cbn; lia)) as (v & Hv & Hr).
      rewrite app_nil_r in Hr. exists (a :: v). split; [by rewrite Hv|]. rewrite Hr.
      cbn [offer_all]. rewrite Ep. by destruct (offer_all p v x1).
    + rewrite swap_remove_middle. rewrite length_app in Hf. cbn [length] in Hf.
      destruct (IH l1 (z :: l2) x1 ltac:(cbn; lia)) as (v & Hv & Hr).
      exists (a :: v). split; [rewrite Hv; by rewrite <- Permutation_cons_append|]. rewrite Hr.
      cbn [offer_all]. rewrite Ep. by destruct (offer_all p v x1).
  - destruct (IH (l1 ++ [a]) l2 x1 ltac:(lia)) as (v & Hv & Hr).
    exists (a :: v). split; [by rewrite Hv|].
    rewrite length_app, <- (assoc_L (++)) in Hr. cbn [length app] in Hr.
    rewrite Nat.add_1_r in Hr. rewrite Hr.
    cbn [offer_all]. rewrite Ep. destruct (offer_all p v x1). cbn. by rewrite <- (assoc_L (++)).
Qed.

Lemma prune_spec p l x : exists visited, visited ≡ₚ l /\
  prune (E := E) l p x = (Ret (offer_all p visited x).1, (offer_all p visited x).2).
Proof. exact (prune_loop_spec p (length l) [] l x ltac:(lia)). Qed.
End prune.

(* ------------------------------------------------------------------ *)
(** ** Sorted callbacks                                                *)
(* ------------------------------------------------------------------ *)

Definition sorted_keys (keys : list Z) : Prop := StronglySorted Z.lt keys.

Lemma sorted_keys_lookup (keys : list Z) i j x y :
  sorted_keys keys -> keys !! i = Some x -> keys !! j = Some y -> (i < j)%nat -> x < y.
Proof.
  intros Hs. revert i j. induction Hs as [|k keys Hs IH Hf]; intros i j Hx Hy Hij; [done|].
  destruct j as [|j]; [lia|]. destruct i as [|i]; cbn in Hx, Hy.
  - injection Hx as ->. rewrite Forall_lookup in Hf. by eapply Hf.
  - eapply IH; [done|done|lia].
Qed.

Definition search_inv (key : Z) (keys : list Z) (base size : nat) : Prop :=
  (1 <= size)%nat /\ (base + size <= length keys)%nat /\
  (forall k, keys !! base = Some k -> base <> 0%nat -> k <= key) /\
  (forall j k, (base + size <= j)%nat -> keys !! j = Some k -> key < k).

Lemma binary_search_loop_spec (key : Z) (keys : list Z) fuel base size :
  sorted_keys keys -> (size <= S fuel)%nat -> search_inv key keys base size ->
  exists base', binary_search_loop fuel key keys base size = Ret base' /\
    search_inv key keys base' 1.
Proof.
  intros Hs. revert base size. induction fuel as [|fuel IH]; intros base size Hf Hinv.
  { assert (size = 1%nat) as -> by (destruct Hinv; lia). cbn. by exists base. }
  cbn [binary_search_loop]. destruct (Nat.leb_spec size 1) as [|Hgt].
  { assert (size = 1%nat) as -> by (destruct Hinv; lia). by exists base. }
  destruct Hinv as (H1 & H2 & H3 & H4). cbv zeta.
  pose proof (Nat.div_lt size 2 ltac:(lia) ltac:(lia)) as Hh1.
  pose proof (Nat.div_str_pos size 2 ltac:(lia)) as Hh2.
  set (half := (size / 2)%nat) in *.
  destruct (lookup_lt_is_Some_2 keys (base + half) ltac:(lia)) as [k Hk]. rewrite Hk.
  apply IH; [lia|]. destruct (Z.ltb_spec key k) as [Hlt|Hge].
  - assert ((base + half <= base + (size - half))%nat).
    { pose proof (Nat.div_mod size 2). pose proof (Nat.mod_upper_bound size 2). subst half. lia. }
    split_and!; [lia|lia|done|]. intros j k' Hj Hk'.
    destruct (decide (j = (base + half)%nat)) as [->|]; [congruence|].
    assert (k < k') by (eapply (sorted_keys_lookup keys (base + half) j); eauto; lia). lia.
  - split_and!; [lia|lia|intros; congruence|]. intros j k' Hj Hk'. apply (H4 j); [lia|done].
Qed.

Definition search_result (key : Z) (keys : list Z) (r : result nat nat) : Prop :=
  match r with
  | Ok i => keys !! i = Some key
  | Err i => (i <= length keys)%nat /\ Forall (fun k => k < key) (take i keys) /\
             Forall (fun k => key < k) (drop i keys)
  end.

Lemma sorted_split (keys : list Z) i k : sorted_keys keys -> keys !! i = Some k ->
  Forall (fun x => x < k) (take i keys) /\ Forall (fun x => k < x) (drop (S i) keys).
Proof.
  intros Hs Hk. split; apply Forall_lookup; intros j x Hx.
  - apply lookup_take_Some in Hx as [Hx Hj]. by eapply sorted_keys_lookup.
  - rewrite lookup_drop in Hx. eapply (sorted_keys_lookup keys i (S i + j)); eauto; lia.
Qed.

Lemma binary_search_spec (key : Z) (keys : list Z) : sorted_keys keys ->
  exists r, binary_search key keys = Ret r /\ search_result key keys r.
Proof.
  intros Hs. destruct keys as [|k0 keys0] eqn:Ek; [by exists (Err 0%nat)|].
  rewrite <- Ek in *. assert (0 < length keys)%nat by (subst; cbn; lia).
  destruct (binary_search_loop_spec key keys (length keys) 0 (length keys) Hs)
    as (base & Hl & H1 & H2 & H3 & H4); [lia|split_and!; [lia|lia|done|]|].
  { intros j k Hj Hk. apply lookup_lt_Some in Hk. lia. }
  assert (binary_search key keys = match keys !! base with
      | None => UB
      | Some k => Ret (if k =? key then Ok base else Err (if k <? key then S base else base))
      end) as -> by (unfold binary_search; by rewrite Hl, Ek).
  destruct (lookup_lt_is_Some_2 keys base ltac:(lia)) as [k Hk]. rewrite Hk.
  eexists. split; [done|]. destruct (sorted_split keys base k Hs Hk) as [Hlo Hhi].
  destruct (Z.eqb_spec k key) as [->|Hne]; [done|].
  destruct (Z.ltb_spec k key) as [Hlt|Hge]; cbn.
  - split_and!; [lia| |].
    + rewrite (take_S_r _ _ k Hk). apply Forall_app. split; [|by repeat constructor].
      eapply Forall_impl; [exact Hlo|]. cbn; lia.
    + apply Forall_lookup. intros j x Hx. rewrite lookup_drop in Hx. apply (H4 (S base + j)%nat); [lia|done].
  - destruct base as [|base]; [|specialize (H3 k Hk ltac:(done)); lia].
    split_and!; [lia|constructor|]. rewrite (drop_S keys k 0 Hk). constructor; [lia|].
    eapply Forall_impl; [exact Hhi|]. cbn; lia.
Qed.

Lemma sorted_insert (keys : list Z) i key : sorted_keys keys ->
  Forall (fun k => k < key) (take i keys) -> Forall (fun k => key < k) (drop i keys) ->
  sorted_keys (take i keys ++ key :: drop i keys).
Proof.
  intros Hs Hlo Hhi. unfold sorted_keys in *. rewrite <- (take_drop i keys) in Hs.
  apply StronglySorted_app in Hs as (Hm & H1 & H2). apply StronglySorted_app_2.
  - intros x y Hx [->|Hy]%elem_of_cons; [|by apply Hm].
    rewrite Forall_forall in Hlo. by apply Hlo.
  - done.
  - by constructor.
Qed.

Definition Subscription_ok (s : Subscription) : Prop := sorted_keys (cb_id <$> fast_callbacks s).

Lemma Subscription_default_ok : Subscription_ok Subscription_default.
Proof. constructor. Qed.

Lemma sorted_snoc (keys : list Z) key : sorted_keys keys ->
  (forall k, last keys = Some k -> k < key) -> sorted_keys (keys ++ [key]).
Proof.
  intros Hs Hl. apply StronglySorted_app_2; [|done|by repeat constructor].
  intros x y Hx Hy. apply list_elem_of_singleton in Hy as ->.
  destruct keys as [|z keys _] using rev_ind; [by apply elem_of_nil in Hx|].
  rewrite last_snoc in Hl. specialize (Hl z eq_refl).
  apply elem_of_app in Hx as [Hx|Hx]; [|by apply list_elem_of_singleton in Hx as ->].
  apply StronglySorted_app in Hs as (Hm & _). specialize (Hm x z Hx ltac:(by constructor)). lia.
Qed.

(** Adding a callback: rejected when its ID is taken, inserted otherwise. *)
Definition callback_added (cb : FastCallback) (s s' : Subscription) : Prop :=
  lossy_queue s' = lossy_queue s /\ unbounded_queue s' = unbounded_queue s /\
  subscribed s' = subscribed s /\
  if decide (cb_id cb ∈ cb_id <$> fast_callbacks s) then s' = s
  else fast_callbacks s' ≡ₚ cb :: fast_callbacks s.

(** Adding a recipient of any kind. *)
Definition recipient_added (k : SubscriptionKind) (s s' : Subscription) : Prop :=
  match k with
  | Void => s' = s
  | Lossy q => s' = mkSubscription (lossy_queue s ++ [q]) (unbounded_queue s) (fast_callbacks s) (subscribed s)
  | Unbounded q => s' = mkSubscription (lossy_queue s) (unbounded_queue s ++ [q]) (fast_callbacks s) (subscribed s)
  | KFastCallback cb => callback_added cb s s'
  end.

Section subscription_facts.
#[local] Existing Instance production.
Context {E : Type}.
Implicit Types (s : Subscription) (R : E -> Subscription -> Prop).

Lemma wp_add_fast_callback cb s : Subscription_ok s ->
  wp (E := E) (add_fast_callback cb) (fun _ s' => Subscription_ok s' /\ callback_added cb s s')
    (fun _ _ => False) s.
Proof.
  intros Hs. unfold add_fast_callback. apply wp_bind.
  apply wp_get. apply wp_if; intros Hc.
  - apply wp_modify. unfold Subscription_ok, callback_added; cbn.
    assert (Hsn : sorted_keys (cb_id <$> fast_callbacks s ++ [cb])).
    { rewrite fmap_app. apply sorted_snoc; [done|]. intros k Hk.
      rewrite fmap_last in Hk. destruct (last (fast_callbacks s)); [|done].
      injection Hk as <-. by apply Z.ltb_lt. }
    split_and!; [done|done|done|done|]. rewrite fmap_app in Hsn.
    rewrite decide_False; [by rewrite (comm (++))|].
    intros Hin. apply StronglySorted_app in Hsn as (Hm & _).
    specialize (Hm _ (cb_id cb) Hin ltac:(by constructor)). lia.
  - apply wp_bind. destruct (binary_search_spec (cb_id cb) _ Hs) as (r & Hr & Hres).
    eapply wp_infallible; [exact Hr|]. destruct r as [i|i].
    + apply wp_ret. split; [done|]. split_and!; try done. rewrite decide_True; [done|].
      by eapply list_elem_of_lookup_2.
    + destruct Hres as (Hi & Hlo & Hhi). rewrite length_fmap in Hi. rewrite <- fmap_take in Hlo.
      rewrite <- fmap_drop in Hhi.
      apply wp_bind, wp_bind, wp_assert; [by apply Nat.leb_le|]. apply wp_ret, wp_modify.
      unfold Subscription_ok, callback_added; cbn. split.
      { rewrite fmap_app, fmap_cons, fmap_take, fmap_drop. apply sorted_insert; [done|..].
        - by rewrite <- fmap_take. - by rewrite <- fmap_drop. }
      split_and!; [done..|]. rewrite decide_False.
      { by rewrite <- Permutation_middle, take_drop. }
      rewrite <- (take_drop i (fast_callbacks s)), fmap_app, elem_of_app.
      rewrite Forall_forall in Hlo, Hhi. intros [Hin|Hin]; [specialize (Hlo _ Hin)|specialize (Hhi _ Hin)]; lia.
Qed.

Lemma wp_add k s : Subscription_ok s ->
  wp (E := E) (add k) (fun _ s' => Subscription_ok s' /\ recipient_added k s s') (fun _ _ => False) s.
Proof. intros Hs. destruct k; [done|done|done|by apply wp_add_fast_callback]. Qed.

Lemma wp_remove_fast_callback i s : Subscription_ok s ->
  wp (E := E) (remove_fast_callback i)
    (fun _ s' => Subscription_ok s' /\
       s' = set_callbacks (filter (fun cb => cb_id cb <> i) (fast_callbacks s)) s)
    (fun _ _ => False) s.
Proof.
  intros Hs. unfold remove_fast_callback. apply wp_bind.
  apply wp_get. apply wp_bind.
  destruct (binary_search_spec i _ Hs) as (r & Hr & Hres).
  eapply wp_infallible; [exact Hr|]. destruct r as [j|j].
  - pose proof (sorted_split _ _ _ Hs Hres) as [Hlo Hhi].
    rewrite <- fmap_take in Hlo. rewrite <- fmap_drop in Hhi.
    apply list_lookup_fmap_Some_1 in Hres as (cb & Hcb & Hj).
    pose proof (lookup_lt_Some _ _ _ Hj) as Hlt.
    apply wp_bind, wp_bind, wp_assert; [by apply Nat.ltb_lt|]. apply wp_ret, wp_modify.
    rewrite Forall_fmap in Hlo, Hhi.
    assert (filter (fun cb => cb_id cb <> i) (fast_callbacks s)
            = take j (fast_callbacks s) ++ drop (S j) (fast_callbacks s)) as ->.
    { rewrite <- (take_drop_middle _ _ _ Hj) at 1. rewrite filter_app, filter_cons_False by (cbn; auto).
      rewrite !filter_all; [done| |]; (eapply Forall_impl; [eassumption|]); cbn; lia. }
    split; [|done]. unfold Subscription_ok, set_callbacks; cbn.
    rewrite fmap_app, fmap_take, fmap_drop.
    unfold Subscription_ok, sorted_keys in Hs.
    rewrite <- (take_drop j (cb_id <$> _)) in Hs. apply StronglySorted_app in Hs as (Hm & H1 & H2).
    rewrite (drop_S _ i j) in H2, Hm by (by rewrite list_lookup_fmap, Hj; cbn; rewrite Hcb).
    apply StronglySorted_cons in H2 as [_ H2]. apply StronglySorted_app_2; [|done|done].
    intros x y Hx Hy. apply Hm; [done|by constructor].
  - destruct Hres as (Hi & Hlo & Hhi). apply wp_ret. split; [done|].
    rewrite <- fmap_take in Hlo. rewrite <- fmap_drop in Hhi. rewrite Forall_fmap in Hlo, Hhi.
    rewrite filter_all; [by destruct s|].
    rewrite <- (take_drop j (fast_callbacks s)). apply Forall_app. split;
      (eapply Forall_impl; [eassumption|]); cbn; lia.
Qed.
End subscription_facts.

(* ------------------------------------------------------------------ *)
(** ** Topics as lists of components                                   *)
(* ------------------------------------------------------------------ *)

(** The components of a topic: the pieces between slashes. *)
Fixpoint split_slash (cur : str) (s : str) : list str :=
  match s with
  | [] => [cur]
  | b :: s' => if b =? slash then cur :: split_slash [] s' else split_slash (cur ++ [b]) s'
  end.
Definition levels (s : str) : list str := split_slash [] s.

Lemma find_slash_spec (cur s : str) :
  split_slash cur s = match find_slash s with
                      | Some (h, t) => (cur ++ h) :: levels t
                      | None => [cur ++ s]
                      end.
Proof.
  revert cur. induction s as [|b s IH]; intros cur; cbn [split_slash find_slash];
    [by rewrite app_nil_r|].
  destruct (b =? slash); [by rewrite app_nil_r|].
  rewrite IH. destruct (find_slash s) as [[h t]|]; by rewrite <- (assoc_L (++)).
Qed.

Lemma find_slash_length (s h t : str) : find_slash s = Some (h, t) -> (length t < length s)%nat.
Proof.
  revert h. induction s as [|b s IH]; intros h; [done|]. cbn [find_slash].
  destruct (b =? slash); [intros [= _ ->]; cbn; lia|].
  destruct (find_slash s) as [[h' t']|] eqn:E; [|done].
  intros [= _ ->]. specialize (IH _ eq_refl). cbn. lia.
Qed.

(** The slicer enumerates the components. *)
Lemma levels_slicer (s : str) :
  levels s = head (TopicSlicer_new s) :: match slicer_tail (TopicSlicer_new s) with
                                         | Some t => levels t
                                         | None => []
                                         end.
Proof.
  unfold levels at 1. rewrite find_slash_spec. unfold TopicSlicer_new.
  by destruct (find_slash s) as [[h t]|].
Qed.

Lemma slicer_tail_length (s t : str) :
  slicer_tail (TopicSlicer_new s) = Some t -> (length t < length s)%nat.
Proof.
  unfold TopicSlicer_new. destruct (find_slash s) as [[h t']|] eqn:E; [|done].
  intros [= <-]. by eapply find_slash_length.
Qed.

(** The case analysis that the loops over a slicer make: last component, or
    one more. *)
Lemma slicer_cases (s : str) :
  (levels s = [head (TopicSlicer_new s)] /\ tail (TopicSlicer_new s) = None) \/
  (exists t, levels s = head (TopicSlicer_new s) :: levels t /\
     tail (TopicSlicer_new s) = Some (TopicSlicer_new t) /\ (length t < length s)%nat).
Proof.
  rewrite levels_slicer. unfold tail. destruct (slicer_tail (TopicSlicer_new s)) as [t|] eqn:E.
  - right. exists t. split_and!; [done|done|]. by apply slicer_tail_length.
  - by left.
Qed.

Lemma levels_not_nil (s : str) : levels s <> [].
Proof. rewrite levels_slicer. done. Qed.

(** A filter is valid when ["#"] is its last component or absent. *)
Fixpoint valid_filter (f : list str) : bool :=
  match f with
  | [] => true
  | [_] => true
  | h :: f' => negb (bool_decide (h = hash)) && valid_filter f'
  end.

(** Which topics a filter stands for: ["*"] any one component, a final ["#"]
    one or more. *)
Fixpoint filter_matches (f t : list str) : bool :=
  match f, t with
  | [], [] => true
  | x :: f', y :: t' =>
    if decide (x = hash) then bool_decide (f' = [])
    else bool_decide (x = star \/ x = y) && filter_matches f' t'
  | _, _ => false
  end.

(* ------------------------------------------------------------------ *)
(** ** The tree as a map from filters to recipients                    *)
(* ------------------------------------------------------------------ *)

Definition child (h : str) (n : SubscriptionSetNode) : option SubscriptionSetEntry :=
  if decide (h = star) then any_ n else exact n !! h.

Fixpoint node_view (n : SubscriptionSetNode) (f : list str) : Subscription :=
  match f with
  | [] => Subscription_default
  | h :: f' =>
    if decide (h = hash) then
      match f' with [] => any_recursive n | _ => Subscription_default end
    else
      match child h n with
      | None => Subscription_default
      | Some e => match f' with [] => sub e | _ => node_view (children e) f' end
      end
  end.

Definition view (s : SubscriptionSet) (f : list str) : Subscription := node_view (root s) f.

Definition entry_view (e : SubscriptionSetEntry) (f : list str) : Subscription :=
  match f with [] => sub e | _ => node_view (children e) f end.

(** No exact entry is named like a wildcard. *)
Inductive node_wf : SubscriptionSetNode -> Prop :=
| node_wf_intro n :
    exact n !! star = None -> exact n !! hash = None ->
    (forall h e, child h n = Some e -> node_wf (children e)) -> node_wf n.

(** The abstract state of the component. *)
Abbreviation filter_map := (list str -> Subscription).

Definition fm_upd (f : list str) (s : Subscription) (A : filter_map) : filter_map :=
  fun g => if decide (g = f) then s else A g.

(** [s] implements [A]. *)
Definition implements (s : SubscriptionSet) (A : filter_map) : Prop :=
  node_wf (root s) /\ forall f, view s f = A f.

Lemma node_view_cons n h f : h <> hash ->
  node_view n (h :: f) = match child h n with
                         | None => Subscription_default
                         | Some e => entry_view e f
                         end.
Proof. intros Hh. cbn. rewrite decide_False by done. destruct (child h n); [|done]. by destruct f. Qed.

Lemma node_view_hash n : node_view n [hash] = any_recursive n.
Proof. done. Qed.

Lemma node_view_hash_cons n x f : node_view n (hash :: x :: f) = Subscription_default.
Proof. done. Qed.

Lemma Node_default_wf : node_wf Node_default.
Proof. constructor; [done|done|]. intros h e. unfold child. by case_decide. Qed.

Lemma node_view_default f : node_view Node_default f = Subscription_default.
Proof.
  destruct f as [|h f]; [done|]. cbn. case_decide; [by destruct f|]. unfold child. by case_decide.
Qed.

Lemma entry_view_default f : entry_view Entry_default f = Subscription_default.
Proof. destruct f; [done|]. apply node_view_default. Qed.

Lemma node_wf_child n h e : node_wf n -> child h n = Some e -> node_wf (children e).
Proof. intros [? _ _ Hc]. apply Hc. Qed.

(** Writing the entry below one component. *)
Definition put_child (h : str) (e : SubscriptionSetEntry) (n : SubscriptionSetNode) : SubscriptionSetNode :=
  if decide (h = star) then set_any e n else set_exact h e n.

Lemma child_put h e n h' : h <> hash ->
  child h' (put_child h e n) = if decide (h' = h) then Some e else child h' n.
Proof.
  intros Hh. unfold child, put_child. repeat case_decide; subst; try done; cbn.
  - by rewrite lookup_insert_eq.
  - by rewrite lookup_insert_ne.
Qed.

Lemma put_child_wf h e n : h <> hash -> node_wf n -> node_wf (children e) -> node_wf (put_child h e n).
Proof.
  intros Hh Hn He. destruct Hn as [n H1 H2 H3]. constructor.
  - unfold put_child. case_decide; [done|]. cbn. by rewrite lookup_insert_ne.
  - unfold put_child. case_decide; [done|]. cbn. by rewrite lookup_insert_ne.
  - intros h' e'. rewrite child_put by done. case_decide; [by intros [= <-]|]. apply H3.
Qed.

Lemma put_child_recursive h e n : any_recursive (put_child h e n) = any_recursive n.
Proof. unfold put_child. by case_decide. Qed.

Lemma put_child_view h e n g : h <> hash ->
  node_view (put_child h e n) g
  = match g with
    | h' :: g' => if decide (h' = h) then entry_view e g' else node_view n g
    | [] => Subscription_default
    end.
Proof.
  intros Hh. destruct g as [|h' g]; [done|].
  destruct (decide (h' = hash)) as [->|Hne].
  - rewrite decide_False by done. destruct g; [|done]. cbn. apply put_child_recursive.
  - rewrite !node_view_cons, child_put by done. by case_decide.
Qed.

Lemma set_any_recursive_wf s n : node_wf n -> node_wf (set_any_recursive s n).
Proof. intros [n' H1 H2 H3]. by constructor. Qed.

Lemma set_any_recursive_view s n g :
  node_view (set_any_recursive s n) g = if decide (g = [hash]) then s else node_view n g.
Proof.
  destruct g as [|h g]; [done|]. cbn. destruct (decide (h = hash)) as [->|Hne].
  - destruct g; [by rewrite decide_True|by rewrite decide_False].
  - rewrite decide_False by congruence. done.
Qed.

(* ------------------------------------------------------------------ *)
(** ** Borrowing an element of the tree                                *)
(* ------------------------------------------------------------------ *)

(** [b] is a mutable reference to the recipients of the filter [f] in [n]. *)
Definition borrows (n : SubscriptionSetNode) (f : list str) (b : borrow SubscriptionSetNode) : Prop :=
  b.1 = node_view n f /\
  forall x, node_wf (b.2 x) /\ forall g, node_view (b.2 x) g = fm_upd f x (node_view n) g.

(** [e] is the entry below the component [h], or an empty one in its place. *)
Definition entry_for (n : SubscriptionSetNode) (h : str) (e : SubscriptionSetEntry) : Prop :=
  h <> hash /\ node_wf n /\ node_wf (children e) /\ forall f, node_view n (h :: f) = entry_view e f.

Lemma entry_for_default n h : h <> hash -> node_wf n -> entry_for n h (default Entry_default (child h n)).
Proof.
  intros Hh Hn. split_and!; [done|done| |].
  - destruct (child h n) eqn:E; [by eapply node_wf_child|apply Node_default_wf].
  - intros f. rewrite node_view_cons by done. destruct (child h n); [done|].
    symmetry. apply entry_view_default.
Qed.

Lemma entry_for_child n h e : h <> hash -> node_wf n -> child h n = Some e -> entry_for n h e.
Proof.
  intros Hh Hn E. split_and!; [done|done|by eapply node_wf_child|].
  intros f. by rewrite node_view_cons, E by done.
Qed.

Lemma fm_upd_cons (h : str) f x (A : filter_map) g' h' :
  fm_upd (h :: f) x A (h' :: g') = if decide (h' = h) then fm_upd f x (fun g => A (h :: g)) g' else A (h' :: g').
Proof. unfold fm_upd. repeat case_decide; naive_solver. Qed.

Lemma borrows_below n h e f b : entry_for n h e -> f <> [] -> borrows (children e) f b ->
  borrows n (h :: f) (borrow_map (fun c => put_child h (set_children c e) n) b).
Proof.
  intros (Hh & Hn & He & Hv) Hf [Hb Hp]. split.
  - cbn [borrow_map fst]. rewrite Hb, Hv. by destruct f.
  - intros x. destruct (Hp x) as [Hwf Hg]. split; [by apply put_child_wf|].
    intros g. cbn [borrow_map snd]. rewrite put_child_view by done. destruct g as [|h' g]; [done|].
    rewrite fm_upd_cons. case_decide as E; [|done]. subst h'.
    destruct g as [|y g].
    + unfold fm_upd. rewrite decide_False by done. by rewrite Hv.
    + cbn [entry_view set_children children]. rewrite Hg. unfold fm_upd.
      case_decide; [done|]. by rewrite Hv.
Qed.

Lemma borrows_last n h e : entry_for n h e ->
  borrows n [h] (sub e, fun s => put_child h (set_sub s e) n).
Proof.
  intros (Hh & Hn & He & Hv). split; [by rewrite Hv|]. intros x. split; [by apply put_child_wf|].
  intros g. cbn [snd]. rewrite put_child_view by done. destruct g as [|h' g]; [done|].
  rewrite fm_upd_cons. case_decide as E; [|done]. subst h'.
  unfold fm_upd. destruct g as [|y g]; [by rewrite decide_True|].
  rewrite decide_False by done. by rewrite Hv.
Qed.

Lemma borrows_hash n : node_wf n -> borrows n [hash] (any_recursive n, fun s => set_any_recursive s n).
Proof.
  intros Hn. split; [done|]. intros x. split; [by apply set_any_recursive_wf|].
  intros g. cbn [snd]. by rewrite set_any_recursive_view.
Qed.

Lemma put_same_view n h e c : entry_for n h e -> node_wf c -> (forall g, node_view c g = node_view (children e) g) ->
  node_wf (put_child h (set_children c e) n) /\
  forall g, node_view (put_child h (set_children c e) n) g = node_view n g.
Proof.
  intros (Hh & Hn & He & Hv) Hc Hg. split; [by apply put_child_wf|].
  intros g. rewrite put_child_view by done. destruct g as [|h' g]; [done|].
  case_decide as E; [|done]. subst h'. rewrite Hv. destruct g; [done|]. cbn [entry_view set_children children].
  apply Hg.
Qed.

Lemma valid_filter_cons h s : valid_filter (h :: levels s) = negb (bool_decide (h = hash)) && valid_filter (levels s).
Proof. pose proof (levels_not_nil s). cbn [valid_filter]. by destruct (levels s). Qed.

(** The step of both loops, in terms of [child] and [put_child]. *)
Lemma any_or_exact {B} h n (k : SubscriptionSetEntry -> (SubscriptionSetEntry -> SubscriptionSetNode) -> B) :
  (let '(e, put) :=
     if decide (h = star) then (get_or_create_any n, fun e => set_any e n)
     else (get_or_create_exact h n, fun e => set_exact h e n) in k e put)
  = k (default Entry_default (child h n)) (fun e => put_child h e n).
Proof. unfold child, put_child. by case_decide. Qed.

Lemma Node_get_or_create_spec fuel s n : (length s < fuel)%nat -> node_wf n ->
  exists n' r, Node_get_or_create fuel (TopicSlicer_new s) n = Ret (n', r) /\
    node_wf n' /\ (forall g, node_view n' g = node_view n g) /\
    match r with
    | Ok b => valid_filter (levels s) = true /\ borrows n (levels s) b
    | Err _ => valid_filter (levels s) = false
    end.
Proof.
  revert s n. induction fuel as [|fuel IH]; intros s n Hf Hn; [lia|].
  cbn [Node_get_or_create].
  destruct (slicer_cases s) as [(-> & ->)|(t & -> & -> & Ht)]; set (h := head (TopicSlicer_new s)).
  - destruct (decide (h = hash)) as [Eh|Hh].
    { do 2 eexists. split; [reflexivity|]. split_and!; [done|done|done|]. rewrite Eh. by apply borrows_hash. }
    pose proof (entry_for_default n h Hh Hn) as He.
    set (e := default Entry_default (child h n)) in *.
    assert (node_wf (put_child h e n) /\ forall g, node_view (put_child h e n) g = node_view n g) as [Hw Hg].
    { destruct He as (? & ? & Hc & Hv) eqn:X. destruct (put_same_view n h e (children e) He Hc ltac:(done)) as [??].
      by destruct e. }
    pose proof (borrows_last n h e He) as Hb. revert Hw Hg Hb. unfold put_child, e, child.
    destruct (decide (h = star)); intros Hw Hg Hb; do 2 eexists; (split; [reflexivity|]);
      exact (conj Hw (conj Hg (conj eq_refl Hb))).
  - rewrite valid_filter_cons. destruct (decide (h = hash)) as [Eh|Hh].
    { do 2 eexists. split; [reflexivity|]. split_and!; [done|done|]. by rewrite bool_decide_true. }
    rewrite (any_or_exact h n). rewrite bool_decide_false by done.
    pose proof (entry_for_default n h Hh Hn) as He.
    set (e := default Entry_default (child h n)) in *.
    destruct (IH t (children e) ltac:(lia) (proj1 (proj2 (proj2 He)))) as (c & r & -> & Hc & Hg & Hr).
    destruct (put_same_view n h e c He Hc Hg) as [Hw Hv].
    destruct r as [b|u]; do 2 eexists; (split; [reflexivity|]).
    + destruct Hr as [Hval Hb]. refine (conj Hw (conj Hv (conj Hval _))).
      by apply borrows_below; [|apply levels_not_nil|].
    + exact (conj Hw (conj Hv Hr)).
Qed.

Lemma child_or_exact {B} h n (k : option SubscriptionSetEntry -> (SubscriptionSetEntry -> SubscriptionSetNode) -> B) :
  (let '(oe, put) :=
     if decide (h = star) then (any_ n, fun e => set_any e n)
     else (exact n !! h, fun e => set_exact h e n) in k oe put)
  = k (child h n) (fun e => put_child h e n).
Proof. unfold child, put_child. by case_decide. Qed.

Lemma no_child_view n h f : h <> hash -> child h n = None -> node_view n (h :: f) = Subscription_default.
Proof. intros Hh E. by rewrite node_view_cons, E by done. Qed.

(** What [get] returns for the filter [f]. *)
Definition get_result (n : SubscriptionSetNode) (f : list str)
    (r : result (option (borrow SubscriptionSetNode)) unit) : Prop :=
  match r with
  | Ok (Some b) => valid_filter f = true /\ borrows n f b
  | Ok None => node_view n f = Subscription_default
  | Err _ => valid_filter f = false
  end.

Lemma Node_get_spec fuel s n : (length s < fuel)%nat -> node_wf n ->
  exists r, Node_get fuel (TopicSlicer_new s) n = Ret r /\ get_result n (levels s) r.
Proof.
  revert s n. induction fuel as [|fuel IH]; intros s n Hf Hn; [lia|].
  cbn [Node_get].
  destruct (slicer_cases s) as [(-> & ->)|(t & -> & -> & Ht)]; set (h := head (TopicSlicer_new s)).
  - destruct (decide (h = hash)) as [Eh|Hh].
    { eexists. split; [reflexivity|]. split; [done|]. rewrite Eh. by apply borrows_hash. }
    pose proof (entry_for_child n h) as He. pose proof (no_child_view n h [] Hh) as Hno.
    pose proof (borrows_last n h) as Hb. revert He Hno Hb. unfold put_child, child.
    destruct (decide (h = star)) as [Es|Es]; intros He Hno Hb; eexists; (split; [reflexivity|]).
    + destruct (any_ n) as [e|]; [|by apply Hno].
      exact (conj eq_refl (Hb e (He e Hh Hn eq_refl))).
    + destruct (exact n !! h) as [e|]; [|by apply Hno].
      exact (conj eq_refl (Hb e (He e Hh Hn eq_refl))).
  - destruct (decide (h = hash)) as [Eh|Hh].
    { eexists. split; [reflexivity|]. unfold get_result. rewrite valid_filter_cons. by rewrite bool_decide_true. }
    rewrite (child_or_exact h n). destruct (child h n) as [e|] eqn:Ec.
    2: { eexists. split; [reflexivity|]. by apply no_child_view. }
    pose proof (entry_for_child n h e Hh Hn Ec) as He.
    destruct (IH t (children e) ltac:(lia) (proj1 (proj2 (proj2 He)))) as (r & -> & Hr).
    assert (valid_filter (h :: levels t) = valid_filter (levels t)) as Hval.
    { rewrite valid_filter_cons. by rewrite bool_decide_false. }
    destruct r as [[b|]|u]; eexists; (split; [reflexivity|]); unfold get_result in *.
    + rewrite Hval. destruct Hr as [? Hb]. split; [done|].
      by apply borrows_below; [|apply levels_not_nil|].
    + rewrite node_view_cons, Ec by done. pose proof (levels_not_nil t). by destruct (levels t).
    + by rewrite Hval.
Qed.

(* ------------------------------------------------------------------ *)
(** ** The operations of the tree against the abstract map             *)
(* ------------------------------------------------------------------ *)

(** [b] is a mutable reference to the recipients of [f] in what [A] describes. *)
Definition borrows_of (A : filter_map) (f : list str) (b : borrow SubscriptionSet) : Prop :=
  b.1 = A f /\ forall x, implements (b.2 x) (fm_upd f x A).

Lemma borrows_set s (A : filter_map) f b : (forall g, view s g = A g) ->
  borrows (root s) f b -> borrows_of A f (borrow_map mkSet b).
Proof.
  intros Hv [Hb Hp]. split; [by rewrite <- Hv|]. intros x. destruct (Hp x) as [Hwf Hg].
  split; [done|]. intros g. unfold view. cbn [borrow_map snd root]. rewrite Hg.
  unfold fm_upd. case_decide; [done|]. apply Hv.
Qed.

Lemma get_or_create_spec topic s A : implements s A ->
  exists s' r, get_or_create topic s = Ret (s', r) /\ implements s' A /\
    match r with
    | Ok b => valid_filter (levels topic) = true /\ borrows_of A (levels topic) b
    | Err _ => valid_filter (levels topic) = false
    end.
Proof.
  intros [Hwf Hv]. unfold get_or_create.
  destruct (Node_get_or_create_spec (S (length topic)) topic (root s)) as (n' & r & -> & Hn & Hg & Hr);
    [lia|done|].
  destruct r as [b|u]; do 2 eexists; (split; [reflexivity|]);
    (split; [split; [done|]; intros g; unfold view; cbn [root]; rewrite Hg; apply Hv|]); [|done].
  destruct Hr as [? Hb]. split; [done|]. by eapply borrows_set.
Qed.

Lemma get_sub_spec topic s A : implements s A ->
  exists r, get_sub topic s = Ret r /\
    match r with
    | Ok (Some b) => valid_filter (levels topic) = true /\ borrows_of A (levels topic) b
    | Ok None => A (levels topic) = Subscription_default
    | Err _ => valid_filter (levels topic) = false
    end.
Proof.
  intros [Hwf Hv]. unfold get_sub.
  destruct (Node_get_spec (S (length topic)) topic (root s)) as (r & -> & Hr); [lia|done|].
  destruct r as [[b|]|u]; eexists; (split; [reflexivity|]); cbn in Hr; [|by rewrite <- Hv|done].
  destruct Hr as [? Hb]. split; [done|]. by eapply borrows_set.
Qed.

Lemma node_view_invalid n f : valid_filter f = false -> node_view n f = Subscription_default.
Proof.
  revert n. induction f as [|h f IH]; intros n Hf; [done|]. destruct f as [|x f]; [done|].
  cbn [valid_filter] in Hf. destruct (decide (h = hash)) as [->|Hh]; [done|].
  rewrite bool_decide_false in Hf by done. rewrite node_view_cons by done.
  destruct (child h n); [|done]. by apply IH.
Qed.

(** [get] notices an invalid filter only where it meets an existing entry:
    ["a/#/b"] is just absent from an empty tree. *)
Lemma get_misses_invalid :
  valid_filter (levels [97; 47; 35; 47; 98]) = false /\
  get_sub [97; 47; 35; 47; 98] SubscriptionSet_default = Ret (Ok None).
Proof. done. Qed.

Lemma implements_default : implements SubscriptionSet_default (fun _ => Subscription_default).
Proof. split; [apply Node_default_wf|]. intros f. apply node_view_default. Qed.

(** The filters a message on the topic [t] is dispatched to, in order. *)
Fixpoint visit (t : list str) : list (list str) :=
  match t with
  | [] => [[]]
  | h :: t' =>
    [hash] :: (cons star <$> visit t') ++
    (if decide (h = star \/ h = hash) then [] else cons h <$> visit t')
  end.

Lemma visit_matches (t f : list str) : f ∈ visit t <-> filter_matches f t = true.
Proof.
  revert f. induction t as [|y t IH]; intros f; cbn [visit].
  { rewrite list_elem_of_singleton. destruct f; cbn; naive_solver. }
  rewrite elem_of_cons, elem_of_app, list_elem_of_fmap. destruct f as [|x f]; cbn [filter_matches].
  { split; [|done]. intros [?|[(? & ? & _)|Hin]]; [done|done|].
    case_decide; [by apply elem_of_nil in Hin|]. by apply list_elem_of_fmap in Hin as (? & ? & _). }
  destruct (decide (x = hash)) as [->|Hx].
  { rewrite bool_decide_eq_true. split; [|intros ->; by left].
    intros [[= ->]|[(? & [=] & _)|Hin]]; [done|].
    case_decide; [by apply elem_of_nil in Hin|].
    apply list_elem_of_fmap in Hin as (? & [= <- ->] & _). exfalso. tauto. }
  rewrite andb_true_iff, bool_decide_eq_true, <- IH. split.
  - intros [[=]|[(f' & [= -> ->] & ?)|Hin]]; [done|auto|].
    case_decide; [by apply elem_of_nil in Hin|].
    apply list_elem_of_fmap in Hin as (f' & [= -> ->] & ?). auto.
  - intros [[->| ->] Hf]; [right; left; eauto|].
    destruct (decide (y = star \/ y = hash)) as [[->|?]|]; [right; left; eauto|done|].
    right; right. apply list_elem_of_fmap. eauto.
Qed.

Lemma visit_NoDup (t : list str) : NoDup (visit t).
Proof.
  induction t as [|y t IH]; cbn [visit]; [apply NoDup_singleton|].
  assert (forall h, NoDup (cons h <$> visit t)) as Hc.
  { intros h. apply NoDup_fmap_2; [|done]. intros ?? [= ->]. done. }
  constructor.
  - rewrite elem_of_app, list_elem_of_fmap. intros [(? & [=] & _)|Hin].
    case_decide; [by apply elem_of_nil in Hin|].
    apply list_elem_of_fmap in Hin as (? & [= <- _] & _). tauto.
  - apply NoDup_app. split_and!; [done| |case_decide; [constructor|done]].
    intros f (f' & -> & _)%list_elem_of_fmap Hin. case_decide; [by apply elem_of_nil in Hin|].
    apply list_elem_of_fmap in Hin as (? & [= <- _] & _). tauto.
Qed.

(* ------------------------------------------------------------------ *)
(** ** Dispatching                                                     *)
(* ------------------------------------------------------------------ *)

Section dispatch_facts.
Context {X E : Type} `{Recipients X}.
Implicit Types (msg : IncomingPublishPacket) (x : X) (A B : filter_map).

(** Dispatching to the filters [fs] one after the other, on the abstract map. *)
Fixpoint spec_dispatch msg (fs : list (list str)) A : stm X E filter_map :=
  match fs with
  | [] => mret A
  | f :: fs => s ← Subscription_dispatch msg (A f); spec_dispatch msg fs (fm_upd f s A)
  end.

(** One subscription: every queue is offered the message once, in some order,
    the closed ones are dropped, and every callback is called once, in order. *)
Lemma Subscription_dispatch_spec msg s x : exists lossy unbounded,
  lossy ≡ₚ lossy_queue s /\ unbounded ≡ₚ unbounded_queue s /\
  let '(l, x1) := offer_all (queue_closed msg) lossy x in
  let '(u, x2) := offer_all (unbounded_closed msg) unbounded x1 in
  Subscription_dispatch (E := E) msg s x
  = (Ret (mkSubscription l u (fast_callbacks s) (subscribed s)), call_all msg (fast_callbacks s) x2).
Proof.
  destruct (prune_spec (E := E) (queue_closed msg) (lossy_queue s) x) as (lo & Hlo & H1).
  destruct (offer_all (queue_closed msg) lo x) as [l x1] eqn:E1. cbn [fst snd] in H1.
  destruct (prune_spec (E := E) (unbounded_closed msg) (unbounded_queue s) x1) as (un & Hun & H2).
  exists lo, un. split_and!; [done|done|]. rewrite E1.
  destruct (offer_all (unbounded_closed msg) un x1) as [u x2] eqn:E2. cbn [fst snd] in H2.
  unfold Subscription_dispatch, mbind, stm_bind. by rewrite H1, H2.
Qed.

Lemma Subscription_dispatch_ret msg s x :
  exists s' x', Subscription_dispatch (E := E) msg s x = (Ret s', x') /\
    fast_callbacks s' = fast_callbacks s /\ subscribed s' = subscribed s.
Proof.
  destruct (Subscription_dispatch_spec msg s x) as (lo & un & _ & _ & Hd).
  destruct (offer_all (queue_closed msg) lo x) as [l x1].
  destruct (offer_all (unbounded_closed msg) un x1) as [u x2]. by do 2 eexists.
Qed.

Lemma spec_dispatch_app msg fs1 fs2 A x A1 x1 :
  spec_dispatch msg fs1 A x = (Ret A1, x1) ->
  spec_dispatch msg (fs1 ++ fs2) A x = spec_dispatch msg fs2 A1 x1.
Proof.
  revert A x. induction fs1 as [|f fs1 IH]; intros A x; cbn [spec_dispatch app].
  { by intros [= -> ->]. }
  unfold mbind, stm_bind. destruct (Subscription_dispatch msg (A f) x) as [[s| | | |] x2]; try done.
  apply IH.
Qed.

(** Below one component. *)
Lemma spec_dispatch_cons msg h fs A B x B' x' :
  (forall g, A (h :: g) = B g) -> spec_dispatch msg fs B x = (Ret B', x') ->
  exists A', spec_dispatch msg (cons h <$> fs) A x = (Ret A', x') /\
    (forall g, A' (h :: g) = B' g) /\ (forall g, (forall g', g <> h :: g') -> A' g = A g).
Proof.
  revert A B x. induction fs as [|f fs IH]; intros A B x HAB; cbn [spec_dispatch fmap list_fmap].
  { intros [= <- <-]. by exists A. }
  unfold mbind, stm_bind. rewrite HAB.
  destruct (Subscription_dispatch msg (B f) x) as [[s| | | |] x2]; try done. intros Hd.
  destruct (IH (fm_upd (h :: f) s A) (fm_upd f s B) x2) as (A' & HA' & H1 & H2); [|done|].
  - intros g. rewrite fm_upd_cons, decide_True by done. unfold fm_upd. by rewrite HAB.
  - exists A'. split_and!; [done|done|]. intros g Hg. rewrite H2 by done.
    unfold fm_upd. by rewrite decide_False by naive_solver.
Qed.

(** Filters with no recipient. *)
Lemma spec_dispatch_idle msg fs A x : (forall f, f ∈ fs -> A f = Subscription_default) ->
  exists A', spec_dispatch msg fs A x = (Ret A', x) /\ forall g, A' g = A g.
Proof.
  revert A. induction fs as [|f fs IH]; intros A Hd; cbn [spec_dispatch]; [by exists A|].
  unfold mbind, stm_bind. rewrite (Hd f) by constructor.
  change (Subscription_dispatch msg Subscription_default x) with (Ret (E := E) Subscription_default, x).
  assert (forall g, fm_upd f Subscription_default A g = A g) as Hu.
  { intros g. unfold fm_upd. case_decide; [|done]. subst. by rewrite Hd by constructor. }
  destruct (IH (fm_upd f Subscription_default A)) as (A' & HA' & Hg).
  { intros g Hg. rewrite Hu. apply Hd. by constructor. }
  exists A'. split; [done|]. intros g. by rewrite Hg, Hu.
Qed.

(** Filters that are not visited keep their recipients. *)
Lemma spec_dispatch_other msg fs A x A' x' g :
  spec_dispatch msg fs A x = (Ret A', x') -> g ∉ fs -> A' g = A g.
Proof.
  revert A x. induction fs as [|f fs IH]; intros A x; cbn [spec_dispatch].
  { by intros [= <- _]. }
  unfold mbind, stm_bind. destruct (Subscription_dispatch msg (A f) x) as [[s| | | |] x2]; try done.
  intros Hd [Hne Hni]%not_elem_of_cons. rewrite (IH _ _ Hd Hni). unfold fm_upd. by rewrite decide_False.
Qed.

(** Subtrees against maps. *)
Definition node_rep (n : SubscriptionSetNode) A : Prop :=
  node_wf n /\ forall f, f <> [] -> node_view n f = A f.
Definition entry_rep (e : SubscriptionSetEntry) A : Prop :=
  node_wf (children e) /\ forall f, entry_view e f = A f.

(** A dispatch on a part of the tree agrees with one on the map. *)
Definition simulates {T} (rep : T -> filter_map -> Prop) (m : stm X E T) msg fs A x : Prop :=
  exists t' A' x', m x = (Ret t', x') /\ spec_dispatch msg fs A x = (Ret A', x') /\ rep t' A'.

Lemma put_child_rep h e n A A' : h <> hash -> node_rep n A -> entry_rep e (fun g => A' (h :: g)) ->
  (forall g, (forall g', g <> h :: g') -> A' g = A g) -> node_rep (put_child h e n) A'.
Proof.
  intros Hh [Hn Hv] [He Hev] Ho. split; [by apply put_child_wf|].
  intros [|h' g] Hne; [done|]. rewrite put_child_view by done. case_decide as E1.
  - subst. by rewrite Hev.
  - rewrite Ho by naive_solver. by apply Hv.
Qed.

(** The dispatch to the entry below [h], if there is one. *)
Lemma child_simulates h n A (ed : SubscriptionSetEntry -> stm X E SubscriptionSetEntry) msg fs x :
  h <> hash -> node_rep n A ->
  (forall e B, entry_rep e B -> simulates entry_rep (ed e) msg fs B x) ->
  simulates node_rep (match child h n with
                      | Some e => e ← ed e; mret (put_child h e n)
                      | None => mret n
                      end) msg (cons h <$> fs) A x.
Proof.
  intros Hh [Hn Hv] Hed. destruct (child h n) as [e|] eqn:Ec.
  - destruct (Hed e (fun g => A (h :: g))) as (e' & B' & x' & He & HB & Hrep).
    { split; [by eapply node_wf_child|]. intros f. rewrite <- Hv by done. by rewrite node_view_cons, Ec by done. }
    destruct (spec_dispatch_cons msg h fs A (fun g => A (h :: g)) x B' x') as (A' & HA & H1 & H2); [done|done|].
    exists (put_child h e' n), A', x'. split_and!; [by unfold mbind, stm_bind; rewrite He|done|].
    apply put_child_rep with A; [done|done| |done].
    destruct Hrep as [? Hev]. split; [done|]. intros f. by rewrite Hev, H1.
  - destruct (spec_dispatch_idle msg (cons h <$> fs) A x) as (A' & HA & Hg).
    { intros f (g & -> & _)%list_elem_of_fmap. rewrite <- Hv by done. by apply no_child_view. }
    exists n, A', x. split_and!; [done|done|]. split; [done|]. intros f Hf. rewrite Hg. by apply Hv.
Qed.

(** The components left after a slicer's head. *)
Definition rest_levels (o : option str) : list str :=
  match o with Some t => levels t | None => [] end.

Lemma visit_no_nil t : t <> [] -> [] ∉ visit t.
Proof. intros Ht Hin%visit_matches. by destruct t. Qed.

Lemma entry_simulates nd (rest : option str) msg e B x : entry_rep e B ->
  (forall t n A, rest = Some t -> node_rep n A ->
     simulates node_rep (nd (TopicSlicer_new t) n) msg (visit (levels t)) A x) ->
  simulates entry_rep (Entry_dispatch nd (TopicSlicer_new <$> rest) msg e) msg (visit (rest_levels rest)) B x.
Proof.
  intros [Hwf Hv] Hnd. destruct rest as [t|]; cbn [fmap option_fmap option_map Entry_dispatch rest_levels].
  - destruct (Hnd t (children e) B) as (c & B' & x' & Hc & HB & [Hw Hcv]); [done|split; [done|]|].
    { intros [|h f] ?; [done|]. exact (Hv (h :: f)). }
    exists (set_children c e), B', x'. split_and!; [by unfold mbind, stm_bind; rewrite Hc|done|].
    split; [done|]. intros [|h f]; [|by apply Hcv].
    rewrite (spec_dispatch_other _ _ _ _ _ _ [] HB), <- Hv; [done|].
    apply visit_no_nil, levels_not_nil.
  - destruct (Subscription_dispatch_ret msg (sub e) x) as (s' & x' & Hs & _).
    exists (set_sub s' e), (fm_upd [] s' B), x'. cbn [visit spec_dispatch].
    rewrite <- (Hv []). cbn [entry_view]. unfold mbind, stm_bind. rewrite Hs.
    split_and!; [done|done|]. split; [done|]. intros [|h f]; [done|].
    unfold fm_upd. rewrite decide_False by done. exact (Hv (h :: f)).
Qed.

Lemma simulates_bind {T U} (rep : T -> filter_map -> Prop) (rep' : U -> filter_map -> Prop)
    (m : stm X E T) (k : T -> stm X E U) msg fs1 fs2 A x :
  simulates rep m msg fs1 A x ->
  (forall t A1 x1, rep t A1 -> simulates rep' (k t) msg fs2 A1 x1) ->
  simulates rep' (m ≫= k) msg (fs1 ++ fs2) A x.
Proof.
  intros (t & A1 & x1 & Hm & HA & Hr) Hk. destruct (Hk t A1 x1 Hr) as (u & A2 & x2 & Hu & HA2 & Hr2).
  exists u, A2, x2. split_and!; [by unfold mbind, stm_bind; rewrite Hm|by rewrite (spec_dispatch_app _ _ _ _ _ _ _ HA)|done].
Qed.

Lemma node_simulates fuel s msg n A x : (length s < fuel)%nat -> node_rep n A ->
  simulates node_rep (Node_dispatch fuel (TopicSlicer_new s) msg n) msg (visit (levels s)) A x.
Proof.
  revert s n A x. induction fuel as [|fuel IH]; intros s n A x Hf [Hn Hv]; [lia|].
  rewrite levels_slicer. cbn [visit Node_dispatch]. unfold tail.
  fold (rest_levels (slicer_tail (TopicSlicer_new s))).
  set (rest := slicer_tail (TopicSlicer_new s)). set (h := head (TopicSlicer_new s)).
  assert (forall e B x1, entry_rep e B -> simulates entry_rep
    (Entry_dispatch (fun t c => Node_dispatch fuel t msg c) (TopicSlicer_new <$> rest) msg e)
    msg (visit (rest_levels rest)) B x1) as Hed.
  { intros e B x1 He. apply entry_simulates; [done|]. intros t c A1 Ht Hc. apply IH; [|done].
    apply slicer_tail_length in Ht. lia. }
  apply (simulates_bind (fun s A1 => node_rep (set_any_recursive s n) A1) _ _ _ _ [[hash]]).
  { destruct (Subscription_dispatch_ret msg (any_recursive n) x) as (s' & x' & Hs & _).
    exists s', (fm_upd [hash] s' A), x'. cbn [spec_dispatch]. rewrite <- Hv by done.
    rewrite node_view_hash. unfold mbind, stm_bind. rewrite Hs. split_and!; [done|done|].
    split; [by apply set_any_recursive_wf|]. intros f Hne. rewrite set_any_recursive_view.
    unfold fm_upd. case_decide; [done|]. by apply Hv. }
  clear A x Hv Hn. intros s1 A x Hn1. set (n1 := set_any_recursive s1 n) in *. clearbody n1.
  apply (simulates_bind node_rep); 
    [exact (child_simulates star n1 A _ msg _ x ltac:(done) Hn1 (fun e B => Hed e B x))|].
  clear A x n1 Hn1. intros n1 A x [Hn1 Hv1]. case_decide as Hsp.
  - assert (exact n1 !! h = None) as -> by (destruct Hn1, Hsp as [-> | ->]; done).
    exists n1, A, x. done.
  - pose proof (child_simulates h n1 A _ msg (visit (rest_levels rest)) x ltac:(naive_solver)
      (conj Hn1 Hv1) (fun e B => Hed e B x)) as Hc.
    revert Hc. unfold child, put_child. by destruct (decide (h = star)) as [Es|_]; [destruct Hsp; left|].
Qed.

(** The tree implements the map. *)
Lemma dispatch_refines msg t s A x : topic msg = Ret t -> implements s A ->
  exists s' A' x', SubscriptionSet_dispatch (E := E) msg s x = (Ret s', x') /\
    spec_dispatch msg (visit (levels t)) A x = (Ret A', x') /\ implements s' A'.
Proof.
  intros Ht [Hw Hv].
  destruct (node_simulates (S (length t)) t msg (root s) A x) as (n' & A' & x' & Hn & HA & [Hw' Hv']);
    [lia|split; [done|]; intros f _; apply Hv|].
  exists (mkSet n'), A', x'. split_and!; [|done|].
  - unfold SubscriptionSet_dispatch, mbind, stm_bind, infallible. by rewrite Ht, Hn.
  - split; [done|]. intros [|h f]; [|by apply Hv'].
    rewrite (spec_dispatch_other _ _ _ _ _ _ [] HA), <- Hv; [done|]. apply visit_no_nil, levels_not_nil.
Qed.
End dispatch_facts.

(* ------------------------------------------------------------------ *)
(** ** What the recipients see                                         *)
(* ------------------------------------------------------------------ *)

Inductive Recipient : Type :=
| RLossy (q : Sender)
| RUnbounded (q : UnboundedSender)
| RCallback (f : Closure).

(** [history] is the history of the messages given to channels and callbacks,
    each with whether the recipient answered that it is closed. A receiver can
    be dropped at any time, so the answers of a queue need not agree. *)
Class RecipientsOk (X : Type) `{Recipients X} : Type := {
  history : X -> list (Recipient * IncomingPublishPacket * bool);
  try_send_ok q m x : history (try_send q m x).2
    = history x ++ [(RLossy q, m, match (try_send q m x).1 with Closed => true | _ => false end)];
  send_ok q m x : history (send q m x).2
    = history x ++ [(RUnbounded q, m, match (send q m x).1 with Err _ => true | Ok _ => false end)];
  call_ok f m x : history (call f m x) = history x ++ [(RCallback f, m, false)]
}.

Definition offered {X} `{RecipientsOk X} (x : X) : list (Recipient * IncomingPublishPacket) := (history x).*1.

Definition recipients_of (s : Subscription) : list Recipient :=
  (RLossy <$> lossy_queue s) ++ (RUnbounded <$> unbounded_queue s)
  ++ ((fun cb => RCallback (cb_f cb)) <$> fast_callbacks s).

(** The offers that one message on the topic [t] leads to. *)
Definition offers (A : filter_map) (t : list str) (msg : IncomingPublishPacket)
    : list (Recipient * IncomingPublishPacket) :=
  concat ((fun f => (., msg) <$> recipients_of (A f)) <$> visit t).

(** The recipients of a filter were offered a message, gave the answers [ans],
    and those that answered that they are closed are recipients no more. *)
Definition pruned (ans : list (Recipient * bool)) (s s' : Subscription) : Prop :=
  ans.*1 ≡ₚ recipients_of s /\ recipients_of s' ≡ₚ (filter (fun a => a.2 = false) ans).*1 /\
  fast_callbacks s' = fast_callbacks s /\ subscribed s' = subscribed s.

(** The entries of the history for these answers. *)
Definition logged (msg : IncomingPublishPacket) (ans : list (Recipient * bool))
    : list (Recipient * IncomingPublishPacket * bool) := (fun a => (a.1, msg, a.2)) <$> ans.

Lemma logged_offers msg ans : (logged msg ans).*1 = (., msg) <$> ans.*1.
Proof. unfold logged. rewrite <- !list_fmap_compose. by apply list_fmap_ext. Qed.

Lemma kept_fmap {B} (r : B -> Recipient) (l : list (B * bool)) :
  (filter (fun a : Recipient * bool => a.2 = false) (prod_map r id <$> l)).*1
  = r <$> (filter (fun a : B * bool => a.2 = false) l).*1.
Proof.
  induction l as [|[b c] l IH]; [done|]. cbn [fmap list_fmap].
  destruct c; [rewrite !filter_cons_False by done; exact IH|].
  rewrite !filter_cons_True by done. cbn. by f_equal.
Qed.

Section offers.
Context {X E : Type} `{RecipientsOk X}.
Implicit Types (msg : IncomingPublishPacket) (x : X) (A : filter_map).

Lemma offer_all_history {B} (p : B -> X -> bool * X) (r : B -> Recipient) msg l x :
  (forall b x, history (p b x).2 = history x ++ [(r b, msg, (p b x).1)]) ->
  exists ans : list (B * bool), ans.*1 = l /\ (offer_all p l x).1 = (filter (fun a => a.2 = false) ans).*1 /\
    history (offer_all p l x).2 = history x ++ logged msg (prod_map r id <$> ans).
Proof.
  intros Hp. revert x. induction l as [|b l IH]; intros x; cbn [offer_all].
  { exists []. cbn. by rewrite app_nil_r. }
  specialize (Hp b x). destruct (p b x) as [c x1]. cbn [fst snd] in Hp. destruct (IH x1) as (ans & Hl & Hk & Hh).
  exists ((b, c) :: ans). destruct (offer_all p l x1) as [kept x2]. cbn [fst snd] in *.
  split_and!; [cbn; by rewrite Hl| |by rewrite Hh, Hp, <- (assoc_L (++))].
  destruct c; [by rewrite filter_cons_False|rewrite filter_cons_True by done; cbn; by rewrite Hk].
Qed.

Lemma call_all_history msg cbs x :
  history (call_all msg cbs x) = history x ++ logged msg ((fun cb => (RCallback (cb_f cb), false)) <$> cbs).
Proof.
  revert x. induction cbs as [|cb cbs IH]; intros x; cbn; [by rewrite app_nil_r|].
  unfold call_all in IH. by rewrite IH, call_ok, <- (assoc_L (++)).
Qed.

Lemma callbacks_kept (cbs : list FastCallback) :
  (filter (fun a : Recipient * bool => a.2 = false) ((fun cb => (RCallback (cb_f cb), false)) <$> cbs)).*1
  = (fun cb => RCallback (cb_f cb)) <$> cbs.
Proof. induction cbs as [|cb cbs IH]; [done|]. cbn [fmap list_fmap]. rewrite filter_cons_True by done. cbn. by f_equal. Qed.

Lemma Subscription_dispatch_history msg s x s' x' :
  Subscription_dispatch (E := E) msg s x = (Ret s', x') ->
  exists ans, pruned ans s s' /\ history x' = history x ++ logged msg ans.
Proof.
  destruct (Subscription_dispatch_spec (E := E) msg s x) as (lo & un & Hlo & Hun & Hd).
  destruct (offer_all_history (queue_closed msg) RLossy msg lo x) as (al & Hl & Hkl & Hhl).
  { intros q y. unfold queue_closed. pose proof (try_send_ok q msg y) as Ht. by destruct (try_send q msg y). }
  destruct (offer_all (queue_closed msg) lo x) as [l x1]. cbn [fst snd] in *.
  destruct (offer_all_history (unbounded_closed msg) RUnbounded msg un x1) as (au & Hu & Hku & Hhu).
  { intros q y. unfold unbounded_closed. pose proof (send_ok q msg y) as Ht. by destruct (send q msg y) as [[] ?]. }
  destruct (offer_all (unbounded_closed msg) un x1) as [u x2]. cbn [fst snd] in *. rewrite Hd. intros [= <- <-].
  exists ((prod_map RLossy id <$> al) ++ (prod_map RUnbounded id <$> au)
          ++ ((fun cb => (RCallback (cb_f cb), false)) <$> fast_callbacks s)). split.
  - split_and!; [| |done|done]; unfold recipients_of; cbn [lossy_queue unbounded_queue fast_callbacks].
    + rewrite !fmap_app, <- Hlo, <- Hun, <- Hl, <- Hu, <- !list_fmap_compose. done.
    + by rewrite !filter_app, !fmap_app, !kept_fmap, callbacks_kept, Hkl, Hku.
  - rewrite call_all_history, Hhu, Hhl. unfold logged. by rewrite !fmap_app, <- !(assoc_L (++)).
Qed.

(** Every filter visited is pruned, and the history is what they answered. *)
Lemma spec_dispatch_history msg fs A x A' x' : NoDup fs -> spec_dispatch (E := E) msg fs A x = (Ret A', x') ->
  exists ans : list str -> list (Recipient * bool), (forall f, f ∈ fs -> pruned (ans f) (A f) (A' f)) /\
    history x' = history x ++ concat ((fun f => logged msg (ans f)) <$> fs).
Proof.
  intros Hnd. revert A x. induction Hnd as [|f fs Hf Hnd IH]; intros A x; cbn [spec_dispatch fmap list_fmap concat].
  { intros [= _ <-]. exists (fun _ => []). split; [by intros f ?%elem_of_nil|]. by rewrite app_nil_r. }
  unfold mbind, stm_bind. destruct (Subscription_dispatch msg (A f) x) as [[s| | | |] x2] eqn:Ed; try done.
  apply Subscription_dispatch_history in Ed as (a & Ha & Hh). intros Hd.
  pose proof (spec_dispatch_other _ _ _ _ _ _ f Hd Hf) as HAf. unfold fm_upd in HAf. rewrite decide_True in HAf by done.
  apply IH in Hd as (ans & Hans & Hh2). exists (fun g => if decide (g = f) then a else ans g). split.
  - intros g [->|Hg]%elem_of_cons; [by rewrite decide_True, HAf|].
    assert (g <> f) by (by intros ->). rewrite decide_False by done. specialize (Hans g Hg).
    unfold fm_upd in Hans. by rewrite decide_False in Hans.
  - rewrite Hh2, Hh, <- (assoc_L (++)), (decide_True (P := f = f)) by done. do 3 f_equal. apply list_fmap_ext. intros i g Hg.
    rewrite decide_False; [done|]. intros ->. by apply list_elem_of_lookup_2 in Hg.
Qed.

(** What a history of answers offers. *)
Lemma offers_logged msg A A' fs (ans : list str -> list (Recipient * bool)) :
  (forall f, f ∈ fs -> pruned (ans f) (A f) (A' f)) ->
  (concat ((fun f => logged msg (ans f)) <$> fs)).*1 ≡ₚ concat ((fun f => (., msg) <$> recipients_of (A f)) <$> fs).
Proof.
  induction fs as [|f fs IH]; intros Hp; [done|]. cbn [fmap list_fmap concat]. rewrite fmap_app, logged_offers.
  destruct (Hp f) as [-> _]; [by constructor|]. rewrite IH; [done|]. intros g Hg. apply Hp. by constructor.
Qed.

Lemma spec_dispatch_ok msg fs A x A' x' : (forall f, Subscription_ok (A f)) ->
  spec_dispatch (E := E) msg fs A x = (Ret A', x') ->
  forall f, Subscription_ok (A' f) /\ subscribed (A' f) = subscribed (A f).
Proof.
  revert A x. induction fs as [|f fs IH]; intros A x Hok; cbn [spec_dispatch].
  { by intros [= <- _]. }
  unfold mbind, stm_bind.
  destruct (Subscription_dispatch_ret (E := E) msg (A f) x) as (s & x2 & -> & Hcb & Hsub).
  assert (forall g, Subscription_ok (fm_upd f s A g)) as Hok'.
  { intros g. unfold fm_upd. case_decide; [unfold Subscription_ok; rewrite Hcb|]; apply Hok. }
  intros Hd g. destruct (IH _ _ Hok' Hd g) as [? ->]. split; [done|]. unfold fm_upd. case_decide; by subst.
Qed.
End offers.

(* ------------------------------------------------------------------ *)
(** ** Theorems                                                        *)
(* ------------------------------------------------------------------ *)

(** The invariant of the tree. *)
Definition set_ok (s : SubscriptionSet) : Prop :=
  node_wf (root s) /\ forall f, Subscription_ok (view s f).

Lemma set_ok_implements s : set_ok s -> implements s (view s).
Proof. by intros [? _]. Qed.

Lemma set_ok_default : set_ok SubscriptionSet_default.
Proof.
  split; [apply Node_default_wf|]. intros f. unfold view. cbn [root SubscriptionSet_default].
  rewrite node_view_default. apply Subscription_default_ok.
Qed.

Lemma set_ok_upd s A f x : set_ok s -> implements A (fm_upd f x (view s)) -> Subscription_ok x -> set_ok A.
Proof.
  intros [_ Hok] [Hw Hv] Hx. split; [done|]. intros g. rewrite Hv. unfold fm_upd.
  case_decide; [done|apply Hok].
Qed.

Lemma dispatch_history {X E} `{RecipientsOk X} msg t s x : topic msg = Ret t -> set_ok s ->
  exists s' x' (ans : list str -> list (Recipient * bool)),
    SubscriptionSet_dispatch (E := E) msg s x = (Ret s', x') /\ set_ok s' /\
    history x' = history x ++ concat ((fun f => logged msg (ans f)) <$> visit (levels t)) /\
    (forall f, f ∈ visit (levels t) -> pruned (ans f) (view s f) (view s' f)) /\
    (forall f, filter_matches f (levels t) = false -> view s' f = view s f) /\
    (forall f, subscribed (view s' f) = subscribed (view s f)).
Proof.
  intros Ht Hok. destruct (dispatch_refines (E := E) msg t s _ x Ht (set_ok_implements s Hok))
    as (s' & A' & x' & Hd & HA & Hw & Hv).
  pose proof (spec_dispatch_ok _ _ _ _ _ _ (proj2 Hok) HA) as Hok'.
  destruct (spec_dispatch_history _ _ _ _ _ _ (visit_NoDup _) HA) as (ans & Hp & Hh).
  exists s', x', ans. split_and!; [done| |done| | |].
  - split; [done|]. intros f. rewrite Hv. apply Hok'.
  - intros f Hf. rewrite Hv. by apply Hp.
  - intros f Hf. rewrite Hv. eapply spec_dispatch_other; [done|]. rewrite visit_matches. by rewrite Hf.
  - intros f. rewrite Hv. apply Hok'.
Qed.

Lemma dispatch_ok {X E} `{RecipientsOk X} msg t s x : topic msg = Ret t -> set_ok s ->
  exists s' x', SubscriptionSet_dispatch (E := E) msg s x = (Ret s', x') /\ set_ok s' /\
    offered x' ≡ₚ offered x ++ offers (view s) (levels t) msg /\
    (forall f, filter_matches f (levels t) = false -> view s' f = view s f) /\
    (forall f, subscribed (view s' f) = subscribed (view s f)).
Proof.
  intros Ht Hok. destruct (dispatch_history (E := E) msg t s x Ht Hok) as (s' & x' & ans & Hd & Hs & Hh & Hp & Hn & Hsub).
  exists s', x'. split_and!; [done|done| |done|done]. unfold offered, offers. rewrite Hh, fmap_app. f_equiv.
  by eapply offers_logged.
Qed.

(** [prune] calls its predicate exactly once on every element, in some
    order, keeps exactly the elements for which it answered [false], and
    always terminates. *)
Theorem prune_correct {A X E : Type} (p : A -> X -> bool * X) (vec : list A) (x : X) :
  exists visited, visited ≡ₚ vec /\
    prune (E := E) vec p x = (Ret (offer_all p visited x).1, (offer_all p visited x).2).
Proof. apply prune_spec. Qed.

(** Adding a recipient keeps the callbacks strictly sorted by ID, never
    panics outside of tests, and adds exactly that recipient; a callback with
    an ID already in use is refused and nothing changes. *)
Theorem add_correct {E : Type} (k : SubscriptionKind) (s : Subscription) :
  Subscription_ok s ->
  exists s', add (H := production) (E := E) k s = (Ret tt, s') /\ Subscription_ok s' /\ recipient_added k s s'.
Proof.
  intros Hs. destruct (wp_run_ret _ _ _ (wp_add (E := E) k s Hs)) as ([] & s' & ? & ? & ?). eauto.
Qed.

(** Removing a callback removes the one with that ID, if there is one,
    and nothing else, and keeps the callbacks sorted. *)
Theorem remove_fast_callback_correct {E : Type} (id : u32) (s : Subscription) :
  Subscription_ok s ->
  exists s', remove_fast_callback (E := E) id s = (Ret tt, s') /\ Subscription_ok s' /\
    s' = set_callbacks (filter (fun cb => cb_id cb <> id) (fast_callbacks s)) s.
Proof.
  intros Hs. destruct (wp_run_ret _ _ _ (wp_remove_fast_callback (E := E) id s Hs)) as ([] & s' & ? & ? & ?).
  eauto.
Qed.

(** C17: [get_or_create] refines an update of the map from filters to
    recipients. It fails exactly on filters with a ["#"] before the end, and
    then no filter has changed its recipients; otherwise it gives the
    recipients of that filter, and writing through the reference changes
    those and no others. *)
Theorem get_or_create_correct (topic : str) (s : SubscriptionSet) :
  set_ok s ->
  exists s' r, get_or_create topic s = Ret (s', r) /\ set_ok s' /\ (forall f, view s' f = view s f) /\
    match r with
    | Ok (sub, put) => valid_filter (levels topic) = true /\ sub = view s (levels topic) /\
        forall x, implements (put x) (fm_upd (levels topic) x (view s))
    | Err _ => valid_filter (levels topic) = false
    end.
Proof.
  intros Hok. destruct (get_or_create_spec topic s _ (set_ok_implements s Hok)) as (s' & r & Hg & [Hw Hv] & Hr).
  exists s', r. split_and!; [done| |done|].
  - split; [done|]. intros f. rewrite Hv. apply Hok.
  - destruct r as [[sub put]|]; [|done]. destruct Hr as (? & ? & ?). auto.
Qed.

(** [get] finds the recipients of a filter, through a reference with the
    same promises; it answers [None] only when the filter has no recipient and
    is not subscribed, and fails only on an invalid filter. *)
Theorem get_correct (topic : str) (s : SubscriptionSet) :
  set_ok s ->
  exists r, get_sub topic s = Ret r /\
    match r with
    | Ok (Some (sub, put)) => valid_filter (levels topic) = true /\ sub = view s (levels topic) /\
        forall x, implements (put x) (fm_upd (levels topic) x (view s))
    | Ok None => view s (levels topic) = Subscription_default
    | Err _ => valid_filter (levels topic) = false
    end.
Proof.
  intros Hok. destruct (get_sub_spec topic s _ (set_ok_implements s Hok)) as (r & Hg & Hr).
  exists r. split; [done|]. destruct r as [[[sub put]|]|]; [|done|done]. destruct Hr as (? & ? & ?). auto.
Qed.

Lemma wp_clear {E} topic s : set_ok s ->
  wp (E := E) (clear topic)
    (fun r s' => set_ok s' /\
       match r with
       | Ok b => b = subscribed (view s (levels topic)) /\
           forall f, view s' f = if decide (b = true /\ f = levels topic) then Subscription_default else view s f
       | Err _ => valid_filter (levels topic) = false /\ s' = s
       end) (fun _ _ => False) s.
Proof.
  intros Hok. destruct (get_sub_spec topic s _ (set_ok_implements s Hok)) as (r & Hg & Hr).
  unfold clear. apply wp_bind, wp_get, wp_bind. eapply wp_infallible; [exact Hg|].
  destruct r as [[[sub put]|]|u].
  - destruct Hr as (_ & Hs & Hp). cbn [fst snd] in *. apply wp_if; intros Hsub.
    + apply wp_bind, wp_modify, wp_ret. specialize (Hp (Subscription_clear sub)). split.
      { eapply set_ok_upd; [done|done|]. apply Subscription_default_ok. }
      split; [by rewrite <- Hs|]. intros f. destruct Hp as [_ ->]. unfold fm_upd.
      destruct (decide (f = levels topic)); [by rewrite decide_True|by rewrite decide_False by tauto].
    + apply wp_ret. split; [done|]. split; [by rewrite <- Hs|]. intros f. by rewrite decide_False by naive_solver.
  - apply wp_ret. split; [done|]. rewrite Hr. split; [done|]. intros f. by rewrite decide_False by naive_solver.
  - apply wp_ret. done.
Qed.

(** [clear] answers whether the filter was subscribed; if so the filter
    has no recipient left, is not subscribed any more and no other filter has
    changed; an invalid filter is an error that changes nothing. *)
Theorem clear_correct {E : Type} (topic : str) (s : SubscriptionSet) :
  set_ok s ->
  exists r s', clear topic (E := E) s = (Ret r, s') /\ set_ok s' /\
    match r with
    | Ok b => b = subscribed (view s (levels topic)) /\
        forall f, view s' f = if decide (b = true /\ f = levels topic) then Subscription_default else view s f
    | Err _ => valid_filter (levels topic) = false /\ s' = s
    end.
Proof. intros Hok. apply (wp_run_ret _ _ _ (wp_clear topic s Hok)). Qed.

(** C11: A message is offered exactly once to every recipient of every filter
    that matches its topic and to nobody else. In every matching filter exactly
    the queues that answered that they are closed are removed, queues that are
    full and callbacks stay; filters that do not match keep their recipients,
    no subscription is lost, and dispatching terminates. *)
Theorem dispatch_delivers {X E : Type} `{RecipientsOk X} (msg : IncomingPublishPacket) (t : str)
    (s : SubscriptionSet) (x : X) :
  topic msg = Ret t -> set_ok s ->
  exists s' x' (ans : list str -> list (Recipient * bool)),
    SubscriptionSet_dispatch (E := E) msg s x = (Ret s', x') /\ set_ok s' /\
    history x' = history x ++ concat ((fun f => (fun a => (a.1, msg, a.2)) <$> ans f) <$> visit (levels t)) /\
    (forall f, f ∈ visit (levels t) <-> filter_matches f (levels t) = true) /\ NoDup (visit (levels t)) /\
    (forall f, filter_matches f (levels t) = true ->
       (ans f).*1 ≡ₚ recipients_of (view s f) /\
       recipients_of (view s' f) ≡ₚ (filter (fun a => a.2 = false) (ans f)).*1) /\
    (forall f, filter_matches f (levels t) = false -> view s' f = view s f) /\
    (forall f, subscribed (view s' f) = subscribed (view s f)).
Proof.
  intros Ht Hok. destruct (dispatch_history (E := E) msg t s x Ht Hok) as (s' & x' & ans & ? & ? & ? & Hp & ? & ?).
  exists s', x', ans. split_and!; [done|done|done|apply visit_matches|apply visit_NoDup| |done|done].
  intros f Hf%visit_matches. destruct (Hp f Hf) as (? & ? & _). done.
Qed.

(** MQTT's single-level wildcard is ["+"]; the tree treats it as an ordinary
    component, and a filter ["a/#"] does not match its parent topic ["a"]. *)
Lemma plus_is_literal (f t : list str) (y : str) :
  filter_matches ([0x2B] :: f) (y :: t) = true -> y = [0x2B].
Proof.
  cbn [filter_matches]. rewrite decide_False, andb_true_iff, bool_decide_eq_true by done.
  by intros [[H|H] _].
Qed.

Lemma hash_excludes_parent (a : str) : filter_matches [a; hash] [a] = false.
Proof. cbn [filter_matches]. case_decide; [done|]. apply andb_false_r. Qed.

(* ------------------------------------------------------------------ *)
(** ** Concrete instances                                              *)
(* ------------------------------------------------------------------ *)

(** Channels of which some are closed and some are full, with their history. *)
Record SimRecipients : Type := mkSimRecipients {
  sim_closed : list nat;
  sim_full : list nat;
  sim_offered : list (Recipient * IncomingPublishPacket * bool)
}.

Definition sim_log r m c x :=
  mkSimRecipients (sim_closed x) (sim_full x) (sim_offered x ++ [(r, m, c)]).

#[global] Instance SimRecipients_ops : Recipients SimRecipients := {|
  try_send q m x :=
    (if decide (q ∈ sim_closed x) then Closed else if decide (q ∈ sim_full x) then Full else Sent,
     sim_log (RLossy q) m (if decide (q ∈ sim_closed x) then true else false) x);
  send q m x := (if decide (q ∈ sim_closed x) then Err tt else Ok tt,
                 sim_log (RUnbounded q) m (if decide (q ∈ sim_closed x) then true else false) x);
  call f m x := sim_log (RCallback f) m false x
|}.

#[global] Instance SimRecipients_ok : RecipientsOk SimRecipients.
Proof.
  refine {| history := sim_offered |}; intros q m x; cbn -[decide]; [| |done].
  - destruct (decide (q ∈ sim_closed x)); [done|]. by destruct (decide (q ∈ sim_full x)).
  - by destruct (decide (q ∈ sim_closed x)).
Defined.

Definition sample_sub : Subscription :=
  mkSubscription [1; 2; 3]%nat [4; 5]%nat [mkFastCallback 3 6; mkFastCallback 8 7] true.

(** Recipients on ["a/*"] and ["a/#"]. *)
Definition sample_set : SubscriptionSet :=
  mkSet (mkNode {[ [97] := mkEntry Subscription_default
    (mkNode ∅ (Some (mkEntry sample_sub Node_default)) (mkSubscription [9%nat] [] [] true)) ]}
    None Subscription_default).

Definition sample_msg : IncomingPublishPacket :=
  message (mkPublishFlags 0) 0 [97; 47; 98] [42].

Lemma sample_sub_ok : Subscription_ok sample_sub.
Proof. repeat constructor. Qed.

Lemma sample_set_ok : set_ok sample_set.
Proof.
  assert (forall h e, child h (root sample_set) = Some e ->
    h = [97] /\ e = mkEntry Subscription_default
      (mkNode ∅ (Some (mkEntry sample_sub Node_default)) (mkSubscription [9%nat] [] [] true))) as Hc.
  { intros h e. unfold child. case_decide; [done|]. cbn. by intros [<- <-]%lookup_singleton_Some. }
  split.
  - constructor; [done|done|]. intros h e [-> ->]%Hc. constructor; [done|done|].
    intros h e. unfold child. case_decide; cbn; [|done]. intros [= <-]. apply Node_default_wf.
  - intros f. unfold view. destruct f as [|h f]; [constructor|].
    destruct (decide (h = hash)) as [->|Hh]; [destruct f; constructor|].
    rewrite node_view_cons by done. destruct (child h (root sample_set)) as [e|] eqn:Ec; [|constructor].
    apply Hc in Ec as [-> ->]. destruct f as [|h' f]; [constructor|]. cbn [entry_view children].
    destruct (decide (h' = hash)) as [->|Hh']; [destruct f; repeat constructor|].
    rewrite node_view_cons by done. unfold child. case_decide; cbn; [|constructor].
    destruct f; [apply sample_sub_ok|]. cbn [entry_view children]. rewrite node_view_default. constructor.
Qed.

Lemma add_correct_witness :
  exists s', add (H := production) (E := io_error) (KFastCallback (mkFastCallback 5 11)) sample_sub = (Ret tt, s') /\
    Subscription_ok s'.
Proof.
  destruct (add_correct (E := io_error) (KFastCallback (mkFastCallback 5 11)) sample_sub sample_sub_ok)
    as (s' & ? & ? & _). by exists s'.
Defined.

Lemma remove_fast_callback_correct_witness :
  exists s', remove_fast_callback (E := io_error) 8 sample_sub = (Ret tt, s') /\
    fast_callbacks s' = [mkFastCallback 3 6].
Proof.
  destruct (remove_fast_callback_correct (E := io_error) 8 sample_sub sample_sub_ok)
    as (s' & ? & _ & ->). by eexists.
Defined.

Lemma get_or_create_correct_witness :
  exists s' sub put, get_or_create [97; 47; 42] sample_set = Ret (s', Ok (sub, put)) /\ sub = sample_sub.
Proof.
  destruct (get_or_create_correct [97; 47; 42] sample_set sample_set_ok)
    as (s' & [[sub put]|u] & Hg & _ & _ & Hr); [|by vm_compute in Hr].
  exists s', sub, put. split; [done|]. destruct Hr as (_ & -> & _). done.
Defined.

Lemma get_correct_witness :
  exists r, get_sub [97; 47; 35] sample_set = Ret r /\
    match r with Err _ => valid_filter (levels [97; 47; 35]) = false | _ => True end.
Proof.
  destruct (get_correct [97; 47; 35] sample_set sample_set_ok) as (r & ? & Hr).
  exists r. split; [done|]. by destruct r.
Defined.

Lemma clear_correct_witness :
  exists s', clear [97; 47; 42] (E := io_error) sample_set = (Ret (Ok true), s') /\ set_ok s'.
Proof.
  destruct (clear_correct (E := io_error) [97; 47; 42] sample_set sample_set_ok)
    as (r & s' & Hc & Hok & Hr).
  exists s'. split; [|done]. destruct r as [b|u]; [|by destruct Hr as [Hr _]; vm_compute in Hr].
  destruct Hr as [-> _]. exact Hc.
Defined.

(** Queue 1 is closed and queue 2 is full: the first is removed, the second is
    not, and eight recipients are offered the message. *)
Lemma dispatch_delivers_witness :
  exists s' x', SubscriptionSet_dispatch (E := io_error) sample_msg sample_set (mkSimRecipients [1%nat] [2%nat] [])
                = (Ret s', x') /\ length (sim_offered x') = 8%nat /\
    lossy_queue (view s' [[97]; star]) ≡ₚ [2; 3]%nat.
Proof.
  destruct (dispatch_delivers (E := io_error) sample_msg [97; 47; 98] sample_set
    (mkSimRecipients [1%nat] [2%nat] []) eq_refl sample_set_ok) as (s' & x' & ans & Hd & _).
  exists s', x'. split; [exact Hd|]. vm_compute in Hd. injection Hd as <- <-. split; vm_compute; [reflexivity|].
  apply Permutation_swap.
Defined.
