(* ===== verification/Shared.v ===== *)
(** * [shared.rs]: the state shared by the client and the transceiver

    Packet and callback counters, the maps on which publications wait for
    their acknowledgements, and the state of each subscription. A [Waker] is
    a name for the task it wakes. *)

From Stdlib Require Import ZArith Lia.
From stdpp Require Import base list numbers gmap.
From S2P Require Import Prelude Base.

Local Open Scope Z_scope.

Abbreviation Waker := nat (only parsing).

Inductive NotifyResult : Type :=
| WithoutWaker
| WithWaker (w : Waker)
| Failed.

(** The maps behind the mutexes. *)
Abbreviation NotifierMap := (gmap Z NotifyResult).

Inductive SubscriptionState : Type :=
| Existing (qos : QoS)
| Pending (wakers : list (option Waker)).

Record ClientShared : Type := mkShared {
  next_packet_id : u16;
  notify_ack : NotifierMap;
  notify_rec : NotifierMap;
  notify_comp : NotifierMap;
  subs : gmap (list Z) SubscriptionState;
  next_callback_id : u32
}.

Definition ClientShared_new : ClientShared := mkShared 1 ∅ ∅ ∅ ∅ 0.

Definition set_next_packet_id x s :=
  mkShared x (notify_ack s) (notify_rec s) (notify_comp s) (subs s) (next_callback_id s).
Definition set_notify_ack x s :=
  mkShared (next_packet_id s) x (notify_rec s) (notify_comp s) (subs s) (next_callback_id s).
Definition set_notify_rec x s :=
  mkShared (next_packet_id s) (notify_ack s) x (notify_comp s) (subs s) (next_callback_id s).
Definition set_notify_comp x s :=
  mkShared (next_packet_id s) (notify_ack s) (notify_rec s) x (subs s) (next_callback_id s).
Definition set_subs x s :=
  mkShared (next_packet_id s) (notify_ack s) (notify_rec s) (notify_comp s) x (next_callback_id s).
Definition set_next_callback_id x s :=
  mkShared (next_packet_id s) (notify_ack s) (notify_rec s) (notify_comp s) (subs s) x.

(** [next_packet_id.fetch_add(1)] and [next_callback_id.fetch_add(1)]: atomics
    wrap around. *)
Definition fetch_packet_id {E} : stm ClientShared E u16 :=
  s ← get;
  modify (set_next_packet_id (wrap16 (next_packet_id s + 1)));;
  mret (next_packet_id s).
Definition fetch_callback_id {E} : stm ClientShared E u32 :=
  s ← get;
  modify (set_next_callback_id (wrap32 (next_callback_id s + 1)));;
  mret (next_callback_id s).

(** The wakers that an entry of a notifier map holds. *)
Definition waker_of (r : NotifyResult) : list Waker :=
  match r with WithWaker w => [w] | _ => [] end.

(** The ranges that the atomics keep. *)
Definition shared_ok (s : ClientShared) : Prop :=
  is_u16 (next_packet_id s) /\ is_u32 (next_callback_id s).

Lemma shared_ok_new : shared_ok ClientShared_new.
Proof. split; cbn; unfold is_u16, is_u32; lia. Qed.

Lemma wrap16_ok x : is_u16 (wrap16 x).
Proof. apply Z.mod_pos_bound. lia. Qed.

Lemma wrap32_ok x : is_u32 (wrap32 x).
Proof. apply Z.mod_pos_bound. lia. Qed.

(** The packet IDs that the counter hands out are those of MQTT, except that
    it also hands out zero, which the standard reserves, after 65535. *)
Lemma packet_id_reaches_zero (s : ClientShared) : next_packet_id s = 65535 ->
  exists s', fetch_packet_id (E := Empty_set) s = (Ret 65535, s') /\ next_packet_id s' = 0.
Proof. intros E. eexists. unfold fetch_packet_id, mbind, stm_bind. cbn. by rewrite E. Qed.

(** Every 65536 IDs they are handed out again, whether they are in use or not. *)
Fixpoint fetch_packet_ids (n : nat) (s : ClientShared) : ClientShared :=
  match n with O => s | S n => (fetch_packet_id (E := Empty_set) (fetch_packet_ids n s)).2 end.

Lemma ids_after (n : nat) (s : ClientShared) : shared_ok s ->
  next_packet_id (fetch_packet_ids n s) = wrap16 (next_packet_id s + Z.of_nat n).
Proof.
  intros [Hid _]. unfold is_u16, wrap16 in *. induction n as [|n IH].
  - cbn [fetch_packet_ids]. rewrite Z.mod_small; lia.
  - change (next_packet_id (fetch_packet_ids (S n) s)) with ((next_packet_id (fetch_packet_ids n s) + 1) mod 2 ^ 16).
    rewrite IH, Zplus_mod_idemp_l. f_equal. lia.
Qed.

Lemma ids_repeat (s : ClientShared) : shared_ok s ->
  next_packet_id (fetch_packet_ids (Z.to_nat 65536) s) = next_packet_id s.
Proof.
  intros Hs. rewrite ids_after by done. destruct Hs as [Hid _]. unfold is_u16, wrap16 in *.
  rewrite Z2Nat.id by lia. change 65536 with (1 * 2 ^ 16). rewrite Z_mod_plus_full. by apply Z.mod_small.
Qed.
