(* ===== verification/Transceiver.v ===== *)
(** * [transceiver/mod.rs] and [transceiver/util.rs]: the transceiver task

    The whole state of the task and every operation on it, from the handling
    of one incoming packet to the main loop and the shutdown. The transport,
    the channels and the clock are parameters. What [select!] and the
    scheduler choose is an argument: the event of a step. *)

From Stdlib Require Import ZArith Lia.
From stdpp Require Import base list numbers gmap.
From S2P Require Import Prelude Base ByteIO Packets Transport PacketReader Subscription Shared.

Local Open Scope Z_scope.

(* ------------------------------------------------------------------ *)
(** ** Data                                                            *)
(* ------------------------------------------------------------------ *)

#[global] Instance PacketType_countable : Countable PacketType.
Proof.
  refine (inj_countable' PacketType_as_u8 (fun x =>
    if x =? 1 then TConnect else if x =? 2 then TConnAck else if x =? 3 then TPublish
    else if x =? 4 then TPubAck else if x =? 5 then TPubRec else if x =? 6 then TPubRel
    else if x =? 7 then TPubComp else if x =? 8 then TSubscribe else if x =? 9 then TSubAck
    else if x =? 10 then TUnsubscribe else if x =? 11 then TUnsubAck else if x =? 12 then TPingReq
    else if x =? 13 then TPingResp else TDisconnect) _).
  by intros [].
Defined.

Record IdType : Type := mkIdType { ty : PacketType; id_ : u16 }.

#[global] Instance IdType_eq_dec : EqDecision IdType.
Proof. solve_decision. Defined.
#[global] Instance IdType_countable : Countable IdType.
Proof. refine (inj_countable' (fun i => (ty i, id_ i)) (fun p => mkIdType p.1 p.2) _). by intros []. Defined.

Definition IdType_publish (id : u16) : IdType := mkIdType TPublish id.
Definition IdType_subscribe (id : u16) : IdType := mkIdType TSubscribe id.
Definition IdType_pub_rec (id : u16) : IdType := mkIdType TPubRec id.
Definition IdType_pub_rel (id : u16) : IdType := mkIdType TPubRel id.
Definition IdType_unsubscribe (id : u16) : IdType := mkIdType TUnsubscribe id.

Record TxPacket : Type := mkTxPacket {
  tx_bytes : bytes;
  tx_pos : nat;
  tx_set_dup : bool
}.

(** An [Instant] or a [Duration], in some unit. *)
Abbreviation Instant := Z (only parsing).
Abbreviation Duration := Z (only parsing).

Record Timeout : Type := mkTimeout { to_t : Instant; to_packet_id : IdType }.

Record InternalPacket : Type := mkInternalPacket {
  ip_bytes : bytes;
  ip_set_dup : bool
}.

Record PendingSub : Type := mkPendingSub {
  ps_topic : str;
  ps_kind : SubscriptionKind;
  ps_packet : bytes
}.

Record ShutdownStatus : Type := mkShutdownStatus {
  st_disconnect_sent : bool;
  st_clean : bool
}.

Inductive TaskState : Type := WantContinue | WantStop | TConnectionClosed.

(** The clock: the [n]th call of [Instant::now()] returns [instant n]. *)
Class Clock : Type := instant : nat -> Instant.

(** The transceiver and the parts of the world it acts on: [clock] counts the
    readings of the clock so far, [woken] is the history of the wakers woken,
    [conn_results] what the [oneshot] sender has sent and [recipients] the
    channels and callbacks. [connect_sig] is [connect_sig.is_some()]. The
    command queue appears as the commands that [recv] returns. *)
Record Transceiver (T X : Type) : Type := mkTransceiver {
  transport : T;
  pending_packets : gmap IdType bytes;
  pending_subs : gmap Z PendingSub;
  tx_pkt : option TxPacket;
  rx_pkt : PacketReader;
  connect_sig : bool;
  ping_interval : Duration;
  last_tx : Instant;
  timeout_queue : list Timeout;
  internal_pkt_queue : list InternalPacket;
  shared : ClientShared;
  subscriptions : SubscriptionSet;
  disconnect_sent : bool;
  cmd_queue_closed : bool;
  ping_req : bytes;
  packet_resend_delay : Duration;
  clock : nat;
  woken : list Waker;
  conn_results : list (result bool ServerConnectError);
  recipients : X
}.
Arguments mkTransceiver {T X}.
Arguments transport {T X}. Arguments pending_packets {T X}. Arguments pending_subs {T X}.
Arguments tx_pkt {T X}. Arguments rx_pkt {T X}. Arguments connect_sig {T X}.
Arguments ping_interval {T X}. Arguments last_tx {T X}. Arguments timeout_queue {T X}.
Arguments internal_pkt_queue {T X}. Arguments shared {T X}. Arguments subscriptions {T X}.
Arguments disconnect_sent {T X}. Arguments cmd_queue_closed {T X}. Arguments ping_req {T X}.
Arguments packet_resend_delay {T X}. Arguments clock {T X}. Arguments woken {T X}.
Arguments conn_results {T X}. Arguments recipients {T X}.

(** Assignments to the fields. *)
Section setters.
Context {T X : Type}.
Implicit Types s : Transceiver T X.
Definition with_transport x s : Transceiver T X :=
  mkTransceiver x (pending_packets s) (pending_subs s) (tx_pkt s) (rx_pkt s) (connect_sig s)
    (ping_interval s) (last_tx s) (timeout_queue s) (internal_pkt_queue s) (shared s)
    (subscriptions s) (disconnect_sent s) (cmd_queue_closed s) (ping_req s)
    (packet_resend_delay s) (clock s) (woken s) (conn_results s) (recipients s).
Definition with_pending_packets x s : Transceiver T X :=
  mkTransceiver (transport s) x (pending_subs s) (tx_pkt s) (rx_pkt s) (connect_sig s)
    (ping_interval s) (last_tx s) (timeout_queue s) (internal_pkt_queue s) (shared s)
    (subscriptions s) (disconnect_sent s) (cmd_queue_closed s) (ping_req s)
    (packet_resend_delay s) (clock s) (woken s) (conn_results s) (recipients s).
Definition with_pending_subs x s : Transceiver T X :=
  mkTransceiver (transport s) (pending_packets s) x (tx_pkt s) (rx_pkt s) (connect_sig s)
    (ping_interval s) (last_tx s) (timeout_queue s) (internal_pkt_queue s) (shared s)
    (subscriptions s) (disconnect_sent s) (cmd_queue_closed s) (ping_req s)
    (packet_resend_delay s) (clock s) (woken s) (conn_results s) (recipients s).
Definition with_tx_pkt x s : Transceiver T X :=
  mkTransceiver (transport s) (pending_packets s) (pending_subs s) x (rx_pkt s) (connect_sig s)
    (ping_interval s) (last_tx s) (timeout_queue s) (internal_pkt_queue s) (shared s)
    (subscriptions s) (disconnect_sent s) (cmd_queue_closed s) (ping_req s)
    (packet_resend_delay s) (clock s) (woken s) (conn_results s) (recipients s).
Definition with_rx_pkt x s : Transceiver T X :=
  mkTransceiver (transport s) (pending_packets s) (pending_subs s) (tx_pkt s) x (connect_sig s)
    (ping_interval s) (last_tx s) (timeout_queue s) (internal_pkt_queue s) (shared s)
    (subscriptions s) (disconnect_sent s) (cmd_queue_closed s) (ping_req s)
    (packet_resend_delay s) (clock s) (woken s) (conn_results s) (recipients s).
Definition with_connect_sig x s : Transceiver T X :=
  mkTransceiver (transport s) (pending_packets s) (pending_subs s) (tx_pkt s) (rx_pkt s) x
    (ping_interval s) (last_tx s) (timeout_queue s) (internal_pkt_queue s) (shared s)
    (subscriptions s) (disconnect_sent s) (cmd_queue_closed s) (ping_req s)
    (packet_resend_delay s) (clock s) (woken s) (conn_results s) (recipients s).
Definition with_last_tx x s : Transceiver T X :=
  mkTransceiver (transport s) (pending_packets s) (pending_subs s) (tx_pkt s) (rx_pkt s)
    (connect_sig s) (ping_interval s) x (timeout_queue s) (internal_pkt_queue s) (shared s)
    (subscriptions s) (disconnect_sent s) (cmd_queue_closed s) (ping_req s)
    (packet_resend_delay s) (clock s) (woken s) (conn_results s) (recipients s).
Definition with_timeout_queue x s : Transceiver T X :=
  mkTransceiver (transport s) (pending_packets s) (pending_subs s) (tx_pkt s) (rx_pkt s)
    (connect_sig s) (ping_interval s) (last_tx s) x (internal_pkt_queue s) (shared s)
    (subscriptions s) (disconnect_sent s) (cmd_queue_closed s) (ping_req s)
    (packet_resend_delay s) (clock s) (woken s) (conn_results s) (recipients s).
Definition with_internal_pkt_queue x s : Transceiver T X :=
  mkTransceiver (transport s) (pending_packets s) (pending_subs s) (tx_pkt s) (rx_pkt s)
    (connect_sig s) (ping_interval s) (last_tx s) (timeout_queue s) x (shared s) (subscriptions s)
    (disconnect_sent s) (cmd_queue_closed s) (ping_req s) (packet_resend_delay s) (clock s)
    (woken s) (conn_results s) (recipients s).
Definition with_shared x s : Transceiver T X :=
  mkTransceiver (transport s) (pending_packets s) (pending_subs s) (tx_pkt s) (rx_pkt s)
    (connect_sig s) (ping_interval s) (last_tx s) (timeout_queue s) (internal_pkt_queue s) x
    (subscriptions s) (disconnect_sent s) (cmd_queue_closed s) (ping_req s)
    (packet_resend_delay s) (clock s) (woken s) (conn_results s) (recipients s).
Definition with_subscriptions x s : Transceiver T X :=
  mkTransceiver (transport s) (pending_packets s) (pending_subs s) (tx_pkt s) (rx_pkt s)
    (connect_sig s) (ping_interval s) (last_tx s) (timeout_queue s) (internal_pkt_queue s)
    (shared s) x (disconnect_sent s) (cmd_queue_closed s) (ping_req s) (packet_resend_delay s)
    (clock s) (woken s) (conn_results s) (recipients s).
Definition with_disconnect_sent x s : Transceiver T X :=
  mkTransceiver (transport s) (pending_packets s) (pending_subs s) (tx_pkt s) (rx_pkt s)
    (connect_sig s) (ping_interval s) (last_tx s) (timeout_queue s) (internal_pkt_queue s)
    (shared s) (subscriptions s) x (cmd_queue_closed s) (ping_req s) (packet_resend_delay s)
    (clock s) (woken s) (conn_results s) (recipients s).
Definition with_cmd_queue_closed x s : Transceiver T X :=
  mkTransceiver (transport s) (pending_packets s) (pending_subs s) (tx_pkt s) (rx_pkt s)
    (connect_sig s) (ping_interval s) (last_tx s) (timeout_queue s) (internal_pkt_queue s)
    (shared s) (subscriptions s) (disconnect_sent s) x (ping_req s) (packet_resend_delay s)
    (clock s) (woken s) (conn_results s) (recipients s).
Definition with_clock x s : Transceiver T X :=
  mkTransceiver (transport s) (pending_packets s) (pending_subs s) (tx_pkt s) (rx_pkt s)
    (connect_sig s) (ping_interval s) (last_tx s) (timeout_queue s) (internal_pkt_queue s)
    (shared s) (subscriptions s) (disconnect_sent s) (cmd_queue_closed s) (ping_req s)
    (packet_resend_delay s) x (woken s) (conn_results s) (recipients s).
Definition with_woken x s : Transceiver T X :=
  mkTransceiver (transport s) (pending_packets s) (pending_subs s) (tx_pkt s) (rx_pkt s)
    (connect_sig s) (ping_interval s) (last_tx s) (timeout_queue s) (internal_pkt_queue s)
    (shared s) (subscriptions s) (disconnect_sent s) (cmd_queue_closed s) (ping_req s)
    (packet_resend_delay s) (clock s) x (conn_results s) (recipients s).
Definition with_conn_results x s : Transceiver T X :=
  mkTransceiver (transport s) (pending_packets s) (pending_subs s) (tx_pkt s) (rx_pkt s)
    (connect_sig s) (ping_interval s) (last_tx s) (timeout_queue s) (internal_pkt_queue s)
    (shared s) (subscriptions s) (disconnect_sent s) (cmd_queue_closed s) (ping_req s)
    (packet_resend_delay s) (clock s) (woken s) x (recipients s).
Definition with_recipients x s : Transceiver T X :=
  mkTransceiver (transport s) (pending_packets s) (pending_subs s) (tx_pkt s) (rx_pkt s)
    (connect_sig s) (ping_interval s) (last_tx s) (timeout_queue s) (internal_pkt_queue s)
    (shared s) (subscriptions s) (disconnect_sent s) (cmd_queue_closed s) (ping_req s)
    (packet_resend_delay s) (clock s) (woken s) (conn_results s) x.
End setters.

(* ------------------------------------------------------------------ *)
(** ** Operations                                                      *)
(* ------------------------------------------------------------------ *)

Section transceiver.
Context `{BuildCfg} `{Clock} {T X : Type} `{Transport T} `{Recipients X}.

Abbreviation tio A := (stm (Transceiver T X) io_error A).

Definition on_transport {A} (m : stm T io_error A) : tio A := zoom transport with_transport m.
Definition on_shared {A} (m : stm ClientShared io_error A) : tio A := zoom shared with_shared m.
Definition on_subscriptions {A} (m : stm SubscriptionSet io_error A) : tio A :=
  zoom subscriptions with_subscriptions m.

(** [Instant::now()] and [Instant::elapsed], which saturates at zero. *)
Definition now : tio Instant :=
  n ← gets clock;
  modify (with_clock (S n));;
  mret (instant n).
Definition elapsed (t : Instant) : tio Duration := n ← now; mret (Z.max 0 (n - t)).

Definition wake (w : Waker) : tio unit := modify (fun s => with_woken (woken s ++ [w]) s).

Definition Timeout_now (id : IdType) : tio Timeout := t ← now; mret (mkTimeout t id).
Definition Timeout_refresh (to : Timeout) : tio Timeout := t ← now; mret (mkTimeout t (to_packet_id to)).

Definition push_timeout (to : Timeout) : tio unit :=
  modify (fun s => with_timeout_queue (timeout_queue s ++ [to]) s).

Definition connected (s : Transceiver T X) : bool := negb (connect_sig s).

(** *** Transmission *)

Definition try_send_packet (bytes : bytes) (set_dup : bool) : tio unit :=
  tx ← gets tx_pkt;
  debug_assert (bool_decide (tx = None));;
  written ←
    (if set_dup then
       match bytes with
       | [] => panic
       | b0 :: _ =>
         written ← on_transport (write [Z.lor b0 DUP] true);
         if (0 <? written)%nat then
           assert_ (written <=? length bytes)%nat;;
           w ← on_transport (write (drop written bytes) true);
           mret (written + w)%nat
         else mret written
       end
     else on_transport (write bytes true));
  if (length bytes <=? written)%nat then on_transport flush
  else modify (with_tx_pkt (Some (mkTxPacket bytes written set_dup))).

Definition queue_internal_packet (bytes : bytes) (set_dup : bool) : tio unit :=
  tx ← gets tx_pkt;
  match tx with
  | None => try_send_packet bytes set_dup
  | Some _ => modify (fun s =>
      with_internal_pkt_queue (internal_pkt_queue s ++ [mkInternalPacket bytes set_dup]) s)
  end.

(** The [while let] of [clear_tx_packet]; the list is the queue. *)
Fixpoint pop_queue (queue : list InternalPacket) : tio unit :=
  match queue with
  | [] => mret tt
  | new_pkt :: queue =>
    modify (with_internal_pkt_queue queue);;
    try_send_packet (ip_bytes new_pkt) (ip_set_dup new_pkt);;
    tx ← gets tx_pkt;
    match tx with
    | Some _ => mret tt
    | None => pop_queue queue
    end
  end.

Definition clear_tx_packet : tio unit :=
  modify (with_tx_pkt None);;
  queue ← gets internal_pkt_queue;
  pop_queue queue.

(** The [loop] of [continue_writing_packet]. *)
Fixpoint continue_writing_packet (fuel : nat) : tio bool :=
  match fuel with
  | O => out_of_fuel
  | S fuel =>
    tx ← gets tx_pkt;
    match tx with
    | None => mret false
    | Some x =>
      written ←
        (if tx_set_dup x && (tx_pos x <=? 0)%nat then
           match tx_bytes x with
           | [] => panic
           | b0 :: _ => on_transport (write [Z.lor b0 DUP] false)
           end
         else
           assert_ (tx_pos x <=? length (tx_bytes x))%nat;;
           on_transport (write (drop (tx_pos x) (tx_bytes x)) false));
      if (written <=? 0)%nat then mret true
      else
        let x' := mkTxPacket (tx_bytes x) (tx_pos x + written) (tx_set_dup x) in
        modify (with_tx_pkt (Some x'));;
        (if (length (tx_bytes x') <=? tx_pos x')%nat then
           on_transport flush;;
           clear_tx_packet;;
           t ← now;
           modify (with_last_tx t)
         else mret tt);;
        continue_writing_packet fuel
    end
  end.

(** Enough turns to write everything: each one writes a byte or returns. *)
Definition write_fuel (s : Transceiver T X) : nat :=
  2 + match tx_pkt s with Some x => length (tx_bytes x) | None => 0 end
  + sum_list_with (fun p => length (ip_bytes p)) (internal_pkt_queue s).

(** *** Packets that await an answer *)

Definition queue_internal_packet_with_timeout (pkt : bytes) (id : IdType) : tio unit :=
  old ← gets (fun s => pending_packets s !! id);
  modify (fun s => with_pending_packets (<[id := pkt]> (pending_packets s)) s);;
  match old with
  | None => to ← Timeout_now id; push_timeout to
  | Some _ => panic_in_test
  end;;
  queue_internal_packet pkt false.

Definition clear_packet_timeout (id : IdType) : tio bool :=
  old ← gets (fun s => pending_packets s !! id);
  modify (fun s => with_pending_packets (delete id (pending_packets s)) s);;
  mret (bool_decide (is_Some old)).

Definition unsub_immediate (topic : str) : tio unit :=
  modify (fun s => with_shared (set_subs (delete topic (subs (shared s))) (shared s)) s);;
  packet_id ← on_shared fetch_packet_id;
  pkt ← infallible (make_arc_packet (mkUnsubscribePacket packet_id [topic]));
  queue_internal_packet_with_timeout pkt (IdType_unsubscribe packet_id).

(** *** Incoming packets *)

Fixpoint wake_all (wakers : list (option Waker)) : tio unit :=
  match wakers with
  | [] => mret tt
  | o :: wakers =>
    match o with Some w => wake w | None => mret tt end;;
    wake_all wakers
  end.

(** [if let Some(WithWaker(waker)) = map.lock().remove(&id) { waker.wake() }]. *)
Definition notify (getm : ClientShared -> NotifierMap) (setm : NotifierMap -> ClientShared -> ClientShared)
    (id : u16) : tio unit :=
  old ← gets (fun s => getm (shared s) !! id);
  modify (fun s => with_shared (setm (delete id (getm (shared s))) (shared s)) s);;
  match old with
  | Some (WithWaker w) => wake w
  | _ => mret tt
  end.

Definition update_subs (f : gmap (list Z) SubscriptionState -> gmap (list Z) SubscriptionState) : tio unit :=
  modify (fun s => with_shared (set_subs (f (subs (shared s))) (shared s)) s).

(** The branch of a SUBACK that accepts the subscription: first the tree, then
    the shared map. *)
Definition register_sub (pending_sub : PendingSub) : tio unit :=
  set ← gets subscriptions;
  r ← infallible (get_or_create (ps_topic pending_sub) set);
  match r with
  | (_, Ok (sub, put)) =>
    match add (ps_kind pending_sub) (set_subscribed sub) with
    | (Ret _, sub) => modify (with_subscriptions (put sub))
    | (Throw e, _) => throw e
    | (Panic, _) => panic
    | (UB, _) => undefined
    | (OutOfFuel, _) => out_of_fuel
    end
  | (set, Err _) => modify (with_subscriptions set);; panic_in_test
  end.

Definition sub_accepted (pending_sub : PendingSub) (qos : QoS) : tio (option (list (option Waker))) :=
  register_sub pending_sub;;
  state ← gets (fun s => subs (shared s) !! ps_topic pending_sub);
  match state with
  | Some (Existing _) =>
    panic_in_test;;
    update_subs (<[ps_topic pending_sub := Existing qos]>);;
    mret None
  | Some (Pending wakers) =>
    update_subs (<[ps_topic pending_sub := Existing qos]>);;
    mret (Some wakers)
  | None =>
    panic_in_test;;
    update_subs (<[ps_topic pending_sub := Existing qos]>);;
    mret None
  end.

(** The branch that refuses it. *)
Definition sub_refused (pending_sub : PendingSub) : tio (option (list (option Waker))) :=
  state ← gets (fun s => subs (shared s) !! ps_topic pending_sub);
  update_subs (delete (ps_topic pending_sub));;
  match state with
  | Some (Existing _) => panic_in_test;; mret None
  | Some (Pending wakers) => mret (Some wakers)
  | None => panic_in_test;; mret None
  end.

Definition process_suback (ack : SubAckPacket) : tio unit :=
  pending ← gets (fun s => pending_subs s !! suback_packet_id ack);
  match pending with
  | None => mret tt
  | Some pending_sub =>
    modify (fun s => with_pending_subs (delete (suback_packet_id ack) (pending_subs s)) s);;
    results ← infallible (sub_results ack);
    match results with
    | [] => mret tt
    | r :: _ =>
      opt_wakers ← match r with
                   | Ok qos => sub_accepted pending_sub qos
                   | Err _ => sub_refused pending_sub
                   end;
      match opt_wakers with
      | Some wakers => wake_all wakers
      | None => mret tt
      end
    end
  end.

Definition dispatch (msg : IncomingPublishPacket) : tio unit :=
  set ← gets subscriptions;
  set ← zoom recipients with_recipients (SubscriptionSet_dispatch msg set);
  modify (with_subscriptions set).

Definition process_publish (msg : IncomingPublishPacket) : tio unit :=
  info ← infallible (info msg);
  let packet_id := info_packet_id info in
  match flags_qos (info_flags info) with
  | None => panic
  | Some AtMostOnce => dispatch msg
  | Some AtLeastOnce =>
    pkt ← infallible (make_arc_packet (mkSimple (k := KPubAck) packet_id));
    queue_internal_packet pkt false;;
    dispatch msg
  | Some ExactlyOnce =>
    existing ← gets (fun s => pending_packets s !! IdType_pub_rec packet_id);
    match existing with
    | Some existing => queue_internal_packet existing false
    | None =>
      pkt ← infallible (make_arc_packet (mkSimple (k := KPubRec) packet_id));
      queue_internal_packet_with_timeout pkt (IdType_pub_rec packet_id);;
      dispatch msg
    end
  end.

Definition process_pubrec (id : u16) : tio unit :=
  existing ← gets (fun s => pending_packets s !! IdType_pub_rel id);
  match existing with
  | Some existing => queue_internal_packet existing false
  | None =>
    pkt ← infallible (make_arc_packet (mkSimple (k := KPubRel) id));
    queue_internal_packet_with_timeout pkt (IdType_pub_rel id)
  end;;
  cleared ← clear_packet_timeout (IdType_publish id);
  if cleared : bool then notify notify_rec set_notify_rec id else mret tt.

Definition process_pubrel (id : u16) : tio unit :=
  clear_packet_timeout (IdType_pub_rec id);;
  pkt ← infallible (make_arc_packet (mkSimple (k := KPubComp) id));
  queue_internal_packet pkt false.

Definition process_packet (pkt : IncomingPacket) : tio bool :=
  sig ← gets connect_sig;
  if sig : bool then
    let conn_result := match pkt with InConnAck x => conn_result x | _ => Err ProtocolError end in
    modify (with_connect_sig false);;
    modify (fun s => with_conn_results (conn_results s ++ [conn_result]) s);;
    mret (is_err conn_result)
  else
    match pkt with
    | InConnAck _ => mret tt
    | InSubAck ack => process_suback ack
    | InPublish msg => process_publish msg
    | InPubAck ack =>
      cleared ← clear_packet_timeout (IdType_publish (packet_id ack));
      if cleared : bool then notify notify_ack set_notify_ack (packet_id ack) else mret tt
    | InPubRec rec => process_pubrec (packet_id rec)
    | InPubRel rel => process_pubrel (packet_id rel)
    | InPubComp comp =>
      cleared ← clear_packet_timeout (IdType_pub_rel (packet_id comp));
      if cleared : bool then notify notify_comp set_notify_comp (packet_id comp) else mret tt
    | InUnsubAck ack => clear_packet_timeout (IdType_unsubscribe (packet_id ack));; mret tt
    | InPingResp _ => mret tt
    end;;
    mret false.

(** *** The main loop *)

(** The branch of [select!] that was ready, with what it resolved to; or,
    between two steps, something that another task does to the shared state. *)
Inductive Event : Type :=
| WriteReady (r : result unit io_error)
| ReadReady (r : result unit io_error)
| CommandReceived (opt_cmd : option Command)
| AlarmTick
| ClientActs (f : ClientShared -> ClientShared).

(** The [if] guards of the branches. *)
Definition event_enabled (s : Transceiver T X) (ev : Event) : bool :=
  let w := wants (transport s) true (bool_decide (is_Some (tx_pkt s))) in
  match ev with
  | WriteReady _ => want_write w
  | ReadReady _ => want_read w
  | CommandReceived _ =>
    negb (cmd_queue_closed s) && connected s && bool_decide (tx_pkt s = None)
  | AlarmTick | ClientActs _ => true
  end.

(** The [?] on the result of [ready_for()]. *)
Definition check_ready (r : result unit io_error) : tio unit :=
  match r with Ok _ => mret tt | Err e => throw e end.

Definition on_write_ready (r : result unit io_error) : tio TaskState :=
  check_ready r;;
  on_transport pre_write;;
  fuel ← gets write_fuel;
  res ← attempt (continue_writing_packet fuel);
  match res with
  | Ok true => mret TConnectionClosed
  | Ok false => mret WantContinue
  | Err err => if is_would_block err then mret WantContinue else throw err
  end.

(** The inner [loop]: it ends when nothing is left to read. *)
Fixpoint read_loop (fuel : nat) : tio TaskState :=
  match fuel with
  | O => out_of_fuel
  | S fuel =>
    res ← attempt (zoom (fun s => (rx_pkt s, transport s))
                        (fun rt s => with_rx_pkt rt.1 (with_transport rt.2 s)) recv);
    match res with
    | Ok (Incoming pkt) =>
      stop ← process_packet pkt;
      if stop : bool then mret WantStop else read_loop fuel
    | Ok ConnectionClosed => mret TConnectionClosed
    | Ok NeedMoreData => read_loop fuel
    | Err err => if is_would_block err then mret WantContinue else throw err
    end
  end.

Definition on_read_ready (fuel : nat) (r : result unit io_error) : tio TaskState :=
  check_ready r;;
  ready ← on_transport pre_read;
  if ready : bool then read_loop fuel else mret WantContinue.

Definition on_subscribe (cmd : SubscribeCommand) : tio unit :=
  set ← gets subscriptions;
  r ← infallible (get_sub (subcmd_topic cmd) set);
  let new_subscription :=
    packet_id ← on_shared fetch_packet_id;
    pkt ← infallible (make_arc_packet
      (mkSubscribePacket packet_id [(subcmd_topic cmd, subcmd_qos cmd)]));
    modify (fun s => with_pending_subs
      (<[packet_id := mkPendingSub (subcmd_topic cmd) (subcmd_kind cmd) pkt]> (pending_subs s)) s);;
    try_send_packet pkt false;;
    to ← Timeout_now (IdType_subscribe packet_id);
    push_timeout to in
  match r with
  | Ok (Some (sub, put)) =>
    if is_subscribed sub then
      match add (subcmd_kind cmd) sub with
      | (Ret _, sub) => modify (with_subscriptions (put sub))
      | (Throw e, _) => throw e
      | (Panic, _) => panic
      | (UB, _) => undefined
      | (OutOfFuel, _) => out_of_fuel
      end
    else new_subscription
  | Ok None => new_subscription
  | Err _ => mret tt
  end.

Definition on_unsub (cmd : UnsubCommand) : tio unit :=
  match unsubcmd_kind cmd with
  | UFastCallback id =>
    set ← gets subscriptions;
    r ← infallible (get_sub (unsubcmd_topic cmd) set);
    match r with
    | Ok (Some (sub, put)) =>
      match remove_fast_callback id sub with
      | (Ret _, sub) => modify (with_subscriptions (put sub))
      | (Throw e, _) => throw e
      | (Panic, _) => panic
      | (UB, _) => undefined
      | (OutOfFuel, _) => out_of_fuel
      end
    | _ => mret tt
    end
  | Immediate =>
    r ← on_subscriptions (clear (unsubcmd_topic cmd));
    match r with
    | Ok true => unsub_immediate (unsubcmd_topic cmd)
    | _ => mret tt
    end
  end.

Definition on_command (opt_cmd : option Command) : tio TaskState :=
  match opt_cmd with
  | Some (CPublish cmd) =>
    match cmd_qos cmd with
    | AtMostOnce => try_send_packet (cmd_packet cmd) false
    | _ => queue_internal_packet_with_timeout (cmd_packet cmd) (IdType_publish (cmd_packet_id cmd))
    end;;
    mret WantContinue
  | Some (CSubscribe cmd) => on_subscribe cmd;; mret WantContinue
  | Some (CUnsub cmd) => on_unsub cmd;; mret WantContinue
  | Some CDisconnect => mret WantStop
  | None => modify (with_cmd_queue_closed true);; mret WantContinue
  end.

(** The packet that a timeout entry asks to send again, and with which flag. *)
Definition resend_of (s : Transceiver T X) (id : IdType) : option (bytes * bool) :=
  if decide (ty id = TSubscribe)
  then (fun sub => (ps_packet sub, false)) <$> pending_subs s !! id_ id
  else (fun pkt => (pkt, bool_decide (ty id = TPublish))) <$> pending_packets s !! id.

(** The two [if let]s on an entry that has expired and left the queue. *)
Definition resend_entry (to : Timeout) : tio unit :=
  r ← gets (fun s => resend_of s (to_packet_id to));
  match r with
  | Some (pkt, dup) =>
    queue_internal_packet pkt dup;;
    to' ← Timeout_refresh to;
    push_timeout to'
  | None => mret tt
  end.

(** [for _ in 0..timeout_count]. *)
Fixpoint resend_loop (timeout_count : nat) : tio unit :=
  match timeout_count with
  | O => mret tt
  | S n =>
    queue ← gets timeout_queue;
    match queue with
    | [] => panic
    | to :: queue =>
      e ← elapsed (to_t to);
      delay ← gets packet_resend_delay;
      if e <? delay then mret tt
      else
        modify (with_timeout_queue queue);;
        resend_entry to;;
        resend_loop n
    end
  end.

Definition send_ping : tio unit :=
  last ← gets last_tx;
  e ← elapsed last;
  interval ← gets ping_interval;
  if interval <=? e then
    t ← now;
    modify (with_last_tx t);;
    ping ← gets ping_req;
    queue_internal_packet ping false
  else mret tt.

Definition on_alarm : tio TaskState :=
  c ← gets connected;
  (if c : bool then
     send_ping;;
     n ← gets (fun s => length (timeout_queue s));
     resend_loop n
   else mret tt);;
  mret WantContinue.

(** [task_step], on an event that was enabled. *)
Definition task_step (fuel : nat) (ev : Event) : tio TaskState :=
  match ev with
  | WriteReady r => on_write_ready r
  | ReadReady r => on_read_ready fuel r
  | CommandReceived c => on_command c
  | AlarmTick => on_alarm
  | ClientActs f => modify (fun s => with_shared (f (shared s)) s);; mret WantContinue
  end.

(** *** Shutdown *)

(** An event of the two flushing loops. *)
Inductive FlushEvent : Type :=
| FWrite (r : result unit io_error)
| FRead (r : result unit io_error).

Definition flush_enabled (w : WantedFlags) (ev : FlushEvent) : bool :=
  match ev with FWrite _ => want_write w | FRead _ => want_read w end.

(** [send_disconnect_and_flush] from the loop on. [None]: the events are over
    and the loop is still waiting. An event that no branch waits for does not
    happen. *)
Fixpoint flush_loop (evs : list FlushEvent) : tio (option unit) :=
  w ← gets (fun s => wants (transport s) false (bool_decide (is_Some (tx_pkt s))));
  if negb (want_read w) && negb (want_write w) then
    modify (with_disconnect_sent true);;
    mret (Some tt)
  else
    match evs with
    | [] => mret None
    | ev :: evs =>
      if negb (flush_enabled w ev) then flush_loop evs
      else
        match ev with
        | FWrite r =>
          check_ready r;;
          on_transport pre_write;;
          fuel ← gets write_fuel;
          res ← attempt (continue_writing_packet fuel);
          match res with
          | Ok true => mret (Some tt)
          | Ok false => flush_loop evs
          | Err err => if is_would_block err then flush_loop evs else throw err
          end
        | FRead r =>
          check_ready r;;
          on_transport pre_read;;
          flush_loop evs
        end
    end.

Definition send_disconnect_and_flush (evs : list FlushEvent) : tio (option unit) :=
  c ← gets connected;
  if c : bool then
    pkt ← infallible (make_arc_packet Disconnect);
    queue_internal_packet pkt false;;
    flush_loop evs
  else mret (Some tt).

Fixpoint close_loop (evs : list FlushEvent) : tio (option unit) :=
  w ← gets (fun s => wants (transport s) false false);
  if negb (want_read w) && negb (want_write w) then mret (Some tt)
  else
    match evs with
    | [] => mret None
    | ev :: evs =>
      if negb (flush_enabled w ev) then close_loop evs
      else
        match ev with
        | FWrite r => check_ready r;; on_transport pre_write;; close_loop evs
        | FRead r => check_ready r;; on_transport pre_read;; close_loop evs
        end
    end.

Definition send_close_notify_ (evs : list FlushEvent) : tio (option unit) :=
  modify (fun s => with_transport (send_close_notify (transport s)) s);;
  close_loop evs.

(** [time::timeout(2s, disconnect_sequence())]: [None] when the time is over
    before the sequence is. [evs1] and [evs2] are the events during its two
    parts. *)
Definition disconnect_sequence (evs1 evs2 : list FlushEvent) : tio (option bool) :=
  r1 ← attempt (send_disconnect_and_flush evs1);
  match r1 with
  | Ok None => mret None
  | _ =>
    r2 ← attempt (send_close_notify_ evs2);
    match r2 with
    | Ok None => mret None
    | _ => mret (Some (negb (is_err r1) && negb (is_err r2)))
    end
  end.

(** A finished run of the main loop: a list of events that were enabled, up to
    the one that ends it. [None]: the events are over. *)
Fixpoint task_loop (fuel : nat) (evs : list Event) : tio (option bool) :=
  match evs with
  | [] => mret None
  | ev :: evs =>
    en ← gets (fun s => event_enabled s ev);
    if en : bool then
      st ← task_step fuel ev;
      match st with
      | TConnectionClosed => mret (Some true)
      | WantStop => mret (Some false)
      | WantContinue => task_loop fuel evs
      end
    else task_loop fuel evs
  end.

(** "Bootstrap connect packet transmission". *)
Definition bootstrap : tio unit :=
  tx ← gets tx_pkt;
  match tx with
  | Some pkt => modify (with_tx_pkt None);; try_send_packet (tx_bytes pkt) false
  | None => mret tt
  end.

Definition run_task_loop (fuel : nat) (evs : list Event) : tio (option bool) :=
  bootstrap;;
  task_loop fuel evs.

(** [fail_notify_map], with the wakers it collects. *)
Definition fail_notify_map (map : NotifierMap) : NotifierMap * list Waker :=
  ((fun _ => Failed) <$> map, concat (waker_of <$> (map_to_list map).*2)).

Definition pending_wakers (st : SubscriptionState) : list Waker :=
  match st with Pending ws => omap id ws | Existing _ => [] end.

(** The end of [task]: nobody may wait for the transceiver any more. *)
Definition release_waiters : tio unit :=
  sh ← gets shared;
  let '(ack, w1) := fail_notify_map (notify_ack sh) in
  let '(rec, w2) := fail_notify_map (notify_rec sh) in
  let '(comp, w3) := fail_notify_map (notify_comp sh) in
  let w4 := concat (pending_wakers <$> (map_to_list (subs sh)).*2) in
  modify (with_shared (mkShared (next_packet_id sh) ack rec comp ∅ (next_callback_id sh)));;
  wake_all (Some <$> w1 ++ w2 ++ w3 ++ w4).

Definition task (fuel : nat) (evs : list Event) (evs1 evs2 : list FlushEvent)
    : tio (option ShutdownStatus) :=
  res ← attempt (run_task_loop fuel evs);
  match res with
  | Ok None => mret None
  | Ok (Some true) => mret (Some (mkShutdownStatus false false))
  | _ =>
    ret ← disconnect_sequence evs1 evs2;
    release_waiters;;
    d ← gets disconnect_sent;
    mret (Some (mkShutdownStatus d (default false ret)))
  end.

(** The initial state of [Transceiver::spawn]. *)
Definition spawn (t : T) (connect_packet : bytes) (ping_interval : Duration) (sh : ClientShared)
    (packet_resend_delay : Duration) (clk : nat) (x : X) : outcome Empty_set (Transceiver T X) :=
  match make_arc_packet PingReq with
  | Ret ping =>
    Ret (mkTransceiver t ∅ ∅ (Some (mkTxPacket connect_packet 0 false)) PacketReader_default true
           ping_interval (instant clk) [] [] sh SubscriptionSet_default false false ping
           packet_resend_delay (S clk) [] [] x)
  | Throw e => Throw e
  | Panic => Panic
  | UB => UB
  | OutOfFuel => OutOfFuel
  end.
End transceiver.
