(* ===== verification/TransceiverOut.v ===== *)
(** * The output side of the transceiver

    What has been sent and what is still to be sent form one byte stream. The
    lemmas show that queueing a packet appends its wire form to that stream,
    that transmitting moves bytes from the second part to the first, and that
    transmitting terminates. *)

From Stdlib Require Import ZArith Lia.
From stdpp Require Import base list numbers gmap.
From S2P Require Import Prelude Base ByteIO Packets PacketProps Transport PacketReader.
From S2P Require Import Subscription Shared Transceiver.

Local Open Scope Z_scope.

(** What goes on the wire for a queued packet. *)
Definition wire (bs : bytes) (dup : bool) : bytes :=
  match bs with
  | b0 :: tl => if dup then Z.lor b0 DUP :: tl else bs
  | [] => []
  end.

Lemma wire_false bs : wire bs false = bs.
Proof. by destruct bs. Qed.

Lemma wire_length bs dup : length (wire bs dup) = length bs.
Proof. destruct bs, dup; done. Qed.

Lemma wire_drop bs dup n : (0 < n)%nat -> drop n (wire bs dup) = drop n bs.
Proof. intros Hn. destruct n; [lia|]. by destruct bs, dup. Qed.

Lemma take_wire_1 b0 tl n : (n <= 1)%nat -> take n [Z.lor b0 DUP] = take n (wire (b0 :: tl) true).
Proof. intros Hn. destruct n as [|[|n]]; [done|done|lia]. Qed.

Section output.
Context {T X : Type} `{TransportOk T}.
Implicit Types s : Transceiver T X.

Definition tx_rest (x : TxPacket) : bytes := drop (tx_pos x) (wire (tx_bytes x) (tx_set_dup x)).

Definition queue_wire (q : list InternalPacket) : bytes :=
  concat ((fun p => wire (ip_bytes p) (ip_set_dup p)) <$> q).

(** What is still to be sent. *)
Definition pending_out s : bytes :=
  match tx_pkt s with Some x => tx_rest x | None => [] end ++ queue_wire (internal_pkt_queue s).

(** Everything sent or to be sent on this connection. *)
Definition stream s : bytes := sent (transport s) ++ pending_out s.

Definition tx_ok s : Prop :=
  (tx_pkt s = None -> internal_pkt_queue s = []) /\
  (forall x, tx_pkt s = Some x -> (tx_pos x < length (tx_bytes x))%nat) /\
  Forall (fun p => ip_bytes p <> []) (internal_pkt_queue s).

(** What an error of the transport leaves of it: packets may still be queued
    though none is being transmitted, and the one that is may have been written
    to its end. *)
Definition tx_weak s : Prop :=
  (forall x, tx_pkt s = Some x -> tx_bytes x <> [] /\ (tx_pos x <= length (tx_bytes x))%nat) /\
  Forall (fun p => ip_bytes p <> []) (internal_pkt_queue s).

Lemma tx_ok_weak s : tx_ok s -> tx_weak s.
Proof.
  intros (_ & Hx & Hq). split; [|done]. intros x Ex. specialize (Hx x Ex). split; [|lia].
  intros E. rewrite E in Hx. cbn in Hx. lia.
Qed.

(** [s'] differs from [s] on the output side only. *)
Definition out_frame s s' : Prop :=
  received (transport s') = received (transport s) /\
  s' = with_transport (transport s') (with_tx_pkt (tx_pkt s')
         (with_internal_pkt_queue (internal_pkt_queue s')
           (with_last_tx (last_tx s') (with_clock (clock s') s)))) /\
  (clock s <= clock s')%nat /\
  exists more, sent (transport s') = sent (transport s) ++ more.

Lemma out_frame_refl s : out_frame s s.
Proof. split_and!; [done|by destruct s|done|exists []; by rewrite app_nil_r]. Qed.

Lemma out_frame_trans s1 s2 s3 : out_frame s1 s2 -> out_frame s2 s3 -> out_frame s1 s3.
Proof.
  intros (Hr & E & Hc & m & Hm) (Hr' & E' & Hc' & m' & Hm'). split_and!; [congruence| |lia|].
  - rewrite E' at 1. rewrite E. done.
  - exists (m ++ m'). by rewrite Hm', Hm, (assoc_L (++)).
Qed.
End output.

(** A change of the output side that sends nothing. *)
Ltac out_same s :=
  split_and!; [done|by destruct s|cbn; lia|exists []; by rewrite app_nil_r].

Section output_facts.
#[local] Existing Instance production.
Context `{Clock} {T X : Type} `{TransportOk T} `{Recipients X}.
Implicit Types (s : Transceiver T X) (b : bytes) (dup : bool).

(** A write through the transceiver. *)
Lemma wp_write b z s :
  wp (on_transport (write b z))
    (fun n s' => exists t', s' = with_transport t' s /\ (n <= length b)%nat /\
       sent t' = sent (transport s) ++ take n b /\ received t' = received (transport s))
    (fun e s' => exists t', s' = with_transport t' s /\ same_io (transport s) t' /\
       (z = true -> is_would_block e = false)) s.
Proof.
  apply wp_zoom. eapply wp_mono; [apply write_ok|..]; cbn beta.
  - intros n t' (Hn & Hs & Hr). exists t'. done.
  - intros e t' [Hs Hwb]. exists t'. done.
Qed.

Lemma wp_flush s :
  wp (on_transport flush)
    (fun _ s' => exists t', s' = with_transport t' s /\ same_io (transport s) t')
    (fun e s' => exists t', s' = with_transport t' s /\ same_io (transport s) t' /\ is_would_block e = false) s.
Proof.
  apply wp_zoom. eapply wp_mono; [apply flush_ok|..]; cbn beta.
  - intros _ t' Hs. by exists t'.
  - intros e t' [Hs Hwb]. by exists t'.
Qed.

(** [n] bytes of the wire form of a packet are written. *)
Definition wrote b dup n s s' : Prop :=
  exists t', s' = with_transport t' s /\ (n <= length b)%nat /\
    sent t' = sent (transport s) ++ take n (wire b dup) /\ received t' = received (transport s).

Lemma wp_first_write b dup s : b <> [] ->
  wp (if dup then
        match b with
        | [] => panic
        | b0 :: _ =>
          written ← on_transport (write [Z.lor b0 DUP] true);
          if (0 <? written)%nat then
            assert_ (written <=? length b)%nat;;
            w ← on_transport (write (drop written b) true);
            mret (written + w)%nat
          else mret written
        end
      else on_transport (write b true))
    (fun n s' => wrote b dup n s s')
    (fun e s' => is_would_block e = false /\ exists n, wrote b dup n s s') s.
Proof.
  intros Hb. destruct b as [|b0 tl]; [done|]. destruct dup.
  - apply wp_bind. eapply wp_mono; [apply wp_write|..]; cbn beta.
    2: { intros e s' (t' & -> & [Hr Hs] & Hwb). split; [by apply Hwb|]. exists 0%nat, t'.
         rewrite take_0, app_nil_r. split_and!; [done|lia|done|done]. }
    intros n s1 (t1 & -> & Hn & Hs & Hr). cbn [length] in Hn.
    rewrite (take_wire_1 b0 tl n Hn) in Hs. apply wp_if; intros Hw.
    + apply Nat.ltb_lt in Hw. assert (n = 1%nat) as -> by lia.
      apply wp_bind, wp_assert; [apply Nat.leb_le; cbn; lia|]. apply wp_bind.
      eapply wp_mono; [apply wp_write|..]; cbn beta.
      * intros m s2 (t2 & -> & Hm & Hs2 & Hr2). apply wp_ret. exists t2.
        change (drop 1 (b0 :: tl)) with tl in *. cbn [length] in *.
        split_and!; [done|lia| |by rewrite Hr2, <- Hr].
        rewrite Hs2. cbn [transport with_transport]. rewrite Hs, <- (assoc_L (++)). done.
      * intros e s2 (t2 & -> & [Hr2 Hs2] & Hwb). split; [by apply Hwb|]. exists 1%nat, t2.
        cbn [transport with_transport] in *. rewrite Hs2, Hr2. split_and!; [done|cbn; lia|done|done].
    + apply Nat.ltb_ge in Hw. apply wp_ret. exists t1. split_and!; [done|cbn; lia|done|done].
  - eapply wp_mono; [apply wp_write|..]; cbn beta.
    + intros n s' (t' & -> & Hn & Hs & Hr). by exists t'.
    + intros e s' (t' & -> & [Hr Hs] & Hwb). split; [by apply Hwb|]. exists 0%nat, t'.
      rewrite take_0, app_nil_r. split_and!; [done|lia|done|done].
Qed.

(** Where a packet goes: entirely to the transport, or partly to [tx_pkt]. *)
Definition tx_started b dup s s' : Prop :=
  exists n, wrote b dup n s (with_tx_pkt (tx_pkt s) s') /\
    if decide (n = length b) then tx_pkt s' = tx_pkt s
    else tx_pkt s' = Some (mkTxPacket b n dup).

Lemma wp_try_send b dup s : b <> [] -> tx_pkt s = None ->
  wp (try_send_packet b dup) (fun _ s' => tx_started b dup s s')
    (fun e s' => is_would_block e = false /\ exists n, wrote b dup n s s') s.
Proof.
  intros Hb Htx. unfold try_send_packet. apply wp_bind, wp_gets, wp_bind.
  apply wp_assert; [by rewrite Htx, bool_decide_true|]. apply wp_bind.
  eapply wp_mono; [by apply wp_first_write| |done]. intros n s1 (t1 & -> & Hn & Hs & Hr).
  apply wp_if; intros Hw.
  - apply Nat.leb_le in Hw. assert (n = length b) as -> by lia.
    eapply wp_mono; [apply wp_flush|..]; cbn beta.
    + intros _ s2 (t2 & -> & [Hr2 Hs2]). cbn [transport with_transport] in *.
      exists (length b). rewrite decide_True by done. split; [|done]. exists t2.
      split_and!; [by destruct s|lia|by rewrite Hs2|by rewrite Hr2].
    + intros e s2 (t2 & -> & [Hr2 Hs2] & Hwb). cbn [transport with_transport] in *.
      split; [done|]. exists (length b), t2. split_and!; [done|lia|by rewrite Hs2|by rewrite Hr2].
  - apply Nat.leb_gt in Hw. apply wp_modify. exists n. rewrite decide_False by lia.
    split; [|done]. exists t1. split_and!; [by destruct s|done|done|done].
Qed.

(** The packet in [tx_pkt], as far as it is not sent yet. *)
Definition tx_left s : bytes := match tx_pkt s with Some x => tx_rest x | None => [] end.

(** What starting a packet does to the stream. *)
Definition started b dup s s' : Prop :=
  out_frame s s' /\ clock s' = clock s /\ last_tx s' = last_tx s /\
  internal_pkt_queue s' = internal_pkt_queue s /\
  sent (transport s') ++ tx_left s' = sent (transport s) ++ wire b dup /\
  (forall x, tx_pkt s' = Some x -> (tx_pos x < length (tx_bytes x))%nat).

(** After an error, what was sent is a prefix of the stream. *)
Definition sent_prefix (full : bytes) s' : Prop := exists rest, sent (transport s') ++ rest = full.

Lemma tx_started_stream b dup s s' : tx_pkt s = None -> tx_started b dup s s' -> started b dup s s'.
Proof.
  intros Htx (n & (t' & E & Hn & Hs & Hr) & Hd). rewrite Htx in Hd, E.
  assert (s' = with_tx_pkt (tx_pkt s') (with_transport t' s)) as Es by (rewrite <- E; by destruct s').
  revert Hd Es. generalize (tx_pkt s'). intros y Hd ->. unfold started, out_frame, tx_left; cbn.
  case_decide as En; subst y.
  - subst n. rewrite take_ge in Hs by (by rewrite wire_length). rewrite app_nil_r.
    split_and!; try done. by eexists.
  - unfold tx_rest; cbn. rewrite Hs, <- (assoc_L (++)), take_drop.
    split_and!; try done; [by eexists|]. intros x [= <-]. cbn. lia.
Qed.

Lemma wrote_prefix b dup n s s' : wrote b dup n s s' ->
  out_frame s s' /\ (tx_weak s -> tx_weak s') /\ sent_prefix (sent (transport s) ++ wire b dup) s'.
Proof.
  intros (t' & -> & Hn & Hs & Hr). split_and!.
  - split_and!; [done|by destruct s|done|by eexists].
  - done.
  - exists (drop n (wire b dup)). cbn. by rewrite Hs, <- (assoc_L (++)), take_drop.
Qed.

Lemma wp_start b dup s : b <> [] -> tx_pkt s = None ->
  wp (try_send_packet b dup) (fun _ s' => started b dup s s')
    (fun e s' => is_would_block e = false /\ out_frame s s' /\ (tx_weak s -> tx_weak s') /\
       sent_prefix (sent (transport s) ++ wire b dup) s') s.
Proof.
  intros Hb Htx. eapply wp_mono; [by apply wp_try_send|..]; cbn beta.
  - intros _ s'. by apply tx_started_stream.
  - intros e s' [? [n Hw]]. split; [done|]. by eapply wrote_prefix.
Qed.

(** The effect of queueing a packet. *)
Definition queued b dup s s' : Prop :=
  out_frame s s' /\ clock s' = clock s /\ last_tx s' = last_tx s /\ tx_ok s' /\
  stream s' = stream s ++ wire b dup.

Lemma started_queued b dup s s' : tx_ok s -> tx_pkt s = None -> started b dup s s' -> queued b dup s s'.
Proof.
  intros (Hq & _ & _) Htx (Hf & Hc & Hl & Hi & Hs & Hx). specialize (Hq Htx). rewrite Hq in Hi.
  split_and!; [done|done|done| |].
  - split_and!; [done|done|by rewrite Hi].
  - unfold stream, pending_out. unfold tx_left in Hs. rewrite Hi, Hq, Htx. cbn [queue_wire fmap list_fmap concat app].
    by rewrite !app_nil_r.
Qed.

Lemma wp_queue b dup s : tx_ok s -> b <> [] ->
  wp (queue_internal_packet b dup) (fun _ s' => queued b dup s s')
    (fun e s' => is_would_block e = false /\ out_frame s s' /\ tx_weak s' /\
       sent_prefix (stream s ++ wire b dup) s') s.
Proof.
  intros Hok Hb. unfold queue_internal_packet. apply wp_bind, wp_gets.
  destruct (tx_pkt s) as [x|] eqn:Htx.
  - apply wp_modify. split_and!; [|done|done| |].
    + out_same s.
    + destruct Hok as (_ & Hx & Hq). split_and!; cbn; [congruence|done|].
      apply Forall_app. split; [done|by repeat constructor].
    + unfold stream, pending_out, queue_wire. cbn. rewrite Htx, fmap_app, concat_app. cbn.
      by rewrite app_nil_r, <- !(assoc_L (++)).
  - eapply wp_mono; [by apply wp_start|..]; cbn beta.
    + intros _ s'. by apply started_queued.
    + intros e s' (? & ? & Hwk & Hp). split_and!; [done|done|by apply Hwk, tx_ok_weak|].
      destruct Hok as (Hq & _ & _). unfold stream, pending_out. rewrite Htx, (Hq Htx). cbn.
      by rewrite app_nil_r.
Qed.

Lemma sent_prefix_app full rest s' : sent_prefix full s' -> sent_prefix (full ++ rest) s'.
Proof. intros [r <-]. exists (r ++ rest). by rewrite (assoc_L (++)). Qed.

Lemma queue_wire_cons p q : queue_wire (p :: q) = wire (ip_bytes p) (ip_set_dup p) ++ queue_wire q.
Proof. done. Qed.

Lemma wp_pop_queue q s :
  internal_pkt_queue s = q -> tx_pkt s = None -> Forall (fun p => ip_bytes p <> []) q ->
  wp (pop_queue q)
    (fun _ s' => out_frame s s' /\ tx_ok s' /\ stream s' = sent (transport s) ++ queue_wire q)
    (fun e s' => is_would_block e = false /\ out_frame s s' /\ tx_weak s' /\
       sent_prefix (sent (transport s) ++ queue_wire q) s') s.
Proof.
  revert s. induction q as [|p q IH]; intros s Hq Htx Hne; cbn [pop_queue].
  { apply wp_ret. split_and!; [apply out_frame_refl| |].
    - split_and!; [done|congruence|by rewrite Hq].
    - unfold stream, pending_out. by rewrite Htx, Hq. }
  apply Forall_cons in Hne as [Hp Hne]. apply wp_bind, wp_modify, wp_bind.
  set (s0 := with_internal_pkt_queue q s).
  assert (out_frame s s0) as Hf0 by out_same s.
  rewrite queue_wire_cons, (assoc_L (++)). eapply wp_mono; [by apply (wp_start _ _ s0)|..]; cbn beta.
  2: { intros e s' (? & ? & Hwk & Hsp). split_and!; [done|by eapply out_frame_trans| |by apply sent_prefix_app].
       apply Hwk. split; [|done]. change (tx_pkt s0) with (tx_pkt s). rewrite Htx. done. }
  intros _ s1 (Hf & _ & _ & Hi & Hs & Hx). apply wp_bind, wp_gets.
  assert (out_frame s s1) as Hf1 by (by eapply out_frame_trans).
  change (internal_pkt_queue s0) with q in Hi. change (transport s0) with (transport s) in Hs.
  unfold tx_left in Hs. destruct (tx_pkt s1) as [x|] eqn:Etx.
  - apply wp_ret. split_and!; [done| |].
    + split_and!; [congruence|rewrite Etx; naive_solver|by rewrite Hi].
    + unfold stream, pending_out. by rewrite Etx, Hi, (assoc_L (++)), Hs.
  - rewrite app_nil_r in Hs. eapply wp_mono; [by apply IH|..]; cbn beta; rewrite Hs.
    + intros _ s2 (? & ? & ?). split_and!; [by eapply out_frame_trans|done|done].
    + intros e s2 (? & ? & ? & ?). split_and!; [done|by eapply out_frame_trans|done|done].
Qed.

Lemma wp_clear_tx s : Forall (fun p => ip_bytes p <> []) (internal_pkt_queue s) ->
  wp clear_tx_packet
    (fun _ s' => out_frame s s' /\ tx_ok s' /\
       stream s' = sent (transport s) ++ queue_wire (internal_pkt_queue s))
    (fun e s' => is_would_block e = false /\ out_frame s s' /\ tx_weak s' /\
       sent_prefix (sent (transport s) ++ queue_wire (internal_pkt_queue s)) s') s.
Proof.
  intros Hne. unfold clear_tx_packet. apply wp_bind, wp_modify, wp_bind, wp_gets.
  set (s0 := with_tx_pkt None s).
  assert (out_frame s s0) as Hf0 by out_same s.
  eapply wp_mono; [by apply (wp_pop_queue _ s0)|..]; cbn beta.
  - intros _ s' (? & ? & ?). split_and!; [by eapply out_frame_trans|done|done].
  - intros e s' (? & ? & ? & ?). split_and!; [done|by eapply out_frame_trans|done|done].
Qed.

Lemma wp_now s : forall (Q : Z -> Transceiver T X -> Prop) (R : io_error -> Transceiver T X -> Prop),
  Q (instant (clock s)) (with_clock (S (clock s)) s) -> wp now Q R s.
Proof. intros Q R HQ. apply wp_bind, wp_gets, wp_bind, wp_modify, wp_ret. done. Qed.

(** The write of one turn of [continue_writing_packet]. *)
Lemma wp_next_write x s : (tx_pos x < length (tx_bytes x))%nat ->
  wp (if tx_set_dup x && (tx_pos x <=? 0)%nat then
        match tx_bytes x with
        | [] => panic
        | b0 :: _ => on_transport (write [Z.lor b0 DUP] false)
        end
      else
        assert_ (tx_pos x <=? length (tx_bytes x))%nat;;
        on_transport (write (drop (tx_pos x) (tx_bytes x)) false))
    (fun n s' => exists t', s' = with_transport t' s /\ (n <= length (tx_bytes x) - tx_pos x)%nat /\
       sent t' = sent (transport s) ++ take n (tx_rest x) /\ received t' = received (transport s))
    (fun _ s' => exists t', s' = with_transport t' s /\ same_io (transport s) t') s.
Proof.
  intros Hx. apply wp_if; intros Hd.
  - apply andb_true_iff in Hd as [Hd Hp]. apply Nat.leb_le in Hp.
    unfold tx_rest. rewrite Hd. replace (tx_pos x) with 0%nat in * by lia. rewrite drop_0.
    destruct (tx_bytes x) as [|b0 tl]; [cbn in Hx; lia|].
    eapply wp_mono; [apply wp_write|..]; cbn beta.
    + intros n s' (t' & -> & Hn & Hs & Hr). cbn [length] in *. exists t'.
      rewrite (take_wire_1 b0 tl n Hn) in Hs. split_and!; [done|lia|done|done].
    + intros e s' (t' & -> & ? & _). by exists t'.
  - apply wp_bind, wp_assert; [apply Nat.leb_le; lia|].
    eapply wp_mono; [apply wp_write|..]; cbn beta.
    + intros n s' (t' & -> & Hn & Hs & Hr). rewrite length_drop in Hn. exists t'.
      split_and!; [done|done| |done]. rewrite Hs. unfold tx_rest. do 2 f_equal.
      apply andb_false_iff in Hd as [->|Hp]; [by rewrite wire_false|].
      apply Nat.leb_gt in Hp. by rewrite wire_drop by lia.
    + intros e s' (t' & -> & ? & _). by exists t'.
Qed.

(** The promises of [continue_writing_packet]. *)
Definition written_all s (r : bool) s' : Prop :=
  out_frame s s' /\ tx_ok s' /\ stream s' = stream s /\ (r = false -> tx_pkt s' = None).
Definition write_failed s (e : io_error) s' : Prop :=
  out_frame s s' /\ tx_weak s' /\ sent_prefix (stream s) s' /\
  (is_would_block e = true -> tx_ok s' /\ stream s' = stream s).

Lemma written_all_trans s s1 r s' : out_frame s s1 -> stream s1 = stream s ->
  written_all s1 r s' -> written_all s r s'.
Proof.
  intros Hf Hs (? & ? & ? & ?). split_and!; [by eapply out_frame_trans|done|congruence|done].
Qed.

Lemma write_failed_trans s s1 e s' : out_frame s s1 -> stream s1 = stream s ->
  write_failed s1 e s' -> write_failed s e s'.
Proof.
  intros Hf Hs (? & ? & ? & ?). rewrite Hs in *. split_and!; [by eapply out_frame_trans|done|done|done].
Qed.

Lemma stream_prefix s : sent_prefix (stream s) s.
Proof. by exists (pending_out s). Qed.

(** After a write the stream is the same and the pending part is shorter. *)
Lemma advance x n t' s : tx_pkt s = Some x -> (n <= length (tx_bytes x) - tx_pos x)%nat ->
  sent t' = sent (transport s) ++ take n (tx_rest x) -> received t' = received (transport s) ->
  let s' := with_tx_pkt (Some (mkTxPacket (tx_bytes x) (tx_pos x + n) (tx_set_dup x))) (with_transport t' s) in
  out_frame s s' /\ stream s' = stream s.
Proof.
  intros Htx Hn Hs Hr s'. split; [split_and!; [done|by destruct s|done|by eexists]|].
  unfold stream, pending_out, s'; cbn. rewrite Htx, Hs, <- (assoc_L (++)). f_equal.
  rewrite (assoc_L (++)). f_equal. unfold tx_rest; cbn. rewrite <- drop_drop. by rewrite take_drop.
Qed.

Lemma sent_grows s s' b : stream s' = stream s -> sent (transport s') = sent (transport s) ++ b ->
  length (pending_out s') = (length (pending_out s) - length b)%nat.
Proof.
  unfold stream. intros E Hs. apply (f_equal length) in E. rewrite !length_app, Hs, length_app in E. lia.
Qed.

Lemma continue_step x s t' n :
  tx_ok s -> tx_pkt s = Some x -> (0 < n <= length (tx_bytes x) - tx_pos x)%nat ->
  sent t' = sent (transport s) ++ take n (tx_rest x) -> received t' = received (transport s) ->
  let x' := mkTxPacket (tx_bytes x) (tx_pos x + n) (tx_set_dup x) in
  wp (if (length (tx_bytes x') <=? tx_pos x')%nat then
        on_transport flush;; clear_tx_packet;; t ← now; modify (with_last_tx t)
      else mret tt)
    (fun _ s' => out_frame s s' /\ tx_ok s' /\ stream s' = stream s /\
       (length (pending_out s') < length (pending_out s))%nat)
    (fun e s' => write_failed s e s') (with_tx_pkt (Some x') (with_transport t' s)).
Proof.
  intros (_ & Hx & Hq) Htx Hn Hs Hr x'. specialize (Hx x Htx).
  destruct (advance x n t' s Htx) as [Hf Hst]; [lia|done|done|]. fold x' in Hf, Hst.
  set (s1 := with_tx_pkt (Some x') (with_transport t' s)) in *.
  assert (Hlen : length (take n (tx_rest x)) = n).
  { rewrite length_take. unfold tx_rest. rewrite length_drop, wire_length. lia. }
  assert (Hpo : forall s', stream s' = stream s -> out_frame s1 s' ->
    (length (pending_out s') < length (pending_out s))%nat).
  { intros s' E (_ & _ & _ & more & Hp). change (transport s1) with t' in Hp.
    rewrite Hs, <- (assoc_L (++)) in Hp. pose proof (sent_grows s s' _ E Hp) as Hg.
    rewrite length_app, Hlen in Hg. rewrite Hg.
    assert (0 < length (pending_out s))%nat; [|lia].
    unfold pending_out. rewrite Htx, length_app. unfold tx_rest. rewrite length_drop, wire_length. lia. }
  apply wp_if; intros Hd.
  - apply Nat.leb_le in Hd. cbn in Hd. apply wp_bind.
    assert (stream s = sent t' ++ queue_wire (internal_pkt_queue s)) as Hst'.
    { rewrite <- Hst. unfold stream, pending_out, s1. cbn. f_equal.
      unfold tx_rest. rewrite drop_ge; [done|]. cbn. rewrite wire_length. lia. }
    eapply wp_mono; [apply wp_flush|..]; cbn beta.
    2: { intros e s2 (t2 & -> & [Hr2 Hs2] & Hwb). change (transport s1) with t' in *. split_and!.
         - eapply out_frame_trans; [exact Hf|].
           split_and!; [done|done|done|exists []; by rewrite app_nil_r].
         - split; [|done]. intros y [= <-]. cbn. split; [|lia]. intros E. rewrite E in Hx. cbn in Hx. lia.
         - exists (queue_wire (internal_pkt_queue s)). cbn. by rewrite Hs2, Hst'.
         - by rewrite Hwb. }
    intros _ s2 (t2 & -> & [Hr2 Hs2]). change (transport s1) with t' in *.
    set (s2 := with_transport t2 s1).
    assert (out_frame s1 s2) as Hf2.
    { split_and!; [done|done|done|exists []; by rewrite app_nil_r]. }
    apply wp_bind. eapply wp_mono; [by apply (wp_clear_tx s2)|..]; cbn beta;
      change (transport s2) with t2; change (internal_pkt_queue s2) with (internal_pkt_queue s);
      rewrite Hs2, <- Hst'.
    + intros _ s3 (Hf3 & Hok3 & Hst3). apply wp_bind, wp_now, wp_modify.
      set (s4 := with_last_tx _ _). assert (out_frame s1 s4) as Hf4.
      { eapply out_frame_trans; [exact Hf2|]. eapply out_frame_trans; [exact Hf3|]. out_same s3. }
      split_and!; [by eapply out_frame_trans|exact Hok3|exact Hst3|]. by apply Hpo.
    + intros e s3 (Hwb & Hf3 & Hwk & Hsp). split_and!; [|done|done|by rewrite Hwb].
      eapply out_frame_trans; [exact Hf|]. by eapply out_frame_trans.
  - apply Nat.leb_gt in Hd. cbn in Hd. apply wp_ret. split_and!; [done| |done|].
    + split_and!; [done| |done]. intros y [= <-]. cbn. lia.
    + apply Hpo; [done|apply out_frame_refl].
Qed.

Lemma wp_continue fuel s : tx_ok s -> (length (pending_out s) < fuel)%nat ->
  wp (continue_writing_packet fuel) (fun r s' => written_all s r s') (fun e s' => write_failed s e s') s.
Proof.
  revert s. induction fuel as [|fuel IH]; intros s Hok Hf; [lia|]. cbn [continue_writing_packet].
  apply wp_bind, wp_gets. destruct (tx_pkt s) as [x|] eqn:Htx.
  2: { apply wp_ret. split_and!; [apply out_frame_refl|done|done|done]. }
  pose proof Hok as (_ & Hx & _). specialize (Hx x Htx). apply wp_bind.
  eapply wp_mono; [by apply wp_next_write|..]; cbn beta.
  2: { intros e s' (t' & -> & [Hr Hs]). split_and!.
       - split_and!; [done|by destruct s|done|exists []; by rewrite app_nil_r].
       - exact (tx_ok_weak _ Hok).
       - exists (pending_out s). cbn. by rewrite Hs.
       - intros _. split; [exact Hok|]. unfold stream. cbn. by rewrite Hs. }
  intros n s1 (t' & -> & Hn & Hs & Hr). apply wp_if; intros Hz.
  - apply Nat.leb_le in Hz. assert (n = 0%nat) as -> by lia. rewrite take_0, app_nil_r in Hs.
    apply wp_ret. split_and!; [| exact Hok| |done].
    + split_and!; [done|by destruct s|done|exists []; by rewrite app_nil_r].
    + unfold stream. cbn. by rewrite Hs.
  - apply Nat.leb_gt in Hz. cbv zeta. apply wp_bind, wp_modify, wp_bind.
    eapply wp_mono; [apply (continue_step x s t' n); [done|done|lia|done|done]|..]; cbn beta; [|done].
    intros _ s2 (Hf2 & Hok2 & Hst2 & Hlt). eapply wp_mono; [apply IH; [done|lia]|..]; cbn beta.
    + intros r s3. by apply written_all_trans.
    + intros e s3. by apply write_failed_trans.
Qed.

Lemma write_fuel_enough s : (length (pending_out s) < write_fuel s)%nat.
Proof.
  assert (length (queue_wire (internal_pkt_queue s))
          = sum_list_with (fun p => length (ip_bytes p)) (internal_pkt_queue s)) as Hq.
  { unfold queue_wire. induction (internal_pkt_queue s) as [|p q IH]; [done|]. cbn.
    by rewrite length_app, IH, wire_length. }
  unfold pending_out, write_fuel. rewrite length_app, Hq. destruct (tx_pkt s) as [x|]; cbn; [|lia].
  unfold tx_rest. rewrite length_drop, wire_length. lia.
Qed.

(** *** After an error *)

Lemma weak_writing s x : tx_weak s -> tx_pkt s = Some x -> (tx_pos x < length (tx_bytes x))%nat -> tx_ok s.
Proof. intros [_ Hq] Htx Hx. split_and!; [congruence|intros y; congruence|done]. Qed.

(** Transmitting in the state that an error left: nothing panics, and no byte
    is sent out of order. *)
Lemma wp_continue_weak fuel s : tx_weak s -> (length (pending_out s) < fuel)%nat ->
  wp (continue_writing_packet fuel)
    (fun r s' => out_frame s s' /\ tx_weak s' /\ stream s' = stream s /\ (r = false -> tx_pkt s' = None) /\
       (tx_ok s -> tx_ok s'))
    (fun e s' => out_frame s s' /\ tx_weak s' /\ sent_prefix (stream s) s' /\
       (is_would_block e = true -> stream s' = stream s /\ (tx_ok s -> tx_ok s'))) s.
Proof.
  intros Hwk Hf. destruct (tx_pkt s) as [x|] eqn:Htx.
  2: { destruct fuel as [|fuel]; [lia|]. cbn [continue_writing_packet]. apply wp_bind, wp_gets. rewrite Htx.
       apply wp_ret. split_and!; [apply out_frame_refl|done|done|done|done]. }
  pose proof (proj1 Hwk x Htx) as [Hne Hpos].
  destruct (decide (tx_pos x < length (tx_bytes x))%nat) as [Hlt|Hge].
  { pose proof (weak_writing s x Hwk Htx Hlt) as Hok. eapply wp_mono; [by apply wp_continue|..]; cbn beta.
    - intros r s' (? & ? & ? & ?). split_and!; [done|by apply tx_ok_weak|done|done|done].
    - intros e s' (? & ? & ? & Hw). split_and!; [done|done|done|]. intros He. destruct (Hw He). done. }
  destruct fuel as [|fuel]; [lia|]. cbn [continue_writing_packet]. apply wp_bind, wp_gets. rewrite Htx. apply wp_bind.
  assert (0 < tx_pos x)%nat as Hp0 by (destruct (tx_bytes x); [done|cbn in Hge; lia]).
  destruct (Nat.leb_spec (tx_pos x) 0) as [Hz|_]; [lia|]. rewrite andb_false_r.
  apply wp_bind, wp_assert; [by apply Nat.leb_le|]. rewrite drop_ge by lia.
  eapply wp_mono; [apply wp_write|..]; cbn beta.
  - intros n s1 (t' & -> & Hn & Hs & Hr). cbn in Hn. assert (n = 0%nat) as -> by lia.
    cbn [take] in Hs. rewrite app_nil_r in Hs. cbn [Nat.leb]. apply wp_ret.
    split_and!; [|exact Hwk|unfold stream; cbn; by rewrite Hs|done|intros Hok; exact Hok].
    split_and!; [done|by destruct s|done|exists []; by rewrite app_nil_r].
  - intros e s1 (t' & -> & [Hr Hs] & _). split_and!; [|exact Hwk|exists (pending_out s); cbn; by rewrite Hs|].
    + split_and!; [done|by destruct s|done|exists []; by rewrite app_nil_r].
    + intros _. split; [unfold stream; cbn; by rewrite Hs|intros Hok; exact Hok].
Qed.

Lemma wp_queue_weak b dup s : tx_weak s -> b <> [] ->
  wp (queue_internal_packet b dup)
    (fun _ s' => out_frame s s' /\ tx_weak s' /\ (tx_pkt s <> None -> tx_pkt s' = tx_pkt s) /\
       match tx_pkt s with
       | None => started b dup s s'
       | Some _ => stream s' = stream s ++ wire b dup
       end)
    (fun e s' => out_frame s s' /\ tx_weak s' /\ tx_pkt s = None /\
       sent_prefix (sent (transport s) ++ wire b dup) s') s.
Proof.
  intros Hwk Hb. unfold queue_internal_packet. apply wp_bind, wp_gets. destruct (tx_pkt s) as [x|] eqn:Htx.
  - apply wp_modify. split_and!; [out_same s| |by intros _|].
    + destruct Hwk as [Hx Hq]. split; [exact Hx|]. cbn. apply Forall_app. split; [done|by repeat constructor].
    + unfold stream, pending_out, queue_wire. cbn. rewrite Htx, fmap_app, concat_app. cbn.
      by rewrite app_nil_r, <- !(assoc_L (++)).
  - eapply wp_mono; [by apply wp_start|..]; cbn beta.
    + intros _ s' Hs. destruct Hs as (Hf & Hc & Hl & Hi & Hst & Hx). split_and!; [done| |done|by split_and!].
      split; [|by rewrite Hi; apply Hwk]. intros y Hy. specialize (Hx y Hy). split; [|lia].
      intros E. rewrite E in Hx. cbn in Hx. lia.
    + intros e s' (_ & Hf & Hw & Hp). split_and!; [done|by apply Hw|done|done].
Qed.
End output_facts.
