(* ===== verification/TransceiverProps.v ===== *)
(** * Theorems on the transceiver

    The invariant of the transceiver's state; the reaction to every incoming
    packet, every command and every alarm as a function of the state before;
    and what follows for whole runs: exactly-once delivery of QoS 2 messages,
    no acknowledgement lost, every unanswered packet sent again. *)

From Stdlib Require Import ZArith Lia.
From stdpp Require Import base list numbers gmap sorting.
From S2P Require Import Prelude Base ByteIO Packets PacketProps Transport PacketReader.
From S2P Require Import Subscription Shared Transceiver TransceiverOut.

Local Open Scope Z_scope.

(** The clock does not go backwards. *)
Class ClockOk `{Clock} : Prop := instant_mono : forall n m, (n <= m)%nat -> instant n <= instant m.

Section invariant.
Context `{Clock} {T X : Type} `{TransportOk T}.
Implicit Types s : Transceiver T X.

Definition timeout_ids s : list IdType := to_packet_id <$> timeout_queue s.

(** The timeout queue is in chronological order. *)
Definition timeouts_ok s : Prop :=
  StronglySorted Z.le (to_t <$> timeout_queue s) /\
  Forall (fun to => to_t to <= instant (clock s)) (timeout_queue s).

(** Whatever waits for an answer has an entry in the timeout queue, and is not
    empty. *)
Definition pending_ok s : Prop :=
  map_Forall (fun id b => id ∈ timeout_ids s /\ b <> [] /\ ty id <> TSubscribe) (pending_packets s) /\
  map_Forall (fun id p => IdType_subscribe id ∈ timeout_ids s /\ ps_packet p <> []) (pending_subs s).

Definition tr_ok s : Prop :=
  reader_ok (rx_pkt s) /\ set_ok (subscriptions s) /\ tx_ok s /\ shared_ok (shared s) /\
  timeouts_ok s /\ pending_ok s /\ ping_req s = frame TPingReq 0 [].

(** What is left of it when a step has failed with an error of the transport:
    packets may be queued though none is being transmitted, and what awaits an
    answer may have no entry in the timeout queue. *)
Definition tr_weak s : Prop :=
  reader_ok (rx_pkt s) /\ set_ok (subscriptions s) /\ tx_weak s /\ shared_ok (shared s) /\
  timeouts_ok s /\ ping_req s = frame TPingReq 0 [].

Lemma tr_ok_weak s : tr_ok s -> tr_weak s.
Proof.
  intros (I1 & I2 & I3 & I4 & I5 & _ & I7). exact (conj I1 (conj I2 (conj (tx_ok_weak s I3) (conj I4 (conj I5 I7))))).
Qed.

(** The fields that the output side does not touch. *)
Lemma out_frame_fields s s' : out_frame s s' ->
  pending_packets s' = pending_packets s /\ pending_subs s' = pending_subs s /\
  timeout_queue s' = timeout_queue s /\ shared s' = shared s /\
  subscriptions s' = subscriptions s /\ woken s' = woken s /\ recipients s' = recipients s /\
  rx_pkt s' = rx_pkt s /\ connect_sig s' = connect_sig s /\ conn_results s' = conn_results s /\
  ping_req s' = ping_req s /\ packet_resend_delay s' = packet_resend_delay s.
Proof. intros (_ & -> & _). done. Qed.

Lemma timeouts_ok_later s s' : ClockOk -> timeout_queue s' = timeout_queue s -> (clock s <= clock s')%nat ->
  timeouts_ok s -> timeouts_ok s'.
Proof.
  intros Hm Hq Hc [Hs Hf]. unfold timeouts_ok. rewrite Hq. split; [done|].
  eapply Forall_impl; [exact Hf|]. cbn. intros to Ht. pose proof (Hm _ _ Hc). lia.
Qed.

Lemma tr_ok_out s s' : ClockOk -> tr_ok s -> out_frame s s' -> tx_ok s' -> tr_ok s'.
Proof.
  intros Hm (I1 & I2 & _ & I4 & I5 & I6 & I7) Hf Htx.
  destruct (out_frame_fields s s' Hf) as (E1 & E2 & E3 & E4 & E5 & _ & _ & E8 & _ & _ & E11 & _).
  unfold tr_ok, pending_ok, timeout_ids. rewrite E1, E2, E3, E4, E5, E8, E11. split_and!; try done.
  - eapply timeouts_ok_later; [done|done|apply Hf|done].
  - apply I6.
  - apply I6.
Qed.

Lemma tr_weak_out s s' : ClockOk -> tr_weak s -> out_frame s s' -> tx_weak s' -> tr_weak s'.
Proof.
  intros Hm (I1 & I2 & _ & I4 & I5 & I7) Hf Htx.
  destruct (out_frame_fields s s' Hf) as (_ & _ & E3 & E4 & E5 & _ & _ & E8 & _ & _ & E11 & _).
  unfold tr_weak. rewrite E4, E5, E8, E11. split_and!; try done.
  eapply timeouts_ok_later; [done|done|apply Hf|done].
Qed.

(** Recording a new timeout. *)
Lemma timeouts_ok_push s id : ClockOk -> timeouts_ok s ->
  timeouts_ok (with_timeout_queue (timeout_queue s ++ [mkTimeout (instant (clock s)) id])
                 (with_clock (S (clock s)) s)).
Proof.
  intros Hm [Hs Hf]. split; cbn.
  - rewrite fmap_app. apply StronglySorted_app_2; [|done|by repeat constructor].
    intros x y Hx Hy. apply list_elem_of_singleton in Hy as ->.
    apply list_elem_of_fmap in Hx as (to & -> & Hto). rewrite Forall_forall in Hf. by apply Hf.
  - apply Forall_app. split; [|repeat constructor; cbn; apply Hm; lia].
    eapply Forall_impl; [exact Hf|]. cbn. intros to Ht. pose proof (Hm (clock s) (S (clock s))). lia.
Qed.
End invariant.

(* ------------------------------------------------------------------ *)
(** ** Sending and recording                                           *)
(* ------------------------------------------------------------------ *)

Section handlers.
#[local] Existing Instance production.
Context `{ClockOk} {T X : Type} `{TransportOk T} `{RecipientsOk X}.
Implicit Types (s : Transceiver T X) (b : bytes) (dup : bool).

(** What no handler touches. *)
Definition unchanged s s' : Prop :=
  rx_pkt s' = rx_pkt s /\ received (transport s') = received (transport s) /\
  connect_sig s' = connect_sig s /\ conn_results s' = conn_results s.

(** What sending a packet does not touch. *)
Definition session s := (pending_subs s, shared s, subscriptions s, woken s, recipients s).

(** An error of the transport, which ends the main loop, while [out] was being
    sent: what was sent until then is a prefix of what was to be sent. *)
Definition io_failed (out : bytes) s (e : io_error) s' : Prop :=
  is_would_block e = false /\ tr_weak s' /\ sent_prefix (stream s ++ out) s'.

Lemma out_failed out s e s' : tr_weak s ->
  is_would_block e = false /\ out_frame s s' /\ tx_weak s' /\ sent_prefix (stream s ++ out) s' -> io_failed out s e s'.
Proof. intros Hwk (? & ? & ? & ?). split_and!; [done|by eapply tr_weak_out|done]. Qed.

Lemma unchanged_refl s : unchanged s s.
Proof. done. Qed.

Lemma unchanged_trans s1 s2 s3 : unchanged s1 s2 -> unchanged s2 s3 -> unchanged s1 s3.
Proof. intros (? & ? & ? & ?) (? & ? & ? & ?). split_and!; congruence. Qed.

(** [s'] is [s] after [out] was added to what is to be sent. *)
Definition sends (out : bytes) s s' : Prop :=
  tr_ok s' /\ stream s' = stream s ++ out /\ unchanged s s' /\ session s' = session s.

Lemma queued_sends b dup s s' : tr_ok s -> queued b dup s s' ->
  sends (wire b dup) s s' /\ pending_packets s' = pending_packets s /\ timeout_queue s' = timeout_queue s.
Proof.
  intros Hok (Hf & Hc & Hl & Htx & Hst). pose proof (out_frame_fields s s' Hf) as Hff.
  destruct Hff as (E1 & E2 & E3 & E4 & E5 & E6 & E7 & E8 & E9 & E10 & _).
  split_and!; [|done|done]. split_and!; [by eapply tr_ok_out|done| |].
  - split_and!; [done|apply Hf|done|done].
  - unfold session. by rewrite E2, E4, E5, E6, E7.
Qed.

Lemma wp_queue_sends b dup s : tr_ok s -> b <> [] ->
  wp (queue_internal_packet b dup)
    (fun _ s' => sends (wire b dup) s s' /\ pending_packets s' = pending_packets s /\
       timeout_queue s' = timeout_queue s)
    (io_failed (wire b dup) s) s.
Proof.
  intros Hok Hb. eapply wp_mono; [apply wp_queue; [apply Hok|done]|..]; cbn beta.
  - intros _ s'. by apply queued_sends.
  - intros e s'. by apply out_failed, tr_ok_weak.
Qed.

Lemma wp_queue_plain b s : tr_ok s -> b <> [] ->
  wp (queue_internal_packet b false)
    (fun _ s' => sends b s s' /\ pending_packets s' = pending_packets s /\
       timeout_queue s' = timeout_queue s)
    (io_failed b s) s.
Proof. pose proof (wp_queue_sends b false s) as Hq. by rewrite wire_false in Hq. Qed.

(** Recording a packet that awaits an answer. *)
Definition recorded (id : IdType) b s : Transceiver T X :=
  match pending_packets s !! id with
  | Some _ => with_pending_packets (<[id := b]> (pending_packets s)) s
  | None =>
    with_timeout_queue (timeout_queue s ++ [mkTimeout (instant (clock s)) id])
      (with_clock (S (clock s)) (with_pending_packets (<[id := b]> (pending_packets s)) s))
  end.

(** The entry that this adds to the timeout queue, unless there is one. *)
Definition new_timeout (id : IdType) s : list IdType :=
  match pending_packets s !! id with Some _ => [] | None => [id] end.

Lemma recorded_ok id b s : tr_ok s -> b <> [] -> ty id <> TSubscribe -> tr_ok (recorded id b s).
Proof.
  intros (I1 & I2 & I3 & I4 & I5 & [I6 I6'] & I7) Hb Hty. unfold recorded.
  destruct (pending_packets s !! id) as [b'|] eqn:E.
  - split_and!; [done|done|done|done|done| |done]. split; [|done]. cbn.
    apply map_Forall_insert_2; [|done]. split_and!; [apply (I6 _ _ E)|done|done].
  - split_and!; [done|done|done|done|by apply (timeouts_ok_push (with_pending_packets _ s))| |done].
    unfold pending_ok, timeout_ids. cbn. rewrite fmap_app. split.
    + apply map_Forall_insert_2.
      * split_and!; [|done|done]. apply elem_of_app. right. by constructor.
      * eapply map_Forall_impl; [exact I6|]. intros i y (? & ? & ?). split_and!; [|done|done].
        apply elem_of_app. by left.
    + eapply map_Forall_impl; [exact I6'|]. intros i y (? & ?). split_and!; [|done].
      apply elem_of_app. by left.
Qed.

Lemma wp_queue_with_timeout id b s : tr_ok s -> b <> [] -> ty id <> TSubscribe ->
  wp (queue_internal_packet_with_timeout b id)
    (fun _ s' => sends b s s' /\ pending_packets s' = <[id := b]> (pending_packets s) /\
       timeout_ids s' = timeout_ids s ++ new_timeout id s)
    (io_failed b s) s.
Proof.
  intros Hok Hb Hty. unfold queue_internal_packet_with_timeout.
  apply wp_bind, wp_gets, wp_bind, wp_modify, wp_bind.
  assert (wp (queue_internal_packet b false)
    (fun _ s' => sends b s s' /\ pending_packets s' = <[id := b]> (pending_packets s) /\
       timeout_ids s' = timeout_ids s ++ new_timeout id s)
    (io_failed b s) (recorded id b s)) as Hgoal.
  { assert (stream (recorded id b s) = stream s) as Hsr by (unfold recorded; by destruct (pending_packets s !! id)).
    eapply wp_mono; [apply wp_queue_plain; [by apply recorded_ok|done]| |by intros e s'; unfold io_failed; rewrite Hsr]; cbn beta.
    intros _ s' ((Hok' & Hst & Hu & Hse) & Hp & Ht). unfold timeout_ids, new_timeout. rewrite Hp, Ht.
    revert Hst Hu Hse. unfold recorded. destruct (pending_packets s !! id); intros Hst Hu Hse.
    - split_and!; [|done|by rewrite app_nil_r]. by split_and!.
    - split_and!; [|done|cbn; by rewrite fmap_app]. by split_and!. }
  revert Hgoal. unfold recorded. destruct (pending_packets s !! id); intros Hgoal.
  - by apply wp_ret.
  - apply wp_bind, wp_bind, wp_now, wp_ret, wp_modify. exact Hgoal.
Qed.

Lemma clear_ok id s : tr_ok s -> tr_ok (with_pending_packets (delete id (pending_packets s)) s).
Proof.
  intros (I1 & I2 & I3 & I4 & I5 & [I6 I6'] & I7). split_and!; try done. split; [|done]. cbn.
  intros i y [Hne Hy]%lookup_delete_Some. by apply I6.
Qed.

Lemma wp_clear_timeout id s :
  forall (Q : bool -> Transceiver T X -> Prop) (R : io_error -> Transceiver T X -> Prop),
  Q (bool_decide (is_Some (pending_packets s !! id))) (with_pending_packets (delete id (pending_packets s)) s) ->
  wp (clear_packet_timeout id) Q R s.
Proof. intros Q R HQ. unfold clear_packet_timeout. apply wp_bind, wp_gets, wp_bind, wp_modify, wp_ret. done. Qed.

(** Forwarding an acknowledgement to whoever waits for it. *)
Lemma wp_notify getm setm i s :
  forall (Q : unit -> Transceiver T X -> Prop) (R : io_error -> Transceiver T X -> Prop),
  (forall x, waker_of <$> getm (shared s) !! i = x ->
   Q tt (with_woken (woken s ++ default [] x)
          (with_shared (setm (delete i (getm (shared s))) (shared s)) s))) ->
  wp (notify getm setm i) Q R s.
Proof.
  intros Q R HQ. unfold notify. apply wp_bind, wp_gets, wp_bind, wp_modify. specialize (HQ _ eq_refl).
  destruct (getm (shared s) !! i) as [[|w|]|]; cbn in HQ; rewrite ?app_nil_r in HQ;
    [apply wp_ret|apply wp_modify|apply wp_ret|apply wp_ret]; by destruct s.
Qed.

(* ------------------------------------------------------------------ *)
(** ** Incoming packets                                                *)
(* ------------------------------------------------------------------ *)

(** The wire form of an acknowledgement. *)
Definition ack_of (k : SimpleKind) (i : u16) : bytes := frame (simple_type k) (simple_flags k) (wire_u16 i).

Definition msg_id (m : IncomingPublishPacket) : u16 :=
  match info m with Ret i => info_packet_id i | _ => 0 end.
Definition msg_qos (m : IncomingPublishPacket) : option QoS :=
  match info m with Ret i => flags_qos (info_flags i) | _ => None end.
Definition msg_topic (m : IncomingPublishPacket) : str := match topic m with Ret t => t | _ => [] end.

(** A QoS 2 message whose PUBREC has not been answered by a PUBREL yet. *)
Definition duplicate s (m : IncomingPublishPacket) : bool :=
  bool_decide (msg_qos m = Some ExactlyOnce /\ is_Some (pending_packets s !! IdType_pub_rec (msg_id m))).

(** The reaction to a packet once connected, as functions of the state before:
    what is sent, what is recorded, to whom the message goes, who is woken. *)
Definition reply s (p : IncomingPacket) : bytes :=
  match p with
  | InPublish m =>
    match msg_qos m with
    | Some AtLeastOnce => ack_of KPubAck (msg_id m)
    | Some ExactlyOnce => default (ack_of KPubRec (msg_id m)) (pending_packets s !! IdType_pub_rec (msg_id m))
    | _ => []
    end
  | InPubRec r => default (ack_of KPubRel (packet_id r)) (pending_packets s !! IdType_pub_rel (packet_id r))
  | InPubRel r => ack_of KPubComp (packet_id r)
  | _ => []
  end.

Definition pending_after s (p : IncomingPacket) : gmap IdType bytes :=
  let m := pending_packets s in
  match p with
  | InPublish msg =>
    match msg_qos msg with
    | Some ExactlyOnce =>
      <[IdType_pub_rec (msg_id msg) :=
          default (ack_of KPubRec (msg_id msg)) (m !! IdType_pub_rec (msg_id msg))]> m
    | _ => m
    end
  | InPubAck a => delete (IdType_publish (packet_id a)) m
  | InPubRec r =>
    delete (IdType_publish (packet_id r))
      (<[IdType_pub_rel (packet_id r) :=
           default (ack_of KPubRel (packet_id r)) (m !! IdType_pub_rel (packet_id r))]> m)
  | InPubRel r => delete (IdType_pub_rec (packet_id r)) m
  | InPubComp c => delete (IdType_pub_rel (packet_id c)) m
  | InUnsubAck a => delete (IdType_unsubscribe (packet_id a)) m
  | _ => m
  end.

Definition delivery s (p : IncomingPacket) : list (Recipient * IncomingPublishPacket) :=
  match p with
  | InPublish m =>
    if duplicate s m then [] else offers (view (subscriptions s)) (levels (msg_topic m)) m
  | _ => []
  end.

(** The publication or release that an acknowledgement answers, with the map
    of those who wait for it. *)
Definition answered s (p : IncomingPacket) : option (u16 * NotifierMap * (NotifierMap -> ClientShared -> ClientShared)) :=
  let waiting i m setm n := if bool_decide (is_Some (pending_packets s !! i)) then Some (n, m (shared s), setm) else None in
  match p with
  | InPubAck a => waiting (IdType_publish (packet_id a)) notify_ack set_notify_ack (packet_id a)
  | InPubRec r => waiting (IdType_publish (packet_id r)) notify_rec set_notify_rec (packet_id r)
  | InPubComp c => waiting (IdType_pub_rel (packet_id c)) notify_comp set_notify_comp (packet_id c)
  | _ => None
  end.

Definition wakes s (p : IncomingPacket) : list Waker :=
  match answered s p with
  | Some (i, m, _) => default [] (waker_of <$> m !! i)
  | None => []
  end.

Definition shared_after s (p : IncomingPacket) : ClientShared :=
  match answered s p with
  | Some (i, m, setm) => setm (delete i m) (shared s)
  | None => shared s
  end.

Definition reacted (p : IncomingPacket) s s' : Prop :=
  tr_ok s' /\ unchanged s s' /\ stream s' = stream s ++ reply s p /\
  pending_packets s' = pending_after s p /\ pending_subs s' = pending_subs s /\
  offered (recipients s') ≡ₚ offered (recipients s) ++ delivery s p /\
  woken s' = woken s ++ wakes s p /\ shared s' = shared_after s p /\
  (forall f, subscribed (view (subscriptions s') f) = subscribed (view (subscriptions s) f)).

Lemma make_ack (k : SimpleKind) (i : u16) : is_u16 i ->
  make_arc_packet (mkSimple (k := k) i) = Ret (ack_of k i).
Proof. intros Hi. exact (make_arc_packet_frame (mkSimple (k := k) i) Hi ltac:(done)). Qed.

Lemma frame_not_nil t f body : frame t f body <> [].
Proof. done. Qed.

Lemma wp_dispatch m s : set_ok (subscriptions s) -> IncomingPublish_wf m ->
  wp (dispatch m)
    (fun _ s' => exists set' x', s' = with_subscriptions set' (with_recipients x' s) /\ set_ok set' /\
       offered x' ≡ₚ offered (recipients s) ++ offers (view (subscriptions s)) (levels (msg_topic m)) m /\
       forall f, subscribed (view set' f) = subscribed (view (subscriptions s) f))
    (fun _ _ => False) s.
Proof.
  intros Hs ((t & Ht & _) & _). unfold dispatch. apply wp_bind, wp_gets, wp_bind, wp_zoom.
  destruct (dispatch_ok (E := io_error) m t (subscriptions s) (recipients s) Ht Hs)
    as (set' & x' & Hd & Hok & Ho & _ & Hsub).
  unfold wp at 1. rewrite Hd. apply wp_modify. exists set', x'. unfold msg_topic. rewrite Ht. done.
Qed.

Lemma pending_not_nil s i b : tr_ok s -> pending_packets s !! i = Some b -> b <> [].
Proof. intros (_ & _ & _ & _ & _ & [Hp _] & _) Hb. apply (Hp _ _ Hb). Qed.

Lemma sends_refl s : tr_ok s -> sends [] s s.
Proof. intros Hok. split_and!; [done|by rewrite app_nil_r|done|done]. Qed.

Lemma session_eq s s' : session s' = session s ->
  pending_subs s' = pending_subs s /\ shared s' = shared s /\ subscriptions s' = subscriptions s /\
  woken s' = woken s /\ recipients s' = recipients s.
Proof. unfold session. intros [= -> -> -> -> ->]. done. Qed.

Lemma wp_then_dispatch m s s1 : IncomingPublish_wf m -> duplicate s m = false ->
  sends (reply s (InPublish m)) s s1 -> pending_packets s1 = pending_after s (InPublish m) ->
  forall R : io_error -> Transceiver T X -> Prop, wp (dispatch m) (fun _ s' => reacted (InPublish m) s s') R s1.
Proof.
  intros Hwf Hdup (Hok & Hst & Hu & Hse) Hp R. apply session_eq in Hse as (E1 & E2 & E3 & E4 & E5).
  destruct Hok as (I1 & I2 & I3 & I4 & I5 & I6 & I7).
  eapply wp_mono; [by apply wp_dispatch| |done]; cbn beta.
  intros _ s' (set' & x' & -> & Hset & Ho & Hsub). rewrite E3, E5 in *.
  split_and!; [|done|done|done|done| | | |].
  - by split_and!.
  - cbn [recipients with_subscriptions with_recipients]. unfold delivery. by rewrite Hdup.
  - cbn. by rewrite E4, app_nil_r.
  - done.
  - exact Hsub.
Qed.

(** A packet that changes nothing but what is sent and recorded. *)
Lemma sends_reacted p s s' :
  (forall m, p = InPublish m -> duplicate s m = true) -> answered s p = None ->
  sends (reply s p) s s' -> pending_packets s' = pending_after s p -> reacted p s s'.
Proof.
  intros Hp Ha (Hok & Hst & Hu & Hse) Hpe. apply session_eq in Hse as (E1 & E2 & E3 & E4 & E5).
  unfold reacted, wakes, shared_after. rewrite Ha, E1, E2, E3, E4, E5.
  assert (delivery s p = []) as ->.
  { destruct p; try done. cbn. by rewrite Hp. }
  rewrite !app_nil_r. done.
Qed.

Lemma wp_publish m s : tr_ok s -> IncomingPublish_wf m ->
  wp (process_publish m) (fun _ s' => reacted (InPublish m) s s') (io_failed (reply s (InPublish m)) s) s.
Proof.
  intros Hok Hwf. pose proof Hwf as (_ & _ & (i & Hi & (_ & [q Hq]) & Hid) & _).
  assert (msg_qos m = Some q) as Hmq by (unfold msg_qos; by rewrite Hi).
  assert (info_packet_id i = msg_id m) as Hmi by (unfold msg_id; by rewrite Hi). rewrite Hmi in Hid.
  unfold process_publish. apply wp_bind. eapply wp_infallible; [exact Hi|]. rewrite Hmi, Hq. destruct q.
  - apply wp_then_dispatch; [done| | |].
    + unfold duplicate. rewrite Hmq. apply bool_decide_false. by intros [[=] _].
    + unfold reply. rewrite Hmq. by apply sends_refl.
    + unfold pending_after. by rewrite Hmq.
  - apply wp_bind. eapply wp_infallible; [by apply (make_ack KPubAck)|]. apply wp_bind.
    eapply wp_mono; [by apply wp_queue_plain| |by intros e s'; unfold reply; rewrite Hmq]; cbn beta. intros _ s1 (Hs & Hp & _).
    apply wp_then_dispatch; [done| | |].
    + unfold duplicate. rewrite Hmq. apply bool_decide_false. by intros [[=] _].
    + unfold reply. by rewrite Hmq.
    + unfold pending_after. by rewrite Hmq.
  - apply wp_bind, wp_gets. pose proof Hmq as Hq'.
    destruct (pending_packets s !! IdType_pub_rec (msg_id m)) as [b|] eqn:Eb.
    + pose proof (pending_not_nil s _ _ Hok Eb).
      eapply wp_mono; [by apply wp_queue_plain| |by intros e s'; unfold reply; rewrite Hq', Eb]; cbn beta.
      intros _ s1 (Hs & Hp & _). apply sends_reacted; [|done| |].
      * intros m' [= <-]. apply bool_decide_true. rewrite Eb. split; [done|by eexists].
      * unfold reply. rewrite Hq', Eb. done.
      * unfold pending_after. rewrite Hq', Eb. cbn. by rewrite insert_id.
    + apply wp_bind. eapply wp_infallible; [by apply (make_ack KPubRec)|]. apply wp_bind.
      eapply wp_mono; [by apply wp_queue_with_timeout| |by intros e s'; unfold reply; rewrite Hq', Eb]; cbn beta.
      intros _ s1 (Hs & Hp & _). apply wp_then_dispatch; [done| | |].
      * apply bool_decide_false. rewrite Eb. intros [_ [? [=]]].
      * unfold reply. by rewrite Hq', Eb.
      * unfold pending_after. by rewrite Hq', Eb.
Qed.

(** Clearing a recorded packet and waking whoever waits for its answer. *)
Lemma wp_answer idt i getm setm s : tr_ok s ->
  (forall m sh, shared_ok sh -> shared_ok (setm m sh)) ->
  wp (cleared ← clear_packet_timeout idt; if cleared : bool then notify getm setm i else mret tt)
    (fun _ s' =>
       let hit := bool_decide (is_Some (pending_packets s !! idt)) in
       tr_ok s' /\ unchanged s s' /\ stream s' = stream s /\
       pending_packets s' = delete idt (pending_packets s) /\ pending_subs s' = pending_subs s /\
       recipients s' = recipients s /\ subscriptions s' = subscriptions s /\
       woken s' = woken s ++ (if hit then default [] (waker_of <$> getm (shared s) !! i) else []) /\
       shared s' = if hit then setm (delete i (getm (shared s))) (shared s) else shared s)
    (fun _ _ => False) s.
Proof.
  intros Hok Hset. apply wp_bind, wp_clear_timeout. pose proof (clear_ok idt s Hok) as Hc. apply wp_if; intros Hb.
  - apply wp_notify. intros x <-. rewrite Hb. cbv zeta.
    refine (conj _ (conj (unchanged_refl _) _)); [|repeat split].
    destruct Hc as (I1 & I2 & I3 & I4 & I5 & I6 & I7).
    exact (conj I1 (conj I2 (conj I3 (conj (Hset _ _ I4) (conj I5 (conj I6 I7)))))).
  - apply wp_ret. rewrite Hb. cbv zeta. rewrite app_nil_r.
    refine (conj Hc (conj (unchanged_refl _) _)). repeat split.
Qed.

Lemma wp_pubrec i s : tr_ok s -> is_u16 i ->
  wp (process_pubrec i) (fun _ s' => reacted (InPubRec (mkSimple i)) s s')
    (io_failed (reply s (InPubRec (mkSimple i))) s) s.
Proof.
  intros Hok Hi. unfold process_pubrec. apply wp_bind, wp_gets, wp_bind.
  eapply (wp_mono _ (fun _ s1 => sends (reply s (InPubRec (mkSimple i))) s s1 /\
    pending_packets s1 = <[IdType_pub_rel i :=
      default (ack_of KPubRel i) (pending_packets s !! IdType_pub_rel i)]> (pending_packets s)) _
    (io_failed (reply s (InPubRec (mkSimple i))) s));
    [| |done].
  - unfold reply; cbn [packet_id]. destruct (pending_packets s !! IdType_pub_rel i) as [b|] eqn:Eb; cbn [default].
    + pose proof (pending_not_nil s _ _ Hok Eb).
      eapply wp_mono; [by apply wp_queue_plain| |done]; cbn beta. intros _ s1 (Hs & Hp & _).
      split; [done|]. by rewrite insert_id.
    + apply wp_bind. eapply wp_infallible; [by apply (make_ack KPubRel)|].
      by eapply wp_mono; [by apply wp_queue_with_timeout| |done]; cbn beta; intros _ s1 (Hs & Hp & _).
  - intros _ s1 ((Hok1 & Hst & Hu & Hse) & Hp). apply session_eq in Hse as (E1 & E2 & E3 & E4 & E5).
    eapply wp_mono; [apply (wp_answer _ i notify_rec set_notify_rec s1 Hok1); done| |done]; cbn beta zeta.
    rewrite Hp, E1, E2, E3, E4, E5, Hst, lookup_insert_ne by done.
    intros _ s' (? & Hu' & F1 & F2 & F3 & F4 & F5 & F6 & F7).
    unfold reacted, wakes, shared_after, answered; cbn [packet_id].
    rewrite F1, F2, F3, F4, F5, F6, F7, app_nil_r.
    split_and!; try done; [by eapply unchanged_trans| |]; by case_bool_decide.
Qed.

Lemma wp_simple_answer p idt i getm setm s : tr_ok s ->
  (forall m sh, shared_ok sh -> shared_ok (setm m sh)) ->
  (forall m, p <> InPublish m) -> reply s p = [] -> pending_after s p = delete idt (pending_packets s) ->
  answered s p = (if bool_decide (is_Some (pending_packets s !! idt)) then Some (i, getm (shared s), setm) else None) ->
  wp (cleared ← clear_packet_timeout idt; if cleared : bool then notify getm setm i else mret tt)
    (fun _ s' => reacted p s s') (fun _ _ => False) s.
Proof.
  intros Hok Hset Hnp Hr Hp Ha. eapply wp_mono; [by apply wp_answer| |done]; cbn beta zeta.
  intros _ s' (? & Hu' & F1 & F2 & F3 & F4 & F5 & F6 & F7).
  unfold reacted, wakes, shared_after. rewrite F1, F2, F3, F4, F5, F6, F7, Hr, Hp, Ha.
  assert (delivery s p = []) as -> by (destruct p; naive_solver). rewrite !app_nil_r.
  split_and!; try done; by case_bool_decide.
Qed.

Lemma wp_pubrel i s : tr_ok s -> is_u16 i ->
  wp (process_pubrel i) (fun _ s' => reacted (InPubRel (mkSimple i)) s s')
    (io_failed (reply s (InPubRel (mkSimple i))) s) s.
Proof.
  intros Hok Hi. unfold process_pubrel. apply wp_bind, wp_clear_timeout, wp_bind.
  eapply wp_infallible; [by apply (make_ack KPubComp)|].
  eapply wp_mono; [by apply wp_queue_plain; [apply clear_ok|]| |done]; cbn beta.
  intros _ s' (Hs & Hp & _). by apply sends_reacted.
Qed.

(** Everything but a SUBACK. *)
Lemma wp_packet p s : tr_ok s -> connect_sig s = false -> IncomingPacket_wf p ->
  (forall a, p <> InSubAck a) ->
  wp (process_packet p) (fun stop s' => stop = false /\ reacted p s s') (io_failed (reply s p) s) s.
Proof.
  intros Hok Hc Hwf Hns. unfold process_packet. apply wp_bind, wp_gets. rewrite Hc. apply wp_bind.
  assert (forall q, (forall m, q <> InPublish m) -> answered s q = None -> reply s q = [] ->
    pending_after s q = pending_packets s -> reacted q s s) as Hnop.
  { intros q Hq Ha Hr Hp. apply sends_reacted; [naive_solver|done| |done]. rewrite Hr. by apply sends_refl. }
  eapply (wp_mono _ (fun _ s' => reacted p s s') _ (io_failed (reply s p) s)); [|by intros; apply wp_ret|done].
  destruct p as [p|p|p|[i]|[i]|[i]|[i]|[i]|p]; cbn [packet_id].
  - by apply wp_ret, Hnop.
  - by destruct (Hns p).
  - by apply wp_publish.
  - eapply wp_mono; [by apply (wp_simple_answer (InPubAck (mkSimple i)))|done|done].
  - by apply wp_pubrec.
  - by apply wp_pubrel.
  - eapply wp_mono; [by apply (wp_simple_answer (InPubComp (mkSimple i)))|done|done].
  - apply wp_bind, wp_clear_timeout, wp_ret. apply sends_reacted; [done|done| |done].
    refine (conj (clear_ok _ _ Hok) (conj _ (conj (unchanged_refl s) eq_refl))).
    symmetry. apply app_nil_r.
  - by apply wp_ret, Hnop.
Qed.

(* ------------------------------------------------------------------ *)
(** ** SUBACK                                                          *)
(* ------------------------------------------------------------------ *)

Lemma wp_wake_all ws s :
  forall (Q : unit -> Transceiver T X -> Prop) (R : io_error -> Transceiver T X -> Prop),
  Q tt (with_woken (woken s ++ omap id ws) s) -> wp (wake_all ws) Q R s.
Proof.
  revert s. induction ws as [|[w|] ws IH]; intros s Q R HQ; cbn [wake_all].
  - apply wp_ret. cbn in HQ. rewrite app_nil_r in HQ. by destruct s.
  - apply wp_bind, wp_modify, IH. cbn in *. by rewrite <- (assoc_L (++)).
  - apply wp_bind, wp_ret, IH. done.
Qed.

(** The tree after an accepted subscription. *)
Definition sub_added (topic : str) (k : SubscriptionKind) (set set' : SubscriptionSet) : Prop :=
  if valid_filter (levels topic) then
    exists sub', recipient_added k (set_subscribed (view set (levels topic))) sub' /\
      implements set' (fm_upd (levels topic) sub' (view set))
  else forall f, view set' f = view set f.

Definition sub_wakers s (topic : str) : list Waker :=
  default [] (pending_wakers <$> subs (shared s) !! topic).

Definition subs_after (r : SubscriptionResult) (topic : str) :
    gmap (list Z) SubscriptionState -> gmap (list Z) SubscriptionState :=
  match r with Ok q => <[topic := Existing q]> | Err _ => delete topic end.

(** The reaction to the answer [r] for the subscription [ps]. *)
Definition sub_answered (ps : PendingSub) (r : SubscriptionResult) s s' : Prop :=
  set_ok (subscriptions s') /\
  match r with
  | Ok _ => sub_added (ps_topic ps) (ps_kind ps) (subscriptions s) (subscriptions s')
  | Err _ => subscriptions s' = subscriptions s
  end /\
  s' = with_subscriptions (subscriptions s')
         (with_shared (set_subs (subs_after r (ps_topic ps) (subs (shared s))) (shared s))
           (with_woken (woken s ++ sub_wakers s (ps_topic ps)) s)).

Lemma wp_add_sub (ps : PendingSub) s : set_ok (subscriptions s) ->
  wp (register_sub ps)
    (fun _ s' => exists set', s' = with_subscriptions set' s /\ set_ok set' /\
       sub_added (ps_topic ps) (ps_kind ps) (subscriptions s) set')
    (fun _ _ => False) s.
Proof.
  intros Hset. apply wp_bind, wp_gets, wp_bind. unfold sub_added.
  destruct (get_or_create_spec (ps_topic ps) _ _ (set_ok_implements _ Hset)) as (set1 & r & Hg & [Hw Hv] & Hr).
  eapply wp_infallible; [exact Hg|]. destruct r as [[sub put]|u].
  - destruct Hr as (-> & Hsub & Hput). cbn [fst snd] in *. subst sub.
    assert (Subscription_ok (set_subscribed (view (subscriptions s) (levels (ps_topic ps))))) as Hsok
      by apply (proj2 Hset).
    destruct (wp_run_ret _ _ _ (wp_add (E := io_error) (ps_kind ps) _ Hsok)) as ([] & sub' & Ha & Hok' & Hadd).
    cbn [fst snd]. rewrite Ha. apply wp_modify. exists (put sub'). split; [done|]. split.
    + by apply (set_ok_upd (subscriptions s) _ (levels (ps_topic ps)) sub').
    + by exists sub'.
  - rewrite Hr. apply wp_bind, wp_modify, wp_ret. exists set1. split; [done|]. split; [|done].
    split; [done|]. intros f. rewrite Hv. apply Hset.
Qed.

Lemma wp_sub_answer (ps : PendingSub) r s : set_ok (subscriptions s) ->
  wp (opt_wakers ← match r with Ok qos => sub_accepted ps qos | Err _ => sub_refused ps end;
      match opt_wakers with Some wakers => wake_all wakers | None => mret tt end)
    (fun _ s' => sub_answered ps r s s') (fun _ _ => False) s.
Proof.
  intros Hset. apply wp_bind. unfold sub_answered, sub_wakers. destruct r as [q|u].
  - unfold sub_accepted. apply wp_bind.
    eapply wp_mono; [by apply wp_add_sub| |done]; cbn beta. intros _ s1 (set' & -> & Hok & Hadd).
    apply wp_bind, wp_gets. cbn [shared with_subscriptions].
    destruct (subs (shared s) !! ps_topic ps) as [[q'|ws]|].
    + apply wp_bind, wp_ret, wp_bind, wp_modify, wp_ret, wp_ret. cbn. rewrite app_nil_r. by destruct s.
    + apply wp_bind, wp_modify, wp_ret, wp_wake_all. done.
    + apply wp_bind, wp_ret, wp_bind, wp_modify, wp_ret, wp_ret. cbn. rewrite app_nil_r. by destruct s.
  - unfold sub_refused. apply wp_bind, wp_gets, wp_bind, wp_modify.
    destruct (subs (shared s) !! ps_topic ps) as [[q'|ws]|].
    + apply wp_bind, wp_ret, wp_ret, wp_ret. cbn. rewrite app_nil_r. by destruct s.
    + apply wp_ret, wp_wake_all. done.
    + apply wp_bind, wp_ret, wp_ret, wp_ret. cbn. rewrite app_nil_r. by destruct s.
Qed.

(** The reaction to a SUBACK: nothing if it answers no request; otherwise the
    request is settled, by its first result. *)
Definition suback_reacted (a : SubAckPacket) s s' : Prop :=
  match pending_subs s !! suback_packet_id a, sub_results a with
  | Some ps, Ret rs =>
    let s1 := with_pending_subs (delete (suback_packet_id a) (pending_subs s)) s in
    match rs with
    | [] => s' = s1
    | r :: _ => sub_answered ps r s1 s'
    end
  | _, _ => s' = s
  end.

Lemma forget_sub_ok i s : tr_ok s -> tr_ok (with_pending_subs (delete i (pending_subs s)) s).
Proof.
  intros (I1 & I2 & I3 & I4 & I5 & [I6 I6'] & I7).
  refine (conj I1 (conj I2 (conj I3 (conj I4 (conj I5 (conj (conj I6 _) I7)))))). cbn.
  intros j y [Hne Hy]%lookup_delete_Some. by apply I6'.
Qed.

(** Changes of the tree, the shared subscriptions and the wakers. *)
Lemma tr_ok_subs s set' sh w : tr_ok s -> set_ok set' -> shared_ok sh ->
  tr_ok (with_subscriptions set' (with_shared sh (with_woken w s))).
Proof.
  intros (I1 & I2 & I3 & I4 & I5 & I6 & I7) Hset Hsh.
  exact (conj I1 (conj Hset (conj I3 (conj Hsh (conj I5 (conj I6 I7)))))).
Qed.

Lemma sub_answered_ok ps r s s' : tr_ok s -> sub_answered ps r s s' ->
  tr_ok s' /\ unchanged s s' /\ stream s' = stream s /\ pending_packets s' = pending_packets s /\
  pending_subs s' = pending_subs s /\ recipients s' = recipients s.
Proof.
  intros Hok (Hset & _ & E). rewrite E. split; [|repeat split].
  apply tr_ok_subs; [done|done|]. destruct Hok as (_ & _ & _ & I4 & _). exact I4.
Qed.

Lemma wp_suback a s : tr_ok s -> IncomingPacket_wf (InSubAck a) ->
  wp (process_suback a) (fun _ s' => suback_reacted a s s') (fun _ _ => False) s.
Proof.
  intros Hok [Hid [rs Hrs]]. unfold process_suback, suback_reacted. apply wp_bind, wp_gets.
  destruct (pending_subs s !! suback_packet_id a) as [ps|]; [|by apply wp_ret].
  apply wp_bind, wp_modify, wp_bind. eapply wp_infallible; [exact Hrs|]. rewrite Hrs.
  destruct rs as [|r rs]; [by apply wp_ret|]. cbv zeta.
  apply wp_sub_answer. destruct Hok as (_ & I2 & _). exact I2.
Qed.

Lemma suback_reacted_ok a s s' : tr_ok s -> suback_reacted a s s' ->
  tr_ok s' /\ unchanged s s' /\ stream s' = stream s /\ pending_packets s' = pending_packets s /\
  recipients s' = recipients s.
Proof.
  intros Hok Hr. unfold suback_reacted in Hr.
  destruct (pending_subs s !! suback_packet_id a) as [ps|]; 
    [|subst s'; split; [exact Hok|repeat split]].
  destruct (sub_results a) as [rs| | | |]; [|subst s'; split; [exact Hok|repeat split]..].
  pose proof (forget_sub_ok (suback_packet_id a) s Hok) as Hok1. destruct rs as [|r rs].
  - subst s'. split; [exact Hok1|]. repeat split.
  - destruct (sub_answered_ok _ _ _ _ Hok1 Hr) as (? & ? & ? & ? & _ & ?). split_and!; assumption.
Qed.

(* ------------------------------------------------------------------ *)
(** ** Before the CONNACK                                              *)
(* ------------------------------------------------------------------ *)

Definition connect_answer (p : IncomingPacket) : result bool ServerConnectError :=
  match p with InConnAck x => conn_result x | _ => Err ProtocolError end.

Lemma process_packet_connecting p s : connect_sig s = true ->
  process_packet p s
  = (Ret (is_err (connect_answer p)),
     with_conn_results (conn_results s ++ [connect_answer p]) (with_connect_sig false s)).
Proof. intros Hc. unfold process_packet, mbind, stm_bind. cbn. rewrite Hc. done. Qed.

Lemma connected_ok s r : tr_ok s -> tr_ok (with_conn_results r (with_connect_sig false s)).
Proof. intros Hok. exact Hok. Qed.

(** Every incoming packet keeps the invariant and leaves the reader alone. *)
Lemma wp_packet_ok p s : tr_ok s -> IncomingPacket_wf p ->
  wp (process_packet p)
    (fun _ s' => tr_ok s' /\ rx_pkt s' = rx_pkt s /\ received (transport s') = received (transport s))
    (io_failed (reply s p) s) s.
Proof.
  intros Hok Hwf. destruct (connect_sig s) eqn:Hc.
  { unfold wp. rewrite process_packet_connecting by done. split_and!; [by apply connected_ok|done|done]. }
  destruct p as [p|a|p|p|p|p|p|p|p].
  2: { unfold process_packet. apply wp_bind, wp_gets. rewrite Hc. apply wp_bind.
       eapply wp_mono; [by apply wp_suback| |done]; cbn beta. intros _ s' Hr. apply wp_ret.
       destruct (suback_reacted_ok _ _ _ Hok Hr) as (? & (? & ? & _) & _). by split_and!. }
  all: eapply wp_mono; [by apply wp_packet| |done]; cbn beta;
    intros _ s' (_ & Hok' & (? & ? & _) & _); split_and!; assumption.
Qed.

(* ------------------------------------------------------------------ *)
(** ** Commands                                                        *)
(* ------------------------------------------------------------------ *)

(** What the client promises of the commands it sends: packets are not empty
    and topics fit in a length field. *)
Definition Command_ok (c : Command) : Prop :=
  match c with
  | CPublish cmd => cmd_packet cmd <> []
  | CSubscribe cmd => wire_len_ok (subcmd_topic cmd)
  | CUnsub cmd => wire_len_ok (unsubcmd_topic cmd)
  | CDisconnect => True
  end.

(** A packet that could not be sent, with none before it. *)
Lemma start_failed b s e s' : tr_weak s -> tx_ok s -> tx_pkt s = None ->
  is_would_block e = false /\ out_frame s s' /\ (tx_weak s -> tx_weak s') /\
  sent_prefix (sent (transport s) ++ wire b false) s' -> io_failed b s e s'.
Proof.
  intros Hwk (Hq & _) Htx (He & Hf & Hw & Hp). apply out_failed; [done|]. split_and!; [done|done| |].
  - apply Hw. by destruct Hwk as (_ & _ & ? & _).
  - unfold stream, pending_out. rewrite Htx, (Hq Htx). cbn. by rewrite app_nil_r, <- (wire_false b).
Qed.

Lemma wp_try_send_sends b s : tr_ok s -> tx_pkt s = None -> b <> [] ->
  wp (try_send_packet b false)
    (fun _ s' => sends b s s' /\ pending_packets s' = pending_packets s /\ timeout_queue s' = timeout_queue s /\
       clock s' = clock s)
    (io_failed b s) s.
Proof.
  intros Hok Htx Hb. eapply wp_mono; [by apply wp_start|..]; cbn beta; [|intros e s'; apply start_failed; [by apply tr_ok_weak|apply Hok|done]].
  intros _ s' Hs. assert (tx_ok s) as Hto by (destruct Hok as (_ & _ & ? & _); assumption).
  pose proof (started_queued _ _ _ _ Hto Htx Hs) as Hq. destruct Hs as (_ & Hc & _).
  destruct (queued_sends b false s s' Hok Hq) as (? & ? & ?). rewrite wire_false in *. by split_and!.
Qed.

Definition sub_packet (i : u16) (cmd : SubscribeCommand) : bytes :=
  frame TSubscribe 2 (SubscribePacket_body (mkSubscribePacket i [(subcmd_topic cmd, subcmd_qos cmd)])).
Definition unsub_packet (i : u16) (topic : str) : bytes :=
  frame TUnsubscribe 2 (UnsubscribePacket_body (mkUnsubscribePacket i [topic])).

Lemma wire_bytes_bound t : wire_len_ok t -> len (wire_bytes t) < 2 ^ 16 + 2.
Proof. intros Ht. unfold wire_len_ok, is_u16 in Ht. rewrite wire_bytes_length. lia. Qed.

Lemma make_sub i cmd : is_u16 i -> wire_len_ok (subcmd_topic cmd) ->
  make_arc_packet (mkSubscribePacket i [(subcmd_topic cmd, subcmd_qos cmd)]) = Ret (sub_packet i cmd).
Proof.
  intros Hi Ht. refine (make_arc_packet_frame (mkSubscribePacket i _) _ _).
  - split; [done|]. by apply Forall_singleton.
  - pose proof (wire_bytes_bound _ Ht). change (len (SubscribePacket_body
      (mkSubscribePacket i [(subcmd_topic cmd, subcmd_qos cmd)])) < MAX_CONTENT).
    unfold SubscribePacket_body, MAX_CONTENT. cbn [sub_topics sub_packet_id fmap list_fmap concat].
    unfold sub_topic_wire. rewrite !length_app, wire_u16_length. cbn [fst snd length]. lia.
Qed.

Lemma make_unsub i t : is_u16 i -> wire_len_ok t ->
  make_arc_packet (mkUnsubscribePacket i [t]) = Ret (unsub_packet i t).
Proof.
  intros Hi Ht. refine (make_arc_packet_frame (mkUnsubscribePacket i _) _ _).
  - split; [done|]. by apply Forall_singleton.
  - pose proof (wire_bytes_bound _ Ht). change (len (UnsubscribePacket_body
      (mkUnsubscribePacket i [t])) < MAX_CONTENT).
    unfold UnsubscribePacket_body, MAX_CONTENT. cbn [unsub_topics unsub_packet_id fmap list_fmap concat].
    rewrite !length_app, wire_u16_length. cbn [length]. lia.
Qed.

(** Taking a packet ID. *)
Definition next_id s : Transceiver T X :=
  with_shared (set_next_packet_id (wrap16 (next_packet_id (shared s) + 1)) (shared s)) s.

Lemma wp_fetch_id s :
  forall (Q : u16 -> Transceiver T X -> Prop) (R : io_error -> Transceiver T X -> Prop),
  Q (next_packet_id (shared s)) (next_id s) -> wp (on_shared fetch_packet_id) Q R s.
Proof. intros Q R HQ. apply wp_zoom. apply wp_bind, wp_get, wp_bind, wp_modify, wp_ret. exact HQ. Qed.

Lemma next_id_ok s : tr_ok s -> tr_ok (next_id s).
Proof.
  intros (I1 & I2 & I3 & [_ I4] & I5 & I6 & I7).
  exact (conj I1 (conj I2 (conj I3 (conj (conj (wrap16_ok _) I4) (conj I5 (conj I6 I7)))))).
Qed.

Lemma id_range s : tr_ok s -> is_u16 (next_packet_id (shared s)).
Proof. intros (_ & _ & _ & [? _] & _). assumption. Qed.

(** The three outcomes of a subscribe command: an invalid filter is dropped, an
    existing subscription gets one more recipient, and a new one is requested
    from the broker. *)
Inductive subscribe_done (cmd : SubscribeCommand) s : Transceiver T X -> Prop :=
| sub_invalid : valid_filter (levels (subcmd_topic cmd)) = false -> subscribe_done cmd s s
| sub_existing set' sub' :
    let f := levels (subcmd_topic cmd) in
    subscribed (view (subscriptions s) f) = true ->
    recipient_added (subcmd_kind cmd) (view (subscriptions s) f) sub' ->
    implements set' (fm_upd f sub' (view (subscriptions s))) ->
    subscribe_done cmd s (with_subscriptions set' s)
| sub_requested s' :
    let i := next_packet_id (shared s) in
    subscribed (view (subscriptions s) (levels (subcmd_topic cmd))) = false ->
    stream s' = stream s ++ sub_packet i cmd ->
    pending_subs s' = <[i := mkPendingSub (subcmd_topic cmd) (subcmd_kind cmd) (sub_packet i cmd)]> (pending_subs s) ->
    timeout_ids s' = timeout_ids s ++ [IdType_subscribe i] ->
    pending_packets s' = pending_packets s -> subscriptions s' = subscriptions s ->
    shared s' = shared (next_id s) -> woken s' = woken s -> recipients s' = recipients s ->
    subscribe_done cmd s s'.

(** Storing a subscription request; its timeout is recorded after the packet is
    sent. *)
Lemma record_sub_ok i ps s s1 :
  tr_ok s -> ps_packet ps <> [] ->
  queued (ps_packet ps) false (with_pending_subs (<[i := ps]> (pending_subs s)) s) s1 ->
  tr_ok (with_timeout_queue (timeout_queue s1 ++ [mkTimeout (instant (clock s1)) (IdType_subscribe i)])
           (with_clock (S (clock s1)) s1)).
Proof.
  intros (I1 & I2 & I3 & I4 & I5 & [I6 I6'] & I7) Hne (Hf & Hc & _ & Htx & _).
  destruct (out_frame_fields _ _ Hf) as (E1 & E2 & E3 & E4 & E5 & _ & _ & E8 & _ & _ & E11 & _). cbn in *.
  unfold tr_ok, pending_ok, timeout_ids. cbn. rewrite E1, E2, E4, E5, E8, E11, fmap_app.
  refine (conj I1 (conj I2 (conj Htx (conj I4 (conj _ (conj (conj _ _) I7)))))).
  - apply timeouts_ok_push; [done|]. eapply timeouts_ok_later; [done|exact E3|rewrite Hc; done|exact I5].
  - eapply map_Forall_impl; [exact I6|]. intros j y (? & ? & ?). split_and!; [|done|done].
    apply elem_of_app. left. by rewrite E3.
  - apply map_Forall_insert_2.
    + split; [|done]. apply elem_of_app. right. by constructor.
    + eapply map_Forall_impl; [exact I6'|]. intros j y (? & ?). split; [|done].
      apply elem_of_app. left. by rewrite E3.
Qed.

Lemma wp_new_subscription cmd s : tr_ok s -> tx_pkt s = None -> wire_len_ok (subcmd_topic cmd) ->
  subscribed (view (subscriptions s) (levels (subcmd_topic cmd))) = false ->
  wp (packet_id ← on_shared fetch_packet_id;
      pkt ← infallible (make_arc_packet
        (mkSubscribePacket packet_id [(subcmd_topic cmd, subcmd_qos cmd)]));
      modify (fun s => with_pending_subs
        (<[packet_id := mkPendingSub (subcmd_topic cmd) (subcmd_kind cmd) pkt]> (pending_subs s)) s);;
      try_send_packet pkt false;;
      to ← Timeout_now (IdType_subscribe packet_id);
      push_timeout to)
    (fun _ s' => tr_ok s' /\ unchanged s s' /\ subscribe_done cmd s s')
    (io_failed (sub_packet (next_packet_id (shared s)) cmd) s) s.
Proof.
  intros Hok Htx Hl Hns. pose proof (id_range s Hok) as Hid.
  apply wp_bind, wp_fetch_id, wp_bind. eapply wp_infallible; [by apply make_sub|].
  set (i := next_packet_id (shared s)) in *.
  set (ps := mkPendingSub (subcmd_topic cmd) (subcmd_kind cmd) (sub_packet i cmd)).
  apply wp_bind, wp_modify, wp_bind.
  set (s1 := with_pending_subs (<[i := ps]> (pending_subs (next_id s))) (next_id s)).
  assert (sub_packet i cmd <> []) as Hne by done.
  eapply wp_mono; [by apply (wp_start _ _ s1)|..]; cbn beta.
  2: { intros e s' Hf. assert (tr_weak s1) as Hwk by exact (tr_ok_weak _ (next_id_ok s Hok)).
       apply (start_failed _ s1 e s' Hwk) in Hf; [exact Hf|apply Hok|done]. }
  intros _ s2 Hs2. apply wp_bind, wp_bind, wp_now, wp_ret, wp_modify.
  assert (tx_ok s1) as Hto by (destruct Hok as (_ & _ & ? & _); assumption).
  pose proof (started_queued _ _ _ _ Hto Htx Hs2) as Hq.
  pose proof (record_sub_ok i ps (next_id s) s2 (next_id_ok s Hok) Hne Hq) as Hok'.
  destruct Hq as (Hf & _ & _ & _ & Hst).
  destruct (out_frame_fields _ _ Hf) as (E1 & E2 & E3 & E4 & E5 & E6 & E7 & E8 & E9 & E10 & _).
  refine (conj Hok' (conj _ _)).
  - split_and!; [exact E8|exact (proj1 Hf)|exact E9|exact E10].
  - apply sub_requested; [done|..].
    + rewrite wire_false in Hst. exact Hst.
    + exact E2.
    + unfold timeout_ids. cbn. rewrite fmap_app. by rewrite E3.
    + exact E1.
    + exact E5.
    + exact E4.
    + exact E6.
    + exact E7.
Qed.

Lemma tr_ok_set s set' : tr_ok s -> set_ok set' -> tr_ok (with_subscriptions set' s).
Proof.
  intros (I1 & I2 & I3 & I4 & I5 & I6 & I7) Hset.
  exact (conj I1 (conj Hset (conj I3 (conj I4 (conj I5 (conj I6 I7)))))).
Qed.

Lemma set_ok_of s : tr_ok s -> set_ok (subscriptions s).
Proof. intros (_ & ? & _). assumption. Qed.

Lemma wp_subscribe cmd s : tr_ok s -> tx_pkt s = None -> wire_len_ok (subcmd_topic cmd) ->
  wp (on_subscribe cmd) (fun _ s' => tr_ok s' /\ unchanged s s' /\ subscribe_done cmd s s')
    (io_failed (sub_packet (next_packet_id (shared s)) cmd) s) s.
Proof.
  intros Hok Htx Hl. pose proof (set_ok_of s Hok) as Hset. unfold on_subscribe.
  apply wp_bind, wp_gets, wp_bind. set (f := levels (subcmd_topic cmd)).
  destruct (get_sub_spec (subcmd_topic cmd) _ _ (set_ok_implements _ Hset)) as (r & Hg & Hr).
  eapply wp_infallible; [exact Hg|]. fold f in Hr. cbv zeta. destruct r as [[[sub put]|]|u].
  - destruct Hr as (_ & Hsub & Hput). cbn [fst snd] in *. subst sub. apply wp_if; intros Hs.
    + destruct (wp_run_ret _ _ _ (wp_add (E := io_error) (subcmd_kind cmd) _ (proj2 Hset f)))
        as ([] & sub' & Ha & Hok' & Hadd). fold f in Ha |- *.
      rewrite Ha. apply wp_modify. refine (conj _ (conj (unchanged_refl s) _)).
      * apply tr_ok_set; [done|]. by apply (set_ok_upd (subscriptions s) _ f sub').
      * by apply (sub_existing cmd s (put sub') sub').
    + by apply wp_new_subscription.
  - apply wp_new_subscription; [done|done|done|]. fold f. by rewrite Hr.
  - apply wp_ret. refine (conj Hok (conj (unchanged_refl s) _)). by apply sub_invalid.
Qed.

(** The outcomes of an unsubscribe command. *)
Inductive unsub_done (cmd : UnsubCommand) s : Transceiver T X -> Prop :=
| unsub_callback i set' :
    let f := levels (unsubcmd_topic cmd) in
    unsubcmd_kind cmd = UFastCallback i ->
    (forall g, view set' g
       = fm_upd f (set_callbacks (filter (fun cb => cb_id cb <> i) (fast_callbacks (view (subscriptions s) f)))
                    (view (subscriptions s) f)) (view (subscriptions s)) g) ->
    unsub_done cmd s (with_subscriptions set' s)
| unsub_nothing set' :
    unsubcmd_kind cmd = Immediate ->
    subscribed (view (subscriptions s) (levels (unsubcmd_topic cmd))) = false ->
    (forall g, view set' g = view (subscriptions s) g) ->
    unsub_done cmd s (with_subscriptions set' s)
| unsub_sent s' :
    let f := levels (unsubcmd_topic cmd) in
    let i := next_packet_id (shared s) in
    unsubcmd_kind cmd = Immediate ->
    subscribed (view (subscriptions s) f) = true ->
    (forall g, view (subscriptions s') g = fm_upd f Subscription_default (view (subscriptions s)) g) ->
    stream s' = stream s ++ unsub_packet i (unsubcmd_topic cmd) ->
    pending_packets s' = <[IdType_unsubscribe i := unsub_packet i (unsubcmd_topic cmd)]> (pending_packets s) ->
    shared s' = set_next_packet_id (wrap16 (i + 1))
                  (set_subs (delete (unsubcmd_topic cmd) (subs (shared s))) (shared s)) ->
    pending_subs s' = pending_subs s -> woken s' = woken s -> recipients s' = recipients s ->
    unsub_done cmd s s'.

Lemma wp_unsub_immediate t s : tr_ok s -> wire_len_ok t ->
  wp (unsub_immediate t)
    (fun _ s' => let i := next_packet_id (shared s) in
       tr_ok s' /\ unchanged s s' /\ stream s' = stream s ++ unsub_packet i t /\
       pending_packets s' = <[IdType_unsubscribe i := unsub_packet i t]> (pending_packets s) /\
       shared s' = set_next_packet_id (wrap16 (i + 1)) (set_subs (delete t (subs (shared s))) (shared s)) /\
       subscriptions s' = subscriptions s /\ pending_subs s' = pending_subs s /\ woken s' = woken s /\
       recipients s' = recipients s)
    (io_failed (unsub_packet (next_packet_id (shared s)) t) s) s.
Proof.
  intros Hok Ht. unfold unsub_immediate. pose proof (id_range s Hok) as Hid.
  apply wp_bind, wp_modify, wp_bind, wp_fetch_id, wp_bind. cbn [shared with_shared next_packet_id set_subs].
  eapply wp_infallible; [by apply make_unsub|]. set (i := next_packet_id (shared s)) in *.
  set (s1 := next_id _).
  assert (tr_ok s1) as Hok1.
  { apply next_id_ok. destruct Hok as (I1 & I2 & I3 & I4 & I5 & I6 & I7).
    exact (conj I1 (conj I2 (conj I3 (conj I4 (conj I5 (conj I6 I7)))))). }
  eapply wp_mono; [by apply (wp_queue_with_timeout _ _ s1)| |done]; cbn beta zeta.
  intros _ s' ((Hok' & Hst & Hu & Hse) & Hp & _). apply session_eq in Hse as (E1 & E2 & E3 & E4 & E5).
  split_and!; [assumption|exact Hu|exact Hst|exact Hp|exact E2|exact E3|exact E1|exact E4|exact E5].
Qed.

Lemma with_same_subscriptions s : with_subscriptions (subscriptions s) s = s.
Proof. by destruct s. Qed.

Lemma wp_unsub cmd s : tr_ok s -> wire_len_ok (unsubcmd_topic cmd) ->
  wp (on_unsub cmd) (fun _ s' => tr_ok s' /\ unchanged s s' /\ unsub_done cmd s s')
    (io_failed (unsub_packet (next_packet_id (shared s)) (unsubcmd_topic cmd)) s) s.
Proof.
  intros Hok Hl. pose proof (set_ok_of s Hok) as Hset. unfold on_unsub.
  set (f := levels (unsubcmd_topic cmd)). destruct (unsubcmd_kind cmd) as [i|] eqn:Ek.
  - apply wp_bind, wp_gets, wp_bind.
    destruct (get_sub_spec (unsubcmd_topic cmd) _ _ (set_ok_implements _ Hset)) as (r & Hg & Hr).
    eapply wp_infallible; [exact Hg|]. fold f in Hr.
    assert (view (subscriptions s) f = Subscription_default ->
      tr_ok s /\ unchanged s s /\ unsub_done cmd s s) as Hnone.
    { intros Hd. refine (conj Hok (conj (unchanged_refl s) _)).
      rewrite <- (with_same_subscriptions s) at 2. eapply unsub_callback; [exact Ek|]. fold f.
      intros g. unfold fm_upd. case_decide; [subst g|done]. by rewrite Hd. }
    destruct r as [[[sub put]|]|u].
    + destruct Hr as (_ & Hsub & Hput). cbn [fst snd] in *. subst sub.
      destruct (wp_run_ret _ _ _ (wp_remove_fast_callback (E := io_error) i _ (proj2 Hset f)))
        as ([] & sub' & Ha & Hok' & Hrem). rewrite Ha. apply wp_modify. subst sub'.
      refine (conj _ (conj (unchanged_refl s) _)).
      * apply tr_ok_set; [done|]. by eapply (set_ok_upd (subscriptions s)).
      * eapply unsub_callback; [exact Ek|]. fold f. intros g. apply (Hput _).
    + apply wp_ret. by apply Hnone.
    + apply wp_ret. apply Hnone. by apply node_view_invalid.
  - apply wp_bind. unfold on_subscriptions. apply wp_zoom.
    eapply wp_mono; [by apply (wp_clear (E := io_error) (unsubcmd_topic cmd))| |done]; cbn beta.
    intros r set' [Hset' Hr]. fold f in Hr. pose proof (tr_ok_set s set' Hok Hset') as Hok1.
    assert ((forall g, view set' g = view (subscriptions s) g) -> subscribed (view (subscriptions s) f) = false ->
      tr_ok (with_subscriptions set' s) /\ unchanged s (with_subscriptions set' s) /\
      unsub_done cmd s (with_subscriptions set' s)) as Hnone.
    { intros Hv Hs. exact (conj Hok1 (conj (unchanged_refl s) (unsub_nothing cmd s set' Ek Hs Hv))). }
    destruct r as [[|]|u].
    + destruct Hr as [Hs Hv]. eapply wp_mono; [by apply wp_unsub_immediate| |done]; cbn beta zeta.
      intros _ s' (? & Hu & Hst & Hp & Hsh & Hsu & ? & ? & ?).
      refine (conj _ (conj Hu _)); [assumption|]. apply unsub_sent; try assumption; [done|].
      fold f. intros g. rewrite Hsu. cbn. rewrite Hv. unfold fm_upd.
      destruct (decide (g = f)); [by rewrite decide_True|by rewrite decide_False by tauto].
    + apply wp_ret. destruct Hr as [Hs Hv]. apply Hnone; [|done]. intros g. rewrite Hv.
      by rewrite decide_False by (by intros [? _]).
    + apply wp_ret. destruct Hr as [Hi ->]. apply Hnone; [done|]. unfold view. by rewrite node_view_invalid.
Qed.

(** What a command leads to. *)
Definition command_done (c : option Command) (st : TaskState) s s' : Prop :=
  match c with
  | Some (CPublish cmd) =>
    st = WantContinue /\ stream s' = stream s ++ cmd_packet cmd /\ session s' = session s /\
    pending_packets s' = (if decide (cmd_qos cmd = AtMostOnce) then pending_packets s
                          else <[IdType_publish (cmd_packet_id cmd) := cmd_packet cmd]> (pending_packets s))
  | Some (CSubscribe cmd) => st = WantContinue /\ subscribe_done cmd s s'
  | Some (CUnsub cmd) => st = WantContinue /\ unsub_done cmd s s'
  | Some CDisconnect => st = WantStop /\ s' = s
  | None => st = WantContinue /\ s' = with_cmd_queue_closed true s
  end.

(** The packet that a command may lead to. *)
Definition command_out (c : option Command) s : bytes :=
  match c with
  | Some (CPublish cmd) => cmd_packet cmd
  | Some (CSubscribe cmd) => sub_packet (next_packet_id (shared s)) cmd
  | Some (CUnsub cmd) => unsub_packet (next_packet_id (shared s)) (unsubcmd_topic cmd)
  | _ => []
  end.

Lemma wp_command c s : tr_ok s -> tx_pkt s = None -> (forall cmd, c = Some cmd -> Command_ok cmd) ->
  wp (on_command c) (fun st s' => tr_ok s' /\ unchanged s s' /\ command_done c st s s')
    (io_failed (command_out c s) s) s.
Proof.
  intros Hok Htx Hc. destruct c as [[cmd|cmd|cmd|]|]; cbn [on_command].
  - apply wp_bind. specialize (Hc _ eq_refl). cbn in Hc.
    eapply (wp_mono _ (fun _ s' => sends (cmd_packet cmd) s s' /\ pending_packets s'
      = if decide (cmd_qos cmd = AtMostOnce) then pending_packets s
        else <[IdType_publish (cmd_packet_id cmd) := cmd_packet cmd]> (pending_packets s)) _ (io_failed (cmd_packet cmd) s));
      [| |done].
    + destruct (cmd_qos cmd); cbn [decide].
      * by eapply wp_mono; [by apply wp_try_send_sends| |done]; cbn beta; intros _ s' (? & ? & _).
      * by eapply wp_mono; [by apply wp_queue_with_timeout| |done]; cbn beta; intros _ s' (? & ? & _).
      * by eapply wp_mono; [by apply wp_queue_with_timeout| |done]; cbn beta; intros _ s' (? & ? & _).
    + intros _ s' ((Hok' & Hst & Hu & Hse) & Hp). apply wp_ret.
      exact (conj Hok' (conj Hu (conj eq_refl (conj Hst (conj Hse Hp))))).
  - apply wp_bind. specialize (Hc _ eq_refl).
    eapply wp_mono; [by apply wp_subscribe| |done]; cbn beta. intros _ s' (? & ? & ?). apply wp_ret.
    split_and!; try assumption. done.
  - apply wp_bind. specialize (Hc _ eq_refl).
    eapply wp_mono; [by apply wp_unsub| |done]; cbn beta. intros _ s' (? & ? & ?). apply wp_ret.
    split_and!; try assumption. done.
  - apply wp_ret. exact (conj Hok (conj (unchanged_refl s) (conj eq_refl eq_refl))).
  - apply wp_bind, wp_modify, wp_ret. exact (conj Hok (conj (unchanged_refl s) (conj eq_refl eq_refl))).
Qed.

(* ------------------------------------------------------------------ *)
(** ** The alarm                                                       *)
(* ------------------------------------------------------------------ *)

(** The packet whose answer an entry of the timeout queue waits for. *)
Definition unanswered s (i : IdType) : option bytes :=
  match ty i with
  | TSubscribe => ps_packet <$> pending_subs s !! id_ i
  | _ => pending_packets s !! i
  end.

(** What sending it again means: a PUBLISH has the bit 3 of its first byte, its
    DUP flag, set; any other packet is the same as before. *)
Definition sent_again (i : IdType) (b : bytes) : bytes :=
  match ty i, b with
  | TPublish, b0 :: tl => Z.setbit b0 3 :: tl
  | _, _ => b
  end.

(** The bytes that a timeout entry leads to when it has expired. *)
Definition resend_wire s (i : IdType) : bytes :=
  match unanswered s i with Some b => sent_again i b | None => [] end.

Definition still_pending s (i : IdType) : Prop := is_Some (unanswered s i).
#[local] Instance still_pending_dec s i : Decision (still_pending s i).
Proof. unfold still_pending. apply _. Defined.

Lemma resend_of_unanswered s i : resend_of s i = (fun b => (b, bool_decide (ty i = TPublish))) <$> unanswered s i.
Proof.
  unfold resend_of, unanswered. case_decide as E.
  - rewrite E. cbn [bool_decide decide_rel]. by destruct (pending_subs s !! id_ i).
  - destruct (ty i); try done; by destruct (pending_packets s !! i).
Qed.

Lemma wire_again i b : wire b (bool_decide (ty i = TPublish)) = sent_again i b.
Proof. unfold sent_again, wire. destruct b as [|b0 tl]; destruct (ty i); done. Qed.

Lemma unanswered_not_nil s i b : pending_ok s -> unanswered s i = Some b -> b <> [].
Proof.
  intros [Hp Hs]. unfold unanswered. destruct (ty i); try (intros Hb; apply (Hp _ _ Hb)).
  intros (ps & Hps & ->)%fmap_Some. apply (Hs _ _ Hps).
Qed.

Lemma tr_ok_clock s c : tr_ok s -> (clock s <= c)%nat -> tr_ok (with_clock c s).
Proof.
  intros (I1 & I2 & I3 & I4 & I5 & I6 & I7) Hc.
  refine (conj I1 (conj I2 (conj I3 (conj I4 (conj _ (conj I6 I7)))))).
  by apply (timeouts_ok_later s).
Qed.

Lemma timeouts_ok_tail s to q : timeouts_ok s -> timeout_queue s = to :: q ->
  timeouts_ok (with_timeout_queue q s).
Proof.
  intros [Hs Hf] Hq. rewrite Hq in *. cbn in Hs. apply StronglySorted_cons in Hs as [_ Hs].
  apply Forall_cons in Hf as [_ Hf]. by split.
Qed.

(** An entry whose packet was answered is forgotten. *)
Lemma forget_timeout_ok s to q : tr_ok s -> timeout_queue s = to :: q ->
  unanswered s (to_packet_id to) = None -> tr_ok (with_timeout_queue q s).
Proof.
  intros (I1 & I2 & I3 & I4 & I5 & [I6 I6'] & I7) Hq Hn.
  refine (conj I1 (conj I2 (conj I3 (conj I4 (conj (timeouts_ok_tail s to q I5 Hq) (conj _ I7)))))).
  unfold pending_ok, timeout_ids in *. cbn. rewrite Hq in *. cbn in I6, I6'. split.
  - intros i b Hb. destruct (I6 i b Hb) as ([->|Hin]%elem_of_cons & ? & ?); [|by split_and!].
    exfalso. unfold unanswered in Hn. rewrite Hb in Hn. by destruct (ty (to_packet_id to)).
  - intros i p Hp. destruct (I6' i p Hp) as ([Hi|Hin]%elem_of_cons & ?); [|by split].
    exfalso. unfold unanswered in Hn. rewrite <- Hi in Hn. cbn in Hn. by rewrite Hp in Hn.
Qed.

(** An entry whose packet is sent again goes to the end of the queue. *)
Lemma rotate_timeout_ok s s1 to q b dup : tr_ok s -> timeout_queue s = to :: q ->
  queued b dup (with_timeout_queue q s) s1 ->
  tr_ok (with_timeout_queue (timeout_queue s1 ++ [mkTimeout (instant (clock s1)) (to_packet_id to)])
           (with_clock (S (clock s1)) s1)).
Proof.
  intros (I1 & I2 & I3 & I4 & I5 & [I6 I6'] & I7) Hq (Hf & Hc & _ & Htx & _).
  destruct (out_frame_fields _ _ Hf) as (E1 & E2 & E3 & E4 & E5 & _ & _ & E8 & _ & _ & E11 & _). cbn in *.
  unfold tr_ok, pending_ok, timeout_ids in *. cbn. rewrite E1, E2, E4, E5, E8, E11, fmap_app, E3.
  rewrite Hq in I6, I6'. cbn in I6, I6'.
  refine (conj I1 (conj I2 (conj Htx (conj I4 (conj _ (conj (conj _ _) I7)))))).
  - rewrite <- E3. apply timeouts_ok_push; [done|].
    apply (timeouts_ok_later (with_timeout_queue q s)); [done|exact E3|cbn; lia|].
    exact (timeouts_ok_tail s to q I5 Hq).
  - eapply map_Forall_impl; [exact I6|]. intros j y (Hin & ? & ?). split_and!; [|done|done].
    apply elem_of_app. apply elem_of_cons in Hin as [Hin|]; [right; rewrite Hin; by constructor|by left].
  - eapply map_Forall_impl; [exact I6'|]. intros j y (Hin & ?). split; [|done].
    apply elem_of_app. apply elem_of_cons in Hin as [Hin|]; [right; rewrite Hin; by constructor|by left].
Qed.

(** The first [k] entries of the timeout queue have been dealt with. *)
Definition resent (k : nat) s s' : Prop :=
  tr_ok s' /\ unchanged s s' /\ session s' = session s /\ pending_packets s' = pending_packets s /\
  stream s' = stream s ++ concat (resend_wire s <$> take k (timeout_ids s)) /\
  timeout_ids s' = drop k (timeout_ids s) ++ filter (still_pending s) (take k (timeout_ids s)) /\
  (clock s <= clock s')%nat.

(** The loop stopped at an entry that had not expired when it looked at it. *)
Definition stopped_at (k : nat) s : Prop :=
  exists to c, timeout_queue s !! k = Some to /\ (clock s <= c)%nat /\
    Z.max 0 (instant c - to_t to) < packet_resend_delay s.

(** The first [k] entries had expired when the loop ended. *)
Definition all_expired (k : nat) s s' : Prop :=
  forall j to, (j < k)%nat -> timeout_queue s !! j = Some to ->
    packet_resend_delay s <= Z.max 0 (instant (clock s') - to_t to).

Lemma all_expired_cons to q new k s s1 s' : timeout_queue s = to :: q -> timeout_queue s1 = q ++ new ->
  (k <= length q)%nat -> packet_resend_delay s1 = packet_resend_delay s -> (clock s <= clock s')%nat ->
  packet_resend_delay s <= Z.max 0 (instant (clock s) - to_t to) ->
  all_expired k s1 s' -> all_expired (S k) s s'.
Proof.
  intros Hq Hq1 Hk Hd Hc Hexp Hall [|j] to' Hj Hl; rewrite Hq in Hl; cbn in Hl.
  - injection Hl as <-. pose proof (instant_mono _ _ Hc). lia.
  - rewrite <- Hd. apply (Hall j); [lia|]. rewrite Hq1, lookup_app_l by lia. exact Hl.
Qed.

Lemma unanswered_session s s' i : session s' = session s -> pending_packets s' = pending_packets s ->
  unanswered s' i = unanswered s i.
Proof. intros (E & _)%session_eq Hp. unfold unanswered. by rewrite E, Hp. Qed.

Lemma resends_session s s1 : session s1 = session s -> pending_packets s1 = pending_packets s ->
  (forall l : list IdType, filter (still_pending s1) l = filter (still_pending s) l) /\
  (forall l : list IdType, resend_wire s1 <$> l = resend_wire s <$> l).
Proof.
  intros Hse Hp. split; intros l.
  - apply list_filter_iff. intros i. unfold still_pending. by rewrite (unanswered_session s s1).
  - apply list_fmap_ext. intros _ i _. unfold resend_wire. by rewrite (unanswered_session s s1).
Qed.

(** One entry dealt with, then [k] more. *)
Lemma resent_cons to q k s s1 s' : timeout_queue s = to :: q ->
  (k <= length q)%nat -> unchanged s s1 -> session s1 = session s ->
  pending_packets s1 = pending_packets s -> (clock s <= clock s1)%nat ->
  stream s1 = stream s ++ resend_wire s (to_packet_id to) ->
  timeout_ids s1 = (to_packet_id <$> q) ++ filter (still_pending s) [to_packet_id to] ->
  resent k s1 s' -> resent (S k) s s'.
Proof.
  intros Hq Hk Hu Hse Hp Hc Hst Hto (Hok & Hu' & Hse' & Hp' & Hst' & Hto' & Hc').
  destruct (resends_session s s1) as [Hfl Hrw]; [done|done|].
  rewrite Hto, take_app_le in Hst', Hto' by (by rewrite length_fmap).
  rewrite drop_app_le in Hto' by (by rewrite length_fmap). rewrite Hfl in Hto'. rewrite Hrw in Hst'.
  assert (timeout_ids s = to_packet_id to :: (to_packet_id <$> q)) as Hids by (unfold timeout_ids; by rewrite Hq).
  refine (conj Hok (conj (unchanged_trans _ _ _ Hu Hu') (conj (eq_trans Hse' Hse) (conj (eq_trans Hp' Hp) _)))).
  rewrite Hids. cbn [take drop fmap list_fmap concat]. split_and!; [| |lia].
  - by rewrite Hst', Hst, <- (assoc_L (++)).
  - rewrite Hto', <- (assoc_L (++)), <- filter_app. done.
Qed.

Lemma wp_elapsed t s :
  forall (Q : Z -> Transceiver T X -> Prop) (R : io_error -> Transceiver T X -> Prop),
  Q (Z.max 0 (instant (clock s) - t)) (with_clock (S (clock s)) s) -> wp (elapsed t) Q R s.
Proof. intros Q R HQ. apply wp_bind, wp_now, wp_ret. exact HQ. Qed.

(** One expired entry. *)
Lemma wp_expired to q s : tr_ok s -> timeout_queue s = to :: q ->
  wp (resend_entry to)
    (fun _ s1 => tr_ok s1 /\ unchanged s s1 /\ session s1 = session s /\
       pending_packets s1 = pending_packets s /\ (clock s <= clock s1)%nat /\
       packet_resend_delay s1 = packet_resend_delay s /\
       stream s1 = stream s ++ resend_wire s (to_packet_id to) /\
       exists new, timeout_queue s1 = q ++ new /\
         to_packet_id <$> new = filter (still_pending s) [to_packet_id to])
    (io_failed (resend_wire s (to_packet_id to)) s) (with_timeout_queue q s).
Proof.
  intros Hok Hq. apply wp_bind, wp_gets. unfold resend_wire.
  change (resend_of (with_timeout_queue q s) (to_packet_id to)) with (resend_of s (to_packet_id to)).
  rewrite resend_of_unanswered. destruct (unanswered s (to_packet_id to)) as [pkt|] eqn:Er; cbn [fmap option_fmap option_map].
  - apply wp_bind. pose proof Hok as (_ & _ & Htx & _ & _ & Hpo & _).
    pose proof (unanswered_not_nil s _ _ Hpo Er) as Hne. rewrite <- (wire_again (to_packet_id to) pkt).
    set (dup := bool_decide _). eapply wp_mono; [by apply (wp_queue pkt dup (with_timeout_queue q s))|..]; cbn beta.
    2: { intros e s' Hf. apply (out_failed _ (with_timeout_queue q s)) in Hf; [exact Hf|].
         destruct Hok as (I1 & I2 & I3 & I4 & I5 & _ & I7).
         exact (conj I1 (conj I2 (conj (tx_ok_weak s I3) (conj I4 (conj (timeouts_ok_tail s to q I5 Hq) I7))))). }
    intros _ s1 Hqd. pose proof (rotate_timeout_ok s s1 to q pkt dup Hok Hq Hqd) as Hok1.
    destruct Hqd as (Hf & Hc & _ & _ & Hst).
    destruct (out_frame_fields _ _ Hf) as (E1 & E2 & E3 & E4 & E5 & E6 & E7 & E8 & E9 & E10 & _ & E12).
    apply wp_bind, wp_bind, wp_now, wp_ret, wp_modify. cbn in E3, Hc.
    split_and!; [exact Hok1| |unfold session; cbn; by rewrite E2, E4, E5, E6, E7|exact E1|cbn; lia|exact E12|exact Hst|].
    + split_and!; [exact E8|exact (proj1 Hf)|exact E9|exact E10].
    + eexists. split; [cbn; by rewrite E3|]. rewrite filter_cons_True; [done|]. unfold still_pending. by rewrite Er.
  - apply wp_ret. split_and!; [by eapply forget_timeout_ok|done|done|done|done|done|symmetry; apply app_nil_r|].
    exists []. rewrite app_nil_r. split; [done|]. rewrite filter_cons_False; [done|].
    unfold still_pending. rewrite Er. by intros [? [=]].
Qed.

(** A failure after [k] entries were dealt with, while the next was. *)
Definition resend_failed (n : nat) s (e : io_error) s' : Prop :=
  exists k, (k <= n)%nat /\ io_failed (concat (resend_wire s <$> take k (timeout_ids s))) s e s'.

Lemma resend_failed_cons to q n s s1 e s' : timeout_queue s = to :: q -> (n <= length q)%nat ->
  session s1 = session s -> pending_packets s1 = pending_packets s ->
  stream s1 = stream s ++ resend_wire s (to_packet_id to) -> (exists new, timeout_queue s1 = q ++ new) ->
  resend_failed n s1 e s' -> resend_failed (S n) s e s'.
Proof.
  intros Hq Hn Hse Hp Hst (new & Hq1) (k & Hk & He & Hwk & Hpre). exists (S k). split; [lia|].
  destruct (resends_session s s1 Hse Hp) as [_ Hrw]. unfold timeout_ids in *. rewrite Hq1, fmap_app, take_app_le, Hrw, Hst in Hpre
    by (rewrite length_fmap; lia). split_and!; [done|done|]. rewrite Hq. cbn [fmap list_fmap take concat].
  by rewrite (assoc_L (++)).
Qed.

Lemma wp_resend n s : tr_ok s -> (n <= length (timeout_queue s))%nat ->
  wp (resend_loop n)
    (fun _ s' => exists k, (k <= n)%nat /\ resent k s s' /\ (k = n \/ stopped_at k s) /\
       all_expired k s s') (resend_failed n s) s.
Proof.
  revert s. induction n as [|n IH]; intros s Hok Hn; cbn [resend_loop].
  { apply wp_ret. exists 0%nat. split; [done|].
    split; [|split; [by left|intros j to Hj; lia]]. unfold resent.
    rewrite take_0, drop_0. cbn. rewrite !app_nil_r. 
    refine (conj Hok (conj (unchanged_refl s) _)). split_and!; reflexivity. }
  apply wp_bind, wp_gets. destruct (timeout_queue s) as [|to q] eqn:Hq; [cbn in Hn; lia|].
  cbn [length] in Hn. apply wp_bind, wp_elapsed, wp_bind, wp_gets.
  set (sc := with_clock (S (clock s)) s).
  assert (tr_ok sc) as Hokc by (apply tr_ok_clock; [done|lia]).
  apply wp_if; intros Hexp.
  - apply Z.ltb_lt in Hexp. apply wp_ret. exists 0%nat. split; [lia|]. split.
    + unfold resent. rewrite take_0, drop_0. cbn. rewrite !app_nil_r.
      refine (conj Hokc (conj (unchanged_refl s) _)). split_and!; [reflexivity..|lia].
    + split; [right; exists to, (clock s); rewrite Hq; by split_and!|intros j to' Hj; lia].
  - apply wp_bind, wp_modify, wp_bind.
    eapply wp_mono; [by apply (wp_expired to q sc)| |]; cbn beta.
    2: { intros e s' Hf. exists 1%nat. split; [lia|]. unfold timeout_ids. rewrite Hq. cbn [fmap list_fmap take concat].
         rewrite app_nil_r. exact Hf. }
    intros _ s1 (Hok1 & Hu & Hse & Hp & Hc & Hd & Hst & new & Hq1 & Hnew).
    eapply wp_mono; [apply (IH s1 Hok1)| |]; cbn beta; [rewrite Hq1, length_app; lia| |].
    2: { intros e s'. apply (resend_failed_cons to q n s s1); [done|lia|exact Hse|exact Hp|exact Hst|by exists new]. }
    intros _ s' (k & Hk & Hres & Hstop & Hall). exists (S k). split; [lia|]. cbn in Hc, Hexp. split_and!.
    + apply (resent_cons to q k s s1); [done|lia|done|exact Hse|exact Hp|lia|exact Hst| |done].
      unfold timeout_ids. by rewrite Hq1, fmap_app, Hnew.
    + destruct (decide (k = n)) as [->|Hkn]; [by left|right]. destruct Hstop as [|(to' & c & Hl & Hcc & Hlt)]; [done|].
      exists to', c. rewrite Hq1, lookup_app_l in Hl by lia. rewrite Hd in Hlt. rewrite Hq. split_and!; [done|lia|exact Hlt].
    + apply Z.ltb_ge in Hexp. assert (clock s1 <= clock s')%nat as Hc' by (destruct Hres as (_ & _ & _ & _ & _ & _ & ?); assumption).
      apply (all_expired_cons to q new k s s1); [done|done|lia|exact Hd|lia|exact Hexp|exact Hall].
Qed.

(** The keep-alive that is due when the alarm fires. *)
Definition ping_due s : bytes :=
  if ping_interval s <=? Z.max 0 (instant (clock s) - last_tx s) then ping_req s else [].

Lemma wp_ping s : tr_ok s ->
  wp send_ping
    (fun _ s' => sends (ping_due s) s s' /\ pending_packets s' = pending_packets s /\
       timeout_queue s' = timeout_queue s /\ (clock s <= clock s')%nat /\
       packet_resend_delay s' = packet_resend_delay s)
    (io_failed (ping_due s) s) s.
Proof.
  intros Hok. unfold send_ping, ping_due. apply wp_bind, wp_gets, wp_bind, wp_elapsed, wp_bind, wp_gets.
  cbn [ping_interval with_clock]. set (sc := with_clock (S (clock s)) s).
  assert (tr_ok sc) as Hokc by (apply tr_ok_clock; [done|lia]).
  apply wp_if; intros ->.
  - apply wp_bind, wp_now, wp_bind, wp_modify, wp_bind, wp_gets.
    set (s1 := with_last_tx _ _). change (ping_req s1) with (ping_req s).
    assert (tr_ok s1) as Hok1 by exact (tr_ok_clock sc (S (clock sc)) Hokc ltac:(lia)).
    assert (ping_req s <> []) as Hne by (destruct Hok as (_ & _ & _ & _ & _ & _ & ->); done).
    eapply wp_mono; [apply (wp_queue (ping_req s) false s1); [|done]|..]; cbn beta;
      [destruct Hok1 as (_ & _ & ? & _); assumption| |].
    2: { intros e s' Hf. rewrite wire_false in Hf. exact (out_failed _ s1 e s' (tr_ok_weak _ Hok1) Hf). }
    intros _ s' Hq. destruct (queued_sends _ _ s1 s' Hok1 Hq) as ((Hok' & Hst & Hu & Hse) & Hp & Ht).
    rewrite wire_false in Hst. destruct Hq as (Hf & Hc & _).
    destruct (out_frame_fields _ _ Hf) as (_ & _ & _ & _ & _ & _ & _ & _ & _ & _ & _ & E12).
    split_and!; [exact (conj Hok' (conj Hst (conj Hu Hse)))|exact Hp|exact Ht|rewrite Hc; cbn; lia|exact E12].
  - apply wp_ret. split_and!; [|done|done|cbn; lia|done].
    refine (conj Hokc (conj _ (conj (unchanged_refl s) eq_refl))). symmetry. apply app_nil_r.
Qed.

(** What the alarm does: the keep-alive, then the entries that have expired. *)
Definition alarmed s s' : Prop :=
  tr_ok s' /\ unchanged s s' /\ session s' = session s /\ pending_packets s' = pending_packets s /\
  exists k, stream s' = stream s ++ ping_due s ++ concat (resend_wire s <$> take k (timeout_ids s)) /\
    timeout_ids s' = drop k (timeout_ids s) ++ filter (still_pending s) (take k (timeout_ids s)) /\
    (forall j to, timeout_queue s !! j = Some to ->
       packet_resend_delay s <= instant (clock s) - to_t to -> (j < k)%nat) /\
    all_expired k s s'.

(** Entries behind one that has not expired have not expired either. *)
Lemma expired_before_stop s s1 k : ClockOk -> timeouts_ok s -> timeout_queue s1 = timeout_queue s ->
  (clock s <= clock s1)%nat -> packet_resend_delay s1 = packet_resend_delay s -> stopped_at k s1 ->
  forall j to, timeout_queue s !! j = Some to ->
    packet_resend_delay s <= instant (clock s) - to_t to -> (j < k)%nat.
Proof.
  intros Hm [Hs _] Hq Hc Hd (tk & c & Hk & Hcc & Hlt) j to Hj Hexp. rewrite Hq in Hk. rewrite Hd in Hlt.
  destruct (decide (j < k)%nat) as [|Hge]; [done|exfalso].
  assert (to_t tk <= to_t to) as Hle.
  { destruct (decide (j = k)) as [->|]; [naive_solver lia|].
    rewrite <- (take_drop (S k) (timeout_queue s)), fmap_app in Hs.
    apply StronglySorted_app in Hs as (Hx & _). apply Hx.
    - rewrite (take_S_r _ _ _ Hk), fmap_app, elem_of_app. right. by constructor.
    - apply list_elem_of_fmap. exists to. split; [done|]. apply (list_elem_of_lookup_2 _ (j - S k)).
      rewrite lookup_drop. by replace (S k + (j - S k))%nat with j by lia. }
  pose proof (Hm (clock s) c). lia.
Qed.

Lemma wp_alarm s : tr_ok s -> connect_sig s = false ->
  wp on_alarm (fun st s' => st = WantContinue /\ alarmed s s')
    (fun e s' => exists k, io_failed (ping_due s ++ concat (resend_wire s <$> take k (timeout_ids s))) s e s') s.
Proof.
  intros Hok Hcon. unfold on_alarm. apply wp_bind, wp_gets. unfold connected. rewrite Hcon. cbn [negb].
  apply wp_bind, wp_bind. eapply wp_mono; [by apply wp_ping| |]; cbn beta.
  2: { intros e s' Hf. exists 0%nat. rewrite take_0. cbn. by rewrite app_nil_r. }
  intros _ s1 ((Hok1 & Hst1 & Hu1 & Hse1) & Hp1 & Ht1 & Hc1 & Hd1).
  apply wp_bind, wp_gets. eapply wp_mono; [apply (wp_resend _ s1 Hok1); done| |]; cbn beta.
  2: { intros e s' (k & _ & He & Hwk & Hpre). exists k. split_and!; [done|done|].
       destruct (resends_session s s1) as [_ Hrw]; [done|done|]. unfold timeout_ids in *.
       by rewrite Ht1, Hrw, Hst1, <- (assoc_L (++)) in Hpre. }
  intros _ s' (k & Hk & (Hok' & Hu' & Hse' & Hp' & Hst' & Hto' & Hc') & Hstop & Hall). apply wp_ret. split; [done|].
  assert (timeout_ids s1 = timeout_ids s) as Hti by (unfold timeout_ids; by rewrite Ht1).
  destruct (resends_session s s1) as [Hfl Hrw]; [done|done|].
  rewrite Hti, Hfl in Hto'. rewrite Hti, Hrw, Hst1, <- (assoc_L (++)) in Hst'.
  refine (conj Hok' (conj (unchanged_trans _ _ _ Hu1 Hu') (conj (eq_trans Hse' Hse1) (conj (eq_trans Hp' Hp1) _)))).
  exists k. split_and!; [done|done| |by unfold all_expired in Hall; rewrite Ht1, Hd1 in Hall].
  destruct Hstop as [->|Hstop].
  - intros j to Hj _. rewrite Ht1. by eapply lookup_lt_Some.
  - destruct Hok as (_ & _ & _ & _ & Hto & _). by eapply expired_before_stop.
Qed.
End handlers.
