(* ===== verification/Samples.v ===== *)
(** * A concrete world

    A clock, a scripted connection and a transceiver in the middle of its work,
    on which the theorems about transceivers are instantiated. *)

From Stdlib Require Import ZArith Lia.
From stdpp Require Import base list numbers gmap sorting.
From S2P Require Import Prelude Base ByteIO Packets PacketProps Transport PacketReader.
From S2P Require Import Subscription Shared Transceiver TransceiverOut TransceiverProps.

Local Open Scope Z_scope.

(** Every reading of the clock is one unit after the one before. *)
Definition sample_clock : Clock := Z.of_nat.

Lemma sample_clock_ok : @ClockOk sample_clock.
Proof. intros n m Hnm. unfold instant, sample_clock. lia. Qed.

Abbreviation SampleTransceiver := (Transceiver (TcpTransport SimStream) SimRecipients).

(** A PUBLISH of ["x"] on ["a"] with QoS 1 under the ID 7, and a SUBSCRIBE to
    ["a"] with QoS 1 under the ID 3. *)
Definition sample_publish : bytes := frame TPublish 2 [0; 1; 97; 0; 7; 120].
Definition sample_subscribe : bytes := frame TSubscribe 2 [0; 3; 0; 1; 97; 1].

(** Task 20 waits for the acknowledgement of the publication and task 21 for
    the subscription. *)
Definition sample_shared : ClientShared :=
  mkShared 9 {[ 7 := WithWaker 20%nat ]} ∅ ∅ {[ [97] := Pending [Some 21%nat] ]} 0.

(** A transceiver on the stream [c] that has sent both packets, has recipients
    on ["a/*"] and ["a/#"], and has read the clock a hundred times; its resend
    delay is 10 and the publication was sent at 50. *)
Definition sample_tr (connecting : bool) (c : SimStream) : SampleTransceiver :=
  mkTransceiver (mkTcpTransport c) {[ IdType_publish 7 := sample_publish ]}
    {[ 3 := mkPendingSub [97] (Unbounded 30%nat) sample_subscribe ]} None PacketReader_default connecting
    60 0 [mkTimeout 50 (IdType_publish 7); mkTimeout 95 (IdType_subscribe 3)] [] sample_shared sample_set
    false false (frame TPingReq 0 []) 10 100 [] [] (mkSimRecipients [] [] []).

Section samples.
#[local] Existing Instances production sample_clock sample_clock_ok.

Lemma sample_tr_ok connecting c : tr_ok (sample_tr connecting c).
Proof.
  refine (conj reader_ok_default (conj sample_set_ok (conj _ (conj _ (conj _ (conj _ _)))))).
  - split_and!; [done|done|constructor].
  - split; cbn; unfold is_u16, is_u32; lia.
  - split; cbn; [|repeat constructor; cbn; unfold instant, sample_clock; lia].
    repeat constructor. cbn. lia.
  - split; apply map_Forall_singleton.
    + split_and!; [by constructor|done|done].
    + split; [by repeat constructor|done].
  - done.
Qed.
End samples.

(** A stream on which ["y"] arrives twice, published on ["a/b"] with QoS 2
    under the ID 5 and the second time marked as a duplicate, and which accepts
    everything it is given; and one that accepts two bytes, then nothing. *)
Definition sample_arrivals : bytes :=
  frame TPublish 4 [0; 3; 97; 47; 98; 0; 5; 121] ++ frame TPublish 12 [0; 3; 97; 47; 98; 0; 5; 121].
Definition sample_in : SimStream := mkSim [sample_arrivals] (replicate 9 100%nat) [] [].
Definition sample_slow : SimStream := mkSim [] [2%nat] [] [].
