(* ===== verification/TransceiverRuns.v ===== *)
(** * Runs of the transceiver

    The steps of the main loop as a relation, labelled with the packets they
    handle, and what holds of every run: the state's invariant, that nothing
    panics, that the packets handled are the broker's, that what is queued is
    sent in order, and that QoS 2 messages are delivered once. *)

From Stdlib Require Import ZArith Lia.
From stdpp Require Import base list numbers gmap sorting.
From S2P Require Import Prelude Base ByteIO Packets PacketProps Transport PacketReader.
From S2P Require Import Subscription Shared Transceiver TransceiverOut TransceiverProps Samples.

Local Open Scope Z_scope.

(** A packet that a run handled, with the subscriptions at that time. *)
Abbreviation Handled := (IncomingPacket * SubscriptionSet)%type.

Section runs.
#[local] Existing Instance production.
Context `{ClockOk} {T X : Type} `{TransportOk T} `{RecipientsOk X}.
Implicit Types (s : Transceiver T X) (ps : list Handled).

(** The reader and the transport after a [recv]. *)
Definition with_reader (rt : PacketReader * T) s : Transceiver T X :=
  with_rx_pkt rt.1 (with_transport rt.2 s).

(** The steps the main loop is made of, with the packets it handles and the
    subscriptions it handles them with; in between, other tasks may change the
    shared state in any way that keeps its counters in range. [K] is what the
    client promises of its commands. *)
Inductive run_of (K : Command -> Prop) : Transceiver T X -> list Handled -> Transceiver T X -> Prop :=
| run_nil s : run_of K s [] s
| run_recv s o rt ps s' :
    recv (rx_pkt s, transport s) = (o, rt) ->
    match o with
    | Ret NeedMoreData | Ret ConnectionClosed => True
    | Throw e => is_would_block e = true
    | _ => False
    end ->
    run_of K (with_reader rt s) ps s' -> run_of K s ps s'
| run_handle s rt p b s1 ps s' :
    recv (rx_pkt s, transport s) = (Ret (Incoming p), rt) ->
    process_packet p (with_reader rt s) = (Ret b, s1) ->
    run_of K s1 ps s' -> run_of K s ((p, subscriptions s) :: ps) s'
| run_write s r st s1 ps s' :
    on_write_ready r s = (Ret st, s1) -> run_of K s1 ps s' -> run_of K s ps s'
| run_pre_read s b s1 ps s' :
    on_transport pre_read s = (Ret b, s1) -> run_of K s1 ps s' -> run_of K s ps s'
| run_command s c st s1 ps s' :
    event_enabled s (CommandReceived c) = true -> (forall cmd, c = Some cmd -> K cmd) ->
    on_command c s = (Ret st, s1) -> run_of K s1 ps s' -> run_of K s ps s'
| run_alarm s st s1 ps s' :
    on_alarm s = (Ret st, s1) -> run_of K s1 ps s' -> run_of K s ps s'
| run_client s sh ps s' :
    shared_ok sh -> run_of K (with_shared sh s) ps s' -> run_of K s ps s'.

Abbreviation run := (run_of Command_ok).

Lemma run_weaken (K K' : Command -> Prop) s ps s' : (forall c, K c -> K' c) -> run_of K s ps s' -> run_of K' s ps s'.
Proof.
  intros HK. induction 1;
    [apply run_nil|eapply run_recv|eapply run_handle|eapply run_write|eapply run_pre_read|eapply run_command
    |eapply run_alarm|eapply run_client]; eauto.
Qed.

Lemma run_trans K s1 ps1 s2 ps2 s3 : run_of K s1 ps1 s2 -> run_of K s2 ps2 s3 -> run_of K s1 (ps1 ++ ps2) s3.
Proof.
  induction 1; intros Hr; cbn [app];
    [done|eapply run_recv|eapply run_handle|eapply run_write|eapply run_pre_read|eapply run_command
    |eapply run_alarm|eapply run_client]; eauto.
Qed.

(** A last step, which fails with an error of the transport or of decoding, and
    with which the main loop ends. *)
Inductive fails (K : Command -> Prop) s : io_error -> Transceiver T X -> Prop :=
| fails_write r e s' : on_write_ready r s = (Throw e, s') -> fails K s e s'
| fails_read_ready e : fails K s e s
| fails_pre_read e s' : on_transport pre_read s = (Throw e, s') -> fails K s e s'
| fails_recv e rt : recv (rx_pkt s, transport s) = (Throw e, rt) -> is_would_block e = false -> fails K s e (with_reader rt s)
| fails_handle rt p e s' :
    recv (rx_pkt s, transport s) = (Ret (Incoming p), rt) ->
    process_packet p (with_reader rt s) = (Throw e, s') -> fails K s e s'
| fails_command c e s' :
    event_enabled s (CommandReceived c) = true -> (forall cmd, c = Some cmd -> K cmd) ->
    on_command c s = (Throw e, s') -> fails K s e s'
| fails_alarm e s' : on_alarm s = (Throw e, s') -> fails K s e s'.

(** What such a step was about to send. *)
Inductive sending (K : Command -> Prop) s : bytes -> Prop :=
| sending_nothing : sending K s []
| sending_reply p : IncomingPacket_wf p -> sending K s (reply s p)
| sending_command cmd : K cmd -> sending K s (command_out (Some cmd) s)
| sending_alarm k : sending K s (ping_due s ++ concat (resend_wire s <$> take k (timeout_ids s))).

(** *** The single steps *)

(** An alarm while the connection is not established does nothing. *)
Lemma wp_any_alarm s : tr_ok s ->
  wp on_alarm (fun st s' => st = WantContinue /\ (alarmed s s' \/ s' = s))
    (fun e s' => exists k, io_failed (ping_due s ++ concat (resend_wire s <$> take k (timeout_ids s))) s e s') s.
Proof.
  intros Hok. destruct (connect_sig s) eqn:Hc.
  - unfold on_alarm. apply wp_bind, wp_gets. unfold connected. rewrite Hc. cbn [negb].
    apply wp_bind, wp_ret, wp_ret. auto.
  - eapply wp_mono; [by apply wp_alarm| |done]; cbn beta. intros st s' [? ?]. auto.
Qed.

Definition io_only s s' : Prop :=
  exists t', s' = with_transport t' s /\ same_io (transport s) t'.

Lemma io_only_frame s s' : io_only s s' -> out_frame s s' /\ stream s' = stream s /\ (tx_ok s -> tx_ok s').
Proof.
  intros (t' & -> & [Hr Hs]). split_and!; [|unfold stream; cbn; by rewrite Hs|done].
  split_and!; [done|by destruct s|done|exists []; cbn; by rewrite Hs, app_nil_r].
Qed.

Lemma io_only_weak s s' : tr_weak s -> io_only s s' -> tr_weak s' /\ stream s' = stream s /\ tx_pkt s' = tx_pkt s.
Proof.
  intros Hwk Hio. destruct (io_only_frame s s' Hio) as (Hf & Hst & _). destruct Hio as (t' & -> & _).
  split_and!; [|done|done]. eapply tr_weak_out; [done|done|done|]. by destruct Hwk as (_ & _ & ? & _).
Qed.

Lemma wp_pre_write s : wp (on_transport pre_write) (fun _ s' => io_only s s') (fun _ s' => io_only s s') s.
Proof. apply wp_zoom. eapply wp_mono; [apply pre_write_ok|..]; intros ? t' ?; by exists t'. Qed.

Lemma wp_pre_read s : wp (on_transport pre_read) (fun _ s' => io_only s s') (fun _ s' => io_only s s') s.
Proof. apply wp_zoom. eapply wp_mono; [apply pre_read_ok|..]; intros ? t' ?; by exists t'. Qed.

(** Writing when the transport is ready. *)
Definition wrote_some (st : TaskState) s s' : Prop :=
  out_frame s s' /\ tx_ok s' /\ stream s' = stream s /\ st <> WantStop.

Lemma wp_write_ready r s : tx_ok s ->
  wp (on_write_ready r) (fun st s' => wrote_some st s s')
    (fun _ s' => out_frame s s' /\ tx_weak s' /\ sent_prefix (stream s) s') s.
Proof.
  intros Hok. unfold on_write_ready. apply wp_bind. destruct r as [u|e]; [apply wp_ret|apply wp_throw].
  2: { split_and!; [apply out_frame_refl|by apply tx_ok_weak|apply stream_prefix]. }
  apply wp_bind. eapply wp_mono; [apply wp_pre_write| |]; cbn beta.
  2: { intros e s1 Hio. destruct (io_only_frame s s1 Hio) as (Hf & Hst & Htx).
       split_and!; [done|by apply tx_ok_weak, Htx|rewrite <- Hst; apply stream_prefix]. }
  intros _ s1 Hio. destruct (io_only_frame s s1 Hio) as (Hf & Hst & Htx). apply wp_bind, wp_gets, wp_bind, wp_attempt.
  eapply wp_mono; [apply wp_continue; [by apply Htx|apply write_fuel_enough]|..]; cbn beta.
  - intros [|] s2 (Hf2 & Htx2 & Hst2 & _); apply wp_ret; split_and!;
      [by eapply out_frame_trans|done|congruence|done|by eapply out_frame_trans|done|congruence|done].
  - intros e s2 (Hf2 & Hwk & Hpre & Hwb). apply wp_if; intros He.
    2: { apply wp_throw. rewrite Hst in Hpre. split_and!; [by eapply out_frame_trans|done|done]. }
    destruct (Hwb He) as [Htx2 Hst2]. apply wp_ret. split_and!; [by eapply out_frame_trans|done|congruence|done].
Qed.

(** Receiving, as the transceiver sees it. *)
Lemma recv_ok s o rt : tr_ok s -> recv (rx_pkt s, transport s) = (o, rt) ->
  tr_ok (with_reader rt s) /\ stream (with_reader rt s) = stream s /\
  (forall p, o = Ret (Incoming p) -> IncomingPacket_wf p) /\
  (o = Ret ConnectionClosed -> rt.1 = rx_pkt s /\ received rt.2 = received (transport s)) /\
  o <> Panic /\ o <> UB /\ o <> OutOfFuel.
Proof.
  intros (I1 & I2 & I3 & I4 & I5 & I6 & I7) E.
  pose proof (recv_step_inv (rx_pkt s, transport s) rt o I1 E) as Hpost.
  assert (recv_post (rx_pkt s) (transport s) (fun _ _ => True) rt) as (Hr & Hs & _).
  { destruct o; [| |done..]; destruct Hpost as (? & ? & ch & ? & ?); split_and!; eauto. }
  split_and!.
  - exact (conj Hr (conj I2 (conj I3 (conj I4 (conj I5 (conj I6 I7)))))).
  - unfold stream. cbn. by rewrite Hs.
  - intros p ->. destruct Hpost as (_ & _ & ch & _ & [_ Hwf]). exact Hwf.
  - intros ->. destruct Hpost as (_ & _ & ch & Hch & [-> ?]). by rewrite app_nil_r in Hch.
  - by intros ->.
  - by intros ->.
  - by intros ->.
Qed.

(** *** Steps that handle no packet *)

Definition quiet s s' : Prop :=
  tr_ok s' /\ unchanged s s' /\ (exists out, stream s' = stream s ++ out) /\
  recipients s' = recipients s /\
  forall i, pending_packets s' !! IdType_pub_rec i = pending_packets s !! IdType_pub_rec i.

Lemma quiet_out s s' : tr_ok s -> out_frame s s' -> tx_ok s' -> stream s' = stream s -> quiet s s'.
Proof.
  intros Hok Hf Htx Hst.
  destruct (out_frame_fields s s' Hf) as (E1 & _ & _ & _ & _ & _ & E7 & E8 & E9 & E10 & _).
  split_and!; [by eapply tr_ok_out|exact (conj E8 (conj (proj1 Hf) (conj E9 E10)))| |exact E7|by rewrite E1].
  exists []. by rewrite app_nil_r.
Qed.

Lemma quiet_write r s st s' : tr_ok s -> on_write_ready r s = (Ret st, s') -> quiet s s'.
Proof.
  intros Hok E. assert (tx_ok s) as Htx by (destruct Hok as (_ & _ & ? & _); assumption).
  destruct (wp_inv _ _ _ _ _ _ (wp_write_ready r s Htx) E) as (? & ? & ? & _). by apply quiet_out.
Qed.

Lemma quiet_pre_read s b s' : tr_ok s -> on_transport pre_read s = (Ret b, s') -> quiet s s'.
Proof.
  intros Hok E. assert (tx_ok s) as Htx by (destruct Hok as (_ & _ & ? & _); assumption).
  destruct (io_only_frame s s' (wp_inv _ _ _ _ _ _ (wp_pre_read s) E)) as (? & ? & ?). apply quiet_out; auto.
Qed.

Lemma quiet_refl s : tr_ok s -> quiet s s.
Proof.
  intros Hok. refine (conj Hok (conj (unchanged_refl s) (conj _ (conj eq_refl (fun _ => eq_refl))))).
  exists []. by rewrite app_nil_r.
Qed.

Lemma quiet_client s sh : tr_ok s -> shared_ok sh -> quiet s (with_shared sh s).
Proof.
  intros (I1 & I2 & I3 & _ & I5 & I6 & I7) Hsh.
  refine (conj (conj I1 (conj I2 (conj I3 (conj Hsh (conj I5 (conj I6 I7))))))
    (conj (unchanged_refl s) (conj _ (conj eq_refl (fun _ => eq_refl))))).
  exists []. symmetry. apply app_nil_r.
Qed.

Lemma quiet_alarm s st s' : tr_ok s -> on_alarm s = (Ret st, s') -> quiet s s'.
Proof.
  intros Hok E. destruct (wp_inv _ _ _ _ _ _ (wp_any_alarm s Hok) E) as (_ & [Ha| ->]); [|by apply quiet_refl].
  destruct Ha as (? & ? & Hse & Hp & k & Hst & _). apply session_eq in Hse as (_ & _ & _ & _ & E5).
  split_and!; [assumption|assumption|by eexists|exact E5|by rewrite Hp].
Qed.

Lemma quiet_command c s st s' : tr_ok s -> event_enabled s (CommandReceived c) = true ->
  (forall cmd, c = Some cmd -> Command_ok cmd) -> on_command c s = (Ret st, s') -> quiet s s'.
Proof.
  intros Hok Hen Hc E. cbn in Hen. rewrite !andb_true_iff in Hen. destruct Hen as [_ Htx].
  apply bool_decide_eq_true in Htx.
  destruct (wp_inv _ _ _ _ _ _ (wp_command c s Hok Htx Hc) E) as (Hok' & Hu & Hd).
  assert (forall x, stream s' = stream s ++ x -> exists out, stream s' = stream s ++ out) as Hout by eauto.
  assert (forall s1, s1 = s -> exists out, stream s1 = stream s ++ out) as Hnil.
  { intros s1 ->. exists []. by rewrite app_nil_r. }
  destruct c as [[cmd|cmd|cmd|]|]; cbn in Hd.
  - destruct Hd as (_ & Hst & Hse & Hp). apply session_eq in Hse as (_ & _ & _ & _ & E5).
    split_and!; [assumption|assumption|by eapply Hout|exact E5|]. intros i. rewrite Hp.
    case_decide; [done|]. by rewrite lookup_insert_ne.
  - destruct Hd as (_ & Hd). destruct Hd as [|set' sub' f|s' i ? Hst ? ? Hp ? ? ? Hr].
    + by apply quiet_refl.
    + refine (conj Hok' (conj Hu (conj _ (conj eq_refl (fun _ => eq_refl))))). by apply (Hnil s).
    + split_and!; [assumption|assumption|by eapply Hout|exact Hr|by rewrite Hp].
  - destruct Hd as (_ & Hd). destruct Hd as [i set'|set'|s' f i ? ? ? Hst Hp ? ? ? Hr].
    + refine (conj Hok' (conj Hu (conj _ (conj eq_refl (fun _ => eq_refl))))). by apply (Hnil s).
    + refine (conj Hok' (conj Hu (conj _ (conj eq_refl (fun _ => eq_refl))))). by apply (Hnil s).
    + split_and!; [assumption|assumption|by eapply Hout|exact Hr|]. intros j. rewrite Hp.
      by rewrite lookup_insert_ne.
  - destruct Hd as (_ & ->). by apply quiet_refl.
  - destruct Hd as (_ & ->). refine (conj Hok' (conj Hu (conj _ (conj eq_refl (fun _ => eq_refl))))).
    by apply (Hnil s).
Qed.

(** *** Steps that handle a packet *)

Lemma handle_ok p s b s' : tr_ok s -> IncomingPacket_wf p -> process_packet p s = (Ret b, s') ->
  tr_ok s' /\ rx_pkt s' = rx_pkt s /\ received (transport s') = received (transport s).
Proof. intros Hok Hwf E. exact (wp_inv _ _ _ _ _ _ (wp_packet_ok p s Hok Hwf) E). Qed.

Lemma run_ok s ps s' : tr_ok s -> run s ps s' -> tr_ok s'.
Proof.
  intros Hok Hrun. induction Hrun as [s|s o rt ps s' E _ _ IH|s rt p b s1 ps s' E Ep _ IH|s r st s1 ps s' E _ IH
    |s b s1 ps s' E _ IH|s c st s1 ps s' Hen Hc E _ IH|s st s1 ps s' E _ IH|s sh ps s' Hsh _ IH]; [exact Hok|apply IH..].
  - by eapply recv_ok.
  - destruct (recv_ok s _ _ Hok E) as (Hok1 & _ & Hwf & _). by eapply handle_ok; [exact Hok1|apply Hwf|].
  - by eapply quiet_write.
  - by eapply quiet_pre_read.
  - by eapply quiet_command.
  - by eapply quiet_alarm.
  - by eapply quiet_client.
Qed.

(** A step that fails. *)
Lemma fails_post K s e s' : (forall c, K c -> Command_ok c) -> tr_ok s -> fails K s e s' ->
  tr_weak s' /\ exists out, sending K s out /\ sent_prefix (stream s ++ out) s'.
Proof.
  intros HK Hok Hf. assert (tx_ok s) as Htx by (destruct Hok as (_ & _ & ? & _); assumption).
  assert (forall s1, tr_ok s1 -> stream s1 = stream s ->
    tr_weak s1 /\ exists out, sending K s out /\ sent_prefix (stream s ++ out) s1) as Hnone.
  { intros s1 Hok1 Hst. split; [by apply tr_ok_weak|]. exists []. split; [constructor|].
    rewrite app_nil_r, <- Hst. apply stream_prefix. }
  destruct Hf as [r e s' E|e|e s' E|e rt E _|rt p e s' E Ep|c e s' Hen Hc E|e s' E].
  - destruct (wp_inv_throw _ _ _ _ _ _ (wp_write_ready r s Htx) E) as (Hf & Hwk & Hpre).
    split; [eapply tr_weak_out; [done|by apply tr_ok_weak|done|done]|]. exists []. split; [constructor|]. by rewrite app_nil_r.
  - by apply Hnone.
  - destruct (io_only_frame s s' (wp_inv_throw _ _ _ _ _ _ (wp_pre_read s) E)) as (Hf & Hst & Htx').
    apply Hnone; [|done]. by eapply tr_ok_out; [done|done|done|apply Htx'].
  - destruct (recv_ok s _ _ Hok E) as (Hok1 & Hst & _). by apply Hnone.
  - destruct (recv_ok s _ _ Hok E) as (Hok1 & Hst & Hwf & _). specialize (Hwf _ eq_refl).
    destruct (wp_inv_throw _ _ _ _ _ _ (wp_packet_ok p _ Hok1 Hwf) Ep) as (_ & Hwk & Hpre).
    split; [done|]. rewrite Hst in Hpre. exists (reply s p). split; [by constructor|exact Hpre].
  - cbn in Hen. rewrite !andb_true_iff in Hen. destruct Hen as [_ Hn]. apply bool_decide_eq_true in Hn.
    destruct (wp_inv_throw _ _ _ _ _ _ (wp_command c s Hok Hn (fun cmd Ec => HK _ (Hc cmd Ec))) E) as (_ & Hwk & Hpre).
    split; [done|]. exists (command_out c s). split; [|done]. destruct c as [cmd|]; [|constructor]. by apply sending_command, Hc.
  - destruct (wp_inv_throw _ _ _ _ _ _ (wp_any_alarm s Hok) E) as (k & _ & Hwk & Hpre).
    split; [done|]. eexists. split; [apply (sending_alarm K s k)|done].
Qed.

(** C5: Every step of the main loop that returns, and every action of other
    tasks on the shared state in between, keeps the transceiver's invariant:
    the reader's and the tree's, that a packet is being transmitted whenever
    others are queued, that the timeout queue is in chronological order, and
    that every packet and every subscription request awaiting an answer has an
    entry in it. A step that fails with an error of the transport, after which
    the main loop is left, keeps all of it but two things: that a packet is
    being transmitted if others are queued, and that what awaits an answer has
    an entry in the timeout queue. *)
Theorem run_invariant s ps s' : tr_ok s -> run s ps s' ->
  tr_ok s' /\ forall e s'', fails Command_ok s' e s'' -> tr_weak s''.
Proof.
  intros Hok Hr. pose proof (run_ok _ _ _ Hok Hr) as Hok'. split; [done|]. intros e s'' Hf.
  by apply (fails_post Command_ok s' e).
Qed.

Lemma quiet_reader s s' (ps' : list IncomingPacket) rx t : quiet s s' -> reader_run (rx_pkt s', transport s') ps' (rx, t) ->
  reader_run (rx_pkt s, transport s) ps' (rx, t).
Proof.
  intros (_ & (Hrx & Hrc & _) & _) Hr. rewrite <- Hrx. by apply run_other_io with (transport s').
Qed.

Lemma run_reader s ps s' : tr_ok s -> run s ps s' ->
  reader_run (rx_pkt s, transport s) ps.*1 (rx_pkt s', transport s').
Proof.
  intros Hok Hrun. induction Hrun as [s|s o rt ps s' E Ho _ IH|s rt p b s1 ps s' E Ep _ IH|s r st s1 ps s' E _ IH
    |s b s1 ps s' E _ IH|s c st s1 ps s' Hen Hc E _ IH|s st s1 ps s' E _ IH|s sh ps s' Hsh _ IH].
  - apply run_done.
  - destruct (recv_ok s _ _ Hok E) as (Hok1 & _ & _ & Hcl & _). specialize (IH Hok1). destruct rt as [r t]. cbn in IH.
    destruct o as [[| |]|e| | |]; try done.
    + destruct (Hcl eq_refl) as [Hr Ht]. cbn in Hr, Ht. rewrite <- Hr. by eapply run_other_io.
    + by eapply run_more.
    + by eapply run_blocked.
  - destruct (recv_ok s _ _ Hok E) as (Hok1 & _ & Hwf & _).
    destruct (handle_ok p _ _ _ Hok1 (Hwf _ eq_refl) Ep) as (Hok2 & Hrx & Hrc).
    eapply run_packet; [exact E|]. destruct rt as [r t]. cbn in Hrx, Hrc. rewrite <- Hrx.
    eapply run_other_io; [exact Hrc|]. by apply IH.
  - pose proof (quiet_write _ _ _ _ Hok E) as Hq. eapply quiet_reader; [exact Hq|]. apply IH, Hq.
  - pose proof (quiet_pre_read _ _ _ Hok E) as Hq. eapply quiet_reader; [exact Hq|]. apply IH, Hq.
  - pose proof (quiet_command _ _ _ _ Hok Hen Hc E) as Hq. eapply quiet_reader; [exact Hq|]. apply IH, Hq.
  - pose proof (quiet_alarm _ _ _ Hok E) as Hq. eapply quiet_reader; [exact Hq|]. apply IH, Hq.
  - pose proof (quiet_client _ _ Hok Hsh) as Hq. eapply quiet_reader; [exact Hq|]. apply IH, Hq.
Qed.

(** C3: The packets that a run from the start of a connection handles are
    those of the frames the broker sent, in order, each once, up to the bytes
    of the frame being received, however the stream was cut and whatever else
    the loop did in between. *)
Theorem run_handles_stream s ps s' (fs : list (PacketType * u8 * bytes)) (rest : bytes) :
  tr_ok s -> rx_pkt s = PacketReader_default -> received (transport s) = [] ->
  run s ps s' ->
  Forall (fun x => 0 <= x.1.2 < 16 /\ len x.2 < MAX_CONTENT) fs ->
  received (transport s') ++ rest = concat ((fun x => frame x.1.1 x.1.2 x.2) <$> fs) ->
  exists done_ todo, fs = done_ ++ todo /\
    received (transport s') = concat ((fun x => frame x.1.1 x.1.2 x.2) <$> done_) ++ rd_bytes (rx_pkt s') /\
    Forall2 (fun x p => exists l, from_bytes (frame_ctrl x.1.1 x.1.2) x.2 = (Ret p.1, l)) done_ ps.
Proof.
  intros Hok Hrx Hrc Hrun Hfs Hall. pose proof (run_reader s ps s' Hok Hrun) as Hr. rewrite Hrx in Hr.
  destruct (reader_run_frames _ _ _ _ _ _ Hrc Hr Hfs Hall) as (done_ & todo & Hsplit & Hin & Hps).
  exists done_, todo. split_and!; [exact Hsplit|exact Hin|]. by apply Forall2_fmap_r in Hps.
Qed.

Lemma handle_out p s b s' : tr_ok s -> IncomingPacket_wf p -> process_packet p s = (Ret b, s') ->
  exists out, stream s' = stream s ++ out.
Proof.
  intros Hok Hwf E. destruct (connect_sig s) eqn:Hc.
  { rewrite process_packet_connecting in E by done. injection E as _ <-. exists []. by rewrite app_nil_r. }
  assert ((exists a, p = InSubAck a) \/ (forall a, p <> InSubAck a)) as [[a ->]|Hns]
    by (destruct p; [right|left|right..]; by eauto).
  - destruct (wp_run_ret _ _ _ (wp_suback a s Hok Hwf)) as ([] & s1 & Es & Hr).
    unfold process_packet, mbind, stm_bind in E. cbn in E. rewrite Hc, Es in E. injection E as _ <-.
    destruct (suback_reacted_ok _ _ _ Hok Hr) as (_ & _ & Hst & _). exists []. by rewrite app_nil_r.
  - destruct (wp_inv _ _ _ _ _ _ (wp_packet p s Hok Hc Hwf Hns) E) as (_ & _ & _ & Hst & _). by eexists.
Qed.

Lemma out_step s s1 s' : (exists out, stream s1 = stream s ++ out) -> tr_ok s1 ->
  (tr_ok s1 -> exists out, stream s' = stream s1 ++ out) -> exists out, stream s' = stream s ++ out.
Proof.
  intros (o1 & Ho1) Hok IH. destruct (IH Hok) as (o2 & Ho2). exists (o1 ++ o2).
  by rewrite Ho2, Ho1, (assoc_L (++)).
Qed.

Lemma run_stream s ps s' : tr_ok s -> run s ps s' -> exists out, stream s' = stream s ++ out.
Proof.
  intros Hok Hrun. induction Hrun as [s|s o rt ps s' E _ _ IH|s rt p b s1 ps s' E Ep _ IH|s r st s1 ps s' E _ IH
    |s b s1 ps s' E _ IH|s c st s1 ps s' Hen Hc E _ IH|s st s1 ps s' E _ IH|s sh ps s' Hsh _ IH].
  - exists []. by rewrite app_nil_r.
  - destruct (recv_ok s _ _ Hok E) as (Hok1 & Hst & _). rewrite <- Hst. by apply IH.
  - destruct (recv_ok s _ _ Hok E) as (Hok1 & Hst & Hwf & _).
    destruct (handle_ok p _ _ _ Hok1 (Hwf _ eq_refl) Ep) as (Hok2 & _).
    destruct (handle_out p _ _ _ Hok1 (Hwf _ eq_refl) Ep) as (o1 & Ho1). destruct (IH Hok2) as (o2 & Ho2).
    exists (o1 ++ o2). by rewrite Ho2, Ho1, Hst, (assoc_L (++)).
  - destruct (quiet_write _ _ _ _ Hok E) as (Hok1 & _ & Ho & _). by eapply out_step.
  - destruct (quiet_pre_read _ _ _ Hok E) as (Hok1 & _ & Ho & _). by eapply out_step.
  - destruct (quiet_command _ _ _ _ Hok Hen Hc E) as (Hok1 & _ & Ho & _). by eapply out_step.
  - destruct (quiet_alarm _ _ _ Hok E) as (Hok1 & _ & Ho & _). by eapply out_step.
  - destruct (quiet_client _ _ Hok Hsh) as (Hok1 & _ & Ho & _). by eapply out_step.
Qed.

(** C4: Output is first in, first out. As long as the steps of the main loop
    return, what has been sent or queued is never dropped, reordered or altered
    afterwards, and new packets are appended behind it. If then a step fails
    with an error of the transport, what has been sent by then is a prefix of
    what was sent or queued and of the packets that the step was about to send:
    nothing has overtaken anything (the rest of it is not sent any more, or
    behind the DISCONNECT). *)
Theorem run_output_fifo s ps s' : tr_ok s -> run s ps s' ->
  (exists out, stream s' = stream s ++ out) /\
  forall e s'', fails Command_ok s' e s'' -> exists out more,
    sending Command_ok s' more /\ stream s' = stream s ++ out /\ sent_prefix (stream s ++ out ++ more) s''.
Proof.
  intros Hok Hr. destruct (run_stream _ _ _ Hok Hr) as (out & Hout). split; [by exists out|]. intros e s'' Hf.
  destruct (fails_post Command_ok s' e s'') as (_ & more & Hm & Hp); [done|by eapply run_ok|done|].
  exists out, more. split_and!; [done|done|]. by rewrite (assoc_L (++)), <- Hout.
Qed.

(* ------------------------------------------------------------------ *)
(** ** Exactly-once delivery                                           *)
(* ------------------------------------------------------------------ *)

(** The specification of the receiving side of QoS 2: the IDs received and not
    yet released, and the messages to deliver. *)
Definition q2_next (R : gset Z) (p : IncomingPacket) : gset Z :=
  match p with
  | InPublish m => if decide (msg_qos m = Some ExactlyOnce) then {[msg_id m]} ∪ R else R
  | InPubRel r => R ∖ {[packet_id r]}
  | _ => R
  end.

Definition q2_deliver (R : gset Z) (h : Handled) : list (IncomingPublishPacket * SubscriptionSet) :=
  match h.1 with
  | InPublish m => if decide (msg_qos m = Some ExactlyOnce /\ msg_id m ∈ R) then [] else [(m, h.2)]
  | _ => []
  end.

(** The messages to deliver, each with the subscriptions it meets. *)
Fixpoint delivered (R : gset Z) ps : list (IncomingPublishPacket * SubscriptionSet) :=
  match ps with
  | [] => []
  | h :: ps => q2_deliver R h ++ delivered (q2_next R h.1) ps
  end.

(** [R] is what [s] has recorded as received. *)
Definition records s (R : gset Z) : Prop :=
  forall i, i ∈ R <-> is_Some (pending_packets s !! IdType_pub_rec i).

(** Offering each message to all whose filter matches its topic. *)
Definition offers_of (ms : list (IncomingPublishPacket * SubscriptionSet))
    : list (Recipient * IncomingPublishPacket) :=
  concat ((fun ms => offers (view ms.2) (levels (msg_topic ms.1)) ms.1) <$> ms).

Lemma records_same s s' R : (forall i, pending_packets s' !! IdType_pub_rec i = pending_packets s !! IdType_pub_rec i) ->
  records s R -> records s' R.
Proof. intros E Hr i. by rewrite E. Qed.

Lemma pending_after_rec s p R : records s R -> (forall a, p <> InSubAck a) ->
  forall i, i ∈ q2_next R p <-> is_Some (pending_after s p !! IdType_pub_rec i).
Proof.
  unfold records. intros Hr Hns i. destruct p as [?|?|m|[j]|[j]|[j]|[j]|[j]|?]; cbn [q2_next pending_after packet_id];
    try (by apply Hr).
  - destruct (msg_qos m) as [[| |]|]; try (by apply Hr). rewrite decide_True by done.
    rewrite elem_of_union, elem_of_singleton, Hr, lookup_insert_is_Some.
    destruct (decide (msg_id m = i)) as [->|Hne]; [by split; left|].
    split; (intros [Heq|Hi]; [left|right]); [by rewrite Heq|split; [|done]|by injection Heq|by destruct Hi].
    unfold IdType_pub_rec. congruence.
  - rewrite lookup_delete_ne by done. apply Hr.
  - rewrite lookup_delete_ne, lookup_insert_ne by done. apply Hr.
  - rewrite elem_of_difference, elem_of_singleton, Hr, lookup_delete_is_Some.
    split; intros [Hne ?]; (split; [|done]) || (split; [done|]); unfold IdType_pub_rec in *; congruence.
  - rewrite lookup_delete_ne by done. apply Hr.
  - rewrite lookup_delete_ne by done. apply Hr.
Qed.

(** One packet, against the specification. *)
Lemma handle_q2 p s b s' R : tr_ok s -> connect_sig s = false -> IncomingPacket_wf p ->
  process_packet p s = (Ret b, s') -> records s R ->
  connect_sig s' = false /\ records s' (q2_next R p) /\
  offered (recipients s') ≡ₚ offered (recipients s) ++ offers_of (q2_deliver R (p, subscriptions s)).
Proof.
  intros Hok Hc Hwf E Hrec.
  assert ((exists a, p = InSubAck a) \/ (forall a, p <> InSubAck a)) as [[a ->]|Hns]
    by (destruct p; [right|left|right..]; by eauto).
  - destruct (wp_run_ret _ _ _ (wp_suback a s Hok Hwf)) as ([] & s1 & Es & Hr).
    unfold process_packet, mbind, stm_bind in E. cbn in E. rewrite Hc, Es in E. injection E as _ <-.
    destruct (suback_reacted_ok _ _ _ Hok Hr) as (_ & (_ & _ & Hcs & _) & _ & Hp & Hre).
    split_and!; [congruence|by eapply records_same; [intros; by rewrite Hp|]|].
    cbn. by rewrite Hre, app_nil_r.
  - destruct (wp_inv _ _ _ _ _ _ (wp_packet p s Hok Hc Hwf Hns) E)
      as (_ & _ & (_ & _ & Hcs & _) & _ & Hp & _ & Ho & _).
    split_and!; [congruence| |].
    { intros i. rewrite Hp. by apply pending_after_rec. }
    assert (delivery s p = offers_of (q2_deliver R (p, subscriptions s))) as Hd; [|by rewrite Ho, Hd].
    unfold delivery, offers_of. destruct p; try done. cbn [q2_deliver fst snd]. unfold duplicate.
    pose proof (Hrec (msg_id p)). case_bool_decide as Hb; [by rewrite decide_True by tauto|].
    rewrite decide_False by tauto. cbn. by rewrite app_nil_r.
Qed.

Lemma offers_of_app m1 m2 : offers_of (m1 ++ m2) = offers_of m1 ++ offers_of m2.
Proof. unfold offers_of. by rewrite fmap_app, concat_app. Qed.

Lemma quiet_q2 s s1 R : quiet s s1 -> connect_sig s = false -> records s R ->
  tr_ok s1 /\ connect_sig s1 = false /\ records s1 R /\ recipients s1 = recipients s.
Proof.
  intros (? & (_ & _ & Hc & _) & _ & Hr & Hp) Hcs Hrec.
  split_and!; [assumption|congruence|by eapply records_same|done].
Qed.

Lemma run_q2 s ps s' R : tr_ok s -> connect_sig s = false -> records s R -> run s ps s' ->
  offered (recipients s') ≡ₚ offered (recipients s) ++ offers_of (delivered R ps).
Proof.
  intros Hok Hc Hrec Hrun. revert R Hrec Hok Hc.
  induction Hrun as [s|s o rt ps s' E _ _ IH|s rt p b s1 ps s' E Ep _ IH|s r st s1 ps s' E _ IH
    |s b s1 ps s' E _ IH|s c st s1 ps s' Hen Hcmd E _ IH|s st s1 ps s' E _ IH|s sh ps s' Hsh _ IH]; intros R Hrec Hok Hc.
  - cbn. by rewrite app_nil_r.
  - destruct (recv_ok s _ _ Hok E) as (Hok1 & _). by apply (IH R).
  - destruct (recv_ok s _ _ Hok E) as (Hok1 & _ & Hwf & _). specialize (Hwf _ eq_refl).
    destruct (handle_ok p _ _ _ Hok1 Hwf Ep) as (Hok2 & _).
    destruct (handle_q2 p (with_reader rt s) b s1 R Hok1 Hc Hwf Ep Hrec) as (Hc1 & Hrec1 & Ho1).
    rewrite (IH _ Hrec1 Hok2 Hc1), Ho1. cbn [delivered fst]. by rewrite offers_of_app, (assoc_L (++)).
  - destruct (quiet_q2 _ _ R (quiet_write _ _ _ _ Hok E) Hc Hrec) as (? & ? & ? & <-). by apply (IH R).
  - destruct (quiet_q2 _ _ R (quiet_pre_read _ _ _ Hok E) Hc Hrec) as (? & ? & ? & <-). by apply (IH R).
  - destruct (quiet_q2 _ _ R (quiet_command _ _ _ _ Hok Hen Hcmd E) Hc Hrec) as (? & ? & ? & <-). by apply (IH R).
  - destruct (quiet_q2 _ _ R (quiet_alarm _ _ _ Hok E) Hc Hrec) as (? & ? & ? & <-). by apply (IH R).
  - destruct (quiet_q2 _ _ R (quiet_client _ _ Hok Hsh) Hc Hrec) as (? & ? & ? & <-). by apply (IH R).
Qed.
End runs.

Abbreviation run := (run_of Command_ok).

(** The messages published with QoS 2 under the ID [i]. *)
Definition q2_with_id (i : Z) (m : IncomingPublishPacket) : Prop :=
  msg_qos m = Some ExactlyOnce /\ msg_id m = i.
#[global] Instance q2_with_id_dec i m : Decision (q2_with_id i m).
Proof. unfold q2_with_id. apply _. Defined.

Definition published (p : IncomingPacket) : list IncomingPublishPacket :=
  match p with InPublish m => [m] | _ => [] end.

(** Until its ID is released, only the first copy of a QoS 2 message is
    delivered, and none if it had been received before. *)
Lemma delivered_once (ps : list Handled) (R : gset Z) (i : Z) :
  (forall r, InPubRel r ∈ ps.*1 -> packet_id r <> i) ->
  filter (q2_with_id i) (delivered R ps).*1
  = if decide (i ∈ R) then [] else take 1 (filter (q2_with_id i) (concat (published <$> ps.*1))).
Proof.
  revert R. induction ps as [|[p set] ps IH]; intros R Hnr; cbn [delivered fst]; [by case_decide|].
  rewrite fmap_app, filter_app, IH by (intros r Hr; apply Hnr; by constructor).
  cbn [fmap list_fmap concat fst]. rewrite filter_app.
  assert (forall r, p = InPubRel r -> packet_id r <> i) as Hp by (intros r ->; apply Hnr; by constructor).
  destruct p as [?|?|m|?|?|r|?|?|?]; unfold q2_deliver; cbn [q2_next published fst snd]; try done.
  - destruct (decide (q2_with_id i m)) as [[Hq Hi]|Hno].
    + rewrite (decide_True _ _ Hq). rewrite (decide_True (P := i ∈ {[msg_id m]} ∪ R)) by set_solver.
      rewrite (filter_cons_True _ m []) by done. subst i.
      destruct (decide (msg_id m ∈ R)); [by rewrite decide_True|]. rewrite decide_False by tauto.
      cbn [fmap list_fmap fst]. by rewrite filter_cons_True.
    + assert (filter (q2_with_id i) [m] = []) as Hn by (by rewrite filter_cons_False).
      assert (filter (q2_with_id i) (if decide (msg_qos m = Some ExactlyOnce /\ msg_id m ∈ R) then [] else [(m, set)]).*1 = [])
        as -> by (by case_decide).
      rewrite Hn. cbn [app]. destruct (decide (msg_qos m = Some ExactlyOnce)) as [Hq|]; [|done].
      assert (i ∈ {[msg_id m]} ∪ R <-> i ∈ R) as Hiff by (unfold q2_with_id in Hno; set_solver).
      destruct (decide (i ∈ R)); [rewrite decide_True by tauto|rewrite decide_False by tauto]; done.
  - specialize (Hp r eq_refl). cbn [app filter list_filter].
    assert (i ∈ R ∖ {[packet_id r]} <-> i ∈ R) as Hiff by set_solver.
    destruct (decide (i ∈ R)); [rewrite decide_True by tauto|rewrite decide_False by tauto]; done.
Qed.

(* ------------------------------------------------------------------ *)
(** ** The main loop                                                   *)
(* ------------------------------------------------------------------ *)

Section main_loop.
#[local] Existing Instance production.
Context `{ClockOk} {T X : Type} `{TransportOk T} `{RecipientsOk X}.
Implicit Types (s : Transceiver T X) (ps : list Handled).

(** A run with a last step that fails. *)
Definition run_fails s (e : io_error) s' : Prop := exists ps s1, run s ps s1 /\ fails Command_ok s1 e s'.

(** Running [m] from [s] takes the steps of a run; if it fails, after a last
    step that does. *)
Definition runs {A} (m : stm (Transceiver T X) io_error A) s : Prop :=
  safe m (fun _ s' => exists ps, run s ps s') (run_fails s) s.

Lemma run_fails_after s ps s1 e s' : run s ps s1 -> run_fails s1 e s' -> run_fails s e s'.
Proof. intros Hr (ps' & s2 & Hr' & Hf). exists (ps ++ ps'), s2. split; [by eapply run_trans|done]. Qed.

Lemma runs_after {A} (m : stm (Transceiver T X) io_error A) s s1 ps1 :
  run s ps1 s1 -> runs m s1 -> safe m (fun _ s' => exists ps, run s ps s') (run_fails s) s1.
Proof.
  intros Hr Hm. eapply safe_mono; [exact Hm| |].
  - intros _ s' (ps & Hps). exists (ps1 ++ ps). by eapply run_trans.
  - intros e s'. by eapply run_fails_after.
Qed.

Lemma fails_now s e s' : fails Command_ok s e s' -> run_fails s e s'.
Proof. intros Hf. exists [], s. split; [apply run_nil|done]. Qed.

Lemma runs_ret {A} (a : A) s : runs (mret a) s.
Proof. exists []. apply run_nil. Qed.

(** A first step [m] that is itself a step of a run. *)
Lemma runs_bind {A B} (m : stm (Transceiver T X) io_error A) (k : A -> stm (Transceiver T X) io_error B) s :
  safe m (fun a s1 => run s [] s1 /\ runs (k a) s1) (run_fails s) s -> runs (m ≫= k) s.
Proof.
  intros Hm. apply safe_bind. eapply safe_mono; [exact Hm| |done]. intros a s1 [Hr Hk]. by apply (runs_after _ s s1 []).
Qed.

Lemma runs_check r s : safe (check_ready r) (fun _ s1 => s1 = s) (run_fails s) s.
Proof. destruct r as [u|e]; [done|]. apply fails_now. constructor. Qed.

Lemma runs_read_loop fuel s : tr_ok s -> runs (read_loop fuel) s.
Proof.
  revert s. induction fuel as [|fuel IH]; intros s Hok; [done|]. cbn [read_loop].
  destruct (recv (rx_pkt s, transport s)) as [o rt] eqn:E.
  destruct (recv_ok s o rt Hok E) as (Hok1 & _ & Hwf & _ & Hp & Hu & Hf).
  assert (forall m : stm (Transceiver T X) io_error TaskState, runs m (with_reader rt s) ->
    match o with Ret NeedMoreData | Ret ConnectionClosed => True | Throw e => is_would_block e = true | _ => False end ->
    safe m (fun _ s' => exists ps, run s ps s') (run_fails s) (with_reader rt s)) as Hstep.
  { intros m Hm Ho. eapply (runs_after m s _ []); [|done]. eapply run_recv; [exact E|exact Ho|apply run_nil]. }
  unfold runs. apply safe_bind. unfold safe, attempt, zoom. rewrite E.
  fold (with_reader rt s). destruct o as [[p| |]|e| | |]; try done.
  - specialize (Hwf p eq_refl). apply safe_bind. unfold safe.
    destruct (process_packet p (with_reader rt s)) as [[b|e| | |] s1] eqn:Ep;
      [|apply fails_now; by eapply fails_handle|exfalso..]; try (pose proof (wp_packet_ok p _ Hok1 Hwf) as Hw; unfold wp in Hw; rewrite Ep in Hw; exact Hw).
    destruct (handle_ok p _ _ _ Hok1 Hwf Ep) as (Hok2 & _).
    assert (run s [(p, subscriptions s)] s1) as Hr1 by (eapply run_handle; [exact E|exact Ep|apply run_nil]).
    fold (safe (if b then mret WantStop else read_loop fuel) (fun _ s' => exists ps, run s ps s') (run_fails s) s1).
    eapply runs_after; [exact Hr1|]. destruct b; [apply runs_ret|by apply IH].
  - fold (safe (mret TConnectionClosed : stm (Transceiver T X) io_error _)
      (fun _ s' => exists ps, run s ps s') (run_fails s) (with_reader rt s)). apply Hstep; [apply runs_ret|done].
  - fold (safe (read_loop fuel) (fun _ s' => exists ps, run s ps s') any (with_reader rt s)).
    apply Hstep; [by apply IH|done].
  - destruct (is_would_block e) eqn:He; [|apply fails_now; by apply fails_recv].
    fold (safe (mret WantContinue : stm (Transceiver T X) io_error _)
      (fun _ s' => exists ps, run s ps s') (run_fails s) (with_reader rt s)). apply Hstep; [apply runs_ret|done].
Qed.

(** The commands, and what other tasks do to the shared state, keep the
    client's promises. *)
Definition event_ok (ev : Event) : Prop :=
  match ev with
  | CommandReceived (Some cmd) => Command_ok cmd
  | ClientActs f => forall sh, shared_ok sh -> shared_ok (f sh)
  | _ => True
  end.

Lemma runs_step fuel ev s : tr_ok s -> event_ok ev -> event_enabled s ev = true -> runs (task_step fuel ev) s.
Proof.
  intros Hok Hev Hen. assert (tx_ok s) as Htx by (destruct Hok as (_ & _ & ? & _); assumption).
  destruct ev as [r|r|c| |f]; cbn [task_step].
  - apply safe_eqn; [by eapply wp_mono; [by apply wp_write_ready|..]| |].
    + intros st s' E. exists []. eapply run_write; [exact E|apply run_nil].
    + intros e s' E. apply fails_now. by eapply fails_write.
  - unfold on_read_ready. apply runs_bind. eapply safe_mono; [apply runs_check| |done].
    intros _ s1 ->. split; [apply run_nil|]. apply runs_bind.
    apply safe_eqn; [by eapply wp_mono; [apply wp_pre_read|..]| |].
    + intros b s' E. split; [eapply run_pre_read; [exact E|apply run_nil]|].
      destruct b; [|apply runs_ret]. apply runs_read_loop. by eapply quiet_pre_read.
    + intros e s' E. apply fails_now. by apply fails_pre_read.
  - assert (forall cmd, c = Some cmd -> Command_ok cmd) as Hc by (intros cmd ->; exact Hev).
    pose proof Hen as Hen'. cbn in Hen'. rewrite !andb_true_iff in Hen'. destruct Hen' as [_ Hnone].
    apply bool_decide_eq_true in Hnone.
    apply safe_eqn; [by eapply wp_mono; [by apply wp_command|..]| |].
    + intros st s' E. exists []. eapply run_command; [exact Hen|exact Hc|exact E|apply run_nil].
    + intros e s' E. apply fails_now. by eapply fails_command.
  - apply safe_eqn; [by eapply wp_mono; [by apply wp_any_alarm|..]| |].
    + intros st s' E. exists []. eapply run_alarm; [exact E|apply run_nil].
    + intros e s' E. apply fails_now. by apply fails_alarm.
  - assert (shared_ok (shared s)) as Hsh by (destruct Hok as (_ & _ & _ & ? & _); assumption).
    exists []. apply (run_client _ s (f (shared s))); [exact (Hev _ Hsh)|apply run_nil].
Qed.

Lemma runs_task_loop fuel evs s : tr_ok s -> Forall event_ok evs -> runs (task_loop fuel evs) s.
Proof.
  revert s. induction evs as [|ev evs IH]; intros s Hok Hev; [apply runs_ret|].
  apply Forall_cons in Hev as [He Hev]. cbn [task_loop]. apply safe_wp_bind, wp_gets. apply safe_if; intros Hen.
  - apply safe_bind. eapply safe_mono; [by apply (runs_step fuel ev s)| |done]. intros st s1 (ps & Hr).
    apply (runs_after _ s s1 ps Hr). destruct st; [|apply runs_ret..]. apply IH; [by eapply run_ok|done].
  - by apply IH.
Qed.

(** C2: Whatever the broker sends and whatever the transport and the scheduler
    do, and whatever the client does as long as its commands carry a packet
    that is not empty and topics of less than 65536 bytes ([long_topic_panics]
    shows what happens otherwise) and the shared counters stay within their
    width, the main loop does not panic, accesses no buffer out of range and
    reads no uninitialised byte, for any number of turns of its read loop. What
    it has done if it comes to the end of the events, interleaved with what
    other tasks do to the shared state, is a sequence of the steps of [run], so
    that the theorems on runs apply to it; if it ends with an error, it is such
    a sequence and one step that fails. *)
Theorem task_loop_safe (fuel : nat) (evs : list Event) s :
  tr_ok s -> Forall event_ok evs ->
  (exists o s' ps, task_loop fuel evs s = (Ret o, s') /\ run s ps s' /\ tr_ok s') \/
  (exists e s' s1 ps, task_loop fuel evs s = (Throw e, s') /\ run s ps s1 /\ tr_ok s1 /\
     fails Command_ok s1 e s' /\ tr_weak s') \/
  (exists s', task_loop fuel evs s = (OutOfFuel, s')).
Proof.
  intros Hok Hev. pose proof (runs_task_loop fuel evs s Hok Hev) as Hs. unfold runs, safe in Hs.
  destruct (task_loop fuel evs s) as [[o|e| | |] s']; [| |done|done|by eauto].
  - destruct Hs as (ps & Hr). left. exists o, s', ps. split; [done|]. split; [done|]. by eapply run_ok.
  - destruct Hs as (ps & s1 & Hr & Hf). right; left. assert (tr_ok s1) as Hok1 by (by eapply run_ok).
    exists e, s', s1, ps. split_and!; [done|done|assumption|done|]. by apply (fails_post Command_ok s1 e).
Qed.

(* ------------------------------------------------------------------ *)
(** ** The read loop ends                                              *)
(* ------------------------------------------------------------------ *)

(** The turns that are left if no more than [N] bytes arrive: every turn takes
    bytes from the stream or a packet from the buffer. *)
Definition turns_left (N : nat) (rt : PacketReader * T) : nat :=
  2 * (N - length (received rt.2)) + length (rd_bytes rt.1).

Lemma recv_turn N rt rt' st : reader_ok rt.1 -> recv rt = (Ret st, rt') ->
  (length (received rt'.2) <= N)%nat ->
  match st with
  | Incoming _ => (turns_left N rt' < turns_left N rt)%nat
  | NeedMoreData => (turns_left N rt' < turns_left N rt)%nat \/ (stuck rt.1 /\ rt' = rt)
  | ConnectionClosed => True
  end.
Proof.
  intros Hr E HN. destruct rt as [r t], rt' as [r' t']. cbn [fst snd] in *.
  assert (stuck r -> (Ret NeedMoreData, (r, t)) = (Ret (E := io_error) st, (r', t'))) as Hstuck.
  { intros Hs. rewrite <- E. symmetry. apply stuck_recv; [done|]. destruct Hr as [_ Hr]. rewrite (proj1 Hs) in Hr. apply Hr. }
  apply recv_step_inv in E as (_ & _ & ch & Hch & Hres); [|done]. cbn [fst snd] in *.
  unfold turns_left. cbn [fst snd]. rewrite Hch, length_app in *. destruct st as [p| |]; [|done|].
  - destruct Hres as [(fr & c & body & rest & Hsp & Hfr & _) _].
    apply (f_equal length) in Hsp. rewrite !length_app in Hsp.
    destruct Hfr as (b0 & tl & si & -> & _). cbn [length] in Hsp. lia.
  - destruct Hres as [Hb [Hne|Hst]].
    + left. rewrite Hb, length_app. destruct ch; [done|]. cbn [length] in *. lia.
    + right. specialize (Hstuck Hst). injection Hstuck as <- <-. done.
Qed.

Lemma stuck_read_loop fuel s : tr_ok s -> stuck (rx_pkt s) -> read_loop fuel s = (OutOfFuel, s).
Proof.
  intros (I1 & _) Hs. induction fuel as [|fuel IH]; [done|]. cbn [read_loop].
  unfold mbind, stm_bind, attempt, zoom.
  rewrite stuck_recv by (done || (destruct I1 as [_ I1]; rewrite (proj1 Hs) in I1; apply I1)). cbn [fst snd].
  assert (with_rx_pkt (rx_pkt s) (with_transport (transport s) s) = s) as -> by (by destruct s). exact IH.
Qed.

Lemma read_loop_turns N fuel s : tr_ok s ->
  (forall ps s', run s ps s' -> (length (received (transport s')) <= N)%nat) ->
  (turns_left N (rx_pkt s, transport s) < fuel)%nat ->
  match read_loop fuel s with
  | (OutOfFuel, s') => stuck (rx_pkt s')
  | (Panic, _) | (UB, _) => False
  | _ => True
  end.
Proof.
  revert s. induction fuel as [|fuel IH]; intros s Hok HN Hf; [lia|].
  destruct (recv (rx_pkt s, transport s)) as [o rt] eqn:E.
  destruct (recv_ok s o rt Hok E) as (Hok1 & _ & Hwf & _ & Hp & Hu & Ho).
  cbn [read_loop]. unfold mbind, stm_bind, attempt, zoom. rewrite E. fold (with_reader rt s).
  destruct o as [st|e| | |]; [|by destruct (is_would_block e)|done..].
  assert (reader_ok (rx_pkt s)) as Hr by (destruct Hok as (I1 & _); exact I1).
  assert (forall ps s1, run s ps s1 -> forall ps' s', run s1 ps' s' -> (length (received (transport s')) <= N)%nat) as Hafter.
  { intros ps s1 Hr1 ps' s' Hr2. eapply HN, run_trans; eassumption. }
  destruct st as [p| |]; [|done|].
  - specialize (Hwf p eq_refl). pose proof (wp_packet_ok p _ Hok1 Hwf) as Hw. unfold wp in Hw.
    destruct (process_packet p (with_reader rt s)) as [[b|e| | |] s1] eqn:Ep; [|done..]. destruct b; [done|].
    destruct (handle_ok p _ _ _ Hok1 Hwf Ep) as (Hok2 & Hrx & Hrc).
    assert (run s [(p, subscriptions s)] s1) as Hr1 by (eapply run_handle; [exact E|exact Ep|apply run_nil]).
    apply IH; [exact Hok2|exact (Hafter _ _ Hr1)|].
    pose proof (HN _ _ Hr1) as Hl. rewrite Hrc in Hl. pose proof (recv_turn N (rx_pkt s, transport s) rt (Incoming p) Hr E Hl) as Ht.
    unfold turns_left in *. cbn [fst snd] in *. rewrite Hrx, Hrc. cbn [rx_pkt transport with_reader with_rx_pkt with_transport].
    lia.
  - assert (run s [] (with_reader rt s)) as Hr1 by (eapply run_recv; [exact E|done|apply run_nil]).
    destruct (recv_turn N (rx_pkt s, transport s) rt NeedMoreData Hr E (HN _ _ Hr1)) as [Ht|[Hs ->]].
    + apply IH; [exact Hok1|exact (Hafter _ _ Hr1)|]. destruct rt. cbn [with_reader rx_pkt transport with_rx_pkt with_transport fst snd] in *. lia.
    + rewrite stuck_read_loop; [exact Hs|exact Hok1|exact Hs].
Qed.
End main_loop.

(* ------------------------------------------------------------------ *)
(** ** Theorems                                                        *)
(* ------------------------------------------------------------------ *)

Section theorems.
#[local] Existing Instance production.
Context `{ClockOk} {T X : Type} `{TransportOk T} `{RecipientsOk X}.
Implicit Types (s : Transceiver T X) (ps : list Handled).

(** C1: Exactly-once delivery. In a run of a connected transceiver, each
    message that the QoS 2 receiver's specification delivers is offered, once,
    to those whose filters matched its topic at that time, and no other message
    is offered; and as long as the broker has not released an ID, of all the
    QoS 2 messages received under it only the first is delivered, none if the
    ID had been received before the run. *)
Theorem qos2_exactly_once s ps s' (R : gset Z) :
  tr_ok s -> connect_sig s = false -> records s R -> run s ps s' ->
  offered (recipients s') ≡ₚ offered (recipients s) ++ offers_of (delivered R ps) /\
  (forall i, (forall r, InPubRel r ∈ ps.*1 -> packet_id r <> i) ->
     filter (q2_with_id i) (delivered R ps).*1
     = if decide (i ∈ R) then [] else take 1 (filter (q2_with_id i) (concat (published <$> ps.*1)))).
Proof.
  intros Hok Hc Hr Hrun. split; [by eapply run_q2|]. intros i. apply delivered_once.
Qed.

(** C6: The reaction to every packet but a SUBACK, once connected: what is
    sent (PUBACK; PUBREC, the same one again for a duplicate; PUBREL, the same
    one again; PUBCOMP), what stays recorded, to whom a message is offered,
    which waiter is woken and which entry leaves the shared maps, are the
    functions [reply], [pending_after], [delivery], [wakes] and [shared_after]
    of the state before. The only failure is one of the transport. *)
Theorem process_packet_reacts p s :
  tr_ok s -> connect_sig s = false -> IncomingPacket_wf p -> (forall a, p <> InSubAck a) ->
  (exists s', process_packet p s = (Ret false, s') /\ reacted p s s') \/
  (exists e s', process_packet p s = (Throw e, s') /\ is_would_block e = false).
Proof.
  intros Hok Hc Hwf Hns. destruct (wp_run _ _ _ _ (wp_packet p s Hok Hc Hwf Hns))
    as [(b & s' & E & -> & Hr)|(e & s' & E & He & _)].
  - left. exists s'. exact (conj E Hr).
  - right. exists e, s'. exact (conj E He).
Qed.

(** C24: A SUBACK settles the request it answers and no other: with its first
    result the recipient enters the tree under the filter requested, or the
    shared entry is removed, and all who wait for it are woken. A SUBACK
    without results drops the request and wakes nobody. *)
Theorem process_suback_reacts a s :
  tr_ok s -> connect_sig s = false -> IncomingPacket_wf (InSubAck a) ->
  exists s', process_packet (InSubAck a) s = (Ret false, s') /\ tr_ok s' /\ suback_reacted a s s'.
Proof.
  intros Hok Hc Hwf. destruct (wp_run_ret _ _ _ (wp_suback a s Hok Hwf)) as ([] & s' & E & Hr).
  exists s'. split; [unfold process_packet, mbind, stm_bind; cbn; by rewrite Hc, E|].
  split; [|done]. by eapply suback_reacted_ok.
Qed.

(** The first packet decides the connection: a CONNACK passes its result
    on, anything else is a protocol error; either way exactly one result is
    signalled, the task stops exactly on an error, and nothing else changes. *)
Theorem first_packet_connects p s :
  connect_sig s = true ->
  process_packet p s
  = (Ret (is_err (connect_answer p)),
     with_conn_results (conn_results s ++ [connect_answer p]) (with_connect_sig false s)).
Proof. apply process_packet_connecting. Qed.

(** C10: The effect of every command that carries a packet that is not empty
    and topics of less than 65536 bytes: a publication is sent and, above
    QoS 0, recorded until answered; a subscription adds a recipient to an
    existing one, or is requested with the next ID of the counter; an
    unsubscription clears the filter and is sent with the next ID and recorded.
    What was recorded under the same type and ID is replaced. The only failure
    is one of the transport, after a prefix of that packet was sent. *)
Theorem command_effects c s :
  tr_ok s -> event_enabled s (CommandReceived c) = true -> (forall cmd, c = Some cmd -> Command_ok cmd) ->
  (exists st s', on_command c s = (Ret st, s') /\ tr_ok s' /\ unchanged s s' /\ command_done c st s s') \/
  (exists e s', on_command c s = (Throw e, s') /\ io_failed (command_out c s) s e s').
Proof.
  intros Hok Hen Hc. cbn in Hen. rewrite !andb_true_iff in Hen. destruct Hen as [_ Htx].
  apply bool_decide_eq_true in Htx.
  destruct (wp_run _ _ _ _ (wp_command c s Hok Htx Hc)) as [(st & s' & E & Hd)|(e & s' & E & He)].
  - left. exists st, s'. exact (conj E Hd).
  - right. exists e, s'. exact (conj E He).
Qed.

(** C9: Nothing unanswered is forgotten: when the alarm fires on an established
    connection, a keep-alive is sent if it is due, and every entry of the
    timeout queue that has expired is dealt with: if its packet is still
    unanswered the packet is sent again, a PUBLISH with the bit 3 of its first
    byte set, which marks a duplicate, and any other packet as it was, and the
    entry goes to the end of the queue; otherwise the entry is dropped. Nothing
    is sent again before its delay is over. If the transport fails on the way,
    what was sent by then is a prefix of the keep-alive and the first packets
    to be sent again. *)
Theorem alarm_resends s :
  tr_ok s -> connect_sig s = false ->
  (exists s', on_alarm s = (Ret WantContinue, s') /\ alarmed s s') \/
  (exists e s' k, on_alarm s = (Throw e, s') /\
     io_failed (ping_due s ++ concat (resend_wire s <$> take k (timeout_ids s))) s e s').
Proof.
  intros Hok Hc. destruct (wp_run _ _ _ _ (wp_alarm s Hok Hc)) as [(st & s' & E & -> & Ha)|(e & s' & E & He)].
  - left. exists s'. exact (conj E Ha).
  - destruct He as [k He]. right. exists e, s', k. exact (conj E He).
Qed.

(** [continue_writing_packet] terminates; it sends a prefix of what is
    pending and loses nothing: unless it fails for good, what is sent and what
    is still pending make the same stream as before; it returns [false]
    exactly when nothing is left to send. *)
Theorem continue_writing_correct s :
  tx_ok s ->
  (exists r s', continue_writing_packet (write_fuel s) s = (Ret r, s') /\ written_all s r s' /\
     (r = false -> pending_out s' = [])) \/
  (exists e s', continue_writing_packet (write_fuel s) s = (Throw e, s') /\ write_failed s e s').
Proof.
  intros Hok. destruct (wp_run _ _ _ _ (wp_continue (write_fuel s) s Hok (write_fuel_enough s)))
    as [(r & s' & E & Hw)|(e & s' & E & Hw)]; [left|right; exists e, s'; exact (conj E Hw)].
  exists r, s'. split_and!; [done|done|]. intros ->. destruct Hw as (_ & (Hq & _) & _ & Hn).
  specialize (Hn eq_refl). unfold pending_out. by rewrite Hn, (Hq Hn).
Qed.

(** Queueing a packet appends its wire form (with the DUP flag if asked
    for) to what is sent or pending, whether the packet goes out at once,
    partly, or behind others; the packet in transmission is never overtaken. *)
Theorem queue_internal_packet_correct b dup s :
  tx_ok s -> b <> [] ->
  (exists s', queue_internal_packet b dup s = (Ret tt, s') /\ queued b dup s s') \/
  (exists e s', queue_internal_packet b dup s = (Throw e, s') /\ is_would_block e = false /\
     out_frame s s' /\ tx_weak s' /\ sent_prefix (stream s ++ wire b dup) s').
Proof.
  intros Hok Hb. destruct (wp_run _ _ _ _ (wp_queue b dup s Hok Hb)) as [([] & s' & E & Hw)|(e & s' & E & Hw)].
  - left. exists s'. exact (conj E Hw).
  - right. exists e, s'. exact (conj E Hw).
Qed.

(** C23: The read loop of the task ends. If no more than [N] bytes arrive, it
    takes no more turns than twice the bytes that are still to come and those
    in the reader's buffer, and then one; it neither panics nor breaks a memory
    contract. The only exception is a reader that holds a header whose
    remaining length does not end. *)
Theorem read_loop_ends (N fuel : nat) s :
  tr_ok s -> (forall ps s', run s ps s' -> (length (received (transport s')) <= N)%nat) ->
  (2 * (N - length (received (transport s))) + length (rd_bytes (rx_pkt s)) < fuel)%nat ->
  (exists st s', read_loop fuel s = (Ret st, s')) \/ (exists e s', read_loop fuel s = (Throw e, s')) \/
  (exists s', read_loop fuel s = (OutOfFuel, s') /\ stuck (rx_pkt s')).
Proof.
  intros Hok HN Hf. pose proof (read_loop_turns N fuel s Hok HN Hf) as Hl.
  destruct (read_loop fuel s) as [[st|e| | |] s']; [left|right; left|done|done|right; right]; eauto.
Qed.

(** C35: Once the reader holds a header whose four length bytes all announce
    another one, the read loop of the task never ends: it runs out of any
    number of turns without reading, handling or changing anything. *)
Theorem malformed_header_spins (fuel : nat) s (c b1 b2 b3 b4 : u8) :
  Forall (fun b => Z.land b 0x80 <> 0) [b1; b2; b3; b4] ->
  rx_pkt s = mkReader [c; b1; b2; b3; b4] None ->
  read_loop fuel s = (OutOfFuel, s).
Proof.
  intros Hb Hrx. induction fuel as [|fuel IH]; [done|]. cbn [read_loop].
  unfold mbind, stm_bind, attempt, zoom. rewrite Hrx, malformed_stuck by done. cbn [fst snd].
  rewrite <- Hrx. assert (with_rx_pkt (rx_pkt s) (with_transport (transport s) s) = s) as -> by (by destruct s).
  exact IH.
Qed.
End theorems.

(* ------------------------------------------------------------------ *)
(** ** Concrete instances                                              *)
(* ------------------------------------------------------------------ *)

Section samples.
#[local] Existing Instances production sample_clock sample_clock_ok.

Abbreviation tr0 := (sample_tr false sample_in).
Abbreviation tr_slow := (sample_tr false sample_slow).

(** The two copies of the message that arrives. *)
Definition sample_q2 (f : Z) : IncomingPublishPacket :=
  message (mkPublishFlags f) 5 [97; 47; 98] [121].

(** Both are received and handled. *)
Definition sample_end : SampleTransceiver := (read_loop 20 tr0).2.

Lemma sample_run : exists set1 set2,
  run tr0 [(InPublish (sample_q2 4), set1); (InPublish (sample_q2 12), set2)] sample_end.
Proof.
  eexists _, _.
  do 2 (repeat (eapply run_recv; [vm_compute; reflexivity|exact I|]);
    eapply run_handle; [vm_compute; reflexivity|vm_compute; reflexivity|]).
  eapply run_recv; [vm_compute; reflexivity|vm_compute; reflexivity|].
  vm_compute. apply run_nil.
Qed.

Lemma run_invariant_witness : exists ps, length ps = 2%nat /\ run tr0 ps sample_end /\ tr_ok sample_end /\
  forall e s'', fails Command_ok sample_end e s'' -> tr_weak s''.
Proof.
  destruct sample_run as (set1 & set2 & Hr). eexists. refine (conj _ (conj Hr _)); [reflexivity|].
  exact (run_invariant _ _ _ (sample_tr_ok false sample_in) Hr).
Defined.

Lemma run_handles_stream_witness :
  exists done_ todo, [(TPublish, 4, [0; 3; 97; 47; 98; 0; 5; 121]); (TPublish, 12, [0; 3; 97; 47; 98; 0; 5; 121])]
                     = done_ ++ todo /\
    received (transport sample_end) = concat ((fun x => frame x.1.1 x.1.2 x.2) <$> done_) ++ rd_bytes (rx_pkt sample_end).
Proof.
  destruct sample_run as (set1 & set2 & Hr).
  destruct (run_handles_stream tr0 [(InPublish (sample_q2 4), set1); (InPublish (sample_q2 12), set2)] sample_end
    [(TPublish, 4, [0; 3; 97; 47; 98; 0; 5; 121]); (TPublish, 12, [0; 3; 97; 47; 98; 0; 5; 121])] []
    (sample_tr_ok false sample_in)) as (d & todo & Hd & Hin & _).
  - reflexivity.
  - vm_compute. reflexivity.
  - exact Hr.
  - repeat constructor; cbn; lia.
  - vm_compute. reflexivity.
  - exact (ex_intro _ d (ex_intro _ todo (conj Hd Hin))).
Defined.

(** The PUBREC is sent twice. *)
Lemma run_output_fifo_witness : exists out, stream sample_end = stream tr0 ++ out /\ length out = 8%nat.
Proof.
  destruct sample_run as (set1 & set2 & Hr).
  destruct (run_output_fifo _ _ _ (sample_tr_ok false sample_in) Hr) as [(out & Ho) _].
  exists out. split; [exact Ho|]. apply (f_equal length) in Ho. rewrite length_app in Ho.
  assert (length (stream sample_end) = 8%nat) as E1 by (vm_compute; reflexivity).
  assert (length (stream tr0) = 0%nat) as E2 by (vm_compute; reflexivity). lia.
Defined.

Lemma task_loop_safe_witness :
  exists o s' ps, task_loop 20 [ReadReady (Ok tt); ClientActs (set_subs ∅); AlarmTick; CommandReceived (Some CDisconnect)] tr0 = (Ret o, s') /\
     run tr0 ps s' /\ tr_ok s'.
Proof.
  destruct (task_loop_safe 20 [ReadReady (Ok tt); ClientActs (set_subs ∅); AlarmTick; CommandReceived (Some CDisconnect)]
    tr0 (sample_tr_ok false sample_in)) as [Ho|[(e & s' & s1 & ps & E & _)|(s' & E)]].
  - do 4 (apply Forall_cons_2; [first [exact I|exact (fun sh Hs => Hs)]|]). constructor.
  - exact Ho.
  - vm_compute in E. discriminate.
  - vm_compute in E. discriminate.
Defined.

(** The message is offered to the seven recipients on ["a/*"] and the one on
    ["a/#"], once, though it arrived twice. *)
Lemma qos2_exactly_once_witness : exists ps, run tr0 ps sample_end /\
  offered (recipients sample_end) ≡ₚ [] ++ offers_of (delivered ∅ ps) /\
  filter (q2_with_id 5) (delivered ∅ ps).*1 = [sample_q2 4].
Proof.
  destruct sample_run as (set1 & set2 & Hr). eexists. refine (conj Hr _).
  assert (records tr0 ∅) as Hrec.
  { intros i. split; [by intros ?%elem_of_empty|].
    change (pending_packets tr0) with ({[ IdType_publish 7 := sample_publish ]} : gmap IdType (list Z)).
    rewrite lookup_singleton_ne by done. by intros [? [=]]. }
  destruct (qos2_exactly_once _ _ _ ∅ (sample_tr_ok false sample_in) eq_refl Hrec Hr) as [Ho Hd].
  split; [exact Ho|]. rewrite (Hd 5); [reflexivity|]. intros r Hin. cbn in Hin.
  rewrite !elem_of_cons, elem_of_nil in Hin. by destruct Hin as [|[|]].
Defined.

(** The acknowledgement of the publication wakes task 20. *)
Lemma process_packet_reacts_witness :
  (exists s', process_packet (InPubAck (mkSimple 7)) tr0 = (Ret false, s') /\ woken s' = [20%nat]) \/
  (exists e s', process_packet (InPubAck (mkSimple 7)) tr0 = (Throw e, s') /\ is_would_block e = false).
Proof.
  destruct (process_packet_reacts (InPubAck (mkSimple 7)) tr0 (sample_tr_ok false sample_in) eq_refl)
    as [(s' & E & Hr)|Hf]; [cbn; unfold is_u16; lia|discriminate| |right; exact Hf].
  left. exists s'. split; [exact E|]. destruct Hr as (_ & _ & _ & _ & _ & _ & Hw & _). exact Hw.
Defined.

(** A SUBACK that grants QoS 1 for the request 3. *)
Lemma process_suback_reacts_witness :
  exists s', process_packet (InSubAck (SubAckPacket_new 3 [Ok AtLeastOnce])) tr0 = (Ret false, s') /\ tr_ok s' /\
    suback_reacted (SubAckPacket_new 3 [Ok AtLeastOnce]) tr0 s'.
Proof.
  apply (process_suback_reacts (SubAckPacket_new 3 [Ok AtLeastOnce]) tr0 (sample_tr_ok false sample_in) eq_refl).
  split; [cbn; unfold is_u16; lia|]. eexists. vm_compute. reflexivity.
Defined.

Lemma first_packet_connects_witness :
  process_packet (InPingResp PingResp) (sample_tr true sample_in)
  = (Ret true, with_conn_results [Err ProtocolError] (with_connect_sig false (sample_tr true sample_in))).
Proof. exact (first_packet_connects (InPingResp PingResp) (sample_tr true sample_in) eq_refl). Defined.

(** Publishing with QoS 1 under the ID 8. *)
Lemma command_effects_witness :
  let c := Some (CPublish (mkPublishCommand 8 AtLeastOnce (frame TPublish 2 [0; 1; 97; 0; 8]))) in
  (exists st s', on_command c tr0 = (Ret st, s') /\ tr_ok s' /\ unchanged tr0 s' /\ command_done c st tr0 s') \/
  (exists e s', on_command c tr0 = (Throw e, s') /\ io_failed (command_out c tr0) tr0 e s').
Proof.
  apply (command_effects _ tr0 (sample_tr_ok false sample_in) eq_refl). intros cmd [= <-]. discriminate.
Defined.

(** The publication has expired, the subscription request has not: the
    publication is sent again with its DUP flag set. *)
Lemma alarm_resends_witness : exists s', on_alarm tr0 = (Ret WantContinue, s') /\ alarmed tr0 s' /\
  resend_wire tr0 (IdType_publish 7) = Z.setbit (hd 0 sample_publish) 3 :: tl sample_publish.
Proof.
  destruct (alarm_resends tr0 (sample_tr_ok false sample_in) eq_refl) as [(s' & E & Ha)|(e & s' & k & E & _)].
  - exists s'. refine (conj E (conj Ha _)). vm_compute. reflexivity.
  - vm_compute in E. discriminate.
Defined.

Definition sample_writing : SampleTransceiver := with_tx_pkt (Some (mkTxPacket sample_publish 1 true)) tr_slow.

Lemma continue_writing_correct_witness :
  (exists r s', continue_writing_packet (write_fuel sample_writing) sample_writing = (Ret r, s') /\
     written_all sample_writing r s' /\ (r = false -> pending_out s' = [])) \/
  (exists e s', continue_writing_packet (write_fuel sample_writing) sample_writing = (Throw e, s') /\
     write_failed sample_writing e s').
Proof.
  apply (continue_writing_correct sample_writing). split; [discriminate|]. split; [|constructor].
  intros x [= <-]. apply Nat.ltb_lt. reflexivity.
Defined.

Lemma queue_internal_packet_correct_witness :
  (exists s', queue_internal_packet sample_publish true tr_slow = (Ret tt, s') /\ queued sample_publish true tr_slow s') \/
  (exists e s', queue_internal_packet sample_publish true tr_slow = (Throw e, s') /\ is_would_block e = false /\
     out_frame tr_slow s' /\ tx_weak s' /\ sent_prefix (stream tr_slow ++ wire sample_publish true) s').
Proof.
  apply (queue_internal_packet_correct sample_publish true tr_slow); [|discriminate].
  destruct (sample_tr_ok false sample_slow) as (_ & _ & Htx & _). exact Htx.
Defined.

(** A filter of 65536 bytes, which nothing rejects earlier, panics the task. *)
Lemma long_topic_panics :
  (on_command (Some (CSubscribe (mkSubscribeCommand (replicate (Z.to_nat (2 ^ 16)) 97) AtMostOnce Void))) tr0).1 = Panic.
Proof. vm_compute. reflexivity. Qed.

(** The scripted stream conserves the bytes read and still to come. The total
    is read off the output of a run, by counting it as the first byte sent. *)
Definition sim_total (t : TcpTransport SimStream) : nat :=
  length (sim_in (tcp t)) + length (concat (sim_arrivals (tcp t))).

Definition counted : TcpStreamOk SimStream.
Proof.
  refine {| tcp_in := sim_in; tcp_out c := Z.of_nat (sim_total (mkTcpTransport c)) :: sim_out c |}; unfold sim_total; cbn [tcp].
  - intros n c Hn. unfold wp, try_read; cbn. unfold sim_read.
    destruct (sim_arrivals c) as [|piece rest] eqn:Ea; [by rewrite Ea|]. cbn [sim_in sim_out sim_arrivals].
    split_and!; [rewrite length_fmap, length_take; lia|apply wrap8_ok|done|]. f_equal. f_equal.
    rewrite length_app, length_fmap. cbn [concat]. rewrite length_app. pose proof (take_drop (Z.to_nat n) piece) as Htd.
    apply (f_equal length) in Htd. rewrite length_app in Htd.
    destruct (decide _) as [El|_]; cbn [concat]; [apply (f_equal length) in El; cbn in El|rewrite length_app]; lia.
  - intros src c. unfold wp, try_write; cbn. unfold sim_write.
    destruct (sim_accepts c) as [|k rest]; [done|]. cbn. split_and!; [lia|done|done].
Defined.

Lemma sim_conserved (s s' : SampleTransceiver) ps : tr_ok s -> run s ps s' ->
  sim_total (transport s') = sim_total (transport s).
Proof.
  intros Hok Hrun. destruct (run_stream (H2 := TcpTransport_Ok SimStream (H0 := counted)) s ps s' Hok Hrun) as [out Ho].
  unfold stream in Ho. cbn in Ho. injection Ho as Ho _. exact (Nat2Z.inj _ _ Ho).
Qed.

Lemma read_loop_ends_witness : exists st s', read_loop 41 tr0 = (Ret st, s').
Proof.
  destruct (read_loop_ends 20 41 tr0 (sample_tr_ok false sample_in)) as [(st & s' & E)|[(e & s' & E)|(s' & E & _)]].
  - intros ps s' Hr. pose proof (sim_conserved _ _ _ (sample_tr_ok false sample_in) Hr) as Ht.
    change (sim_total (transport tr0)) with 20%nat in Ht. unfold sim_total in Ht.
    change (length (received (transport s'))) with (length (sim_in (tcp (transport s')))). lia.
  - vm_compute. lia.
  - exists st, s'. exact E.
  - vm_compute in E. discriminate.
  - vm_compute in E. discriminate.
Defined.

Lemma malformed_header_spins_witness :
  let s := with_rx_pkt (mkReader [0x30; 0x80; 0x80; 0x80; 0x80] None) tr0 in
  read_loop 1000 s = (OutOfFuel, s).
Proof.
  apply (malformed_header_spins 1000 _ 0x30 0x80 0x80 0x80 0x80); [|reflexivity].
  repeat constructor; vm_compute; congruence.
Defined.
End samples.
