(* ===== verification/Bounds.v ===== *)
(** * Sizes and times

    The bounds that the code keeps: what a header can announce, how much the
    reader holds, and how long the connection stays silent. *)

From Stdlib Require Import ZArith Lia.
From stdpp Require Import base list numbers gmap.
From S2P Require Import Prelude Base ByteIO Packets PacketProps Transport PacketReader.
From S2P Require Import Subscription Shared Transceiver TransceiverOut TransceiverProps Samples.
From S2P Require Import TransceiverRuns.

Local Open Scope Z_scope.

(* ------------------------------------------------------------------ *)
(** ** The remaining length                                            *)
(* ------------------------------------------------------------------ *)

(** A number in base 128 as MQTT defines it, by multiplication and addition,
    with the number of bytes it takes. *)
Fixpoint base128 (l : bytes) : option (Z * nat) :=
  match l with
  | [] => None
  | b :: l =>
    if b <? 128 then Some (b, 1%nat)
    else match base128 l with Some (v, n) => Some (b - 128 + 128 * v, S n) | None => None end
  end.

Lemma digit_bits b : is_u8 b -> (Z.land b 0x80 =? 0) = (b <? 128) /\ Z.land b 0x7f = if b <? 128 then b else b - 128.
Proof.
  intros Hb. pose proof (byte_forall (fun b => Bool.eqb (Z.land b 0x80 =? 0) (b <? 128) &&
    (Z.land b 0x7f =? if b <? 128 then b else b - 128)) ltac:(by vm_compute) b Hb) as Hf.
  apply andb_true_iff in Hf as [H1%Bool.eqb_prop H2%Z.eqb_eq]. done.
Qed.

Lemma base128_range l v n : bytes_ok l -> base128 l = Some (v, n) -> 0 <= v < 128 ^ len l /\ (1 <= n <= length l)%nat.
Proof.
  intros Hl. revert v n. induction Hl as [|b l Hb Hl IH]; intros v n; [done|]. cbn [base128].
  cbn [length]. rewrite Nat2Z.inj_succ, Z.pow_succ_r by lia. unfold is_u8 in Hb. destruct (Z.ltb_spec b 128).
  - intros [= <- <-]. assert (0 < 128 ^ len l) by (apply Z.pow_pos_nonneg; lia). split; lia.
  - destruct (base128 l) as [[v' n']|]; [|done]. intros [= <- <-]. destruct (IH v' n' eq_refl). split; lia.
Qed.

(** The loop of shifts and ors computes it. *)
Lemma parse_loop_base128 l pos ret shift : bytes_ok l -> 0 <= shift -> shift + 7 * len l <= 56 -> 0 <= ret < 2 ^ shift ->
  parse_size_loop l pos ret shift =
    Ret match base128 l with Some (v, n) => Some (ret + v * 2 ^ shift, (pos + n)%nat) | None => None end.
Proof.
  intros Hl. revert pos ret shift. induction Hl as [|b l Hb Hl IH]; intros pos ret shift Hs Hb56 Hr; [done|].
  cbn [length] in Hb56. rewrite Nat2Z.inj_succ in Hb56. destruct (digit_bits b Hb) as [H1 H2].
  cbn [parse_size_loop base128]. destruct (Z.leb_spec 64 shift); [lia|]. cbv zeta.
  destruct (add_digit ret b shift) as [-> Hv]; [lia|done|]. rewrite H1. rewrite H2 in *. destruct (b <? 128).
  - do 3 f_equal. lia.
  - rewrite IH by lia. destruct (base128 l) as [[v n]|]; [|done]. do 3 f_equal; [|lia].
    rewrite Z.pow_add_r by lia. lia.
Qed.

(** C25: On the bytes of a header, four length bytes at most, the loop with its
    shifts, masks and overflow checks is equivalent to reading a number in
    base 128, least significant digit first: the size of the packet is that
    number, the length bytes and the control byte. It never overflows, and
    never reports a packet that is too large. *)
Theorem parse_packet_size_reference (c : u8) (l : bytes) : bytes_ok l -> (length l <= 4)%nat ->
  parse_packet_size (c :: l) =
    Ret match base128 l with
        | Some (v, n) => Some (mkSizeInfo (v + Z.of_nat (S n)) (S n))
        | None => None
        end.
Proof.
  intros Hl Hlen. unfold parse_packet_size. change (drop 1 (c :: l)) with l.
  rewrite parse_loop_base128 by (done || lia). destruct (base128 l) as [[v n]|] eqn:E; [|done].
  destruct (base128_range l v n Hl E) as [Hv Hn].
  assert (128 ^ len l <= 128 ^ 4) by (apply Z.pow_le_mono_r; lia).
  cbv zeta. rewrite Z.pow_0_r, Z.mul_1_r, Z.add_0_l. change (1 + n)%nat with (S n).
  destruct (Z.leb_spec (2 ^ 64) (v + Z.of_nat (S n))); [lia|].
  unfold MAX_PACKET_SIZE. destruct (Z.ltb_spec 512000000 (v + Z.of_nat (S n))); [lia|]. done.
Qed.

(* ------------------------------------------------------------------ *)
(** ** The size of packets                                             *)
(* ------------------------------------------------------------------ *)

(** The remaining length takes as few bytes as it can. *)
Lemma remaining_length_minimal k n : 0 <= n < 128 ^ Z.of_nat k -> (0 < k)%nat ->
  let v := length (remaining_length k n) in
  (1 <= v <= k)%nat /\ n < 128 ^ Z.of_nat v /\ (v = 1%nat \/ 128 ^ (Z.of_nat v - 1) <= n).
Proof.
  revert n. induction k as [|k IH]; intros n Hn Hk v; [lia|]. subst v. cbn [remaining_length].
  destruct (Z.ltb_spec n 128) as [Hlt|Hge]; [cbn [length]; split_and!; [lia|lia|cbn; lia|by left]|].
  rewrite Nat2Z.inj_succ, Z.pow_succ_r in Hn by lia. pose proof (Z.div_mod n 128). pose proof (Z.mod_pos_bound n 128).
  assert (1 <= n / 128) by (apply Z.div_le_lower_bound; lia).
  assert (n / 128 < 128 ^ Z.of_nat k) by (apply Z.div_lt_upper_bound; lia).
  destruct k as [|k]; [cbn in *; lia|]. destruct (IH (n / 128)) as (Hv & Hu & Hl); [lia|lia|].
  set (v := length (remaining_length (S k) (n / 128))) in *. cbn [length]. fold v.
  rewrite Nat2Z.inj_succ, Z.pow_succ_r by lia. split_and!; [lia|lia|lia|]. right.
  replace (Z.succ (Z.of_nat v) - 1) with (Z.of_nat v) by lia. destruct Hl as [->|Hl]; [cbn; lia|].
  replace (Z.of_nat v) with (Z.succ (Z.of_nat v - 1)) by lia. rewrite Z.pow_succ_r by lia. lia.
Qed.

(** C26: The size of a packet, for every packet whose fields are valid (strings
    and byte arrays with a length field are shorter than 65536 bytes, IDs fit in
    16 bits, flags name a QoS) and every size of its content. Up to 268435455
    bytes it is built with one to four length bytes, as few as the number
    allows; the packet is the control byte, these and the content. From
    268435456 bytes on, building it panics. *)
Theorem packet_size_bounds {P} `{EncodeOk P} (p : P) : enc_valid p -> is_usize (len (enc_body p)) ->
  let n := len (enc_body p) in
  (n <= 268435455 -> exists b k, make_arc_packet p = Ret b /\ (1 <= k <= 4)%nat /\ len b = 1 + Z.of_nat k + n /\
     n < 128 ^ Z.of_nat k /\ (k = 1%nat \/ 128 ^ (Z.of_nat k - 1) <= n)) /\
  (268435456 <= n -> make_arc_packet p = Panic).
Proof.
  intros Hv Hu n. split.
  - intros Hn. assert (n < MAX_CONTENT) as Hm by (unfold MAX_CONTENT; lia).
    exists (frame (packet_type P) (enc_flags p) (enc_body p)), (length (remaining_length 4 n)).
    split; [by apply make_arc_packet_frame|].
    destruct (remaining_length_minimal 4 n) as (Hk & Hlt & Hmin); [cbn; lia|lia|].
    split_and!; [lia|lia| |done|done]. unfold frame. cbn [length]. rewrite length_app. fold n. lia.
  - intros Hn. unfold make_arc_packet, make_packet_t. rewrite enc_size by done.
    by rewrite encode_packet_size_overflow; [|exact Hn|].
Qed.

(* ------------------------------------------------------------------ *)
(** ** What the task holds, and how long it is silent                  *)
(* ------------------------------------------------------------------ *)

Section steady.
#[local] Existing Instance production.
Context `{ClockOk} {T X : Type} `{TransportOk T} `{RecipientsOk X}.
Implicit Types (s : Transceiver T X).

(** Code that leaves the time of the last transmission alone. *)
Definition same_tx s s' : Prop := last_tx s' = last_tx s.

#[local] Instance same_tx_preorder : PreOrder same_tx.
Proof. split; [done|]. intros s1 s2 s3 H12 H23. exact (eq_trans H23 H12). Qed.

Lemma steady_now : respects same_tx (now (T := T) (X := X)).
Proof. apply respects_bind; [apply respects_same|]. by intros n. Qed.

Lemma steady_try_send b dup : respects same_tx (try_send_packet (T := T) (X := X) b dup).
Proof.
  assert (forall A (m : stm T io_error A), respects same_tx (on_transport (X := X) m)) as Htr
    by (intros; by apply respects_zoom).
  unfold try_send_packet, debug_assert, assert_. apply respects_bind; [apply respects_same|]. intros tx.
  apply respects_bind; [destruct (bool_decide _); apply respects_same|]. intros _. apply respects_bind.
  - destruct dup; [|apply Htr]. destruct b as [|b0 b]; [apply respects_same|].
    apply respects_bind; [apply Htr|]. intros w. destruct (0 <? w)%nat; [|apply respects_same].
    apply respects_bind; [destruct (w <=? _)%nat; apply respects_same|]. intros _.
    apply respects_bind; [apply Htr|]. intros w'. apply respects_same.
  - intros w. destruct (_ <=? _)%nat; [apply Htr|by apply respects_modify].
Qed.

Lemma steady_queue b dup : respects same_tx (queue_internal_packet (T := T) (X := X) b dup).
Proof.
  apply respects_bind; [apply respects_same|]. intros [tx|]; [by apply respects_modify|apply steady_try_send].
Qed.

Lemma steady_resend n : respects same_tx (resend_loop (T := T) (X := X) n).
Proof.
  induction n as [|n IH]; cbn [resend_loop]; [apply respects_same|].
  apply respects_bind; [apply respects_same|]. intros [|to q]; [apply respects_same|].
  apply respects_bind; [apply respects_bind; [apply steady_now|intros; apply respects_same]|]. intros e.
  apply respects_bind; [apply respects_same|]. intros d. destruct (e <? d); [apply respects_same|].
  apply respects_bind; [by apply respects_modify|]. intros _. apply respects_bind; [|intros; apply IH].
  apply respects_bind; [apply respects_same|]. intros [[pkt dup]|]; [|apply respects_same].
  apply respects_bind; [apply steady_queue|]. intros _.
  apply respects_bind; [apply respects_bind; [apply steady_now|intros; apply respects_same]|]. intros to'. by apply respects_modify.
Qed.

(** What the alarm does to the time of the last transmission. *)
Lemma alarm_last_tx s st s' : connect_sig s = false -> 0 < ping_interval s -> on_alarm s = (Ret st, s') ->
  last_tx s' = if ping_interval s <=? instant (clock s) - last_tx s then instant (S (clock s)) else last_tx s.
Proof.
  intros Hc Hi (c & sc & [= <- <-] & Hrest)%bind_inv. unfold connected in Hrest. rewrite Hc in Hrest. cbn [negb] in Hrest.
  apply bind_inv in Hrest as (u & s2 & Hrest & [= _ <-]). apply bind_inv in Hrest as (u1 & s1 & Ep & Hrest).
  apply bind_inv in Hrest as (n & sn & [= <- <-] & Er).
  pose proof (respects_run _ _ _ _ (steady_resend _) Er) as Hs2. unfold same_tx in Hs2. rewrite Hs2. clear Er Hs2.
  unfold send_ping, elapsed, now, mbind, stm_bind in Ep. cbn -[Z.leb Z.max queue_internal_packet] in Ep.
  replace (ping_interval s <=? Z.max 0 (instant (clock s) - last_tx s))
    with (ping_interval s <=? instant (clock s) - last_tx s) in Ep by lia.
  destruct (ping_interval s <=? instant (clock s) - last_tx s); cbn -[Z.leb Z.max queue_internal_packet] in Ep.
  - exact (respects_run _ _ _ _ (steady_queue _ _) Ep).
  - by injection Ep as _ <-.
Qed.

(** C27: The keep-alive, with a positive interval. When the alarm fires on an
    established connection, does not fail, and the interval has passed since the
    last transmission on record, a PINGREQ is sent, or queued behind what is
    being sent, before anything that is sent again, and the time is recorded; if
    the interval has not passed, no PINGREQ is added and the record stays.
    Either way the time that the alarm read when it began is less than the
    interval after the time then on record. *)
Theorem keep_alive_bound s st s' :
  tr_ok s -> connect_sig s = false -> 0 < ping_interval s -> on_alarm s = (Ret st, s') ->
  instant (clock s) - last_tx s' < ping_interval s /\
  exists k, let again := concat (resend_wire s <$> take k (timeout_ids s)) in
    if decide (ping_interval s <= instant (clock s) - last_tx s)
    then last_tx s' = instant (S (clock s)) /\ stream s' = stream s ++ [0xC0; 0x00] ++ again
    else last_tx s' = last_tx s /\ stream s' = stream s ++ again.
Proof.
  intros Hok Hc Hi E. pose proof (alarm_last_tx s st s' Hc Hi E) as Hl.
  pose proof (instant_mono (clock s) (S (clock s)) ltac:(lia)) as Hm.
  destruct (wp_inv _ _ _ _ _ _ (wp_alarm s Hok Hc) E) as (_ & _ & _ & _ & _ & k & Hst & _).
  assert (ping_req s = [0xC0; 0x00]) as Hping by (destruct Hok as (_ & _ & _ & _ & _ & _ & ->); reflexivity).
  unfold ping_due in Hst. rewrite Hping in Hst.
  replace (ping_interval s <=? Z.max 0 (instant (clock s) - last_tx s))
    with (ping_interval s <=? instant (clock s) - last_tx s) in Hst by lia.
  destruct (Z.leb_spec (ping_interval s) (instant (clock s) - last_tx s)) as [Hd|Hd]; (split; [rewrite Hl; lia|]); exists k; cbv zeta.
  - by rewrite decide_True.
  - by rewrite decide_False by lia.
Qed.

(** In a run of the main loop the reader never holds more than the largest
    packet a header can announce, 268435455 bytes and a header of five, and the
    size of the packet being received is never more than that either. *)
Theorem reader_memory_bounded s ps s' : tr_ok s -> run_of Command_ok s ps s' ->
  len (rd_bytes (rx_pkt s')) <= 268435460 /\
  forall si, rd_size (rx_pkt s') = Some si -> pkt_size si <= 268435460 /\ (2 <= start_offset si <= 5)%nat.
Proof.
  intros Hok Hr. destruct (run_ok _ _ _ Hok Hr) as ((_ & Hrd) & _). unfold size_info_ok, MAX_CONTENT, MAX_HEADER_SIZE in Hrd.
  destruct (rd_size (rx_pkt s')) as [si|].
  - destruct Hrd as ((Ho & Hs) & _ & _ & Hl). split; [lia|]. intros si' [= <-]. split; lia.
  - destruct Hrd as [Hl _]. split; [lia|done].
Qed.
End steady.

(* ------------------------------------------------------------------ *)
(** ** Concrete instances                                              *)
(* ------------------------------------------------------------------ *)

Section samples.
#[local] Existing Instances production sample_clock sample_clock_ok.

(** 321 is 65 and 2 times 128; three bytes that all announce another. *)
Lemma parse_packet_size_reference_witness :
  parse_packet_size [0x30; 193; 2] = Ret (Some (mkSizeInfo 324 3)) /\ parse_packet_size [0x30; 255; 255; 255] = Ret None.
Proof.
  split; [refine (parse_packet_size_reference 0x30 [193; 2] _ _)|refine (parse_packet_size_reference 0x30 [255; 255; 255] _ _)];
    try (repeat constructor; unfold is_u8; lia); cbn; lia.
Defined.

Lemma packet_size_bounds_witness : exists b k,
  make_arc_packet (mkOutgoingPublish (PublishFlags_new false AtLeastOnce false) [97] 7 [120]) = Ret b /\
  len b = 1 + Z.of_nat k + 6 /\ (1 <= k <= 4)%nat.
Proof.
  destruct (packet_size_bounds (mkOutgoingPublish (PublishFlags_new false AtLeastOnce false) [97] 7 [120])) as [Hs _].
  - split_and!; [apply PublishFlags_new_ok|unfold wire_len_ok, is_u16; cbn; lia|unfold is_u16; cbn; lia].
  - split; [lia|vm_compute; reflexivity].
  - destruct Hs as (b & k & E & Hk & Hl & Hlt & Hmin); [vm_compute; congruence|]. exists b, k. exact (conj E (conj Hl Hk)).
Defined.

(** The alarm fires 60 after the last transmission; the interval is 60. *)
Lemma keep_alive_bound_witness : exists s' again, on_alarm (sample_tr false sample_in) = (Ret WantContinue, s') /\
  instant 100 - last_tx s' < 60 /\ stream s' = stream (sample_tr false sample_in) ++ [0xC0; 0x00] ++ again.
Proof.
  destruct (on_alarm (sample_tr false sample_in)) as [o s'] eqn:E. assert (o = Ret WantContinue) as ->.
  { change o with (o, s').1. rewrite <- E. vm_compute. reflexivity. }
  destruct (keep_alive_bound (sample_tr false sample_in) WantContinue s' (sample_tr_ok false sample_in) eq_refl ltac:(cbn; lia) E)
    as (Hb & k & Hk).
  rewrite decide_True in Hk by (vm_compute; congruence). exists s'. eexists.
  split; [reflexivity|]. split; [exact Hb|exact (proj2 Hk)].
Defined.

Lemma reader_memory_bounded_witness : len (rd_bytes (rx_pkt sample_end)) <= 268435460.
Proof.
  destruct sample_run as (set1 & set2 & Hr).
  exact (proj1 (reader_memory_bounded _ _ _ (sample_tr_ok false sample_in) Hr)).
Defined.
End samples.
