(* ===== verification/Shutdown.v ===== *)
(** * Start and end of the transceiver task

    The initial state of a task and its first transmission; the disconnection;
    and the release of everybody who still waits when the task ends. *)

From Stdlib Require Import ZArith Lia.
From stdpp Require Import base list numbers gmap sorting.
From S2P Require Import Prelude Base ByteIO Packets PacketProps Transport PacketReader.
From S2P Require Import Subscription Shared Transceiver TransceiverOut TransceiverProps Samples.
From S2P Require Import TransceiverRuns.

Local Open Scope Z_scope.

Section start.
#[local] Existing Instance production.
Context `{ClockOk} {T X : Type} `{TransportOk T} `{RecipientsOk X}.
Implicit Types (s : Transceiver T X) (ps : list Handled).

(** The state of a task that has done nothing yet. *)
Definition fresh (b : bytes) s : Prop :=
  tr_ok s /\ tx_pkt s = Some (mkTxPacket b 0 false) /\ internal_pkt_queue s = [] /\ b <> [] /\
  connect_sig s = true /\ conn_results s = [] /\ pending_packets s = ∅ /\ pending_subs s = ∅ /\
  rx_pkt s = PacketReader_default.

Lemma spawn_fresh t b pi sh d clk (x : X) : shared_ok sh -> b <> [] ->
  exists s, spawn t b pi sh d clk x = Ret s /\ fresh b s /\ transport s = t /\ recipients s = x /\
    stream s = sent t ++ b.
Proof.
  intros Hsh Hb. unfold spawn.
  assert (make_arc_packet PingReq = Ret (frame TPingReq 0 [])) as -> by done.
  eexists. split; [reflexivity|]. split_and!; [|done|done|].
  - refine (conj _ (conj eq_refl (conj eq_refl (conj Hb (conj eq_refl (conj eq_refl (conj eq_refl (conj eq_refl eq_refl)))))))).
    refine (conj reader_ok_default (conj set_ok_default (conj _ (conj Hsh (conj _ (conj _ _)))))).
    + split_and!; [done| |constructor]. intros y [= <-]. cbn. destruct b; [done|cbn; lia].
    + split; constructor.
    + split; apply map_Forall_empty.
    + done.
  - unfold stream, pending_out, tx_rest; cbn. by rewrite wire_false, !app_nil_r.
Qed.

(** The bootstrap of [run_task_loop]. *)
Lemma wp_bootstrap b s : fresh b s ->
  wp bootstrap
    (fun _ s1 => tr_ok s1 /\ stream s1 = stream s /\ unchanged s s1 /\ recipients s1 = recipients s /\
       pending_packets s1 = ∅ /\ pending_subs s1 = ∅)
    (io_failed [] s) s.
Proof.
  intros (Hok & Htx & Hq & Hb & _ & _ & Hp & Hps & _). apply wp_bind, wp_gets. rewrite Htx.
  apply wp_bind, wp_modify. cbn [tx_bytes]. set (s0 := with_tx_pkt None s).
  assert (tr_ok s0) as Hok0.
  { destruct Hok as (I1 & I2 & _ & I4 & I5 & I6 & I7).
    refine (conj I1 (conj I2 (conj _ (conj I4 (conj I5 (conj I6 I7)))))).
    split_and!; [by intros _|done|]. change (internal_pkt_queue s0) with (internal_pkt_queue s). by rewrite Hq. }
  assert (stream s = stream s0 ++ b) as Hst0.
  { unfold stream, pending_out. cbn. rewrite Htx, Hq. unfold tx_rest. cbn. by rewrite wire_false, !app_nil_r. }
  eapply wp_mono; [by apply (wp_try_send_sends b s0)| |]; cbn beta.
  2: { intros e s1. unfold io_failed. by rewrite Hst0, app_nil_r. }
  intros _ s1 ((Hok1 & Hst & Hu & Hse) & Hp1 & _). apply session_eq in Hse as (E1 & _ & _ & _ & E5).
  split_and!; [assumption| |exact Hu|exact E5|by rewrite Hp1|by rewrite E1].
  by rewrite Hst, Hst0.
Qed.

(** A task starts by sending the CONNECT packet and nothing else; from
    there its main loop takes the steps of [run] and does not panic or access a
    buffer out of range, whatever happens on the connection. *)
Theorem task_starts_with_connect t b pi sh d clk (x : X) (fuel : nat) (evs : list Event) :
  shared_ok sh -> b <> [] -> Forall event_ok evs ->
  exists s, spawn t b pi sh d clk x = Ret s /\ connect_sig s = true /\
    ((exists o s1 s' ps, run_task_loop fuel evs s = (Ret o, s') /\ tr_ok s1 /\ connect_sig s1 = true /\
        stream s1 = sent t ++ b /\ recipients s1 = x /\ run s1 ps s') \/
     (exists e s', run_task_loop fuel evs s = (Throw e, s')) \/
     (exists s', run_task_loop fuel evs s = (OutOfFuel, s'))).
Proof.
  intros Hsh Hb Hev. destruct (spawn_fresh t b pi sh d clk x Hsh Hb) as (s & Es & Hf & Ht & Hx & Hst).
  pose proof Hf as (_ & _ & _ & _ & Hcs & _). exists s. split; [done|]. split; [done|].
  pose proof (wp_bootstrap b s Hf) as Hw. unfold run_task_loop.
  unfold mbind, stm_bind.
  apply wp_run in Hw as [(u & s1 & E & Hok1 & Hst1 & (_ & _ & Hc1 & _) & Hr1 & _)|(e & s1 & E & _)]; rewrite E.
  2: { right; left. by exists e, s1. }
  pose proof (runs_task_loop fuel evs s1 Hok1 Hev) as Hs. unfold runs, safe in Hs.
  destruct (task_loop fuel evs s1) as [[o|e| | |] s']; [|by eauto..|done|done|by eauto].
  destruct Hs as (ps & Hr). left. exists o, s1, s', ps.
  split_and!; [done|assumption|congruence|congruence|congruence|done].
Qed.
End start.

(* ------------------------------------------------------------------ *)
(** ** Releasing those who wait                                        *)
(* ------------------------------------------------------------------ *)

Section release.
#[local] Existing Instance production.
Context `{Clock} {T X : Type} `{Transport T} `{Recipients X}.
Implicit Types (s : Transceiver T X).

(** The wakers that the values of a map hold. *)
Lemma elem_of_map_wakers {K V : Type} `{Countable K} (f : V -> list Waker) (m : gmap K V) (w : Waker) :
  w ∈ concat (f <$> (map_to_list m).*2) <-> exists k v, m !! k = Some v /\ w ∈ f v.
Proof.
  rewrite elem_of_concat. split.
  - intros (l & Hw & Hl). apply list_elem_of_fmap in Hl as (v & -> & Hv).
    apply list_elem_of_fmap in Hv as ([k v'] & -> & Hkv). apply elem_of_map_to_list in Hkv. by exists k, v'.
  - intros (k & v & Hkv & Hw). exists (f v). split; [done|]. apply list_elem_of_fmap. exists v. split; [done|].
    apply list_elem_of_fmap. exists (k, v). split; [done|]. by apply elem_of_map_to_list.
Qed.

Lemma waker_of_iff (w : Waker) (r : NotifyResult) : w ∈ waker_of r <-> r = WithWaker w.
Proof. destruct r; cbn; rewrite ?list_elem_of_singleton, ?elem_of_nil; naive_solver. Qed.

(** Somebody waits for the transceiver, to be woken through [w]. *)
Definition waits (sh : ClientShared) (w : Waker) : Prop :=
  (exists i, notify_ack sh !! i = Some (WithWaker w)) \/
  (exists i, notify_rec sh !! i = Some (WithWaker w)) \/
  (exists i, notify_comp sh !! i = Some (WithWaker w)) \/
  (exists t ws, subs sh !! t = Some (Pending ws) /\ Some w ∈ ws).

(** The shared state when nobody waits any more: every publication that was
    awaited has failed, no subscription is left. *)
Definition released (sh sh' : ClientShared) : Prop :=
  notify_ack sh' = (fun _ => Failed) <$> notify_ack sh /\
  notify_rec sh' = (fun _ => Failed) <$> notify_rec sh /\
  notify_comp sh' = (fun _ => Failed) <$> notify_comp sh /\ subs sh' = ∅.

Lemma omap_some (l : list Waker) : omap id (Some <$> l) = l.
Proof. induction l as [|x l IH]; [done|]. cbn. by f_equal. Qed.

Lemma release_run s : exists s', release_waiters s = (Ret tt, s') /\
  released (shared s) (shared s') /\ (forall w, w ∈ woken s' <-> w ∈ woken s \/ waits (shared s) w) /\
  disconnect_sent s' = disconnect_sent s.
Proof.
  assert (wp release_waiters (fun _ s' => released (shared s) (shared s') /\
    (forall w, w ∈ woken s' <-> w ∈ woken s \/ waits (shared s) w) /\
    disconnect_sent s' = disconnect_sent s) (fun _ _ => False) s) as Hwp;
    [|destruct (wp_run_ret _ _ _ Hwp) as ([] & s' & E & Hs); by exists s'].
  unfold release_waiters, fail_notify_map. apply wp_bind, wp_gets, wp_bind, wp_modify, wp_wake_all. split_and!; [done..| |done].
  intros w. cbn [woken with_woken with_shared].
  rewrite omap_some, !elem_of_app, !elem_of_map_wakers. unfold waits.
  setoid_rewrite waker_of_iff. apply or_iff_compat_l.
  assert ((exists k v, subs (shared s) !! k = Some v /\ w ∈ pending_wakers v) <->
    exists t ws, subs (shared s) !! t = Some (Pending ws) /\ Some w ∈ ws) as ->.
  { split.
    - intros (k & [q|ws] & Hk & Hw); cbn in Hw; [by apply elem_of_nil in Hw|].
      apply list_elem_of_omap in Hw as (o & Ho & E). cbn in E. subst o. by exists k, ws.
    - intros (t & ws & Ht & Hw). exists t, (Pending ws). split; [done|]. cbn. apply list_elem_of_omap. by exists (Some w). }
  naive_solver.
Qed.

(** C30: When the main loop ends on a command, a refused connection or an
    error, then after the disconnection sequence every task that waits for the
    transceiver is woken, its publication is marked as failed and no
    subscription stays pending. *)
Theorem task_releases_waiters (fuel : nat) (evs : list Event) (evs1 evs2 : list FlushEvent) s s1 s2 ret r :
  run_task_loop fuel evs s = (r, s1) ->
  match r with Ret (Some false) => True | Throw _ => True | _ => False end ->
  disconnect_sequence evs1 evs2 s1 = (Ret ret, s2) ->
  exists s', task fuel evs evs1 evs2 s
    = (Ret (Some (mkShutdownStatus (disconnect_sent s2) (default false ret))), s') /\
    released (shared s2) (shared s') /\
    forall w, w ∈ woken s' <-> w ∈ woken s2 \/ waits (shared s2) w.
Proof.
  intros Hl Hr Hd. destruct (release_run s2) as (s' & Hrel & Hsh & Hw & Hds).
  exists s'. split; [|done]. unfold task, mbind, stm_bind, attempt. rewrite Hl.
  destruct r as [[[|]|]|e| | |]; try done; rewrite Hd, Hrel; cbn; by rewrite Hds.
Qed.

End release.

(* ------------------------------------------------------------------ *)
(** ** Disconnecting                                                   *)
(* ------------------------------------------------------------------ *)

(** The DISCONNECT packet. *)
Definition disconnect_bytes : bytes := [0xE0; 0x00].

Lemma make_disconnect : make_arc_packet Disconnect = Ret disconnect_bytes.
Proof. reflexivity. Qed.

Section disconnect.
#[local] Existing Instance production.
Context `{ClockOk} {T X : Type} `{TransportOk T} `{RecipientsOk X}.
Implicit Types (s : Transceiver T X).

(** Everything to be sent, once the DISCONNECT is queued. If no packet is being
    transmitted it is written at once, even when there are others in the queue,
    as there can be after an error. *)
Definition disconnect_stream s : bytes :=
  match tx_pkt s with
  | Some _ => stream s ++ disconnect_bytes
  | None => sent (transport s) ++ disconnect_bytes ++ queue_wire (internal_pkt_queue s)
  end.

Lemma disconnect_stream_ok s : tr_ok s -> disconnect_stream s = stream s ++ disconnect_bytes.
Proof.
  intros (_ & _ & (Hq & _) & _). unfold disconnect_stream. destruct (tx_pkt s) eqn:Htx; [done|].
  unfold stream, pending_out. rewrite Htx, (Hq eq_refl). cbn. by rewrite app_nil_r.
Qed.

(** What holds in the middle of the disconnection, and after it. *)
Definition ending (full : bytes) s' : Prop := tr_weak s' /\ sent_prefix full s'.

Lemma ending_now s : tr_weak s -> ending (stream s) s.
Proof. intros Hwk. split; [done|apply stream_prefix]. Qed.

Lemma weak_write s : tr_weak s ->
  wp (continue_writing_packet (write_fuel s)) (fun r s' => tr_weak s' /\ stream s' = stream s)
    (fun e s' => ending (stream s) s' /\ (is_would_block e = true -> stream s' = stream s)) s.
Proof.
  intros Hwk. assert (tx_weak s) as Htx by (destruct Hwk as (_ & _ & ? & _); assumption).
  eapply wp_mono; [by apply wp_continue_weak; [|apply write_fuel_enough]|..]; cbn beta.
  - intros r s' (Hf & Hw & Hst & _). split; [by eapply tr_weak_out|done].
  - intros e s' (Hf & Hw & Hp & Hb). split; [split; [by eapply tr_weak_out|done]|]. intros He. by apply Hb.
Qed.

Lemma wp_flush_loop_weak evs s : tr_weak s ->
  wp (flush_loop evs) (fun _ s' => ending (stream s) s') (fun _ s' => ending (stream s) s') s.
Proof.
  revert s. induction evs as [|ev evs IH]; intros s Hwk; cbn [flush_loop]; apply wp_bind, wp_gets; apply wp_if; intros Hw.
  1, 3: apply wp_bind, wp_modify, wp_ret; exact (ending_now s Hwk).
  { apply wp_ret. by apply ending_now. }
  assert (forall s1, tr_weak s1 -> stream s1 = stream s ->
    wp (flush_loop evs) (fun _ s' => ending (stream s) s') (fun _ s' => ending (stream s) s') s1) as Hrec.
  { intros s1 Hwk1 <-. by apply IH. }
  apply wp_if; intros _; [by apply Hrec|].
  destruct ev as [r|r]; apply wp_bind; (destruct r as [u|e]; [apply wp_ret|apply wp_throw; by apply ending_now]); apply wp_bind.
  - eapply wp_mono; [apply wp_pre_write|..]; cbn beta; intros x s1 Hio;
      destruct (io_only_weak s s1 Hwk Hio) as (Hwk1 & Hst1 & _); [|rewrite <- Hst1; by apply ending_now].
    apply wp_bind, wp_gets, wp_bind, wp_attempt. rewrite <- Hst1 in *. eapply wp_mono; [by apply weak_write|..]; cbn beta.
    + intros [|] s2 [Hwk2 Hst2]; [apply wp_ret; rewrite <- Hst2; by apply ending_now|]. apply Hrec; congruence.
    + intros e s2 [He Hb]. apply wp_if; intros Hwb; [|by apply wp_throw]. apply Hrec; [apply He|by apply Hb].
  - eapply wp_mono; [apply wp_pre_read|..]; cbn beta; intros x s1 Hio;
      destruct (io_only_weak s s1 Hwk Hio) as (Hwk1 & Hst1 & _); [by apply Hrec|rewrite <- Hst1; by apply ending_now].
Qed.

(** Queueing the DISCONNECT. *)
Lemma wp_queue_disconnect s : tr_weak s ->
  wp (queue_internal_packet disconnect_bytes false)
    (fun _ s' => tr_weak s' /\ stream s' = disconnect_stream s) (fun _ s' => ending (disconnect_stream s) s') s.
Proof.
  intros Hwk. assert (tx_weak s) as Htx by (destruct Hwk as (_ & _ & ? & _); assumption).
  eapply wp_mono; [by apply wp_queue_weak|..]; cbn beta; unfold disconnect_stream.
  - intros _ s' (Hf & Hw & _ & Hst). split; [by eapply tr_weak_out|]. destruct (tx_pkt s); [exact Hst|].
    destruct Hst as (_ & _ & _ & Hi & Hs & _). unfold stream, pending_out. fold (tx_left s').
    rewrite (assoc_L (++)), Hs, Hi. by rewrite <- (assoc_L (++)).
  - intros e s' (Hf & Hw & -> & Hp). split; [by eapply tr_weak_out|]. rewrite (assoc_L (++)). by apply sent_prefix_app.
Qed.

Lemma wp_send_disconnect evs s : tr_weak s ->
  wp (send_disconnect_and_flush evs) (fun _ s' => ending (disconnect_stream s) s')
    (fun _ s' => ending (disconnect_stream s) s') s.
Proof.
  intros Hwk. unfold send_disconnect_and_flush. apply wp_bind, wp_gets. unfold connected. apply wp_if; intros Hc.
  - apply wp_bind. eapply wp_infallible; [exact make_disconnect|]. apply wp_bind.
    eapply wp_mono; [by apply wp_queue_disconnect| |done]; cbn beta. intros _ s1 [Hwk1 <-]. by apply wp_flush_loop_weak.
  - apply wp_ret. split; [done|]. unfold disconnect_stream. destruct (tx_pkt s); [apply sent_prefix_app, stream_prefix|].
    by eexists.
Qed.

(** The rest of the sequence sends no plaintext. *)
Lemma ending_io full s s' : ending full s -> io_only s s' -> ending full s'.
Proof.
  intros [Hwk [r Hr]] Hio. split; [by eapply io_only_weak|]. destruct Hio as (t' & -> & [_ Hs]).
  exists r. cbn. by rewrite Hs.
Qed.

Lemma wp_close_loop full evs s : ending full s ->
  wp (close_loop evs) (fun _ s' => ending full s') (fun _ s' => ending full s') s.
Proof.
  revert s. induction evs as [|ev evs IH]; intros s He; cbn [close_loop]; apply wp_bind, wp_gets; apply wp_if; intros Hw;
    try (by apply wp_ret). apply wp_if; intros _; [by apply IH|].
  destruct ev as [r|r]; apply wp_bind; (destruct r as [u|e]; [apply wp_ret|by apply wp_throw]); apply wp_bind.
  - eapply wp_mono; [apply wp_pre_write|..]; cbn beta; intros x s1 Hio; [apply IH|]; by eapply ending_io.
  - eapply wp_mono; [apply wp_pre_read|..]; cbn beta; intros x s1 Hio; [apply IH|]; by eapply ending_io.
Qed.

(** The whole disconnection, in the state that any end of the main loop leaves:
    it always returns, and sends a prefix of [disconnect_stream]. *)
Lemma wp_disconnect evs1 evs2 s : tr_weak s ->
  wp (disconnect_sequence evs1 evs2) (fun _ s' => ending (disconnect_stream s) s') (fun _ _ => False) s.
Proof.
  intros Hwk. unfold disconnect_sequence. apply wp_bind, wp_attempt.
  assert (forall s1, ending (disconnect_stream s) s1 -> forall b, wp (r2 ← attempt (send_close_notify_ evs2);
    match r2 with Ok None => mret None | _ => mret (Some (b && negb (is_err r2))) end)
    (fun _ s' => ending (disconnect_stream s) s') (fun _ _ => False) s1) as Hclose.
  { intros s1 He b. apply wp_bind, wp_attempt. apply wp_bind, wp_modify.
    eapply wp_mono; [apply wp_close_loop; eapply ending_io; [exact He|]|..]; cbn beta.
    - eexists. split; [reflexivity|apply close_notify_ok].
    - intros [[]|] s2 Hs2; by apply wp_ret.
    - intros e s2 Hs2. by apply wp_ret. }
  eapply wp_mono; [by apply wp_send_disconnect|..]; cbn beta.
  - intros [[]|] s1 He; [by apply (Hclose s1 He true)|by apply wp_ret].
  - intros e s1 He. by apply (Hclose s1 He false).
Qed.
End disconnect.

Section disconnect_tcp.
#[local] Existing Instance production.
Context `{ClockOk} {C X : Type} `{TcpStreamOk C} `{RecipientsOk X}.
Abbreviation tr := (Transceiver (TcpTransport C) X).
Implicit Types (s : tr).

(** The flag is set only if all of [full] was sent and the loop came to its end. *)
Definition flagged (full : bytes) (o : option unit) s' : Prop :=
  disconnect_sent s' = true -> o = Some tt /\ sent (transport s') = full.

Definition unflagged (_ : io_error) s' : Prop := disconnect_sent s' = false.

Lemma out_frame_disconnect s s' : out_frame s s' -> disconnect_sent s' = disconnect_sent s.
Proof. intros (_ & -> & _). done. Qed.

(** One turn of the flushing loop over TCP, with a packet being transmitted. *)
Lemma wp_flush_turn (Q : option unit -> tr -> Prop) ev evs s : tx_pkt s <> None -> tx_weak s -> disconnect_sent s = false ->
  (forall s', disconnect_sent s' = false -> Q (Some tt) s') ->
  (forall s', disconnect_sent s' = false -> tx_weak s' -> stream s' = stream s -> (tx_ok s -> tx_ok s') ->
     (~ tx_ok s -> tx_pkt s' = tx_pkt s) -> wp (flush_loop evs) Q unflagged s') ->
  wp (flush_loop (ev :: evs)) Q unflagged s.
Proof.
  intros Htx Hwk Hd Hstop Hgo. cbn [flush_loop]. apply wp_bind, wp_gets.
  cbn [want_read want_write wants TcpTransport_Transport tcp_wants]. destruct (tx_pkt s) as [x|] eqn:Etx; [|done].
  rewrite bool_decide_true by (by eexists). cbn [negb andb].
  destruct ev as [r|r]; cbn [flush_enabled want_read want_write negb]; [|by apply Hgo].
  apply wp_bind. destruct r as [u|e]; [apply wp_ret|by apply wp_throw]. apply wp_bind, wp_zoom, wp_ret.
  assert (with_transport (transport s) s = s) as -> by (by destruct s).
  apply wp_bind, wp_gets, wp_bind, wp_attempt.
  destruct (decide (tx_pos x < length (tx_bytes x))%nat) as [Hlt|Hge].
  - pose proof (weak_writing s x Hwk Etx Hlt) as Hok.
    eapply wp_mono; [by apply wp_continue; [|apply write_fuel_enough]|..]; cbn beta.
    + intros [|] s2 (Hf2 & Htx2 & Hst2 & _); pose proof (out_frame_disconnect s s2 Hf2) as Hd2; rewrite Hd in Hd2.
      * by apply wp_ret, Hstop.
      * apply Hgo; [done|by apply tx_ok_weak|done|done|done].
    + intros e s2 (Hf2 & Hwk2 & _ & Hwb). pose proof (out_frame_disconnect s s2 Hf2) as Hd2. rewrite Hd in Hd2.
      apply wp_if; intros He; [|by apply wp_throw]. destruct (Hwb He) as [Htx2 Hst2]. by apply Hgo.
  - assert (exists fuel, write_fuel s = S fuel) as [fuel ->] by (by eexists).
    pose proof (proj1 Hwk x Etx) as [Hne Hpos]. cbn [continue_writing_packet]. apply wp_bind, wp_gets. rewrite Etx. apply wp_bind.
    assert (0 < tx_pos x)%nat as Hp0 by (destruct (tx_bytes x); [done|cbn in Hge; lia]).
    destruct (Nat.leb_spec (tx_pos x) 0) as [Hz|_]; [lia|]. rewrite andb_false_r.
    apply wp_bind, wp_assert; [by apply Nat.leb_le|]. rewrite drop_ge by lia.
    eapply wp_mono; [apply wp_write|..]; cbn beta.
    + intros n s1 (t' & -> & Hn & _). cbn in Hn. assert (n = 0%nat) as -> by lia. cbn [Nat.leb]. by apply wp_ret, wp_ret, Hstop.
    + intros e s1 (t' & -> & [_ Hs] & _). apply wp_if; intros He; [|by apply wp_throw]. apply Hgo; [done|done| |done|done].
      unfold stream. cbn [transport with_transport]. by rewrite Hs.
Qed.

(** With a packet being transmitted the loop does not end by itself. *)
Lemma flush_waits s : tx_pkt s <> None -> flush_loop [] s = (Ret None, s).
Proof.
  intros Htx. unfold flush_loop, mbind, stm_bind. cbn. destruct (tx_pkt s); [|done]. by rewrite bool_decide_true by (by eexists).
Qed.

Lemma flush_ends evs s : tx_pkt s = None -> flush_loop evs s = (Ret (Some tt), with_disconnect_sent true s).
Proof.
  intros Htx. destruct evs; cbn [flush_loop]; unfold mbind, stm_bind; cbn; rewrite Htx;
    by rewrite bool_decide_false by (by intros [? ?]).
Qed.

(** The loop ends by itself only when nothing is left to send. *)
Lemma wp_flush_loop evs s : tx_ok s -> disconnect_sent s = false ->
  wp (flush_loop evs) (fun o s' => flagged (stream s) o s') unflagged s.
Proof.
  revert s. induction evs as [|ev evs IH]; intros s Hok Hd; (destruct (tx_pkt s) as [x|] eqn:Htx;
    [|unfold wp; rewrite flush_ends by done; intros _; split; [done|];
      unfold stream, pending_out; rewrite Htx; destruct Hok as (Hq & _); rewrite (Hq Htx); cbn; by rewrite app_nil_r]).
  - unfold wp. rewrite flush_waits by congruence. intros Hd'. congruence.
  - apply wp_flush_turn; [congruence|by apply tx_ok_weak|done|intros s' Hd'; unfold flagged; congruence|].
    intros s' Hd' _ Hst Hok' _. rewrite <- Hst. by apply IH; [apply Hok'|].
Qed.

(** A packet written to its end, but not flushed, is never taken off. *)
Lemma wp_flush_stuck evs s x : tx_weak s -> disconnect_sent s = false -> tx_pkt s = Some x -> (length (tx_bytes x) <= tx_pos x)%nat ->
  wp (flush_loop evs) (fun o s' => disconnect_sent s' = false) unflagged s.
Proof.
  revert s. induction evs as [|ev evs IH]; intros s Hwk Hd Htx Hge.
  - unfold wp. by rewrite flush_waits by congruence.
  - apply wp_flush_turn; [congruence|done|done|done|]. intros s' Hd' Hwk' _ _ Hsame.
    apply (IH s'); [done|done| |done]. rewrite Hsame; [done|]. intros (_ & Hx & _). specialize (Hx x Htx). lia.
Qed.

(** C31: Over TCP, when the main loop has ended, with an error or without, the
    disconnection neither panics nor hangs, and the task reports that the
    DISCONNECT was sent only if the flushing loop came to its end by itself,
    not if it failed, was closed or ran out of time, and if the DISCONNECT has
    been handed to the stream; if the main loop ended without an error, then
    every byte that was queued before it has been handed over as well, in
    order, and nothing else. *)
Theorem disconnect_reported_when_sent (evs : list FlushEvent) s :
  tr_weak s -> connect_sig s = false -> disconnect_sent s = false ->
  exists o s', send_disconnect_and_flush evs s = (o, s') /\
    match o with Ret _ | Throw _ => True | _ => False end /\
    (disconnect_sent s' = true -> o = Ret (Some tt) /\
       (exists before behind, sent (transport s') = sent (transport s) ++ before ++ disconnect_bytes ++ behind) /\
       (tr_ok s -> sent (transport s') = stream s ++ disconnect_bytes)).
Proof.
  intros Hwk Hc Hd. assert (tx_weak s) as Htw by (destruct Hwk as (_ & _ & ? & _); assumption).
  assert (wp (send_disconnect_and_flush evs)
    (fun o s' => disconnect_sent s' = true -> o = Some tt /\
       (exists before behind, sent (transport s') = sent (transport s) ++ before ++ disconnect_bytes ++ behind) /\
       (tr_ok s -> sent (transport s') = stream s ++ disconnect_bytes)) unflagged s) as Hw.
  { unfold send_disconnect_and_flush. apply wp_bind, wp_gets. unfold connected. rewrite Hc. cbn [negb].
    apply wp_bind. eapply wp_infallible; [exact make_disconnect|]. apply wp_bind.
    eapply wp_mono; [by apply wp_queue_weak|..]; cbn beta.
    2: { intros e s1 (Hf & _). unfold unflagged. by rewrite (out_frame_disconnect s s1). }
    intros _ s1 (Hf & Hw1 & Hsame & Hst). pose proof (out_frame_disconnect s s1 Hf) as Hd1. rewrite Hd in Hd1.
    assert (tr_ok s -> disconnect_stream s = stream s ++ disconnect_bytes) as Hds by apply disconnect_stream_ok.
    unfold disconnect_stream in Hds. destruct (tx_pkt s) as [x|] eqn:Htx.
    - specialize (Hsame ltac:(done)). destruct (decide (tx_pos x < length (tx_bytes x))%nat) as [Hlt|Hge].
      + eapply wp_mono; [apply wp_flush_loop; [by eapply weak_writing|done]| |done]; cbn beta. intros o s' Hfl Hd'.
        destruct (Hfl Hd') as [-> Hs]. rewrite Hs, Hst, wire_false. split_and!; [done| |done].
        exists (pending_out s), []. unfold stream. by rewrite app_nil_r, (assoc_L (++)).
      + eapply wp_mono; [apply (wp_flush_stuck evs s1 x); [done|done|done|lia]| |done]; cbn beta. intros o s'. congruence.
    - destruct Hst as (_ & _ & _ & Hi & Hs & Hx). rewrite wire_false in Hs. destruct (tx_pkt s1) as [y|] eqn:Htx1.
      + assert (tx_ok s1) as Hok1 by (eapply weak_writing; [done|done|by apply Hx]).
        eapply wp_mono; [by apply wp_flush_loop| |done]; cbn beta. intros o s' Hfl Hd'. destruct (Hfl Hd') as [-> Hs'].
        assert (stream s1 = sent (transport s) ++ disconnect_bytes ++ queue_wire (internal_pkt_queue s)) as Hst1.
        { unfold stream, pending_out. fold (tx_left s1). by rewrite (assoc_L (++)), Hs, Hi, <- (assoc_L (++)). }
        rewrite Hs', Hst1. split_and!; [done| |done]. exists [], (queue_wire (internal_pkt_queue s)). done.
      + unfold wp. rewrite flush_ends by done. intros _. split; [done|]. cbn [transport with_disconnect_sent].
        unfold tx_left in Hs. rewrite Htx1, app_nil_r in Hs. rewrite Hs. split; [exists [], []; done|].
        intros (_ & _ & (Hq & _) & _). unfold stream, pending_out. rewrite Htx, (Hq Htx). cbn. by rewrite app_nil_r. }
  unfold wp in Hw. destruct (send_disconnect_and_flush evs s) as [o s']. exists o, s'. split; [done|].
  destruct o as [r|e| | |]; try done; (split; [done|]); intros Hd'; [destruct (Hw Hd') as [-> Hs]; done|].
  unfold unflagged in Hw. congruence.
Qed.

(** A write over TCP, on the two answers of the stream that end an attempt. *)
Lemma tcp_write_accepted src s n c :
  try_write src (tcp (transport s)) = (Ret n, c) ->
  on_transport (write src true) s = (Ret n, with_transport (mkTcpTransport c) s).
Proof. intros E. unfold on_transport, write; cbn. unfold tcp_write, on_tcp, attempt, zoom, mbind, stm_bind. cbn. by rewrite E. Qed.

Lemma tcp_write_fails src s e c :
  try_write src (tcp (transport s)) = (Throw e, c) -> is_would_block e = false ->
  on_transport (write src true) s = (Throw e, with_transport (mkTcpTransport c) s).
Proof.
  intros E He. unfold on_transport, write; cbn. unfold tcp_write, on_tcp, attempt, zoom, mbind, stm_bind. cbn.
  rewrite E. cbn. by rewrite He.
Qed.

(** C28: An error of the transport in the middle of a packet does not keep the
    task from going on behind it. When a PUBLISH is sent again, its first byte
    is written, the rest of it fails and the stream then accepts the DISCONNECT,
    the broker is sent that byte and then the DISCONNECT, which is no sequence
    of packets; what is in the queue stays unsent, and yet the task reports that
    the DISCONNECT was sent and that it ended cleanly. *)
Theorem failed_resend_then_disconnect (b0 : u8) (rest : bytes) (evs1 evs2 : list FlushEvent) s c1 c2 c3 e :
  connect_sig s = false -> tx_pkt s = None ->
  try_write [Z.lor b0 DUP] (tcp (transport s)) = (Ret 1%nat, c1) ->
  try_write rest c1 = (Throw e, c2) -> is_would_block e = false ->
  try_write disconnect_bytes c2 = (Ret 2%nat, c3) ->
  exists s1 s', queue_internal_packet (b0 :: rest) true s = (Throw e, s1) /\
    disconnect_sequence evs1 evs2 s1 = (Ret (Some true), s') /\ disconnect_sent s' = true /\
    sent (transport s') = sent (transport s) ++ [Z.lor b0 DUP] ++ disconnect_bytes /\
    internal_pkt_queue s' = internal_pkt_queue s.
Proof.
  intros Hc Htx E1 E2 He E3. set (s1 := with_transport (mkTcpTransport c2) s).
  assert (queue_internal_packet (b0 :: rest) true s = (Throw e, s1)) as Eq.
  { unfold queue_internal_packet, try_send_packet, mbind, stm_bind, gets, debug_assert, assert_. cbn -[on_transport write Z.lor DUP].
    rewrite Htx. cbn -[on_transport write Z.lor DUP]. rewrite bool_decide_true by done. cbn -[on_transport write Z.lor DUP].
    rewrite (tcp_write_accepted _ _ _ _ E1). cbn -[on_transport write].
    rewrite drop_0, (tcp_write_fails rest (with_transport (mkTcpTransport c1) s) e c2 E2 He). done. }
  set (s2 := with_transport (mkTcpTransport c3) s1).
  assert (queue_internal_packet disconnect_bytes false s1 = (Ret tt, s2)) as Ed.
  { unfold queue_internal_packet, try_send_packet, mbind, stm_bind, gets, debug_assert, assert_. cbn -[on_transport write disconnect_bytes].
    rewrite Htx. cbn -[on_transport write disconnect_bytes]. rewrite bool_decide_true by done.
    cbn -[on_transport write disconnect_bytes]. by rewrite (tcp_write_accepted _ s1 _ _ E3). }
  assert (send_disconnect_and_flush evs1 s1 = (Ret (Some tt), with_disconnect_sent true s2)) as Es.
  { unfold send_disconnect_and_flush, mbind, stm_bind. cbn. unfold connected. cbn. rewrite Hc. cbn [negb].
    unfold infallible. rewrite make_disconnect, Ed. by apply flush_ends. }
  exists s1, (with_disconnect_sent true s2). split_and!; [done| |done| |done].
  - unfold disconnect_sequence, mbind, stm_bind, attempt. rewrite Es.
    unfold send_close_notify_, mbind, stm_bind, modify. destruct evs2; reflexivity.
  - pose proof (wp_inv _ _ _ _ _ _ (try_write_ok [Z.lor b0 DUP] (tcp (transport s))) E1) as (_ & T1 & _).
    pose proof (wp_inv_throw _ _ _ _ _ _ (try_write_ok rest c1) E2) as [_ T2].
    pose proof (wp_inv _ _ _ _ _ _ (try_write_ok disconnect_bytes c2) E3) as (_ & T3 & _). cbn in T1, T2, T3 |- *.
    by rewrite T3, T2, T1, <- (assoc_L (++)).
Qed.
End disconnect_tcp.

(* ------------------------------------------------------------------ *)
(** ** Concrete instances                                              *)
(* ------------------------------------------------------------------ *)

Section samples.
#[local] Existing Instances production sample_clock sample_clock_ok.

(** Written out: a CONNECT that is sent in two pieces, then refused. *)
Definition sample_refusal : TcpTransport SimStream :=
  mkTcpTransport (mkSim [frame TConnAck 0 [0; 5]] [4; 100; 100; 100]%nat [] []).

Lemma task_starts_with_connect_witness :
  exists s, spawn sample_refusal (frame TConnect 0 [1; 2; 3; 4]) 60 ClientShared_new 10 0 (mkSimRecipients [] [] [])
            = Ret s /\ connect_sig s = true.
Proof.
  destruct (task_starts_with_connect sample_refusal (frame TConnect 0 [1; 2; 3; 4]) 60 ClientShared_new 10 0
    (mkSimRecipients [] [] []) 20 [WriteReady (Ok tt); ReadReady (Ok tt)] shared_ok_new)
    as (s & Hs & Hc & _); [discriminate|repeat constructor|]. exact (ex_intro _ s (conj Hs Hc)).
Defined.

(** A run that ends on a [Disconnect] command, with two tasks waiting. *)
Abbreviation tr_end := (sample_tr false sample_in).
Abbreviation sample_events := [ReadReady (Ok tt); CommandReceived (Some CDisconnect)].

Lemma task_releases_waiters_witness :
  exists s1 s2 s',
    run_task_loop 20 sample_events tr_end = (Ret (Some false), s1) /\
    disconnect_sequence [FWrite (Ok tt)] [] s1 = (Ret (Some true), s2) /\
    task 20 sample_events [FWrite (Ok tt)] [] tr_end = (Ret (Some (mkShutdownStatus true true)), s') /\
    20%nat ∈ woken s' /\ 21%nat ∈ woken s'.
Proof.
  set (s1 := (run_task_loop 20 sample_events tr_end).2).
  set (s2 := (disconnect_sequence [FWrite (Ok tt)] [] s1).2).
  assert (run_task_loop 20 sample_events tr_end = (Ret (Some false), s1)) as E1 by (vm_compute; reflexivity).
  assert (disconnect_sequence [FWrite (Ok tt)] [] s1 = (Ret (Some true), s2)) as E2 by (vm_compute; reflexivity).
  destruct (task_releases_waiters 20 sample_events [FWrite (Ok tt)] [] tr_end s1 s2 _ _ E1 I E2)
    as (s' & Ht & _ & Hw).
  exists s1, s2, s'. refine (conj E1 (conj E2 (conj Ht _))). split; apply Hw; right.
  - left. exists 7. vm_compute. reflexivity.
  - right; right; right. exists [97], [Some 21%nat]. split; [vm_compute; reflexivity|by constructor].
Defined.

Lemma disconnect_reported_when_sent_witness :
  let s := sample_tr false (mkSim [] [1%nat; 5%nat] [] []) in
  exists s', send_disconnect_and_flush [FWrite (Ok tt)] s = (Ret (Some tt), s') /\
    disconnect_sent s' = true /\ sent (transport s') = stream s ++ disconnect_bytes.
Proof.
  intros s. destruct (disconnect_reported_when_sent [FWrite (Ok tt)] s
    (tr_ok_weak _ (sample_tr_ok false _)) eq_refl eq_refl) as (o & s' & E & _ & Hs).
  assert (disconnect_sent s' = true) as Hd.
  { change s' with (o, s').2. rewrite <- E. vm_compute. reflexivity. }
  destruct (Hs Hd) as (-> & _ & Hb). exists s'. exact (conj E (conj Hd (Hb (sample_tr_ok false _)))).
Defined.

(** A stream whose writes follow a script: how many bytes are accepted, or
    [None] for a connection that is reset. *)
Record FaultyStream : Type := mkFaulty { fs_script : list (option nat); fs_out : bytes }.

#[local] Instance FaultyStream_Tcp : TcpStream FaultyStream := {|
  try_read n c := (Throw (mkIoError WouldBlock None), c);
  try_write src c :=
    match fs_script c with
    | [] => (Throw (mkIoError WouldBlock None), c)
    | None :: script => (Throw (mkIoError ConnectionReset None), mkFaulty script (fs_out c))
    | Some k :: script =>
      let n := Nat.min k (length src) in (Ret n, mkFaulty script (fs_out c ++ take n src))
    end
|}.

#[local] Instance FaultyStream_TcpOk : TcpStreamOk FaultyStream.
Proof.
  refine {| tcp_in _ := []; tcp_out := fs_out |}.
  - done.
  - intros src c. unfold wp, try_write; cbn. destruct (fs_script c) as [|[k|] script]; [done| |done].
    cbn. split_and!; [lia|done|done].
Defined.

(** A publication that has expired; the stream accepts one byte, fails, and
    then accepts everything. *)
Definition sample_faulty : Transceiver (TcpTransport FaultyStream) SimRecipients :=
  mkTransceiver (mkTcpTransport (mkFaulty [Some 1%nat; None; Some 100%nat] [])) {[ IdType_publish 7 := sample_publish ]} ∅
    None PacketReader_default false 600 0 [mkTimeout 50 (IdType_publish 7)] [] ClientShared_new SubscriptionSet_default
    false false (frame TPingReq 0 []) 10 100 [] [] (mkSimRecipients [] [] []).

Lemma failed_resend_then_disconnect_witness :
  (exists s1 s', queue_internal_packet sample_publish true sample_faulty = (Throw (mkIoError ConnectionReset None), s1) /\
     disconnect_sequence [] [] s1 = (Ret (Some true), s') /\ sent (transport s') = [0x3A; 0xE0; 0x00]) /\
  exists s', task 20 [AlarmTick] [] [] sample_faulty = (Ret (Some (mkShutdownStatus true true)), s') /\
    sent (transport s') = [0x3A; 0xE0; 0x00].
Proof.
  split.
  - destruct (failed_resend_then_disconnect (hd 0 sample_publish) (tl sample_publish) [] [] sample_faulty
      (mkFaulty [None; Some 100%nat] [0x3A]) (mkFaulty [Some 100%nat] [0x3A]) (mkFaulty [] [0x3A; 0xE0; 0x00])
      (mkIoError ConnectionReset None)) as (s1 & s' & E1 & E2 & _ & Hs & _); try (vm_compute; reflexivity).
    exists s1, s'. exact (conj E1 (conj E2 Hs)).
  - eexists. split; vm_compute; reflexivity.
Defined.
End samples.
