(* ===== verification/Futures.v ===== *)
(** * [futures.rs]: waiting for the transceiver

    The futures on which a client waits for an acknowledgement or for a
    subscription, polled on the state they share with the transceiver. The
    theorems show that a future that is pending is woken when its answer
    arrives, and is ready then, and what a reused packet ID costs; polling the
    future of a subscription whose place in the list is gone panics. *)

From Stdlib Require Import ZArith Lia.
From stdpp Require Import base list numbers gmap.
From S2P Require Import Prelude Base ByteIO Packets PacketProps Transport PacketReader.
From S2P Require Import Subscription Shared Transceiver TransceiverOut TransceiverProps Samples.

Local Open Scope Z_scope.

(** [std::task::Poll]. *)
Inductive Poll (A : Type) : Type :=
| Ready (a : A)
| PollPending.
Arguments Ready {A} a.
Arguments PollPending {A}.

(* ------------------------------------------------------------------ *)
(** ** Awaiting an acknowledgement                                     *)
(* ------------------------------------------------------------------ *)

(** [AckNotifierMapAccessor], [RecNotifierMapAccessor] and
    [CompNotifierMapAccessor]. *)
Inductive Stage : Type := AckStage | RecStage | CompStage.

#[global] Instance Stage_eq_dec : EqDecision Stage.
Proof. solve_decision. Defined.

Definition access_notifier_map (k : Stage) : ClientShared -> NotifierMap :=
  match k with AckStage => notify_ack | RecStage => notify_rec | CompStage => notify_comp end.

Definition set_notifier_map (k : Stage) : NotifierMap -> ClientShared -> ClientShared :=
  match k with
  | AckStage => set_notify_ack
  | RecStage => set_notify_rec
  | CompStage => set_notify_comp
  end.

Record PublishFuture : Type := mkPublishFuture {
  fut_packet_id : u16;
  fut_notifier : Stage;
  fut_result : option bool
}.

Definition PublishFuture_new {E} (packet_id : u16) (k : Stage) : stm ClientShared E PublishFuture :=
  modify (fun sh => set_notifier_map k (<[packet_id := WithoutWaker]> (access_notifier_map k sh)) sh);;
  mret (mkPublishFuture packet_id k None).

Definition PublishFuture_poll {E} (w : Waker) : stm (PublishFuture * ClientShared) E (Poll bool) :=
  fs ← get;
  let '(f, sh) := fs in
  match fut_result f with
  | Some ret => mret (Ready ret)
  | None =>
    let map := access_notifier_map (fut_notifier f) sh in
    let finish (r : bool) :=
      modify (fun fs => (mkPublishFuture (fut_packet_id f) (fut_notifier f) (Some r), fs.2));;
      mret (Ready r) in
    match map !! fut_packet_id f with
    | Some Failed => finish true
    | Some _ =>
      modify (fun fs => (fs.1,
        set_notifier_map (fut_notifier f) (<[fut_packet_id f := WithWaker w]> map) fs.2));;
      mret PollPending
    | None => finish false
    end
  end.

Definition PublishFuture_drop {E} (f : PublishFuture) : stm ClientShared E unit :=
  match fut_result f with
  | None => modify (fun sh =>
      set_notifier_map (fut_notifier f) (delete (fut_packet_id f) (access_notifier_map (fut_notifier f) sh)) sh)
  | Some _ => mret tt
  end.

(* ------------------------------------------------------------------ *)
(** ** Awaiting a subscription                                         *)
(* ------------------------------------------------------------------ *)

Record SubscribeFuture : Type := mkSubscribeFuture {
  sf_topic : str;
  waker_index : option nat;
  sf_result : option (result QoS unit)
}.

Definition SubscribeFuture_new (topic : str) : SubscribeFuture := mkSubscribeFuture topic None None.

(** [wakers[i] = x], which panics out of range. *)
Definition vec_set {St E A} (i : nat) (x : A) (l : list A) : stm St E (list A) :=
  assert_ (i <? length l)%nat;; mret (<[i := x]> l).

Definition SubscribeFuture_poll {E} (w : Waker)
    : stm (SubscribeFuture * ClientShared) E (Poll (result QoS unit)) :=
  fs ← get;
  let '(f, sh) := fs in
  match sf_result f with
  | Some r => mret (Ready r)
  | None =>
    let finish (r : result QoS unit) :=
      modify (fun fs => (mkSubscribeFuture (sf_topic f) (waker_index f) (Some r), fs.2));;
      mret (Ready r) in
    match subs sh !! sf_topic f with
    | None => finish (Err tt)
    | Some (Existing qos) => finish (Ok qos)
    | Some (Pending wakers) =>
      match waker_index f with
      | Some i =>
        wakers ← vec_set i (Some w) wakers;
        modify (fun fs => (fs.1, set_subs (<[sf_topic f := Pending wakers]> (subs sh)) fs.2));;
        mret PollPending
      | None =>
        modify (fun fs => (mkSubscribeFuture (sf_topic f) (Some (length wakers)) None,
          set_subs (<[sf_topic f := Pending (wakers ++ [Some w])]> (subs sh)) fs.2));;
        mret PollPending
      end
    end
  end.

Definition SubscribeFuture_drop {E} (f : SubscribeFuture) : stm ClientShared E unit :=
  match sf_result f, waker_index f with
  | None, Some i =>
    sh ← get;
    match subs sh !! sf_topic f with
    | Some (Pending wakers) =>
      wakers ← vec_set i None wakers;
      modify (set_subs (<[sf_topic f := Pending wakers]> (subs sh)))
    | _ => mret tt
    end
  | _, _ => mret tt
  end.

(* ------------------------------------------------------------------ *)
(** ** Facts                                                           *)
(* ------------------------------------------------------------------ *)

Lemma access_set k m sh : access_notifier_map k (set_notifier_map k m sh) = m.
Proof. by destruct k. Qed.

(** The packet that answers a stage. *)
Definition answer (k : Stage) (i : u16) : IncomingPacket :=
  match k with
  | AckStage => InPubAck (mkSimple i)
  | RecStage => InPubRec (mkSimple i)
  | CompStage => InPubComp (mkSimple i)
  end.

(** What the transceiver holds until that packet arrives. *)
Definition awaited (k : Stage) (i : u16) : IdType :=
  match k with CompStage => IdType_pub_rel i | _ => IdType_publish i end.

Section futures.
#[local] Existing Instance production.
Context `{ClockOk} {T X : Type} `{TransportOk T} `{RecipientsOk X}.
Implicit Types (s : Transceiver T X).

(** The handler failed with an error of the transport. *)
Definition no_answer (e : io_error) (s' : Transceiver T X) : Prop := is_would_block e = false.

Lemma failed_no_answer out s e s' : io_failed out s e s' -> no_answer e s'.
Proof. by intros (? & _). Qed.

Lemma answered_stage k i s : is_Some (pending_packets s !! awaited k i) ->
  answered s (answer k i) = Some (i, access_notifier_map k (shared s), set_notifier_map k).
Proof. intros Hp. destruct k; cbn; by rewrite bool_decide_true. Qed.

(** The answer arrives while the future waits, registered or not. *)
Lemma future_answered (k : Stage) (i : u16) (r : NotifyResult) s :
  tr_ok s -> connect_sig s = false -> is_u16 i ->
  is_Some (pending_packets s !! awaited k i) ->
  access_notifier_map k (shared s) !! i = Some r ->
  wp (process_packet (answer k i))
    (fun b s' => b = false /\ woken s' = woken s ++ waker_of r /\
       shared s' = set_notifier_map k (delete i (access_notifier_map k (shared s))) (shared s))
    no_answer s.
Proof.
  intros Hok Hc Hi Hp Hr.
  assert (IncomingPacket_wf (answer k i)) as Hwf by (by destruct k).
  eapply wp_mono; [apply (wp_packet (answer k i) s Hok Hc Hwf); by destruct k| |by apply failed_no_answer]; cbn beta.
  intros b s' (-> & Hre). destruct Hre as (_ & _ & _ & _ & _ & _ & Hw & Hs & _).
  unfold wakes, shared_after in Hw, Hs. rewrite answered_stage in Hw, Hs by done. rewrite Hr in Hw.
  exact (conj eq_refl (conj Hw Hs)).
Qed.

(** A future whose entry is gone is ready. *)
Lemma poll_gone {E} (f : PublishFuture) (w : Waker) (sh : ClientShared) :
  fut_result f = None -> access_notifier_map (fut_notifier f) sh !! fut_packet_id f = None ->
  PublishFuture_poll (E := E) w (f, sh)
  = (Ret (Ready false), (mkPublishFuture (fut_packet_id f) (fut_notifier f) (Some false), sh)).
Proof. intros Hr Hn. unfold PublishFuture_poll, mbind, stm_bind. cbn. by rewrite Hr, Hn. Qed.

(** A future whose entry is there and has not failed registers its waker. *)
Lemma poll_waiting {E} (f : PublishFuture) (w : Waker) (r : NotifyResult) (sh : ClientShared) :
  fut_result f = None -> access_notifier_map (fut_notifier f) sh !! fut_packet_id f = Some r -> r <> Failed ->
  PublishFuture_poll (E := E) w (f, sh)
  = (Ret PollPending, (f, set_notifier_map (fut_notifier f)
       (<[fut_packet_id f := WithWaker w]> (access_notifier_map (fut_notifier f) sh)) sh)).
Proof.
  intros Hr Hn Hf. unfold PublishFuture_poll, mbind, stm_bind. cbn. rewrite Hr, Hn. by destruct r.
Qed.

(** A future that is left pending has registered its waker. *)
Lemma poll_pending {E} (f f' : PublishFuture) (w : Waker) (sh sh' : ClientShared) :
  PublishFuture_poll (E := E) w (f, sh) = (Ret PollPending, (f', sh')) ->
  fut_result f = None /\ f' = f /\
  sh' = set_notifier_map (fut_notifier f)
          (<[fut_packet_id f := WithWaker w]> (access_notifier_map (fut_notifier f) sh)) sh.
Proof.
  unfold PublishFuture_poll, mbind, stm_bind. cbn. intros Hpoll. destruct (fut_result f); [done|].
  destruct (access_notifier_map _ sh !! _) as [[|w0|]|]; cbn in Hpoll; try done; injection Hpoll as <- <-; done.
Qed.

Lemma tr_ok_shared s sh : tr_ok s -> shared_ok sh -> tr_ok (with_shared sh s).
Proof.
  intros (I1 & I2 & I3 & _ & I5 & I6 & I7) Hsh.
  exact (conj I1 (conj I2 (conj I3 (conj Hsh (conj I5 (conj I6 I7)))))).
Qed.

Lemma set_notifier_ok k m sh : shared_ok sh -> shared_ok (set_notifier_map k m sh).
Proof. by destruct k. Qed.

(** No wake-up is lost. If polling a publication's future on the shared
    state leaves it pending, the waker is registered; when the transceiver
    then handles the acknowledgement of that stage, it wakes exactly that
    waker, and the future, polled again, is ready and reports success. *)
Theorem publish_future_woken (f f' : PublishFuture) (w w' : Waker) (sh' : ClientShared) s :
  let k := fut_notifier f in let i := fut_packet_id f in
  tr_ok s -> connect_sig s = false -> is_u16 i ->
  is_Some (pending_packets s !! awaited k i) ->
  PublishFuture_poll (E := io_error) w (f, shared s) = (Ret PollPending, (f', sh')) ->
  (exists s', process_packet (answer k i) (with_shared sh' s) = (Ret false, s') /\
     woken s' = woken s ++ [w] /\
     exists sh'', PublishFuture_poll (E := io_error) w' (f', shared s') = (Ret (Ready false), sh'')) \/
  (exists e s', process_packet (answer k i) (with_shared sh' s) = (Throw e, s') /\ is_would_block e = false).
Proof.
  intros k i Hok Hc Hi Hp Hpoll. apply poll_pending in Hpoll as (Hr & -> & ->). fold k i.
  set (sh' := set_notifier_map _ _ _).
  assert (shared_ok (shared s)) as Hsh by (destruct Hok as (_ & _ & _ & ? & _); assumption).
  destruct (wp_run _ _ _ _ (future_answered k i (WithWaker w) (with_shared sh' s)
    (tr_ok_shared _ _ Hok (set_notifier_ok _ _ _ Hsh)) Hc Hi Hp ltac:(cbn; subst sh'; by rewrite access_set, lookup_insert_eq)))
    as [(b & s' & E & -> & Hw & Hs)|(e & s' & E & He)]; [left|right; by exists e, s'].
  exists s'. refine (conj E (conj Hw _)). eexists. apply poll_gone; [done|]. fold k i.
  by rewrite Hs, access_set, lookup_delete_eq.
Qed.

(** A packet ID that is handed out again while a publication still waits
    for it costs that publication its wake-up: the entry is replaced, the
    acknowledgement wakes the newcomer alone, and nothing is left of the first
    one's waker. *)
Theorem reused_id_loses_waker (f f' : PublishFuture) (w w' : Waker) (sh1 sh2 sh3 : ClientShared) s :
  let k := fut_notifier f in let i := fut_packet_id f in
  tr_ok s -> connect_sig s = false -> is_u16 i ->
  is_Some (pending_packets s !! awaited k i) ->
  PublishFuture_poll (E := io_error) w (f, shared s) = (Ret PollPending, (f, sh1)) ->
  PublishFuture_new (E := io_error) i k sh1 = (Ret f', sh2) ->
  PublishFuture_poll (E := io_error) w' (f', sh2) = (Ret PollPending, (f', sh3)) ->
  (exists s', process_packet (answer k i) (with_shared sh3 s) = (Ret false, s') /\
     woken s' = woken s ++ [w'] /\ access_notifier_map k (shared s') !! i = None) \/
  (exists e s', process_packet (answer k i) (with_shared sh3 s) = (Throw e, s') /\ is_would_block e = false).
Proof.
  intros k i Hok Hc Hi Hp (Hr & _ & ->)%poll_pending Hnew Hpoll. fold k i in Hnew.
  unfold PublishFuture_new, mbind, stm_bind in Hnew. cbn in Hnew. injection Hnew as <- <-.
  apply poll_pending in Hpoll as (_ & _ & ->). cbn [fut_notifier fut_packet_id]. set (sh3 := set_notifier_map _ _ _).
  assert (shared_ok sh3) as Hsh by
    (destruct Hok as (_ & _ & _ & ? & _); repeat apply set_notifier_ok; assumption).
  destruct (wp_run _ _ _ _ (future_answered k i (WithWaker w') (with_shared sh3 s)
    (tr_ok_shared _ _ Hok Hsh) Hc Hi Hp ltac:(cbn; subst sh3; by rewrite access_set, lookup_insert_eq)))
    as [(b & s' & E & -> & Hw & Hs)|(e & s' & E & He)]; [left|right; by exists e, s'].
  exists s'. refine (conj E (conj Hw _)). by rewrite Hs, access_set, lookup_delete_eq.
Qed.
End futures.

(** The waker of a subscription's future is kept at the place that was free
    when it was first polled; in a list that has become too short for it,
    polling panics, and so does dropping the future. *)
Lemma stale_index_panics {E} t i ws (w : Waker) (sh : ClientShared) :
  subs sh !! t = Some (Pending ws) -> (length ws <= i)%nat ->
  let f := mkSubscribeFuture t (Some i) None in
  SubscribeFuture_poll (E := E) w (f, sh) = (Panic, (f, sh)) /\ SubscribeFuture_drop (E := E) f sh = (Panic, sh).
Proof.
  intros Ht Hle f. unfold SubscribeFuture_poll, SubscribeFuture_drop, vec_set, assert_, mbind, stm_bind. cbn -[Nat.ltb].
  rewrite Ht. assert ((i <? length ws)%nat = false) as -> by (by apply Nat.ltb_ge). done.
Qed.

(* ------------------------------------------------------------------ *)
(** ** Concrete instances                                              *)
(* ------------------------------------------------------------------ *)

Section samples.
#[local] Existing Instances production sample_clock sample_clock_ok.

(** The future of the publication with the ID 7, polled by task 40. *)
Lemma publish_future_woken_witness :
  let s := sample_tr false sample_in in let f := mkPublishFuture 7 AckStage None in
  let sh' := (PublishFuture_poll (E := io_error) 40%nat (f, shared s)).2.2 in
  (exists s', process_packet (answer AckStage 7) (with_shared sh' s) = (Ret false, s') /\
     woken s' = [40%nat]) \/
  (exists e s', process_packet (answer AckStage 7) (with_shared sh' s) = (Throw e, s') /\ is_would_block e = false).
Proof.
  intros s f sh'.
  destruct (publish_future_woken f f 40%nat 41%nat sh' s (sample_tr_ok false sample_in))
    as [(s' & E & Hw & _)|Hf].
  - reflexivity.
  - cbn. unfold is_u16. lia.
  - eexists. vm_compute. reflexivity.
  - vm_compute. reflexivity.
  - left. exists s'. exact (conj E Hw).
  - right. exact Hf.
Defined.

(** Task 41 is given the ID 7 on which task 40 waits. *)
Lemma reused_id_loses_waker_witness :
  let s := sample_tr false sample_in in let f := mkPublishFuture 7 AckStage None in
  let sh := (PublishFuture_poll (E := io_error) 41%nat (f, shared s)).2.2 in
  (exists s', process_packet (answer AckStage 7) (with_shared sh s) = (Ret false, s') /\ woken s' = [41%nat]) \/
  (exists e s', process_packet (answer AckStage 7) (with_shared sh s) = (Throw e, s') /\ is_would_block e = false).
Proof.
  intros s f sh.
  set (sh1 := (PublishFuture_poll (E := io_error) 40%nat (f, shared s)).2.2).
  set (sh2 := (PublishFuture_new (E := io_error) 7 AckStage sh1).2).
  destruct (reused_id_loses_waker f f 40%nat 41%nat sh1 sh2 sh s (sample_tr_ok false sample_in))
    as [(s' & E & Hw & _)|Hf].
  - reflexivity.
  - cbn. unfold is_u16. lia.
  - eexists. vm_compute. reflexivity.
  - vm_compute. reflexivity.
  - vm_compute. reflexivity.
  - vm_compute. reflexivity.
  - left. exists s'. exact (conj E Hw).
  - right. exact Hf.
Defined.

End samples.
