(* ===== verification/Wrappers.v ===== *)
(** * [wrappers.rs]: the mutex of the build

    [LmcMutex] is parking_lot's mutex, or, in a build without that feature, a
    wrapper of the standard one, whose [lock] unwraps and so panics once a
    section has panicked while it held the lock. The rest of the development
    runs the sections of the code on the bare data. parking_lot is a parameter
    here, known by the documented law that a panic releases its mutex; the
    theorem shows the section of the crate that tells the two apart. *)

From Stdlib Require Import ZArith Lia.
From stdpp Require Import base list numbers gmap.
From S2P Require Import Prelude Base ByteIO Packets PacketProps Transport PacketReader.
From S2P Require Import Subscription Shared Transceiver TransceiverOut TransceiverProps Samples.
From S2P Require Import Futures.

Local Open Scope Z_scope.

(** [std::sync::Mutex]: the data and whether it is poisoned; [lock] reports the
    poisoning, and the guard of a section that panics poisons the mutex as it is
    dropped. *)
Record StdMutex (T : Type) : Type := mkStdMutex { std_data : T; poisoned : bool }.
Arguments mkStdMutex {T} std_data poisoned.
Arguments std_data {T} s.
Arguments poisoned {T} s.

Definition StdMutex_lock {T} (x : StdMutex T) : result T unit := if poisoned x then Err tt else Ok (std_data x).
Definition guard_drop {T} (panicking : bool) (t : T) : StdMutex T := mkStdMutex t panicking.

(** The wrapper. *)
Definition LmcMutex_new {T} (t : T) : StdMutex T := mkStdMutex t false.
Definition LmcMutex_lock {T E} : stm (StdMutex T) E T :=
  x ← get;
  match StdMutex_lock x with Ok t => mret t | Err _ => panic end.

Definition is_panic {E A} (o : outcome E A) : bool := match o with Panic => true | _ => false end.

(** The code of a section, from [lock()] to the end of the guard's life. *)
Definition locked {T E A} (m : stm T E A) : stm (StdMutex T) E A :=
  t ← LmcMutex_lock;
  fun _ => let '(o, t') := m t in (o, guard_drop (is_panic o) t').

(** parking_lot's mutex, which the crate re-exports: sections run on the
    data, and a panic releases the lock without poisoning. *)
Class ParkingLot (M : Type -> Type) : Type := {
  pl_data : forall {T}, M T -> T;
  pl_locked : forall {T E A}, stm T E A -> stm (M T) E A;
  pl_no_poisoning : forall {T E A} (m : stm T E A) (x : M T),
    (pl_locked m x).1 = (m (pl_data x)).1 /\ pl_data (pl_locked m x).2 = (m (pl_data x)).2
}.

Section sections.
Context {T E A : Type}.
Implicit Types (m : stm T E A) (ms : list (stm T E A)) (t : T).

(** Sections run one after the other, each by some task, with their outcomes. *)
Fixpoint trace {S} (ms : list (stm S E A)) (s : S) : list (outcome E A) * S :=
  match ms with
  | [] => ([], s)
  | m :: ms => let '(o, s) := m s in let '(os, s) := trace ms s in (o :: os, s)
  end.

Lemma trace_poisoned ms t :
  trace (locked <$> ms) (mkStdMutex t true) = (replicate (length ms) (Panic (E := E) (A := A)), mkStdMutex t true).
Proof.
  induction ms as [|m ms IH]; [done|]. rewrite fmap_cons. cbn [trace].
  assert (locked m (mkStdMutex t true) = (Panic, mkStdMutex t true)) as -> by done. by rewrite IH.
Qed.

Lemma trace_parking_lot {M} `{ParkingLot M} ms (x : M T) :
  (trace (pl_locked <$> ms) x).1 = (trace ms (pl_data x)).1 /\
  pl_data (trace (pl_locked <$> ms) x).2 = (trace ms (pl_data x)).2.
Proof.
  revert x. induction ms as [|m ms IH]; intros x; [done|]. rewrite fmap_cons. cbn [trace].
  pose proof (pl_no_poisoning m x) as [Ho Ht]. destruct (pl_locked m x) as [o x1], (m (pl_data x)) as [o' t1].
  cbn in Ho, Ht. subst o' t1. specialize (IH x1).
  destruct (trace (pl_locked <$> ms) x1), (trace ms (pl_data x1)). cbn in *. destruct IH as [-> ->]. done.
Qed.
End sections.

(* ------------------------------------------------------------------ *)
(** ** A section that panics                                           *)
(* ------------------------------------------------------------------ *)

Abbreviation SubMap := (gmap (list Z) SubscriptionState).

(** The section of [SubscribeFuture::drop]. *)
Definition drop_section {E} (topic : str) (i : nat) : stm SubMap E unit :=
  map ← get;
  match map !! topic with
  | Some (Pending wakers) =>
    wakers ← vec_set i None wakers;
    modify (<[topic := Pending wakers]>)
  | _ => mret tt
  end.

Lemma drop_is_section {E} f i (sh : ClientShared) : sf_result f = None -> waker_index f = Some i ->
  SubscribeFuture_drop (E := E) f sh = zoom subs set_subs (drop_section (sf_topic f) i) sh.
Proof.
  intros Hr Hi. unfold SubscribeFuture_drop, drop_section, zoom, vec_set, assert_, mbind, stm_bind. rewrite Hr, Hi.
  cbn -[Nat.ltb]. destruct (subs sh !! sf_topic f) as [[q|ws]|]; [by destruct sh| |by destruct sh].
  destruct (i <? length ws)%nat; cbn; by destruct sh.
Qed.

(** Cancelling a subscription whose place in the list is wrong panics
    with the lock of the subscription map held. In a build without parking_lot
    the mutex is poisoned, and everything that uses the map from then on, the
    task of the transceiver included, panics; with parking_lot the map is as
    it was and the others go on. *)
Theorem cancelled_subscription_poisons {M} {E : Type} `{ParkingLot M} (f : SubscribeFuture) (i : nat) (ws : list (option Waker))
    (sh : ClientShared) (x : M SubMap) (later : list (stm SubMap E unit)) :
  sf_result f = None -> waker_index f = Some i -> subs sh !! sf_topic f = Some (Pending ws) -> (length ws <= i)%nat ->
  pl_data x = subs sh ->
  let sections := drop_section (sf_topic f) i :: later in
  SubscribeFuture_drop (E := E) f sh = (Panic, sh) /\
  trace (locked <$> sections) (LmcMutex_new (subs sh)) =
    (replicate (S (length later)) Panic, mkStdMutex (subs sh) true) /\
  (trace (pl_locked <$> sections) x).1 = Panic :: (trace later (subs sh)).1.
Proof.
  intros Hr Hi Hs Hle Hx sections.
  assert (drop_section (E := E) (sf_topic f) i (subs sh) = (Panic, subs sh)) as Hd.
  { unfold drop_section, vec_set, assert_, mbind, stm_bind. cbn -[Nat.ltb]. rewrite Hs.
    assert ((i <? length ws)%nat = false) as -> by (by apply Nat.ltb_ge). done. }
  subst sections. split_and!.
  - rewrite (drop_is_section f i) by done. unfold zoom. rewrite Hd. by destruct sh.
  - rewrite fmap_cons. cbn [trace].
    assert (locked (drop_section (E := E) (sf_topic f) i) (LmcMutex_new (subs sh)) = (Panic, mkStdMutex (subs sh) true)) as ->.
    { unfold locked, LmcMutex_lock, mbind, stm_bind, get. cbn [StdMutex_lock LmcMutex_new poisoned std_data mret stm_ret]. by rewrite Hd. }
    by rewrite trace_poisoned.
  - rewrite (proj1 (trace_parking_lot _ x)), Hx. cbn [trace]. rewrite Hd. by destruct (trace later (subs sh)).
Qed.

(* ------------------------------------------------------------------ *)
(** ** Concrete instances                                              *)
(* ------------------------------------------------------------------ *)

(** A mutex that is its data. *)
#[local] Instance bare_mutex : ParkingLot (fun T => T) := {|
  pl_data _ x := x;
  pl_locked _ _ _ m := m;
  pl_no_poisoning _ _ _ m x := conj eq_refl eq_refl
|}.

Lemma cancelled_subscription_poisons_witness :
  let f := mkSubscribeFuture [97] (Some 0%nat) None in
  let sh := mkShared 1 ∅ ∅ ∅ {[ [97] := Pending [] ]} 0 in
  trace (locked <$> [drop_section (E := io_error) [97] 0; modify (delete [97])]) (LmcMutex_new (subs sh)) =
    ([Panic; Panic], mkStdMutex (subs sh) true).
Proof.
  intros f sh. destruct (cancelled_subscription_poisons (M := fun T => T) (E := io_error) f 0 [] sh (subs sh)
    [modify (delete [97])]) as (_ & Ht & _); [reflexivity|reflexivity|reflexivity|cbn; lia|reflexivity|exact Ht].
Defined.
