(* ===== verification/Wakers.v ===== *)
(** * The transceiver never forgets a waker

    Whatever the transceiver does and however it ends, on every outcome, a
    waker that a publication has registered is either still registered or has
    been woken. The proof follows the structure of the code: the property is
    closed under sequencing, and every operation is built from steps that have
    it. *)

From Stdlib Require Import ZArith Lia.
From stdpp Require Import base list numbers gmap.
From S2P Require Import Prelude Base ByteIO Packets PacketProps Transport PacketReader.
From S2P Require Import Subscription Shared Transceiver TransceiverOut TransceiverProps Samples.
From S2P Require Import TransceiverRuns Shutdown Futures.

Local Open Scope Z_scope.

Section wakers.
Context `{BuildCfg} `{Clock} {T X : Type} `{Transport T} `{Recipients X}.
Implicit Types (s : Transceiver T X).
Abbreviation tio A := (stm (Transceiver T X) io_error A).

(** The waker registered at a stage for an ID. *)
Definition has_waker (sh : ClientShared) (k : Stage) (i : Z) (w : Waker) : Prop :=
  access_notifier_map k sh !! i = Some (WithWaker w).

Definition keeps s s' : Prop :=
  (shared_ok (shared s) -> shared_ok (shared s')) /\
  exists ws, woken s' = woken s ++ ws /\
    forall k i w, has_waker (shared s) k i w -> has_waker (shared s') k i w \/ w ∈ ws.

Lemma keeps_same s s' : shared s' = shared s -> woken s' = woken s -> keeps s s'.
Proof. intros Hsh Hw. split; [by rewrite Hsh|]. exists []. rewrite app_nil_r. split; [done|]. intros k i w. rewrite Hsh. auto. Qed.

#[global] Instance keeps_refl : Reflexive keeps.
Proof. intros s. by apply keeps_same. Qed.

#[global] Instance keeps_trans : Transitive keeps.
Proof.
  intros s1 s2 s3 (Hok & ws & Hw & Hr) (Hok' & ws' & Hw' & Hr'). split; [auto|]. exists (ws ++ ws').
  split; [by rewrite Hw', Hw, app_assoc|]. intros k i w Hk. rewrite elem_of_app.
  destruct (Hr k i w Hk) as [Hk'|]; [|auto]. destruct (Hr' k i w Hk'); auto.
Qed.

#[global] Instance keeps_preorder : PreOrder keeps.
Proof. split; apply _. Qed.

(** Code that keeps them, whatever its outcome. *)
Definition gentle {A} (m : tio A) : Prop := respects keeps m.

(** A change of the shared state that leaves the notifier maps alone. *)
Lemma gentle_shared {A} (m : tio A) :
  (forall s, woken (m s).2 = woken s) -> (forall s, shared_ok (shared s) -> shared_ok (shared (m s).2)) ->
  (forall s k, access_notifier_map k (shared (m s).2) = access_notifier_map k (shared s)) -> gentle m.
Proof.
  intros Hw Hok Hm s. split; [apply Hok|]. exists []. rewrite app_nil_r. split; [apply Hw|].
  intros k i w Hk. left. unfold has_waker. by rewrite Hm.
Qed.

Lemma gentle_fetch : gentle (on_shared fetch_packet_id).
Proof. apply gentle_shared; [done|intros s [_ ?]; split; [apply wrap16_ok|done]|]. by intros s []. Qed.

Lemma gentle_update_subs f : gentle (update_subs f).
Proof. apply gentle_shared; [done|done|]. by intros s []. Qed.

Lemma gentle_forget_sub (t : str) :
  gentle (modify (fun s => with_shared (set_subs (delete t (subs (shared s))) (shared s)) s)).
Proof. apply gentle_shared; [done|done|]. by intros s []. Qed.

Lemma gentle_wake w : gentle (wake w).
Proof. intros s. split; [done|]. exists [w]. split; [done|]. intros k i w' Hk. by left. Qed.

(** The one place where an entry is removed wakes whom it names. *)
Lemma gentle_notify k i : gentle (notify (access_notifier_map k) (set_notifier_map k) i).
Proof.
  intros s. unfold notify, mbind, stm_bind. cbn.
  assert (forall k' j w, has_waker (shared s) k' j w ->
    has_waker (set_notifier_map k (delete i (access_notifier_map k (shared s))) (shared s)) k' j w \/
    access_notifier_map k (shared s) !! i = Some (WithWaker w)) as Hr.
  { intros k' j w Hw. unfold has_waker in *. destruct (decide (k' = k /\ j = i)) as [[-> ->]|Hn]; [by right|left].
    destruct (decide (k' = k)) as [->|Hk].
    - rewrite access_set, lookup_delete_ne by (intros ->; by apply Hn). exact Hw.
    - by destruct k, k'. }
  destruct (access_notifier_map k (shared s) !! i) as [[|w0|]|] eqn:Hi; cbn.
  2: { split; [by apply set_notifier_ok|]. exists [w0]. split; [done|]. intros k' j w Hw.
       destruct (Hr k' j w Hw) as [?|[= ->]]; [by left|right; apply list_elem_of_here]. }
  all: split; [by apply set_notifier_ok|]; exists []; rewrite app_nil_r; split; [done|]; intros k' j w Hw; destruct (Hr k' j w Hw) as [?|?]; [by left|done].
Qed.

End wakers.

(** One step along the structure of the code. *)
Ltac gentle_step :=
  lazymatch goal with
  | |- gentle (_ ≫= _) => apply respects_bind; [|intros ?]
  | |- gentle (attempt _) => apply respects_attempt
  | |- gentle (infallible _) => apply respects_infallible
  | |- gentle (modify _) => first [apply respects_modify; intros; by apply keeps_same|apply gentle_forget_sub]
  | |- gentle (on_transport _) => apply respects_zoom; intros; by apply keeps_same
  | |- gentle (on_subscriptions _) => apply respects_zoom; intros; by apply keeps_same
  | |- gentle (zoom _ _ _) => apply respects_zoom; intros; by apply keeps_same
  | |- gentle (let _ := _ in _) => cbv zeta
  | |- gentle (match ?x with _ => _ end) => destruct x
  | |- gentle _ => first
    [ apply gentle_fetch | apply gentle_update_subs | apply gentle_forget_sub | apply gentle_wake
    | apply (gentle_notify AckStage) | apply (gentle_notify RecStage) | apply (gentle_notify CompStage)
    | apply respects_same | eauto with gentle ]
  | |- respects keeps ?m => change (gentle m)
  end.
Ltac gentle := repeat gentle_step.

Create HintDb gentle.

Section operations.
Context `{BuildCfg} `{Clock} {T X : Type} `{Transport T} `{Recipients X}.
Implicit Types (s : Transceiver T X).
Abbreviation tio A := (stm (Transceiver T X) io_error A).

Lemma gentle_assert (b : bool) : gentle (T := T) (X := X) (assert_ b).
Proof. unfold assert_. gentle. Qed.
Lemma gentle_panic_in_test : gentle (T := T) (X := X) panic_in_test.
Proof. unfold panic_in_test. gentle. Qed.
Lemma gentle_now : gentle (T := T) (X := X) now.
Proof. unfold now. gentle. Qed.
#[local] Hint Resolve gentle_assert gentle_panic_in_test gentle_now : gentle.

Lemma gentle_elapsed t : gentle (T := T) (X := X) (elapsed t).
Proof. unfold elapsed. gentle. Qed.
Lemma gentle_timeout_now i : gentle (T := T) (X := X) (Timeout_now i).
Proof. unfold Timeout_now. gentle. Qed.
Lemma gentle_refresh to : gentle (T := T) (X := X) (Timeout_refresh to).
Proof. unfold Timeout_refresh. gentle. Qed.
Lemma gentle_push to : gentle (T := T) (X := X) (push_timeout to).
Proof. unfold push_timeout. gentle. Qed.
Lemma gentle_try_send b dup : gentle (T := T) (X := X) (try_send_packet b dup).
Proof. unfold try_send_packet, debug_assert. gentle. Qed.
#[local] Hint Resolve gentle_elapsed gentle_timeout_now gentle_refresh gentle_push gentle_try_send : gentle.

Lemma gentle_queue b dup : gentle (T := T) (X := X) (queue_internal_packet b dup).
Proof. unfold queue_internal_packet. gentle. Qed.
Lemma gentle_pop q : gentle (T := T) (X := X) (pop_queue q).
Proof. induction q; cbn [pop_queue]; gentle. Qed.
#[local] Hint Resolve gentle_queue gentle_pop : gentle.

Lemma gentle_clear_tx : gentle (T := T) (X := X) clear_tx_packet.
Proof. unfold clear_tx_packet. gentle. Qed.
#[local] Hint Resolve gentle_clear_tx : gentle.

Lemma gentle_continue fuel : gentle (T := T) (X := X) (continue_writing_packet fuel).
Proof. induction fuel; cbn [continue_writing_packet]; gentle. Qed.
Lemma gentle_queue_timeout b i : gentle (T := T) (X := X) (queue_internal_packet_with_timeout b i).
Proof. unfold queue_internal_packet_with_timeout. gentle. Qed.
Lemma gentle_clear_timeout i : gentle (T := T) (X := X) (clear_packet_timeout i).
Proof. unfold clear_packet_timeout. gentle. Qed.
Lemma gentle_wake_all ws : gentle (T := T) (X := X) (wake_all ws).
Proof. induction ws as [|[]]; cbn [wake_all]; gentle. Qed.
#[local] Hint Resolve gentle_continue gentle_queue_timeout gentle_clear_timeout gentle_wake_all : gentle.

Lemma gentle_register ps : gentle (T := T) (X := X) (register_sub ps).
Proof. unfold register_sub. gentle. Qed.
Lemma gentle_dispatch m : gentle (T := T) (X := X) (dispatch m).
Proof. unfold dispatch. gentle. Qed.
#[local] Hint Resolve gentle_register gentle_dispatch : gentle.

Lemma gentle_suback a : gentle (T := T) (X := X) (process_suback a).
Proof. unfold process_suback, sub_accepted, sub_refused. gentle. Qed.
#[local] Hint Resolve gentle_suback : gentle.

(** *** What the main loop does *)

Lemma gentle_packet p : gentle (T := T) (X := X) (process_packet p).
Proof. unfold process_packet, process_publish, process_pubrec, process_pubrel. gentle. Qed.

Lemma gentle_write_ready r : gentle (T := T) (X := X) (on_write_ready r).
Proof. unfold on_write_ready, check_ready. gentle. Qed.

Lemma gentle_command c : gentle (T := T) (X := X) (on_command c).
Proof. unfold on_command, on_subscribe, on_unsub, unsub_immediate. gentle. Qed.

Lemma gentle_alarm : gentle (T := T) (X := X) on_alarm.
Proof.
  assert (forall n, gentle (T := T) (X := X) (resend_loop n)).
  { induction n; cbn [resend_loop]; unfold resend_entry; gentle. }
  unfold on_alarm, send_ping. gentle.
Qed.

(** *** What it does when it stops *)

Lemma gentle_disconnect evs1 evs2 : gentle (T := T) (X := X) (disconnect_sequence evs1 evs2).
Proof.
  assert (forall evs, gentle (T := T) (X := X) (flush_loop evs)) by
    (intros evs; induction evs as [|[]]; cbn [flush_loop]; unfold check_ready; gentle).
  assert (forall evs, gentle (T := T) (X := X) (close_loop evs)) by
    (intros evs; induction evs as [|[]]; cbn [close_loop]; unfold check_ready; gentle).
  unfold disconnect_sequence, send_disconnect_and_flush, send_close_notify_. gentle.
Qed.

(** Releasing those who wait wakes them all. *)
Lemma gentle_release : gentle (T := T) (X := X) release_waiters.
Proof.
  intros s. assert (wp release_waiters (fun _ s' => keeps s s') (fun _ _ => False) s) as Hwp;
    [|destruct (wp_run_ret _ _ _ Hwp) as ([] & s' & E & Hs); by rewrite E].
  unfold release_waiters, fail_notify_map. apply wp_bind, wp_gets, wp_bind, wp_modify, wp_wake_all.
  split; [done|]. eexists. split; [reflexivity|]. intros k i w Hr. right. rewrite omap_some, !elem_of_app, !elem_of_map_wakers.
  setoid_rewrite waker_of_iff. destruct k; unfold has_waker in Hr; cbn in Hr; eauto 10.
Qed.

End operations.
