(* ===== verification/Client.v ===== *)
(** * [lib.rs] and [subs.rs]: the client's methods

    The asynchronous methods of [Client] and of the handles it returns, as
    programs that act on the shared state, send commands and wait on futures,
    advanced one atomic step at a time. The theorems follow a publication from
    the call to the acknowledgement, and a subscription through the three
    states its topic can be in, and show what a closed command queue leaves
    behind. *)

From Stdlib Require Import ZArith Lia.
From stdpp Require Import base list numbers gmap.
From S2P Require Import Prelude Base ByteIO Packets PacketProps Transport PacketReader.
From S2P Require Import Subscription Shared Transceiver TransceiverOut TransceiverProps Samples.
From S2P Require Import Futures.

Local Open Scope Z_scope.

(* ------------------------------------------------------------------ *)
(** ** Data                                                            *)
(* ------------------------------------------------------------------ *)

Inductive PublishError : Type := PublishTaskTerminated.
Inductive TryPublishError : Type := QueueFull | TryPublishTaskTerminated.
Inductive SubscribeError : Type := RefusedByBroker | SubscribeTaskTerminated.

Inductive PublishEvent : Type := EventNone | EventReceived | EventComplete.

Inductive SubWait : Type :=
| DontWait (qos : QoS)
| Before
| After.

Inductive SubscriptionStatus : Type := Absent | StatusPending | Live.

(** [subs::Callback]; the sender of the command queue is the client's. *)
Record Callback : Type := mkCallback { callback_topic : str; callback_id : u32 }.

(** tokio's bounded channel, as the client uses it: [try_send], one poll of the
    future of [send], and [is_closed]. *)
Class CommandQueue (Q : Type) : Type := {
  cq_try_send : Command -> Q -> TrySend * Q;
  cq_send : Command -> Q -> Poll (result unit unit) * Q;
  cq_is_closed : Q -> bool
}.

(** [enqueued] is the history of the commands accepted. A command is accepted
    exactly if the call says so; a closed channel accepts nothing, says so, and
    stays closed; an open one does not claim to be closed. *)
Class CommandQueueOk (Q : Type) `{CommandQueue Q} : Type := {
  enqueued : Q -> list Command;
  cq_try_send_ok c q r q' : cq_try_send c q = (r, q') ->
    enqueued q' = enqueued q ++ match r with Sent => [c] | _ => [] end /\
    cq_is_closed q' = cq_is_closed q /\ (cq_is_closed q = true <-> r = Closed);
  cq_send_ok c q r q' : cq_send c q = (r, q') ->
    enqueued q' = enqueued q ++ match r with Ready (Ok _) => [c] | _ => [] end /\
    cq_is_closed q' = cq_is_closed q /\ (cq_is_closed q = true <-> r = Ready (Err tt))
}.

(** What a client's task acts on: the shared state and the command queue. *)
Record World (Q : Type) : Type := mkWorld { w_shared : ClientShared; w_queue : Q }.
Arguments mkWorld {Q} w_shared w_queue.
Arguments w_shared {Q} w.
Arguments w_queue {Q} w.

(* ------------------------------------------------------------------ *)
(** ** Asynchronous programs                                           *)
(* ------------------------------------------------------------------ *)

Section client.
Context {Q : Type} `{CommandQueue Q}.
Abbreviation world := (World Q).
Abbreviation atomic A := (stm world Empty_set A).

(** An [async] function between two of its atomic steps: finished, about to
    run a step that takes no lock twice, sending a command (with the future it
    holds meanwhile), or waiting on a future. *)
Inductive prog (A : Type) : Type :=
| Done (a : A)
| Act (m : atomic (prog A))
| SendCmd (cmd : Command) (held : option PublishFuture) (k : result unit unit -> prog A)
| AwaitPublish (f : PublishFuture) (k : bool -> prog A)
| AwaitSub (f : SubscribeFuture) (k : result QoS unit -> prog A).
Arguments Done {A} a.
Arguments Act {A} m.
Arguments SendCmd {A} cmd held k.
Arguments AwaitPublish {A} f k.
Arguments AwaitSub {A} f k.

Fixpoint prog_bind {A B} (k : A -> prog B) (p : prog A) : prog B :=
  match p with
  | Done a => k a
  | Act m => Act (fun w =>
      match m w with
      | (Ret p, w) => (Ret (prog_bind k p), w)
      | (Throw e, w) => (Throw e, w)
      | (Panic, w) => (Panic, w)
      | (UB, w) => (UB, w)
      | (OutOfFuel, w) => (OutOfFuel, w)
      end)
  | SendCmd cmd held k' => SendCmd cmd held (fun r => prog_bind k (k' r))
  | AwaitPublish f k' => AwaitPublish f (fun r => prog_bind k (k' r))
  | AwaitSub f k' => AwaitSub f (fun r => prog_bind k (k' r))
  end.

#[global] Instance prog_ret : MRet prog := fun _ a => Done a.
#[global] Instance prog_mbind : MBind prog := fun _ _ k p => prog_bind k p.

Definition with_queue (q : Q) (w : world) : world := mkWorld (w_shared w) q.
Definition with_w_shared (sh : ClientShared) (w : world) : world := mkWorld sh (w_queue w).

Definition in_shared {A} (m : stm ClientShared Empty_set A) : atomic A := zoom w_shared with_w_shared m.

(** A step that takes a lock, an atomic counter or neither. *)
Definition act {A} (m : atomic A) : prog A := Act (a ← m; mret (Done a)).
Definition send_cmd (cmd : Command) (held : option PublishFuture) : prog (result unit unit) :=
  SendCmd cmd held mret.
Definition await_publish (f : PublishFuture) : prog bool := AwaitPublish f mret.
Definition await_sub (f : SubscribeFuture) : prog (result QoS unit) := AwaitSub f mret.

(** One step: of the code itself, or a poll of what it waits for. [w] is the
    waker of the task. *)
Definition advance {A} (w : Waker) (p : prog A) : atomic (prog A) :=
  match p with
  | Done a => mret (Done a)
  | Act m => m
  | SendCmd cmd held k => fun wd =>
    let '(r, q) := cq_send cmd (w_queue wd) in
    (Ret (match r with Ready r => k r | PollPending => SendCmd cmd held k end), with_queue q wd)
  | AwaitPublish f k => fun wd =>
    match PublishFuture_poll w (f, w_shared wd) with
    | (Ret (Ready r), (_, sh)) => (Ret (k r), with_w_shared sh wd)
    | (Ret PollPending, (f, sh)) => (Ret (AwaitPublish f k), with_w_shared sh wd)
    | (Throw e, (_, sh)) => (Throw e, with_w_shared sh wd)
    | (Panic, (_, sh)) => (Panic, with_w_shared sh wd)
    | (UB, (_, sh)) => (UB, with_w_shared sh wd)
    | (OutOfFuel, (_, sh)) => (OutOfFuel, with_w_shared sh wd)
    end
  | AwaitSub f k => fun wd =>
    match SubscribeFuture_poll w (f, w_shared wd) with
    | (Ret (Ready r), (_, sh)) => (Ret (k r), with_w_shared sh wd)
    | (Ret PollPending, (f, sh)) => (Ret (AwaitSub f k), with_w_shared sh wd)
    | (Throw e, (_, sh)) => (Throw e, with_w_shared sh wd)
    | (Panic, (_, sh)) => (Panic, with_w_shared sh wd)
    | (UB, (_, sh)) => (UB, with_w_shared sh wd)
    | (OutOfFuel, (_, sh)) => (OutOfFuel, with_w_shared sh wd)
    end
  end.

Fixpoint advances {A} (n : nat) (w : Waker) (p : prog A) : atomic (prog A) :=
  match n with
  | O => mret p
  | S n => p ← advance w p; advances n w p
  end.

(** Dropping the future of an [async] function drops what it holds. *)
Definition cancel {A} (p : prog A) : atomic unit :=
  match p with
  | SendCmd _ (Some f) _ => in_shared (PublishFuture_drop f)
  | AwaitPublish f _ => in_shared (PublishFuture_drop f)
  | AwaitSub f _ => in_shared (SubscribeFuture_drop f)
  | _ => mret tt
  end.

(* ------------------------------------------------------------------ *)
(** ** Publishing                                                      *)
(* ------------------------------------------------------------------ *)

Definition make_publish_cmd {E} (topic : str) (payload : bytes) (qos : QoS) (retain : bool)
    : stm ClientShared E PublishCommand :=
  packet_id ← (if decide (qos = AtMostOnce) then mret 0 else fetch_packet_id);
  packet ← infallible (make_arc_packet
    (mkOutgoingPublish (PublishFlags_new false qos retain) topic packet_id payload));
  mret (mkPublishCommand packet_id qos packet).

Definition try_publish (topic : str) (payload : bytes) (qos : QoS) (retain : bool)
    : atomic (result unit TryPublishError) :=
  cmd ← in_shared (make_publish_cmd topic payload qos retain);
  wd ← get;
  let '(r, q) := cq_try_send (CPublish cmd) (w_queue wd) in
  modify (with_queue q);;
  mret match r with
       | Sent => Ok tt
       | Closed => Err TryPublishTaskTerminated
       | Full => Err QueueFull
       end.

(** [send(..).await.map_err(|_| TransceiverTaskTerminated)]. *)
Definition terminated {E} (e : E) (r : result unit unit) : result unit E :=
  match r with Ok _ => Ok tt | Err _ => Err e end.

Definition publish_no_wait (topic : str) (payload : bytes) (qos : QoS) (retain : bool)
    : prog (result unit PublishError) :=
  cmd ← act (in_shared (make_publish_cmd topic payload qos retain));
  r ← send_cmd (CPublish cmd) None;
  mret (terminated PublishTaskTerminated r).

Definition publish_qos_0 (topic : str) (payload : bytes) (retain : bool) : prog (result unit PublishError) :=
  cmd ← act (in_shared (make_publish_cmd topic payload AtMostOnce retain));
  r ← send_cmd (CPublish cmd) None;
  mret (terminated PublishTaskTerminated r).

(** What [publish_qos_1] and [publish_qos_2] have in common once the command is
    built: register at the stage to wait for, if any, send the command, wait.
    The [?] on a failure to send drops the future. *)
Definition publish_and_wait (cmd : PublishCommand) (stage : option Stage) : prog (result unit PublishError) :=
  opt_fut ← match stage with
            | Some k => f ← act (in_shared (PublishFuture_new (cmd_packet_id cmd) k)); mret (Some f)
            | None => mret None
            end;
  r ← send_cmd (CPublish cmd) opt_fut;
  match r, opt_fut with
  | Err _, Some f => act (in_shared (PublishFuture_drop f));; mret (Err PublishTaskTerminated)
  | Err _, None => mret (Err PublishTaskTerminated)
  | Ok _, Some f =>
    failed ← await_publish f;
    mret (if failed : bool then Err PublishTaskTerminated else Ok tt)
  | Ok _, None => mret (Ok tt)
  end.

Definition publish_qos_1 (topic : str) (payload : bytes) (retain await_ack : bool)
    : prog (result unit PublishError) :=
  cmd ← act (in_shared (make_publish_cmd topic payload AtLeastOnce retain));
  publish_and_wait cmd (if await_ack then Some AckStage else None).

Definition event_stage (e : PublishEvent) : option Stage :=
  match e with EventNone => None | EventReceived => Some RecStage | EventComplete => Some CompStage end.

Definition publish_qos_2 (topic : str) (payload : bytes) (retain : bool) (await_event : PublishEvent)
    : prog (result unit PublishError) :=
  cmd ← act (in_shared (make_publish_cmd topic payload ExactlyOnce retain));
  publish_and_wait cmd (event_stage await_event).

(* ------------------------------------------------------------------ *)
(** ** Subscribing                                                     *)
(* ------------------------------------------------------------------ *)

(** The section that holds the lock of the subscription map. *)
Definition begin_subscribe (topic : str) : stm ClientShared Empty_set SubWait :=
  sh ← get;
  match subs sh !! topic with
  | Some (Existing qos) => mret (DontWait qos)
  | Some (Pending _) => mret Before
  | None => modify (set_subs (<[topic := Pending []]> (subs sh)));; mret After
  end.

(** Sending the command, then waiting if the subscription is new. *)
Definition finish_subscribe {R} (topic : str) (qos_hint : QoS) (func : atomic (R * SubscriptionKind))
    (actual_qos : option QoS) : prog (result (R * QoS) SubscribeError) :=
  rk ← act func;
  r ← send_cmd (CSubscribe (mkSubscribeCommand topic qos_hint rk.2)) None;
  match r with
  | Err _ => mret (Err SubscribeTaskTerminated)
  | Ok _ =>
    match actual_qos with
    | Some x => mret (Ok (rk.1, x))
    | None =>
      r ← await_sub (SubscribeFuture_new topic);
      match r with
      | Ok x => mret (Ok (rk.1, x))
      | Err _ => mret (Err RefusedByBroker)
      end
    end
  end.

Definition subscribe {R} (topic : str) (qos_hint : QoS) (func : atomic (R * SubscriptionKind))
    : prog (result (R * QoS) SubscribeError) :=
  wait ← act (in_shared (begin_subscribe topic));
  match wait with
  | DontWait x => finish_subscribe topic qos_hint func (Some x)
  | Before =>
    r ← await_sub (SubscribeFuture_new topic);
    match r with
    | Ok x => finish_subscribe topic qos_hint func (Some x)
    | Err _ => mret (Err RefusedByBroker)
    end
  | After => finish_subscribe topic qos_hint func None
  end.

Definition subscribe_void (topic : str) (qos_hint : QoS) : prog (result QoS SubscribeError) :=
  r ← subscribe topic qos_hint (mret (tt, Void));
  mret match r with Ok (_, qos) => Ok qos | Err e => Err e end.

(** [tx] and [rx] are the ends of the channel that the call makes. As its
    documentation says, [mpsc::channel] panics on a capacity of zero and on one
    above [Semaphore::MAX_PERMITS], which is [usize::MAX >> 3]. *)
Definition MAX_PERMITS : Z := Z.shiftr (2 ^ 64 - 1) 3.

Definition subscribe_lossy (topic : str) (qos_hint : QoS) (queue_cap : usize) (tx rx : Sender)
    : prog (result (Sender * QoS) SubscribeError) :=
  subscribe topic qos_hint (assert_ ((0 <? queue_cap) && (queue_cap <=? MAX_PERMITS));; mret (rx, Lossy tx)).

Definition subscribe_unbounded (topic : str) (qos_hint : QoS) (tx rx : UnboundedSender)
    : prog (result (UnboundedSender * QoS) SubscribeError) :=
  subscribe topic qos_hint (mret (rx, Unbounded tx)).

Definition subscribe_fast_callback (topic : str) (qos_hint : QoS) (callback : Closure)
    : prog (result (Callback * QoS) SubscribeError) :=
  r ← subscribe topic qos_hint
        (id ← in_shared fetch_callback_id; mret (id, KFastCallback (mkFastCallback id callback)));
  mret match r with Ok (id, qos) => Ok (mkCallback topic id, qos) | Err e => Err e end.

Definition get_subscription_status (topic : str) : atomic SubscriptionStatus :=
  sh ← gets w_shared;
  mret match subs sh !! topic with
       | Some (Existing _) => Live
       | Some (Pending _) => StatusPending
       | None => Absent
       end.

Definition unsubscribe (topic : str) : prog unit :=
  send_cmd (CUnsub (mkUnsubCommand topic Immediate)) None;; mret tt.

Definition remove_callback (c : Callback) : prog unit :=
  send_cmd (CUnsub (mkUnsubCommand (callback_topic c) (UFastCallback (callback_id c)))) None;; mret tt.

Definition is_transceiver_task_running (w : world) : bool := negb (cq_is_closed (w_queue w)).
Definition did_transceiver_task_stop (w : world) : bool := cq_is_closed (w_queue w).

Definition disconnect : prog unit := send_cmd CDisconnect None;; mret tt.
End client.

Arguments prog : clear implicits.
Arguments Done {Q A} a.
Arguments Act {Q A} m.
Arguments SendCmd {Q A} cmd held k.
Arguments AwaitPublish {Q A} f k.
Arguments AwaitSub {Q A} f k.

(* ------------------------------------------------------------------ *)
(** ** Steps of programs                                               *)
(* ------------------------------------------------------------------ *)

Section steps.
Context {Q : Type} `{CommandQueueOk Q}.
Implicit Types (wd : World Q) (w : Waker).

Lemma advances_act {A B} n w (m : stm (World Q) Empty_set A) (k : A -> prog Q B) wd a wd' :
  m wd = (Ret a, wd') -> advances (S n) w (act m ≫= k) wd = advances n w (k a) wd'.
Proof. intros Hm. cbn [advances advance]. unfold act, mbind, prog_mbind, stm_bind. cbn. by rewrite Hm. Qed.

Lemma advances_act_in {A B C} n w (m : stm (World Q) Empty_set A) (f : A -> prog Q B) (k : B -> prog Q C) wd a wd' :
  m wd = (Ret a, wd') -> advances (S n) w ((act m ≫= f) ≫= k) wd = advances n w (f a ≫= k) wd'.
Proof. intros Hm. cbn [advances advance]. unfold act, mbind, prog_mbind, stm_bind. cbn. by rewrite Hm. Qed.

Lemma advances_send {B} n w c h (k : result unit unit -> prog Q B) wd r q :
  cq_send c (w_queue wd) = (Ready r, q) ->
  advances (S n) w (send_cmd c h ≫= k) wd = advances n w (k r) (with_queue q wd).
Proof. intros Hs. cbn [advances]. unfold send_cmd, mbind, prog_mbind, stm_bind. cbn. by rewrite Hs. Qed.

Lemma advances_shared {A B} n w (m : stm ClientShared Empty_set A) (k : A -> prog Q B) wd a sh :
  m (w_shared wd) = (Ret a, sh) ->
  advances (S n) w (act (in_shared m) ≫= k) wd = advances n w (k a) (with_w_shared sh wd).
Proof. intros Hm. apply advances_act. unfold in_shared, zoom. by rewrite Hm. Qed.

Lemma advances_done {A} n w (a : A) wd : advances n w (Done a) wd = (Ret (Done a), wd).
Proof. induction n as [|n IH]; [done|]. cbn [advances]. unfold mbind, stm_bind. cbn. exact IH. Qed.

(** A closed queue answers at once and changes nothing that matters. *)
Lemma closed_send c (q : Q) : cq_is_closed q = true ->
  exists q', cq_send c q = (Ready (Err tt), q') /\ enqueued q' = enqueued q /\ cq_is_closed q' = true.
Proof.
  intros Hc. destruct (cq_send c q) as [r q'] eqn:E. destruct (cq_send_ok c q r q' E) as (He & Hq & Hr).
  exists q'. rewrite (proj1 Hr Hc) in *. rewrite app_nil_r in He. split_and!; congruence.
Qed.

(** There is room for a command. *)
Definition accepts (q : Q) : Prop := forall c, exists q', cq_send c q = (Ready (Ok tt), q').

Lemma accepted_send c (q : Q) : accepts q ->
  exists q', cq_send c q = (Ready (Ok tt), q') /\ enqueued q' = enqueued q ++ [c].
Proof. intros Ha. destruct (Ha c) as [q' E]. exists q'. split; [done|]. by destruct (cq_send_ok c q _ _ E). Qed.
End steps.

(* ------------------------------------------------------------------ *)
(** ** Publications                                                    *)
(* ------------------------------------------------------------------ *)

(** The ID of a publication and what taking it does to the counter. *)
Definition publish_id (q : QoS) (sh : ClientShared) : u16 :=
  if decide (q = AtMostOnce) then 0 else next_packet_id sh.
Definition publish_shared (q : QoS) (sh : ClientShared) : ClientShared :=
  if decide (q = AtMostOnce) then sh else set_next_packet_id (wrap16 (next_packet_id sh + 1)) sh.

Definition outgoing (t : str) (d : bytes) (q : QoS) (retain : bool) (sh : ClientShared) : OutgoingPublishPacket :=
  mkOutgoingPublish (PublishFlags_new false q retain) t (publish_id q sh) d.

Definition publish_cmd (t : str) (d : bytes) (q : QoS) (retain : bool) (sh : ClientShared) : PublishCommand :=
  mkPublishCommand (publish_id q sh) q
    (frame TPublish (flags_byte (PublishFlags_new false q retain)) (OutgoingPublish_body (outgoing t d q retain sh))).

Lemma publish_id_ok q sh : shared_ok sh -> is_u16 (publish_id q sh).
Proof. intros [Hid _]. unfold publish_id. case_decide; [|done]. unfold is_u16. lia. Qed.

Lemma publish_flags_qos q retain : flags_qos (PublishFlags_new false q retain) = Some q.
Proof. by destruct q, retain. Qed.

Lemma outgoing_valid t d q retain sh : shared_ok sh -> wire_len_ok t -> OutgoingPublish_valid (outgoing t d q retain sh).
Proof. intros Hsh Ht. split_and!; [apply PublishFlags_new_ok|done|by apply publish_id_ok]. Qed.

Lemma outgoing_length t d q retain sh : len t + len d < MAX_CONTENT - 4 ->
  len (OutgoingPublish_body (outgoing t d q retain sh)) < MAX_CONTENT.
Proof.
  intros Hl. unfold OutgoingPublish_body. rewrite !length_app, wire_bytes_length. cbn [out_topic out_payload outgoing].
  assert (length (publish_id_wire (PublishFlags_new false q retain) (publish_id q sh)) <= 2)%nat; [|cbn; lia].
  unfold publish_id_wire. rewrite publish_flags_qos. destruct q; cbn; lia.
Qed.

Lemma make_publish_cmd_run {E} t d q retain sh :
  shared_ok sh -> wire_len_ok t -> len t + len d < MAX_CONTENT - 4 ->
  make_publish_cmd (E := E) t d q retain sh = (Ret (publish_cmd t d q retain sh), publish_shared q sh).
Proof.
  intros Hsh Ht Hl. set (p := outgoing t d q retain sh).
  pose proof (make_arc_packet_frame p (outgoing_valid t d q retain sh Hsh Ht) (outgoing_length t d q retain sh Hl)) as Hm.
  unfold make_publish_cmd, mbind, stm_bind.
  assert ((if decide (q = AtMostOnce) then mret 0 else fetch_packet_id) sh
    = (Ret (E := E) (publish_id q sh), publish_shared q sh)) as ->.
  { unfold publish_id, publish_shared. by destruct (decide (q = AtMostOnce)). }
  fold (outgoing t d q retain sh). fold p. by rewrite Hm.
Qed.

(** A publish command carries a packet that the broker decodes to the
    topic, the payload, the QoS and the retain flag asked for, with the ID
    taken from the shared counter, which advances exactly above QoS 0. *)
Theorem make_publish_cmd_correct (t : str) (d : bytes) (q : QoS) (retain : bool) (sh : ClientShared) :
  shared_ok sh -> wire_len_ok t -> is_str t -> len t + len d < MAX_CONTENT - 4 ->
  exists cmd sh' m body,
    make_publish_cmd (E := io_error) t d q retain sh = (Ret cmd, sh') /\
    sh' = (if decide (q = AtMostOnce) then sh
           else set_next_packet_id (wrap16 (next_packet_id sh + 1)) sh) /\
    cmd_qos cmd = q /\ Command_ok (CPublish cmd) /\
    cmd_packet cmd = frame TPublish (flags_byte (PublishFlags_new false q retain)) body /\
    broker_from_bytes (frame_ctrl TPublish (flags_byte (PublishFlags_new false q retain))) body
    = (Ret (BrPublish m), []) /\
    topic m = Ret t /\ payload m = Ret d /\ msg_qos m = Some q /\ msg_id m = cmd_packet_id cmd.
Proof.
  intros Hsh Ht Hs Hl. set (p := outgoing t d q retain sh).
  destruct (publish_decodes p (outgoing_valid t d q retain sh Hsh Ht) Hs) as [_ Hd].
  destruct (received_parts p (outgoing_valid t d q retain sh Hsh Ht) Hs) as (Ht' & Hp' & Hi).
  exists (publish_cmd t d q retain sh), (publish_shared q sh), (received_publish p), (OutgoingPublish_body p).
  split_and!; [by apply make_publish_cmd_run|done|done|done|done|exact Hd|exact Ht'|exact Hp'|unfold msg_qos; rewrite Hi; apply publish_flags_qos|].
  unfold msg_id. rewrite Hi. cbn. unfold effective_id. rewrite publish_flags_qos. by destruct q.
Qed.

Section publish.
#[local] Existing Instance production.
Context {Q : Type} `{CommandQueueOk Q}.
Implicit Types (wd : World Q) (w : Waker).

(** The future of a command, at a stage. *)
Definition future_of (cmd : PublishCommand) (k : Stage) : PublishFuture :=
  mkPublishFuture (cmd_packet_id cmd) k None.

(** What the method returns once the future is ready. *)
Definition publish_result : bool -> prog Q (result unit PublishError) :=
  fun failed => mret (if failed : bool then Err PublishTaskTerminated else Ok tt).

(** The shared state once the publication is registered, and after polls. *)
Definition registered (cmd : PublishCommand) (k : Stage) (r : NotifyResult) (sh : ClientShared) : ClientShared :=
  set_notifier_map k (<[cmd_packet_id cmd := r]> (access_notifier_map k sh)) sh.

Lemma registered_again cmd k r r' sh : registered cmd k r' (registered cmd k r sh) = registered cmd k r' sh.
Proof. unfold registered. rewrite access_set, insert_insert_eq. by destruct k. Qed.

Lemma registered_lookup cmd k r sh : access_notifier_map k (registered cmd k r sh) !! cmd_packet_id cmd = Some r.
Proof. unfold registered. by rewrite access_set, lookup_insert_eq. Qed.

(** The entry after [n] polls. *)
Definition polled (n : nat) w : NotifyResult := match n with O => WithoutWaker | S _ => WithWaker w end.

Lemma advances_waiting n w cmd k r sh q :
  r <> Failed ->
  advances n w (AwaitPublish (future_of cmd k) publish_result) (mkWorld (registered cmd k r sh) q)
  = (Ret (AwaitPublish (future_of cmd k) publish_result),
     mkWorld (registered cmd k (match n with O => r | S _ => WithWaker w end) sh) q).
Proof.
  revert r. induction n as [|n IH]; intros r Hr; [done|]. cbn [advances]. unfold mbind, stm_bind. cbn [advance w_shared].
  rewrite (poll_waiting _ w r) by (done || apply registered_lookup). cbn [fut_notifier fut_packet_id future_of].
  change (set_notifier_map k (<[cmd_packet_id cmd:=WithWaker w]> (access_notifier_map k (registered cmd k r sh)))
    (registered cmd k r sh)) with (registered cmd k (WithWaker w) (registered cmd k r sh)).
  rewrite registered_again. unfold with_w_shared. cbn [w_queue]. rewrite IH by done. by destruct n.
Qed.

(** A publication is registered before its command is sent. *)
Lemma publish_and_wait_start n w cmd k wd r q : cq_send (CPublish cmd) (w_queue wd) = (Ready r, q) ->
  advances (2 + n) w (publish_and_wait cmd (Some k)) wd
  = advances n w
      match r with
      | Err _ => act (in_shared (PublishFuture_drop (future_of cmd k)));; mret (Err PublishTaskTerminated)
      | Ok _ => AwaitPublish (future_of cmd k) publish_result
      end (mkWorld (registered cmd k WithoutWaker (w_shared wd)) q).
Proof.
  intros Es.
  refine (eq_trans (advances_act_in (S n) w (in_shared (PublishFuture_new (cmd_packet_id cmd) k)) _ _ wd (future_of cmd k)
    (with_w_shared (registered cmd k WithoutWaker (w_shared wd)) wd) eq_refl) _).
  refine (eq_trans (advances_send n w (CPublish cmd) (Some (future_of cmd k)) _
    (with_w_shared (registered cmd k WithoutWaker (w_shared wd)) wd) r q Es) _).
  by destruct r.
Qed.

(** Then it waits. *)
Lemma publish_and_wait_sends n w cmd k wd : accepts (w_queue wd) ->
  exists q, enqueued q = enqueued (w_queue wd) ++ [CPublish cmd] /\
    advances (2 + n) w (publish_and_wait cmd (Some k)) wd
    = (Ret (AwaitPublish (future_of cmd k) publish_result),
       mkWorld (registered cmd k (polled n w) (w_shared wd)) q).
Proof.
  intros Ha. destruct (accepted_send (CPublish cmd) (w_queue wd) Ha) as (q & Es & Hq). exists q. split; [done|].
  refine (eq_trans (publish_and_wait_start n w cmd k wd (Ok tt) q Es) _).
  exact (advances_waiting n w cmd k WithoutWaker (w_shared wd) q ltac:(done)).
Qed.

(** A queue that is closed: the command is not sent, and the registration at
    the stage is undone. *)
Lemma publish_and_wait_closed n w cmd k wd : cq_is_closed (w_queue wd) = true ->
  exists q, enqueued q = enqueued (w_queue wd) /\
    advances (3 + n) w (publish_and_wait cmd (Some k)) wd
    = (Ret (Done (Err PublishTaskTerminated)),
       mkWorld (set_notifier_map k (delete (cmd_packet_id cmd) (access_notifier_map k (w_shared wd))) (w_shared wd)) q).
Proof.
  intros Hc. destruct (closed_send (CPublish cmd) (w_queue wd) Hc) as (q & Es & Hq & _). exists q. split; [done|].
  set (sh := registered cmd k WithoutWaker (w_shared wd)).
  refine (eq_trans (publish_and_wait_start (S n) w cmd k wd (Err tt) q Es) _). fold sh.
  refine (eq_trans (advances_shared n w (PublishFuture_drop (future_of cmd k)) _ (mkWorld sh q) tt
    (set_notifier_map k (delete (cmd_packet_id cmd) (access_notifier_map k sh)) sh) eq_refl) _).
  refine (eq_trans (advances_done n w _ _) _). unfold with_w_shared, sh. cbn [w_queue].
  unfold registered. rewrite access_set, delete_insert_eq. by destruct k.
Qed.

(** It is ready, and succeeds, when its entry is gone. *)
Lemma publish_finishes w cmd k sh q :
  access_notifier_map k sh !! cmd_packet_id cmd = None ->
  advance w (AwaitPublish (future_of cmd k) publish_result) (mkWorld sh q)
  = (Ret (Done (Ok tt)), mkWorld sh q).
Proof. intros Hn. cbn [advance w_shared]. by rewrite poll_gone. Qed.

(** The methods, as far as they get without the transceiver. *)
Lemma publish_method_waits n w t d qos retain k wd :
  shared_ok (w_shared wd) -> wire_len_ok t -> len t + len d < MAX_CONTENT - 4 -> accepts (w_queue wd) ->
  let cmd := publish_cmd t d qos retain (w_shared wd) in
  exists q, enqueued q = enqueued (w_queue wd) ++ [CPublish cmd] /\
    advances (3 + n) w (cmd ← act (in_shared (make_publish_cmd t d qos retain)); publish_and_wait cmd (Some k)) wd
    = (Ret (AwaitPublish (future_of cmd k) publish_result),
       mkWorld (registered cmd k (polled n w) (publish_shared qos (w_shared wd))) q).
Proof.
  intros Hsh Ht Hl Ha cmd.
  destruct (publish_and_wait_sends n w cmd k (with_w_shared (publish_shared qos (w_shared wd)) wd) Ha) as (q & Hq & E).
  exists q. split; [exact Hq|]. change (3 + n)%nat with (S (2 + n)).
  refine (eq_trans (advances_shared (2 + n) w _ _ wd cmd (publish_shared qos (w_shared wd)) _) E).
  by apply make_publish_cmd_run.
Qed.

Lemma publish_method_closed n w t d qos retain k wd :
  shared_ok (w_shared wd) -> wire_len_ok t -> len t + len d < MAX_CONTENT - 4 ->
  cq_is_closed (w_queue wd) = true ->
  access_notifier_map k (w_shared wd) !! publish_id qos (w_shared wd) = None ->
  exists q, enqueued q = enqueued (w_queue wd) /\
    advances (4 + n) w (cmd ← act (in_shared (make_publish_cmd t d qos retain)); publish_and_wait cmd (Some k)) wd
    = (Ret (Done (Err PublishTaskTerminated)), mkWorld (publish_shared qos (w_shared wd)) q).
Proof.
  intros Hsh Ht Hl Hc Hn. set (cmd := publish_cmd t d qos retain (w_shared wd)).
  set (wd1 := with_w_shared (publish_shared qos (w_shared wd)) wd).
  destruct (publish_and_wait_closed n w cmd k wd1 Hc) as (q & Hq & E). exists q. split; [exact Hq|].
  refine (eq_trans (advances_shared (3 + n) w _ _ wd cmd (publish_shared qos (w_shared wd)) _) _).
  { by apply make_publish_cmd_run. }
  refine (eq_trans E _). unfold wd1. cbn [w_shared with_w_shared].
  assert (access_notifier_map k (publish_shared qos (w_shared wd)) = access_notifier_map k (w_shared wd)) as ->
    by (unfold publish_shared; case_decide; by destruct k).
  change (cmd_packet_id cmd) with (publish_id qos (w_shared wd)). rewrite delete_id by done.
  unfold publish_shared. case_decide; by destruct k, (w_shared wd).
Qed.

(** A publication that is to be awaited, on a client whose task has
    stopped: whatever the QoS and the event, the method returns the error
    within four steps, sends nothing, and leaves the shared state as it was,
    but for the counter. *)
Theorem publish_closed_leaves_no_trace (n : nat) w t d retain wd p :
  shared_ok (w_shared wd) -> wire_len_ok t -> len t + len d < MAX_CONTENT - 4 ->
  cq_is_closed (w_queue wd) = true ->
  (forall k, access_notifier_map k (w_shared wd) !! next_packet_id (w_shared wd) = None) ->
  p = publish_qos_1 t d retain true \/ (exists e, e <> EventNone /\ p = publish_qos_2 t d retain e) ->
  exists q, enqueued q = enqueued (w_queue wd) /\
    advances (4 + n) w p wd
    = (Ret (Done (Err PublishTaskTerminated)),
       mkWorld (set_next_packet_id (wrap16 (next_packet_id (w_shared wd) + 1)) (w_shared wd)) q).
Proof.
  intros Hsh Ht Hl Hc Hn [->|(e & He & ->)].
  - exact (publish_method_closed n w t d AtLeastOnce retain AckStage wd Hsh Ht Hl Hc (Hn AckStage)).
  - destruct e; [done|..].
    + exact (publish_method_closed n w t d ExactlyOnce retain RecStage wd Hsh Ht Hl Hc (Hn RecStage)).
    + exact (publish_method_closed n w t d ExactlyOnce retain CompStage wd Hsh Ht Hl Hc (Hn CompStage)).
Qed.
End publish.

(* ------------------------------------------------------------------ *)
(** ** Subscriptions                                                   *)
(* ------------------------------------------------------------------ *)

Section subscribe.
#[local] Existing Instance production.
Context {Q : Type} `{CommandQueueOk Q}.
Implicit Types (wd : World Q) (w : Waker).

(** The shared state while a subscription is requested. *)
Definition requested (t : str) (ws : list (option Waker)) (sh : ClientShared) : ClientShared :=
  set_subs (<[t := Pending ws]> (subs sh)) sh.

Lemma requested_again t ws ws' sh : requested t ws' (requested t ws sh) = requested t ws' sh.
Proof. unfold requested. cbn. by rewrite insert_insert_eq. Qed.

Lemma requested_lookup t ws sh : subs (requested t ws sh) !! t = Some (Pending ws).
Proof. apply lookup_insert_eq. Qed.

Lemma requested_id t ws sh : subs sh !! t = Some (Pending ws) -> requested t ws sh = sh.
Proof. intros Ht. unfold requested. rewrite insert_id by done. by destruct sh. Qed.

(** The future and the wakers after [n] polls. *)
Definition polled_sub (n : nat) (t : str) (ws : list (option Waker)) : SubscribeFuture :=
  mkSubscribeFuture t (match n with O => None | S _ => Some (length ws) end) None.
Definition polled_wakers (n : nat) w (ws : list (option Waker)) : list (option Waker) :=
  match n with O => ws | S _ => ws ++ [Some w] end.

Lemma poll_requested w i t ws sh :
  SubscribeFuture_poll (E := Empty_set) w (polled_sub i t ws, requested t (polled_wakers i w ws) sh)
  = (Ret PollPending, (polled_sub (S i) t ws, requested t (polled_wakers (S i) w ws) sh)).
Proof.
  unfold SubscribeFuture_poll, mbind, stm_bind. cbn -[requested]. rewrite requested_lookup.
  destruct i as [|i]; cbn -[requested].
  - fold (requested t (ws ++ [Some w]) (requested t ws sh)). by rewrite requested_again.
  - unfold vec_set, mbind, stm_bind. rewrite (proj2 (Nat.ltb_lt _ _)) by (rewrite length_app; cbn; lia).
    cbn -[requested]. rewrite list_insert_id by (by apply list_lookup_middle).
    fold (requested t (ws ++ [Some w]) (requested t (ws ++ [Some w]) sh)). by rewrite requested_again.
Qed.

(** A subscription that is requested is waited for, however often it is
    polled, with one waker. *)
Lemma advances_waiting_sub {A} (k : result QoS unit -> prog Q A) n w t ws sh q :
  advances n w (AwaitSub (SubscribeFuture_new t) k) (mkWorld (requested t ws sh) q)
  = (Ret (AwaitSub (polled_sub n t ws) k), mkWorld (requested t (polled_wakers n w ws) sh) q).
Proof.
  change (SubscribeFuture_new t) with (polled_sub 0 t ws). change (requested t ws sh) with (requested t (polled_wakers 0 w ws) sh).
  assert (forall i, advances n w (AwaitSub (polled_sub i t ws) k) (mkWorld (requested t (polled_wakers i w ws) sh) q)
    = (Ret (AwaitSub (polled_sub (i + n) t ws) k), mkWorld (requested t (polled_wakers (i + n) w ws) sh) q)) as Hi; [|apply Hi].
  induction n as [|n IH]; intros i; [by rewrite Nat.add_0_r|].
  cbn [advances]. unfold mbind, stm_bind. cbn [advance w_shared]. rewrite poll_requested.
  unfold with_w_shared. cbn [w_queue]. rewrite IH. by rewrite Nat.add_succ_comm.
Qed.

(** What follows the wait for a subscription: that of another task, and the
    method's own. *)
Definition before_sub {R} (t : str) (qos : QoS) (func : stm (World Q) Empty_set (R * SubscriptionKind))
    : result QoS unit -> prog Q (result (R * QoS) SubscribeError) :=
  fun r => match r with
           | Ok x => finish_subscribe t qos func (Some x)
           | Err _ => mret (Err RefusedByBroker)
           end.
Definition after_sub {R} (ret : R) : result QoS unit -> prog Q (result (R * QoS) SubscribeError) :=
  fun r => match r with Ok x => mret (Ok (ret, x)) | Err _ => mret (Err RefusedByBroker) end.

(** The state in which a settled subscription is found. *)
Definition settled (t : str) (r : result QoS unit) (sh : ClientShared) : Prop :=
  subs sh !! t = match r with Ok x => Some (Existing x) | Err _ => None end.

Lemma advance_settled {A} (k : result QoS unit -> prog Q A) n w t ws r sh q : settled t r sh ->
  advance w (AwaitSub (polled_sub n t ws) k) (mkWorld sh q) = (Ret (k r), mkWorld sh q).
Proof.
  unfold settled. intros Hs. cbn [advance w_shared]. unfold SubscribeFuture_poll, mbind, stm_bind. cbn. rewrite Hs.
  by destruct r as [x|[]].
Qed.

(** [finish_subscribe] up to the answer of the queue. *)
Lemma finish_subscribe_start {R} n w t qos (ret : R) kind actual wd r q :
  cq_send (CSubscribe (mkSubscribeCommand t qos kind)) (w_queue wd) = (Ready r, q) ->
  advances (2 + n) w (finish_subscribe t qos (mret (ret, kind)) actual) wd
  = advances n w
      match r, actual with
      | Err _, _ => Done (Err SubscribeTaskTerminated)
      | Ok _, Some x => Done (Ok (ret, x))
      | Ok _, None => AwaitSub (SubscribeFuture_new t) (after_sub ret)
      end (with_queue q wd).
Proof.
  intros Es. refine (eq_trans (advances_act (S n) w (mret (ret, kind)) _ wd (ret, kind) wd eq_refl) _).
  refine (eq_trans (advances_send n w (CSubscribe (mkSubscribeCommand t qos kind)) None _ wd r q Es) _).
  by destruct r as [?|?], actual as [x|].
Qed.

(** [subscribe] on a topic that nobody subscribed to, and on one that is
    requested. *)
Lemma subscribe_new {R} n w t qos (ret : R) kind wd r q : subs (w_shared wd) !! t = None ->
  cq_send (CSubscribe (mkSubscribeCommand t qos kind)) (w_queue wd) = (Ready r, q) ->
  advances (3 + n) w (subscribe t qos (mret (ret, kind))) wd
  = advances n w
      match r with
      | Err _ => Done (Err SubscribeTaskTerminated)
      | Ok _ => AwaitSub (SubscribeFuture_new t) (after_sub ret)
      end (mkWorld (requested t [] (w_shared wd)) q).
Proof.
  intros Ht Es.
  refine (eq_trans (advances_shared (2 + n) w (begin_subscribe t) _ wd After (requested t [] (w_shared wd)) _) _).
  { unfold begin_subscribe, mbind, stm_bind. cbn. by rewrite Ht. }
  exact (finish_subscribe_start n w t qos ret kind None (with_w_shared (requested t [] (w_shared wd)) wd) r q Es).
Qed.

Lemma subscribe_requested {R} n w t qos (func : stm (World Q) Empty_set (R * SubscriptionKind)) ws wd :
  subs (w_shared wd) !! t = Some (Pending ws) ->
  advances (1 + n) w (subscribe t qos func) wd
  = (Ret (AwaitSub (polled_sub n t ws) (before_sub t qos func)),
     mkWorld (requested t (polled_wakers n w ws) (w_shared wd)) (w_queue wd)).
Proof.
  intros Ht. refine (eq_trans (advances_shared n w (begin_subscribe t) _ wd Before (w_shared wd) _) _).
  { unfold begin_subscribe, mbind, stm_bind. cbn. by rewrite Ht. }
  refine (eq_trans _ (advances_waiting_sub (before_sub t qos func) n w t ws (w_shared wd) (w_queue wd))).
  rewrite requested_id by done. by destruct wd.
Qed.

(** C20: What subscribing does in the three states of a topic. If it is
    subscribed, the command is sent and the QoS of the subscription returned,
    without waiting. If it is being subscribed by another task, nothing is
    sent and the task waits, with one waker however often it is polled; when
    the subscription is settled the command follows and its QoS is returned,
    or the refusal is, without a command. Otherwise the topic is marked, the
    command sent and its answer awaited. *)
Theorem subscribe_by_state {R} (n : nat) w t qos (ret : R) kind wd :
  accepts (w_queue wd) ->
  let p := subscribe t qos (mret (ret, kind)) in
  let cmd := CSubscribe (mkSubscribeCommand t qos kind) in
  match subs (w_shared wd) !! t with
  | Some (Existing x) =>
    exists q, advances (3 + n) w p wd = (Ret (Done (Ok (ret, x))), mkWorld (w_shared wd) q) /\
      enqueued q = enqueued (w_queue wd) ++ [cmd]
  | Some (Pending ws) =>
    exists f k,
      advances (1 + n) w p wd
      = (Ret (AwaitSub f k), mkWorld (requested t (polled_wakers n w ws) (w_shared wd)) (w_queue wd)) /\
      (forall sh w', settled t (Err tt) sh ->
        advance w' (AwaitSub f k) (mkWorld sh (w_queue wd))
        = (Ret (Done (Err RefusedByBroker)), mkWorld sh (w_queue wd))) /\
      forall sh w' x, settled t (Ok x) sh ->
        exists q, advances 3 w' (AwaitSub f k) (mkWorld sh (w_queue wd)) = (Ret (Done (Ok (ret, x))), mkWorld sh q) /\
          enqueued q = enqueued (w_queue wd) ++ [cmd]
  | None =>
    exists f k q,
      advances (3 + n) w p wd
      = (Ret (AwaitSub f k), mkWorld (requested t (polled_wakers n w []) (w_shared wd)) q) /\
      enqueued q = enqueued (w_queue wd) ++ [cmd]
  end.
Proof.
  intros Ha p cmd. destruct (accepted_send cmd (w_queue wd) Ha) as (q & Es & Hq).
  destruct (subs (w_shared wd) !! t) as [[x|ws]|] eqn:Ht.
  - exists q. split; [|exact Hq].
    refine (eq_trans (advances_shared (2 + n) w (begin_subscribe t) _ wd (DontWait x) (w_shared wd) _) _).
    { unfold begin_subscribe, mbind, stm_bind. cbn. by rewrite Ht. }
    refine (eq_trans (finish_subscribe_start n w t qos ret kind (Some x) _ (Ok tt) q Es) _). apply advances_done.
  - exists (polled_sub n t ws), (before_sub t qos (mret (ret, kind))). split; [by apply subscribe_requested|].
    split; [exact (fun sh w' => advance_settled _ n w' t ws (Err tt) sh (w_queue wd))|].
    intros sh' w'' x Hs'. exists q. split; [|exact Hq].
    cbn [advances]. unfold mbind, stm_bind. rewrite (advance_settled _ n w'' t ws (Ok x)) by done.
    exact (finish_subscribe_start 0 w'' t qos ret kind (Some x) (mkWorld sh' (w_queue wd)) (Ok tt) q Es).
  - exists (polled_sub n t []), (after_sub ret), q. split; [|exact Hq].
    refine (eq_trans (subscribe_new n w t qos ret kind wd (Ok tt) q Ht Es) _). apply advances_waiting_sub.
Qed.

(** C40: Subscribing on a client whose task has stopped: the call returns the
    error and sends nothing, but the topic stays marked as requested, and from
    then on every other call for that topic waits for ever, however often it
    is polled, instead of returning the error. *)
Theorem subscribe_closed_then_hangs {R R'} w t qos (ret : R) kind wd :
  cq_is_closed (w_queue wd) = true -> subs (w_shared wd) !! t = None ->
  exists wd1, advances 3 w (subscribe t qos (mret (ret, kind))) wd = (Ret (Done (Err SubscribeTaskTerminated)), wd1) /\
    enqueued (w_queue wd1) = enqueued (w_queue wd) /\
    get_subscription_status t wd1 = (Ret StatusPending, wd1) /\
    forall (n : nat) w' qos' (func : stm (World Q) Empty_set (R' * SubscriptionKind)),
    exists f k wd2, advances (1 + n) w' (subscribe t qos' func) wd1 = (Ret (AwaitSub f k), wd2) /\
      enqueued (w_queue wd2) = enqueued (w_queue wd).
Proof.
  intros Hc Ht. destruct (closed_send (CSubscribe (mkSubscribeCommand t qos kind)) (w_queue wd) Hc) as (q & Es & Hq & _).
  exists (mkWorld (requested t [] (w_shared wd)) q). split; [by apply (subscribe_new 0 w t qos ret kind wd (Err tt) q)|].
  split; [exact Hq|]. split.
  { unfold get_subscription_status, mbind, stm_bind. cbn -[requested]. by rewrite requested_lookup. }
  intros n w' qos' func. eexists _, _, _. split; [apply subscribe_requested, requested_lookup|exact Hq].
Qed.
End subscribe.

Section end_to_end.
#[local] Existing Instance production.
Context {Q : Type} `{CommandQueueOk Q} `{ClockOk} {T X : Type} `{TransportOk T} `{RecipientsOk X}.
Implicit Types (wd : World Q) (w : Waker) (s : Transceiver T X).

(** The transceiver takes the command of a publication. *)
Lemma wp_publish_command cmd s : tr_ok s -> connect_sig s = false -> tx_pkt s = None ->
  cmd_packet cmd <> [] -> cmd_qos cmd <> AtMostOnce ->
  wp (on_command (Some (CPublish cmd)))
    (fun st s1 => st = WantContinue /\ tr_ok s1 /\ connect_sig s1 = false /\ shared s1 = shared s /\ woken s1 = woken s /\
       is_Some (pending_packets s1 !! IdType_publish (cmd_packet_id cmd)))
    no_answer s.
Proof.
  intros Hok Hc Htx Hne Hq. eapply wp_mono; [apply (wp_command (Some (CPublish cmd)) s Hok Htx); by intros ? [= <-]| |by apply failed_no_answer].
  cbn beta. intros st s1 (Hok1 & (_ & _ & Hc1 & _) & -> & _ & Hse & Hp).
  apply session_eq in Hse as (_ & Hsh & _ & Hw & _). rewrite decide_False in Hp by done.
  refine (conj eq_refl (conj Hok1 (conj (eq_trans Hc1 Hc) (conj Hsh (conj Hw _))))).
  rewrite Hp, lookup_insert_eq. by eexists.
Qed.

(** C18: A publication with QoS 1 that waits for its acknowledgement, from the
    call to the end. The method registers at the acknowledgements before it
    sends its command, then waits, however often it is polled. When the
    transceiver takes the command and then receives the PUBACK, the task that
    was polled is woken, and the next step returns success. The only other
    outcome is a failure of the transport. *)
Theorem publish_qos_1_acknowledged (n : nat) w t d retain wd :
  shared_ok (w_shared wd) -> wire_len_ok t -> len t + len d < MAX_CONTENT - 4 -> accepts (w_queue wd) ->
  exists cmd f k wd1,
    advances (3 + n) w (publish_qos_1 t d retain true) wd = (Ret (AwaitPublish f k), wd1) /\
    enqueued (w_queue wd1) = enqueued (w_queue wd) ++ [CPublish cmd] /\
    forall s, tr_ok s -> connect_sig s = false -> tx_pkt s = None -> shared s = w_shared wd1 ->
    let steps := on_command (Some (CPublish cmd));; process_packet (InPubAck (mkSimple (cmd_packet_id cmd))) in
    (exists s' wd2, steps s = (Ret false, s') /\
       woken s' = woken s ++ match n with O => [] | S _ => [w] end /\
       advance w (AwaitPublish f k) (with_w_shared (shared s') wd1) = (Ret (Done (Ok tt)), wd2)) \/
    (exists e s', steps s = (Throw e, s') /\ is_would_block e = false).
Proof.
  intros Hsh Ht Hl Ha. set (cmd := publish_cmd t d AtLeastOnce retain (w_shared wd)).
  destruct (publish_method_waits n w t d AtLeastOnce retain AckStage wd Hsh Ht Hl Ha) as (q & Hq & E). fold cmd in Hq, E.
  exists cmd, (future_of cmd AckStage), publish_result. eexists. split; [exact E|]. split; [exact Hq|].
  intros s Hok Hc Htx Es steps.
  assert (wp steps (fun b s' => b = false /\ woken s' = woken s ++ match n with O => [] | S _ => [w] end /\
    access_notifier_map AckStage (shared s') !! cmd_packet_id cmd = None) no_answer s) as Hw.
  { apply wp_bind. eapply wp_mono; [by apply (wp_publish_command cmd s)| |done]; cbn beta.
    intros _ s1 (_ & Hok1 & Hc1 & Hsh1 & Hw1 & Hp1).
    eapply wp_mono; [apply (future_answered AckStage (cmd_packet_id cmd) (polled n w) s1 Hok1 Hc1)| |done]; cbn beta.
    - by apply publish_id_ok.
    - exact Hp1.
    - rewrite Hsh1, Es. apply registered_lookup.
    - intros b s' (-> & Hw & Hs). rewrite Hw1 in Hw. split; [done|].
      split; [by rewrite Hw; destruct n|]. by rewrite Hs, access_set, lookup_delete_eq. }
  destruct (wp_run _ _ _ _ Hw) as [(b & s' & Er & -> & Hwk & Hn)|(e & s' & Er & He)]; [left|right; by exists e, s'].
  exists s'. eexists. refine (conj Er (conj Hwk _)). by apply publish_finishes.
Qed.

(** A PUBREC moves a publication on to its release. *)
Lemma wp_pubrec_moves i s : tr_ok s -> connect_sig s = false -> is_u16 i ->
  is_Some (pending_packets s !! IdType_publish i) ->
  wp (process_packet (InPubRec (mkSimple i)))
    (fun b s' => b = false /\ tr_ok s' /\ connect_sig s' = false /\
       notify_comp (shared s') = notify_comp (shared s) /\
       woken s' = woken s ++ default [] (waker_of <$> notify_rec (shared s) !! i) /\
       is_Some (pending_packets s' !! IdType_pub_rel i))
    no_answer s.
Proof.
  intros Hok Hc Hi Hp. eapply wp_mono; [by apply (wp_packet (InPubRec (mkSimple i)) s Hok Hc)| |by apply failed_no_answer]; cbn beta.
  intros b s' (-> & Hok' & (_ & _ & Hc' & _) & _ & Hpp & _ & _ & Hw & Hs & _).
  pose proof (answered_stage RecStage i s Hp) as Ha. cbn [answer access_notifier_map set_notifier_map] in Ha.
  unfold wakes, shared_after in Hw, Hs. rewrite Ha in Hw, Hs.
  refine (conj eq_refl (conj Hok' (conj (eq_trans Hc' Hc) (conj _ (conj Hw _))))); [by rewrite Hs|].
  rewrite Hpp. cbn [pending_after packet_id]. rewrite lookup_delete_ne by done. rewrite lookup_insert_eq. by eexists.
Qed.

(** A publication with QoS 2 that waits for its completion, from the call
    to the end: the command, the PUBREC and the PUBCOMP. The PUBREC wakes only
    those who wait for it, and the task that was polled is woken by the
    PUBCOMP; the next step of the method then returns success. *)
Theorem publish_qos_2_completed (n : nat) w t d retain wd :
  shared_ok (w_shared wd) -> wire_len_ok t -> len t + len d < MAX_CONTENT - 4 -> accepts (w_queue wd) ->
  exists cmd f k wd1,
    advances (3 + n) w (publish_qos_2 t d retain EventComplete) wd = (Ret (AwaitPublish f k), wd1) /\
    enqueued (w_queue wd1) = enqueued (w_queue wd) ++ [CPublish cmd] /\
    forall s, tr_ok s -> connect_sig s = false -> tx_pkt s = None -> shared s = w_shared wd1 ->
    let i := cmd_packet_id cmd in
    let steps := on_command (Some (CPublish cmd));;
                 process_packet (InPubRec (mkSimple i));; process_packet (InPubComp (mkSimple i)) in
    (exists s' wd2, steps s = (Ret false, s') /\
       woken s' = woken s ++ default [] (waker_of <$> notify_rec (shared s) !! i)
                          ++ match n with O => [] | S _ => [w] end /\
       advance w (AwaitPublish f k) (with_w_shared (shared s') wd1) = (Ret (Done (Ok tt)), wd2)) \/
    (exists e s', steps s = (Throw e, s') /\ is_would_block e = false).
Proof.
  intros Hsh Ht Hl Ha. set (cmd := publish_cmd t d ExactlyOnce retain (w_shared wd)).
  destruct (publish_method_waits n w t d ExactlyOnce retain CompStage wd Hsh Ht Hl Ha) as (q & Hq & E). fold cmd in Hq, E.
  exists cmd, (future_of cmd CompStage), publish_result. eexists. split; [exact E|]. split; [exact Hq|].
  intros s Hok Hc Htx Es i steps. assert (is_u16 i) as Hi by (by apply publish_id_ok).
  assert (wp steps (fun b s' => b = false /\
    woken s' = woken s ++ default [] (waker_of <$> notify_rec (shared s) !! i) ++ match n with O => [] | S _ => [w] end /\
    access_notifier_map CompStage (shared s') !! i = None) no_answer s) as Hw.
  { apply wp_bind. eapply wp_mono; [by apply (wp_publish_command cmd s)| |done]; cbn beta.
    intros _ s1 (_ & Hok1 & Hc1 & Hsh1 & Hw1 & Hp1).
    apply wp_bind. eapply wp_mono; [exact (wp_pubrec_moves i s1 Hok1 Hc1 Hi Hp1)| |done]; cbn beta.
    intros _ s2 (_ & Hok2 & Hc2 & Hsh2 & Hw2 & Hp2). rewrite Hsh1, Hw1 in *.
    eapply wp_mono; [apply (future_answered CompStage i (polled n w) s2 Hok2 Hc2 Hi Hp2)| |done]; cbn beta.
    - cbn [access_notifier_map]. rewrite Hsh2, Es. exact (registered_lookup cmd CompStage _ _).
    - intros b s' (-> & Hw & Hs). split; [done|].
      split; [by rewrite Hw, Hw2, <- app_assoc; destruct n|]. by rewrite Hs, access_set, lookup_delete_eq. }
  destruct (wp_run _ _ _ _ Hw) as [(b & s' & Er & -> & Hwk & Hn)|(e & s' & Er & He)]; [left|right; by exists e, s'].
  exists s'. eexists. refine (conj Er (conj Hwk _)). by apply publish_finishes.
Qed.

(** The transceiver takes the command of a new subscription. *)
Lemma wp_subscribe_command cmd s : tr_ok s -> connect_sig s = false -> tx_pkt s = None ->
  wire_len_ok (subcmd_topic cmd) -> valid_filter (levels (subcmd_topic cmd)) = true ->
  subscribed (view (subscriptions s) (levels (subcmd_topic cmd))) = false ->
  let i := next_packet_id (shared s) in
  wp (on_command (Some (CSubscribe cmd)))
    (fun _ s1 => tr_ok s1 /\ connect_sig s1 = false /\ stream s1 = stream s ++ sub_packet i cmd /\
       pending_subs s1 !! i = Some (mkPendingSub (subcmd_topic cmd) (subcmd_kind cmd) (sub_packet i cmd)) /\
       subscriptions s1 = subscriptions s /\ subs (shared s1) = subs (shared s) /\ woken s1 = woken s)
    no_answer s.
Proof.
  intros Hok Hc Htx Hl Hv Hns i.
  eapply wp_mono; [apply (wp_command (Some (CSubscribe cmd)) s Hok Htx); by intros ? [= <-]| |by apply failed_no_answer]; cbn beta.
  intros st s1 (Hok1 & (_ & _ & Hc1 & _) & _ & Hd).
  destruct Hd as [Hi|set' sub' f Hs|s1 j _ Hst Hp _ _ Hsu Hsh Hw _].
  - rewrite Hv in Hi. discriminate.
  - fold f in Hns. rewrite Hns in Hs. discriminate.
  - refine (conj Hok1 (conj (eq_trans Hc1 Hc) (conj Hst (conj _ (conj Hsu (conj _ Hw)))))).
    + rewrite Hp. apply lookup_insert_eq.
    + by rewrite Hsh.
Qed.

(** The SUBACK of a request that is waited for. *)
Lemma wp_settle a r rs ps ws s : tr_ok s -> connect_sig s = false -> IncomingPacket_wf (InSubAck a) ->
  pending_subs s !! suback_packet_id a = Some ps -> sub_results a = Ret (r :: rs) ->
  subs (shared s) !! ps_topic ps = Some (Pending ws) ->
  wp (process_packet (InSubAck a))
    (fun b s' => b = false /\ stream s' = stream s /\ woken s' = woken s ++ pending_wakers (Pending ws) /\
       match r with
       | Ok _ => sub_added (ps_topic ps) (ps_kind ps) (subscriptions s) (subscriptions s')
       | Err _ => subscriptions s' = subscriptions s
       end /\ settled (ps_topic ps) r (shared s') /\ connect_sig s' = false)
    (fun _ _ => False) s.
Proof.
  intros Hok Hc Hwf Hp Hrs Hws. unfold process_packet. apply wp_bind, wp_gets. rewrite Hc.
  apply wp_bind. eapply wp_mono; [exact (wp_suback a s Hok Hwf)| |done]; cbn beta. intros _ s' Hr. apply wp_ret.
  destruct (suback_reacted_ok a s s' Hok Hr) as (_ & (_ & _ & Hc' & _) & Hst & _).
  unfold suback_reacted in Hr. rewrite Hp, Hrs in Hr. cbv zeta in Hr. destruct Hr as (_ & Hadd & Es).
  refine (conj eq_refl (conj Hst (conj _ (conj Hadd (conj _ (eq_trans Hc' Hc)))))); rewrite Es; cbn [woken shared with_subscriptions with_shared].
  - unfold sub_wakers. cbn [shared with_pending_subs]. by rewrite Hws.
  - unfold settled. cbn [subs set_subs]. destruct r; [apply lookup_insert_eq|apply lookup_delete_eq].
Qed.

(** C19: A new subscription, from the call to the end. The method marks the
    topic, sends its command and waits. When the transceiver takes the command
    it sends the SUBSCRIBE packet under the next ID; when the SUBACK with that
    ID arrives, the task that was polled is woken, the recipient is in the tree
    exactly if the broker accepted, and the next step of the method returns the
    QoS that the broker granted, or the refusal. *)
Theorem subscribe_settled_by_suback {R} (n : nat) w t qos (ret : R) kind wd :
  wire_len_ok t -> valid_filter (levels t) = true -> accepts (w_queue wd) -> subs (w_shared wd) !! t = None ->
  exists f k wd1, let cmd := mkSubscribeCommand t qos kind in
    advances (3 + n) w (subscribe t qos (mret (ret, kind))) wd = (Ret (AwaitSub f k), wd1) /\
    enqueued (w_queue wd1) = enqueued (w_queue wd) ++ [CSubscribe cmd] /\
    forall s a r rs, tr_ok s -> connect_sig s = false -> tx_pkt s = None -> shared s = w_shared wd1 ->
    subscribed (view (subscriptions s) (levels t)) = false ->
    IncomingPacket_wf (InSubAck a) -> suback_packet_id a = next_packet_id (shared s) -> sub_results a = Ret (r :: rs) ->
    let steps := on_command (Some (CSubscribe cmd));; process_packet (InSubAck a) in
    (exists s' wd2, steps s = (Ret false, s') /\
       stream s' = stream s ++ sub_packet (suback_packet_id a) cmd /\
       woken s' = woken s ++ match n with O => [] | S _ => [w] end /\
       match r with
       | Ok _ => sub_added t kind (subscriptions s) (subscriptions s')
       | Err _ => subscriptions s' = subscriptions s
       end /\
       advance w (AwaitSub f k) (with_w_shared (shared s') wd1)
       = (Ret (Done match r with Ok x => Ok (ret, x) | Err _ => Err RefusedByBroker end), wd2)) \/
    (exists e s', steps s = (Throw e, s') /\ is_would_block e = false).
Proof.
  intros Hl Hv Ha Ht. set (cmd := mkSubscribeCommand t qos kind).
  destruct (accepted_send (CSubscribe cmd) (w_queue wd) Ha) as (q & Es & Hq).
  exists (polled_sub n t []), (after_sub ret), (mkWorld (requested t (polled_wakers n w []) (w_shared wd)) q). cbv zeta.
  split. { refine (eq_trans (subscribe_new n w t qos ret kind wd (Ok tt) q Ht Es) _). apply advances_waiting_sub. }
  split; [exact Hq|]. intros s a r rs Hok Hc Htx Esh Hns Hwf Hia Hrs.
  assert (wp (on_command (Some (CSubscribe cmd));; process_packet (InSubAck a)) (fun b s' => b = false /\
    stream s' = stream s ++ sub_packet (suback_packet_id a) cmd /\
    woken s' = woken s ++ match n with O => [] | S _ => [w] end /\
    match r with
    | Ok _ => sub_added t kind (subscriptions s) (subscriptions s')
    | Err _ => subscriptions s' = subscriptions s
    end /\ settled t r (shared s')) no_answer s) as Hw.
  { apply wp_bind. eapply wp_mono; [by apply (wp_subscribe_command cmd s)| |done]; cbn beta.
    intros _ s1 (Hok1 & Hc1 & Hst1 & Hp1 & Hsu1 & Hsh1 & Hw1). rewrite <- Hia in *.
    eapply wp_mono; [apply (wp_settle a r rs _ (polled_wakers n w []) s1 Hok1 Hc1 Hwf Hp1 Hrs)| |done]; cbn beta.
    - rewrite Hsh1, Esh. apply requested_lookup.
    - intros b s' (-> & Hst & Hwk & Hadd & Hs & _). rewrite Hst1 in Hst. rewrite Hw1 in Hwk. rewrite Hsu1 in Hadd.
      refine (conj eq_refl (conj Hst (conj _ (conj Hadd Hs)))). by rewrite Hwk; destruct n. }
  destruct (wp_run _ _ _ _ Hw) as [(b & s' & Er & -> & Hst & Hwk & Hadd & Hn)|(e & s' & Er & He)]; [left|right; by exists e, s'].
  exists s'. eexists. refine (conj Er (conj Hst (conj Hwk (conj Hadd _)))).
  refine (eq_trans (advance_settled _ n w t [] r (shared s') q Hn) _). by destruct r as [x|[]].
Qed.
(** C38: The future of a subscription keeps the place of its waker in the list
    that was there when it was first polled, behind the wakers [ws]. Let the
    broker then refuse the subscription, which wakes the task, and let another
    task subscribe to the same topic before the first one is polled again.
    Unless that task is the only one in the new list, at the place 0 that the
    first one had, the first one's next poll panics, and so does dropping
    its future; in that one case the poll overwrites the other task's waker
    and goes on waiting, instead of reporting the refusal. *)
Theorem subscribe_future_stale_index {R} (n : nat) w w' t qos (ret : R) kind s q a ps ws rs :
  tr_ok s -> connect_sig s = false -> IncomingPacket_wf (InSubAck a) ->
  pending_subs s !! suback_packet_id a = Some ps -> ps_topic ps = t -> sub_results a = Ret (Err tt :: rs) ->
  subs (shared s) !! t = Some (Pending ws) -> accepts q ->
  exists f sh1 s' wd f' k,
    SubscribeFuture_poll (E := Empty_set) w (SubscribeFuture_new t, shared s) = (Ret PollPending, (f, sh1)) /\
    process_packet (InSubAck a) (with_shared sh1 s) = (Ret false, s') /\
    woken s' = woken s ++ pending_wakers (Pending ws) ++ [w] /\
    advances (3 + n) w' (subscribe t qos (mret (ret, kind))) (mkWorld (shared s') q) = (Ret (AwaitSub f' k), wd) /\
    (n = 0%nat \/ ws <> [] ->
       SubscribeFuture_poll (E := Empty_set) w (f, w_shared wd) = (Panic, (f, w_shared wd)) /\
       SubscribeFuture_drop (E := Empty_set) f (w_shared wd) = (Panic, w_shared wd)) /\
    (n <> 0%nat -> ws = [] ->
       subs (w_shared wd) !! t = Some (Pending [Some w']) /\
       exists sh2, SubscribeFuture_poll (E := Empty_set) w (f, w_shared wd) = (Ret PollPending, (f, sh2)) /\
         subs sh2 !! t = Some (Pending [Some w])).
Proof.
  intros Hok Hc Hwf Hp Hps Hrs Ht Ha. set (sh1 := requested t (ws ++ [Some w]) (shared s)).
  assert (tr_ok (with_shared sh1 s)) as Hok1.
  { apply tr_ok_shared; [done|]. destruct Hok as (_ & _ & _ & Hsh & _). exact Hsh. }
  assert (subs (shared (with_shared sh1 s)) !! ps_topic ps = Some (Pending (ws ++ [Some w]))) as Ht1.
  { rewrite Hps. apply requested_lookup. }
  destruct (wp_run_ret _ _ _ (wp_settle a (Err tt) rs ps (ws ++ [Some w]) (with_shared sh1 s) Hok1 Hc Hwf Hp Hrs Ht1))
    as (b & s' & E & -> & _ & Hw & _ & Hs & _). rewrite Hps in Hs.
  destruct (accepted_send (CSubscribe (mkSubscribeCommand t qos kind)) q Ha) as (q' & Es & _).
  set (sh2 := requested t (polled_wakers n w' []) (shared s')).
  exists (polled_sub 1 t ws), sh1, s', (mkWorld sh2 q'), (polled_sub n t []), (after_sub ret).
  assert (subs sh2 !! t = Some (Pending (polled_wakers n w' []))) as Ht2 by apply requested_lookup. cbn [w_shared].
  split. { pose proof (poll_requested w 0 t ws (shared s)) as Hpl. cbn [polled_wakers polled_sub] in Hpl.
           rewrite requested_id in Hpl by done. exact Hpl. }
  split; [exact E|]. split. { rewrite Hw. cbn. by rewrite omap_app. }
  split. { refine (eq_trans (subscribe_new n w' t qos ret kind (mkWorld (shared s') q) (Ok tt) q' Hs Es) _).
           apply advances_waiting_sub. }
  split.
  - intros Hn. apply (stale_index_panics t (length ws) (polled_wakers n w' []) w sh2 Ht2).
    destruct n as [|n]; cbn; [lia|]. destruct Hn as [|Hws]; [done|]. destruct ws; [done|cbn; lia].
  - intros Hn ->. destruct n as [|n]; [done|]. split; [exact Ht2|].
    unfold SubscribeFuture_poll, vec_set, mbind, stm_bind. cbn -[sh2]. rewrite Ht2. cbn -[sh2].
    eexists. split; [done|]. apply lookup_insert_eq.
Qed.
End end_to_end.

(* ------------------------------------------------------------------ *)
(** ** Concrete instances                                              *)
(* ------------------------------------------------------------------ *)

(** A channel with room for a number of commands that nobody takes out. *)
Record SimQueue : Type := mkSimQueue { sq_room : nat; sq_closed : bool; sq_history : list Command }.

Definition sim_push (c : Command) (q : SimQueue) : SimQueue :=
  mkSimQueue (pred (sq_room q)) (sq_closed q) (sq_history q ++ [c]).

#[global] Instance SimQueue_queue : CommandQueue SimQueue := {|
  cq_try_send c q :=
    if sq_closed q then (Closed, q) else if (0 <? sq_room q)%nat then (Sent, sim_push c q) else (Full, q);
  cq_send c q :=
    if sq_closed q then (Ready (Err tt), q)
    else if (0 <? sq_room q)%nat then (Ready (Ok tt), sim_push c q) else (PollPending, q);
  cq_is_closed := sq_closed
|}.

#[global] Instance SimQueue_ok : CommandQueueOk SimQueue.
Proof.
  refine {| enqueued := sq_history |}; intros c q r q'; cbn;
    destruct (sq_closed q) eqn:Ec; try destruct (sq_room q);
    intros [= <- <-]; rewrite ?app_nil_r; split_and!; cbn; by rewrite ?Ec.
Defined.

Section samples.
#[local] Existing Instances production sample_clock sample_clock_ok.

(** Worlds with a queue that is open, and with one that is closed; a topic on
    which nobody has subscribed, ["b"], one that is requested, ["a"]. *)
Definition open_queue : SimQueue := mkSimQueue 4 false [].
Definition wd_open : World SimQueue := mkWorld ClientShared_new open_queue.
Definition wd_closed : World SimQueue := mkWorld ClientShared_new (mkSimQueue 4 true []).

Definition after {A} (p : prog SimQueue A) : World SimQueue := (advances 4 40%nat p wd_open).2.
Definition sample_after {A} (p : prog SimQueue A) : SampleTransceiver :=
  with_shared (w_shared (after p)) (sample_tr false sample_in).

Lemma sample_after_ok {A} (p : prog SimQueue A) : shared_ok (w_shared (after p)) -> tr_ok (sample_after p).
Proof. intros Hp. apply tr_ok_shared; [apply sample_tr_ok|exact Hp]. Qed.

Lemma open_accepts : accepts open_queue.
Proof. intros c. eexists. reflexivity. Qed.

Lemma sample_topic : wire_len_ok [97].
Proof. unfold wire_len_ok, is_u16. cbn. lia. Qed.

Lemma publish_qos_1_acknowledged_witness :
  let p := publish_qos_1 [97] [120] false true in
  exists cmd, enqueued (w_queue (after p)) = [CPublish cmd] /\
    let steps := on_command (Some (CPublish cmd));; process_packet (InPubAck (mkSimple (cmd_packet_id cmd))) in
    (exists s', steps (sample_after p) = (Ret false, s') /\ woken s' = [40%nat]) \/
    (exists e s', steps (sample_after p) = (Throw e, s') /\ is_would_block e = false).
Proof.
  intros p. destruct (publish_qos_1_acknowledged (T := TcpTransport SimStream) (X := SimRecipients)
    1 40%nat [97] [120] false wd_open shared_ok_new sample_topic ltac:(reflexivity) open_accepts)
    as (cmd & f & k & wd1 & E & Hq & Hrun).
  assert (wd1 = after p) as -> by (exact (eq_sym (f_equal snd E))).
  exists cmd. split; [exact Hq|].
  destruct (Hrun (sample_after p)) as [(s' & wd2 & Er & Hw & _)|Hf].
  - apply sample_after_ok. split; vm_compute; split; congruence.
  - reflexivity.
  - reflexivity.
  - reflexivity.
  - left. exists s'. exact (conj Er Hw).
  - right. exact Hf.
Defined.

Lemma publish_qos_2_completed_witness :
  let p := publish_qos_2 [97] [120] false EventComplete in
  exists cmd, enqueued (w_queue (after p)) = [CPublish cmd] /\
    let i := cmd_packet_id cmd in
    let steps := on_command (Some (CPublish cmd));;
                 process_packet (InPubRec (mkSimple i));; process_packet (InPubComp (mkSimple i)) in
    (exists s', steps (sample_after p) = (Ret false, s') /\ is_Some (last (woken s'))) \/
    (exists e s', steps (sample_after p) = (Throw e, s') /\ is_would_block e = false).
Proof.
  intros p. destruct (publish_qos_2_completed (T := TcpTransport SimStream) (X := SimRecipients)
    1 40%nat [97] [120] false wd_open shared_ok_new sample_topic ltac:(reflexivity) open_accepts)
    as (cmd & f & k & wd1 & E & Hq & Hrun).
  assert (wd1 = after p) as -> by (exact (eq_sym (f_equal snd E))).
  exists cmd. split; [exact Hq|].
  destruct (Hrun (sample_after p)) as [(s' & wd2 & Er & Hw & _)|Hf].
  - apply sample_after_ok. split; vm_compute; split; congruence.
  - reflexivity.
  - reflexivity.
  - reflexivity.
  - left. exists s'. split; [exact Er|]. rewrite Hw, !last_app. by eexists.
  - right. exact Hf.
Defined.

Lemma publish_closed_leaves_no_trace_witness :
  exists q, enqueued q = [] /\
    advances 4 40%nat (publish_qos_2 [97] [120] false EventReceived) wd_closed
    = (Ret (Done (Err PublishTaskTerminated)), mkWorld (set_next_packet_id (wrap16 2) ClientShared_new) q).
Proof.
  destruct (publish_closed_leaves_no_trace 0 40%nat [97] [120] false wd_closed
    (publish_qos_2 [97] [120] false EventReceived)) as (q & Hq & E).
  - exact shared_ok_new.
  - exact sample_topic.
  - reflexivity.
  - reflexivity.
  - intros []; reflexivity.
  - right. exists EventReceived. split; [discriminate|reflexivity].
  - exists q. exact (conj Hq E).
Defined.

Lemma subscribe_by_state_witness :
  exists f k q, advances 4 40%nat (subscribe [98] AtLeastOnce (mret (tt, Void))) wd_open
    = (Ret (AwaitSub f k), mkWorld (requested [98] [Some 40%nat] ClientShared_new) q) /\
    enqueued q = [CSubscribe (mkSubscribeCommand [98] AtLeastOnce Void)].
Proof. exact (subscribe_by_state 1 40%nat [98] AtLeastOnce tt Void wd_open open_accepts). Defined.

Lemma subscribe_closed_then_hangs_witness :
  exists wd1, advances 3 40%nat (subscribe [98] AtLeastOnce (mret (tt, Void))) wd_closed
    = (Ret (Done (Err SubscribeTaskTerminated)), wd1) /\
    exists f k wd2, advances 1000 41%nat (subscribe [98] AtMostOnce (mret (tt, Void))) wd1 = (Ret (AwaitSub f k), wd2).
Proof.
  destruct (subscribe_closed_then_hangs (R' := unit) 40%nat [98] AtLeastOnce tt Void wd_closed) as (wd1 & E & _ & _ & Hn).
  - reflexivity.
  - reflexivity.
  - exists wd1. split; [exact E|]. destruct (Hn 999%nat 41%nat AtMostOnce (mret (tt, Void))) as (f & k & wd2 & E2 & _).
    exists f, k, wd2. exact E2.
Defined.

(** The broker grants QoS 1 to the request with the ID 1. *)
Definition sample_granted : SubAckPacket := SubAckPacket_new 1 [Ok AtLeastOnce].

Lemma subscribe_settled_by_suback_witness :
  let p := subscribe [98] ExactlyOnce (mret (tt, Unbounded 31%nat)) in
  let steps := on_command (Some (CSubscribe (mkSubscribeCommand [98] ExactlyOnce (Unbounded 31%nat))));;
               process_packet (InSubAck sample_granted) in
  (exists s', steps (sample_after p) = (Ret false, s') /\ woken s' = [40%nat]) \/
  (exists e s', steps (sample_after p) = (Throw e, s') /\ is_would_block e = false).
Proof.
  intros p. destruct (subscribe_settled_by_suback (T := TcpTransport SimStream) (X := SimRecipients)
    1 40%nat [98] ExactlyOnce tt (Unbounded 31%nat) wd_open) as (f & k & wd1 & E & Hq & Hrun).
  - unfold wire_len_ok, is_u16. cbn. lia.
  - reflexivity.
  - exact open_accepts.
  - reflexivity.
  - assert (wd1 = after p) as -> by (exact (eq_sym (f_equal snd E))).
    destruct (Hrun (sample_after p) sample_granted (Ok AtLeastOnce) []) as [(s' & wd2 & Er & _ & Hw & _)|Hf].
    + apply sample_after_ok. split; vm_compute; split; congruence.
    + reflexivity.
    + reflexivity.
    + reflexivity.
    + vm_compute. reflexivity.
    + split; [unfold is_u16; cbn; lia|]. eexists. vm_compute. reflexivity.
    + reflexivity.
    + vm_compute. reflexivity.
    + left. exists s'. exact (conj Er Hw).
    + right. exact Hf.
Defined.

(** Task 40 waits for the subscription that task 21 requested; the broker
    refuses it, and task 41 subscribes. *)
Lemma subscribe_future_stale_index_witness :
  let s := sample_tr false sample_in in let a := SubAckPacket_new 3 [Err tt] in
  exists f sh1 s' wd,
    SubscribeFuture_poll (E := Empty_set) 40%nat (SubscribeFuture_new [97], shared s) = (Ret PollPending, (f, sh1)) /\
    process_packet (InSubAck a) (with_shared sh1 s) = (Ret false, s') /\ woken s' = [21%nat; 40%nat] /\
    wd = (advances 4 41%nat (subscribe [97] AtLeastOnce (mret (tt, Void))) (mkWorld (shared s') (w_queue wd_open))).2 /\
    SubscribeFuture_poll (E := Empty_set) 40%nat (f, w_shared wd) = (Panic, (f, w_shared wd)).
Proof.
  intros s a. destruct (subscribe_future_stale_index 1 40%nat 41%nat [97] AtLeastOnce tt Void s (w_queue wd_open) a
    (mkPendingSub [97] (Unbounded 30%nat) sample_subscribe) [Some 21%nat] [] (sample_tr_ok false sample_in))
    as (f & sh1 & s' & wd & f' & k & E1 & E2 & Hw & E3 & Hp & _).
  - reflexivity.
  - split; [unfold is_u16; cbn; lia|]. eexists. vm_compute. reflexivity.
  - vm_compute. reflexivity.
  - reflexivity.
  - vm_compute. reflexivity.
  - vm_compute. reflexivity.
  - exact open_accepts.
  - exists f, sh1, s', wd. refine (conj E1 (conj E2 (conj Hw (conj _ _)))).
    + exact (eq_sym (f_equal snd E3)).
    + apply Hp. right. discriminate.
Defined.

Lemma make_publish_cmd_correct_witness :
  exists cmd sh', make_publish_cmd (E := io_error) [97] [120] AtLeastOnce true ClientShared_new = (Ret cmd, sh') /\
    next_packet_id sh' = 2.
Proof.
  destruct (make_publish_cmd_correct [97] [120] AtLeastOnce true ClientShared_new shared_ok_new)
    as (cmd & sh' & m & body & E & Hsh & _).
  - unfold wire_len_ok, is_u16. cbn. lia.
  - reflexivity.
  - vm_compute. reflexivity.
  - exists cmd, sh'. split; [exact E|]. rewrite Hsh. vm_compute. reflexivity.
Defined.
End samples.
