(* ===== verification/Connect.v ===== *)
(** * [options.rs] and [Client::connect]

    The options of a connection with their builder, and the establishment of a
    connection: which host, port and address are used, what the transceiver is
    started with, and what the caller is told. Name resolution, sockets and the
    set-up of TLS are parameters. The theorems show that the CONNECT packet
    carries the options, which address is chosen, and that the result is the
    broker's first answer. *)

From Stdlib Require Import ZArith Lia.
From stdpp Require Import base list numbers gmap.
From S2P Require Import Prelude Base ByteIO Packets PacketProps Transport PacketReader.
From S2P Require Import Subscription Shared Transceiver TransceiverOut TransceiverProps Samples.
From S2P Require Import TransceiverRuns Shutdown.

Local Open Scope Z_scope.

(* ------------------------------------------------------------------ *)
(** ** Errors                                                          *)
(* ------------------------------------------------------------------ *)

Inductive TimeoutKind : Type := DnsLookup | TcpConnect | MqttConnect.

(** [R] is [rustls::Error]. *)
Inductive ConnectError (R : Type) : Type :=
| InvalidHostname
| TlsError (e : R)
| IoError (e : io_error)
| LookupHostError (e : io_error)
| HostnameNotFound
| ConnectTimeout (k : TimeoutKind)
| OneshotRecvError
| ServerError (e : ServerConnectError).
Arguments InvalidHostname {R}.
Arguments TlsError {R} e.
Arguments IoError {R} e.
Arguments LookupHostError {R} e.
Arguments HostnameNotFound {R}.
Arguments ConnectTimeout {R} k.
Arguments OneshotRecvError {R}.
Arguments ServerError {R} e.

(* ------------------------------------------------------------------ *)
(** ** Options                                                         *)
(* ------------------------------------------------------------------ *)

(** A [Duration] in nanoseconds. *)
Definition from_secs (s : Z) : Duration := s * 1000000000.

Inductive SocketAddr : Type :=
| SocketV4 (ip : Z) (port : u16)
| SocketV6 (ip : Z) (port : u16).

Definition is_ipv6 (a : SocketAddr) : bool := match a with SocketV6 _ _ => true | _ => false end.

Record IpVersionSet : Type := mkIpVersionSet { ip_bits : u8 }.

Definition V4_BIT : u8 := 1.
Definition V6_BIT : u8 := 2.
Definition IpVersionSet_all : IpVersionSet := mkIpVersionSet (Z.lor V4_BIT V6_BIT).
Definition without_v4 (s : IpVersionSet) : IpVersionSet := mkIpVersionSet (Z.land (ip_bits s) (not8 V4_BIT)).
Definition without_v6 (s : IpVersionSet) : IpVersionSet := mkIpVersionSet (Z.land (ip_bits s) (not8 V6_BIT)).
Definition supports (s : IpVersionSet) (addr : SocketAddr) : bool :=
  match addr with
  | SocketV4 _ _ => negb (Z.land (ip_bits s) V4_BIT =? 0)
  | SocketV6 _ _ => negb (Z.land (ip_bits s) V6_BIT =? 0)
  end.

Record OptionsT (C : Type) : Type := mkOptions {
  opt_clean_session : bool;
  opt_keep_alive : u16;
  opt_client_id : str;
  opt_last_will : option LastWill;
  opt_username : option str;
  opt_password : option bytes;
  opt_no_delay : bool;
  enabled_ip_versions : IpVersionSet;
  connection_cfg : C;
  dns_timeout : Duration;
  tcp_connect_timeout : Duration;
  mqtt_connect_timeout : Duration;
  packets_resend_delay : Duration;
  opt_default_port : u16;
  default_port_changed : bool
}.
Arguments mkOptions {C}.
Arguments opt_clean_session {C} o.
Arguments opt_keep_alive {C} o.
Arguments opt_client_id {C} o.
Arguments opt_last_will {C} o.
Arguments opt_username {C} o.
Arguments opt_password {C} o.
Arguments opt_no_delay {C} o.
Arguments enabled_ip_versions {C} o.
Arguments connection_cfg {C} o.
Arguments dns_timeout {C} o.
Arguments tcp_connect_timeout {C} o.
Arguments mqtt_connect_timeout {C} o.
Arguments packets_resend_delay {C} o.
Arguments opt_default_port {C} o.
Arguments default_port_changed {C} o.

Definition Options_new (client_id : str) : OptionsT unit :=
  mkOptions false 30 client_id None None None false IpVersionSet_all tt
    (from_secs 3) (from_secs 10) (from_secs 3) (from_secs 1) 1883 false.

Definition map_connection_cfg {C D} (f : C -> D) (o : OptionsT C) : OptionsT D :=
  mkOptions (opt_clean_session o) (opt_keep_alive o) (opt_client_id o) (opt_last_will o) (opt_username o)
    (opt_password o) (opt_no_delay o) (enabled_ip_versions o) (f (connection_cfg o)) (dns_timeout o)
    (tcp_connect_timeout o) (mqtt_connect_timeout o) (packets_resend_delay o) (opt_default_port o)
    (default_port_changed o).

(** The setters: each is a method on [&mut self]. *)
Section setters.
Context {C : Type}.
Implicit Types (o : OptionsT C).

Definition set_clean_session o : OptionsT C :=
  mkOptions true (opt_keep_alive o) (opt_client_id o) (opt_last_will o) (opt_username o)
    (opt_password o) (opt_no_delay o) (enabled_ip_versions o) (connection_cfg o) (dns_timeout o)
    (tcp_connect_timeout o) (mqtt_connect_timeout o) (packets_resend_delay o) (opt_default_port o)
    (default_port_changed o).
Definition set_keep_alive (x : u16) o : OptionsT C :=
  mkOptions (opt_clean_session o) x (opt_client_id o) (opt_last_will o) (opt_username o)
    (opt_password o) (opt_no_delay o) (enabled_ip_versions o) (connection_cfg o) (dns_timeout o)
    (tcp_connect_timeout o) (mqtt_connect_timeout o) (packets_resend_delay o) (opt_default_port o)
    (default_port_changed o).
Definition set_last_will_ex (x : LastWill) o : OptionsT C :=
  mkOptions (opt_clean_session o) (opt_keep_alive o) (opt_client_id o) (Some x) (opt_username o)
    (opt_password o) (opt_no_delay o) (enabled_ip_versions o) (connection_cfg o) (dns_timeout o)
    (tcp_connect_timeout o) (mqtt_connect_timeout o) (packets_resend_delay o) (opt_default_port o)
    (default_port_changed o).
Definition set_username (x : str) o : OptionsT C :=
  mkOptions (opt_clean_session o) (opt_keep_alive o) (opt_client_id o) (opt_last_will o) (Some x)
    (opt_password o) (opt_no_delay o) (enabled_ip_versions o) (connection_cfg o) (dns_timeout o)
    (tcp_connect_timeout o) (mqtt_connect_timeout o) (packets_resend_delay o) (opt_default_port o)
    (default_port_changed o).
Definition set_password (x : bytes) o : OptionsT C :=
  mkOptions (opt_clean_session o) (opt_keep_alive o) (opt_client_id o) (opt_last_will o) (opt_username o)
    (Some x) (opt_no_delay o) (enabled_ip_versions o) (connection_cfg o) (dns_timeout o)
    (tcp_connect_timeout o) (mqtt_connect_timeout o) (packets_resend_delay o) (opt_default_port o)
    (default_port_changed o).
Definition set_no_delay o : OptionsT C :=
  mkOptions (opt_clean_session o) (opt_keep_alive o) (opt_client_id o) (opt_last_will o) (opt_username o)
    (opt_password o) true (enabled_ip_versions o) (connection_cfg o) (dns_timeout o)
    (tcp_connect_timeout o) (mqtt_connect_timeout o) (packets_resend_delay o) (opt_default_port o)
    (default_port_changed o).
Definition set_ip_versions (x : IpVersionSet) o : OptionsT C :=
  mkOptions (opt_clean_session o) (opt_keep_alive o) (opt_client_id o) (opt_last_will o) (opt_username o)
    (opt_password o) (opt_no_delay o) x (connection_cfg o) (dns_timeout o)
    (tcp_connect_timeout o) (mqtt_connect_timeout o) (packets_resend_delay o) (opt_default_port o)
    (default_port_changed o).
Definition disable_ipv4 o : OptionsT C := set_ip_versions (without_v4 (enabled_ip_versions o)) o.
Definition disable_ipv6 o : OptionsT C := set_ip_versions (without_v6 (enabled_ip_versions o)) o.
Definition set_all_timeouts (dns tcp mqtt : Duration) o : OptionsT C :=
  mkOptions (opt_clean_session o) (opt_keep_alive o) (opt_client_id o) (opt_last_will o) (opt_username o)
    (opt_password o) (opt_no_delay o) (enabled_ip_versions o) (connection_cfg o) dns
    tcp mqtt (packets_resend_delay o) (opt_default_port o)
    (default_port_changed o).
Definition set_dns_timeout (x : Duration) o : OptionsT C :=
  set_all_timeouts x (tcp_connect_timeout o) (mqtt_connect_timeout o) o.
Definition set_tcp_connect_timeout (x : Duration) o : OptionsT C :=
  set_all_timeouts (dns_timeout o) x (mqtt_connect_timeout o) o.
Definition set_mqtt_connect_timeout (x : Duration) o : OptionsT C :=
  set_all_timeouts (dns_timeout o) (tcp_connect_timeout o) x o.
Definition set_all_timeouts_to (x : Duration) o : OptionsT C := set_all_timeouts x x x o.
Definition set_packets_resend_delay (x : Duration) o : OptionsT C :=
  mkOptions (opt_clean_session o) (opt_keep_alive o) (opt_client_id o) (opt_last_will o) (opt_username o)
    (opt_password o) (opt_no_delay o) (enabled_ip_versions o) (connection_cfg o) (dns_timeout o)
    (tcp_connect_timeout o) (mqtt_connect_timeout o) x (opt_default_port o)
    (default_port_changed o).
Definition with_port (port : u16) (changed : bool) o : OptionsT C :=
  mkOptions (opt_clean_session o) (opt_keep_alive o) (opt_client_id o) (opt_last_will o) (opt_username o)
    (opt_password o) (opt_no_delay o) (enabled_ip_versions o) (connection_cfg o) (dns_timeout o)
    (tcp_connect_timeout o) (mqtt_connect_timeout o) (packets_resend_delay o) port changed.
Definition set_default_port (port : u16) o : OptionsT C := with_port port true o.
Definition default_port o : u16 := opt_default_port o.
End setters.

Definition set_last_will {C} (topic : str) (message : bytes) (retain : bool) (qos : QoS) (o : OptionsT C) : OptionsT C :=
  set_last_will_ex (mkLastWill topic message retain qos) o.

(** [tls_config] is rustls' [ClientConfig]. *)
Definition enable_tls_ex {D} (tls_config : D) (o : OptionsT unit) : OptionsT D :=
  let ret := map_connection_cfg (fun _ => tls_config) o in
  if default_port_changed ret then ret else with_port 8883 (default_port_changed ret) ret.

(** [let mut opt = self.map_connection_cfg(Some)], then [take().unwrap()]. *)
Definition separate_connection_cfg {St E C} (o : OptionsT C) : stm St E (OptionsT unit * C) :=
  let opt := map_connection_cfg Some o in
  match connection_cfg opt with
  | Some conn_cfg => mret (map_connection_cfg (fun _ => tt) opt, conn_cfg)
  | None => panic
  end.

(* ------------------------------------------------------------------ *)
(** ** Connecting                                                      *)
(* ------------------------------------------------------------------ *)

(** How a connection is secured: [C] is the configuration, [S] the stream,
    [N] the connection tied to a host name and [T] the transport. *)
Class ConnectionConfig (C S N T R : Type) : Type := {
  create_connection : C -> str -> result N (ConnectError R);
  create_transport : S -> N -> T
}.

#[global] Instance unit_config S R : ConnectionConfig unit S unit (TcpTransport S) R := {|
  create_connection _ _ := Ok tt;
  create_transport stream _ := mkTcpTransport stream
|}.

(** What rustls does: [ServerName::try_from] and [ClientConnection::new]. *)
Class Rustls (D Name L R : Type) : Type := {
  server_name : str -> option Name;
  client_connection : D -> Name -> result L R
}.

Definition tls_config D Name S L R `{Rustls D Name L R} : ConnectionConfig D S L (TlsTransport S L) R := {|
  create_connection cfg host :=
    match server_name host with
    | None => Err InvalidHostname
    | Some name => match client_connection cfg name with Ok c => Ok c | Err e => Err (TlsError e) end
    end;
  create_transport stream connection := mkTlsTransport stream connection
|}.

(** The network: [None] is a timeout after the given time. *)
Class Network (S : Type) : Type := {
  lookup_host : Duration -> str -> option (result (list SocketAddr) io_error);
  socket_new : bool -> result unit io_error;
  socket_connect : Duration -> SocketAddr -> option (result S io_error);
  set_nodelay : S -> result unit io_error
}.

(** [TransceiverBuildData], less the ends of the channels. *)
Record TransceiverBuildData (T : Type) : Type := mkBuildData {
  bd_transport : T;
  bd_connect_packet : bytes;
  bd_ping_interval : Duration;
  bd_shared : ClientShared;
  bd_packet_resend_delay : Duration
}.
Arguments mkBuildData {T}.
Arguments bd_transport {T} t.
Arguments bd_connect_packet {T} t.
Arguments bd_ping_interval {T} t.
Arguments bd_shared {T} t.
Arguments bd_packet_resend_delay {T} t.

(** The handle, less the sender of the command queue. *)
Record ClientHandle : Type := mkClientHandle { was_session_present : bool; client_shared : ClientShared }.

(** The decimal digits of a [u16]. *)
Fixpoint digits (fuel : nat) (n : Z) : str :=
  match fuel with
  | O => []
  | S fuel => (if n <? 10 then [] else digits fuel (n / 10)) ++ [48 + n mod 10]
  end.
Definition show_u16 (n : u16) : str := digits 5 n.

(** The host with a port, and where the port's colon is. *)
Definition split_host (host : str) (port : u16) : str * nat :=
  match list_find (fun c => c = 58) host with
  | Some (x, _) => (host, x)
  | None => (host ++ [58] ++ show_u16 port, length host)
  end.

Section connect.
Context {C S N T R : Type} `{ConnectionConfig C S N T R} `{Network S}.

(** The state is what has been put into the command queue. *)
Abbreviation cio A := (stm (list Command) (ConnectError R) A).

(** [.map_err(f)?], and the same for [time::timeout]. *)
Definition map_err {A E} (f : E -> ConnectError R) (r : result A E) : cio A :=
  match r with Ok a => mret a | Err e => throw (f e) end.
Definition timed {A} (k : TimeoutKind) (o : option A) : cio A :=
  match o with Some a => mret a | None => throw (ConnectTimeout k) end.

(** Everything up to the start of the task. *)
Definition open_connection (host : str) (options : OptionsT C) : cio (TransceiverBuildData T) :=
  oc ← separate_connection_cfg options;
  let '(options, conn_cfg) := oc in
  let '(host_and_port, port_pos) := split_host host (default_port options) in
  let host_only := take port_pos host_and_port in
  conn ← map_err id (create_connection conn_cfg host_only);
  found ← timed DnsLookup (lookup_host (dns_timeout options) host_and_port);
  addrs ← map_err LookupHostError found;
  addr ← match filter (fun a => supports (enabled_ip_versions options) a = true) addrs with
         | addr :: _ => mret addr
         | [] => throw HostnameNotFound
         end;
  map_err IoError (socket_new (is_ipv6 addr));;
  connected ← timed TcpConnect (socket_connect (tcp_connect_timeout options) addr);
  stream ← map_err IoError connected;
  (if opt_no_delay options then map_err IoError (set_nodelay stream) else mret tt);;
  connect_packet ← infallible (make_arc_packet
    (mkConnectPacket (opt_clean_session options) (opt_keep_alive options) (opt_client_id options)
       (opt_last_will options) (opt_username options) (opt_password options)));
  mret (mkBuildData (create_transport stream conn) connect_packet (from_secs (opt_keep_alive options))
          ClientShared_new (Z.max (packets_resend_delay options) (from_secs 1))).

(** [conn_result] is what the wait for the task's answer resolves to: [None]
    after a timeout, [Some (Err tt)] if the task is gone without one. *)
Definition connect (host : str) (options : OptionsT C)
    (conn_result : TransceiverBuildData T -> option (result (result bool ServerConnectError) unit)) : cio ClientHandle :=
  data ← open_connection host options;
  match conn_result data with
  | Some (Ok (Ok x)) => mret (mkClientHandle x (bd_shared data))
  | Some (Ok (Err x)) => throw (ServerError x)
  | Some (Err _) => throw OneshotRecvError
  | None => modify (fun q => q ++ [CDisconnect]);; throw (ConnectTimeout MqttConnect)
  end.
End connect.

(* ------------------------------------------------------------------ *)
(** ** Host and options                                                *)
(* ------------------------------------------------------------------ *)

Definition read_dec (s : str) : Z := foldl (fun a c => 10 * a + (c - 48)) 0 s.

Lemma digits_read fuel n : 0 <= n < 10 ^ Z.of_nat fuel -> (0 < fuel)%nat -> read_dec (digits fuel n) = n.
Proof.
  revert n. induction fuel as [|fuel IH]; intros n Hn Hf; [lia|]. cbn [digits].
  unfold read_dec. rewrite foldl_app. cbn [foldl]. fold (read_dec (if n <? 10 then [] else digits fuel (n / 10))).
  destruct (Z.ltb_spec n 10) as [Hl|Hl]; [cbn; rewrite Z.mod_small by lia; lia|].
  rewrite Nat2Z.inj_succ, Z.pow_succ_r in Hn by lia. destruct fuel as [|fuel]; [cbn in Hn; lia|].
  rewrite IH; [|split; [apply Z.div_pos; lia|apply Z.div_lt_upper_bound; lia]|lia].
  pose proof (Z.div_mod n 10 ltac:(lia)). lia.
Qed.

Lemma show_u16_read n : is_u16 n -> read_dec (show_u16 n) = n.
Proof. intros Hn. unfold is_u16 in Hn. apply digits_read; lia. Qed.

(** The host that is looked up and the one that TLS verifies. *)
Lemma split_host_plain host port : 58 ∉ host ->
  split_host host port = (host ++ [58] ++ show_u16 port, length host).
Proof.
  intros Hh. unfold split_host. destruct (list_find _ host) as [[i c]|] eqn:E; [|done].
  apply list_find_Some in E as (Hi & -> & _). exfalso. apply Hh. by apply list_elem_of_lookup_2 in Hi.
Qed.

Lemma split_host_port name rest port : 58 ∉ name ->
  split_host (name ++ 58 :: rest) port = (name ++ 58 :: rest, length name).
Proof.
  intros Hn. unfold split_host.
  assert (list_find (fun c => c = 58) (name ++ 58 :: rest) = Some (length name, 58)) as ->; [|done].
  apply list_find_Some. split_and!; [apply list_lookup_middle; done|done|].
  intros j y Hj Hl ->. rewrite lookup_app_l in Hj by done. apply Hn. by apply list_elem_of_lookup_2 in Hj.
Qed.

(** An IPv6 address is cut at its first colon: of [[::1]:1883] only the bracket
    is left. *)
Lemma ipv6_literal_cut port :
  split_host [91; 58; 58; 49; 93; 58; 49; 56; 56; 51] port = ([91; 58; 58; 49; 93; 58; 49; 56; 56; 51], 1%nat).
Proof. apply (split_host_port [91]). apply not_elem_of_cons. split; [done|apply not_elem_of_nil]. Qed.

(** A version is enabled unless it was disabled. *)
Inductive IpSetter : Type := DisableV4 | DisableV6.
Definition apply_setter {C} (o : OptionsT C) (x : IpSetter) : OptionsT C :=
  match x with DisableV4 => disable_ipv4 o | DisableV6 => disable_ipv6 o end.
#[global] Instance IpSetter_eq_dec : EqDecision IpSetter.
Proof. solve_decision. Defined.

Lemma setters_bits {C} (o : OptionsT C) calls :
  ip_bits (enabled_ip_versions o) ∈ seqZ 0 4 ->
  let o' := foldl apply_setter o calls in
  ip_bits (enabled_ip_versions o') ∈ seqZ 0 4 /\
  forall a, supports (enabled_ip_versions o') a
    = supports (enabled_ip_versions o) a && negb (bool_decide ((if is_ipv6 a then DisableV6 else DisableV4) ∈ calls)).
Proof.
  revert o. induction calls as [|x calls IH]; intros o Ho; cbn [foldl].
  { split; [done|]. intros a. rewrite bool_decide_false by apply not_elem_of_nil. by rewrite andb_true_r. }
  assert (ip_bits (enabled_ip_versions (apply_setter o x)) ∈ seqZ 0 4 /\
    forall a, supports (enabled_ip_versions (apply_setter o x)) a
      = supports (enabled_ip_versions o) a && negb (bool_decide (x = if is_ipv6 a then DisableV6 else DisableV4))) as [Hx Hsx].
  { apply elem_of_seqZ in Ho. destruct o as [? ? ? ? ? ? ? [b]]. cbn in Ho.
    assert (b = 0 \/ b = 1 \/ b = 2 \/ b = 3) as Hb by lia.
    destruct x, Hb as [->|[->|[->| ->]]]; (split; [apply elem_of_seqZ; vm_compute; split; congruence|by intros []]). }
  destruct (IH _ Hx) as [Hi Hs]. split; [done|]. intros a. rewrite Hs, Hsx, <- andb_assoc. f_equal.
  rewrite <- negb_orb, <- bool_decide_or. f_equal. apply bool_decide_ext. rewrite elem_of_cons. naive_solver.
Qed.

(* ------------------------------------------------------------------ *)
(** ** What is connected to, and what is sent                          *)
(* ------------------------------------------------------------------ *)

(** The CONNECT packet of some options. *)
Definition connect_packet {C} (o : OptionsT C) : ConnectPacket :=
  mkConnectPacket (opt_clean_session o) (opt_keep_alive o) (opt_client_id o) (opt_last_will o)
    (opt_username o) (opt_password o).

(** The options fit in a CONNECT packet. *)
Definition options_ok {C} (o : OptionsT C) : Prop :=
  ConnectPacket_valid (connect_packet o) /\ len (ConnectPacket_body (connect_packet o)) < MAX_CONTENT.

(** The first address of an enabled version. *)
Definition chosen {C} (o : OptionsT C) (addrs : list SocketAddr) (a : SocketAddr) : Prop :=
  exists before after, addrs = before ++ a :: after /\ supports (enabled_ip_versions o) a = true /\
    Forall (fun b => supports (enabled_ip_versions o) b = false) before.

Section connecting.
Context {C S N T R : Type} `{ConnectionConfig C S N T R} `{Network S}.

Lemma first_supported {A} (p : A -> bool) (l : list A) a rest :
  filter (fun x => p x = true) l = a :: rest ->
  exists before after, l = before ++ a :: after /\ p a = true /\ Forall (fun b => p b = false) before.
Proof.
  induction l as [|x l IH]; [done|]. rewrite filter_cons. case_decide as Hx.
  - intros [= <- _]. exists [], l. split_and!; [done|done|constructor].
  - intros E. destruct (IH E) as (b & r & -> & Ha & Hb). exists (x :: b), r. split_and!; [done|done|].
    constructor; [by destruct (p x)|done].
Qed.

Lemma wp_map_err {A E} (f : E -> ConnectError R) (r : result A E) (Q : A -> list Command -> Prop) P q :
  (forall a, r = Ok a -> Q a q) -> (forall e, r = Err e -> P (f e) q) -> wp (map_err f r) Q P q.
Proof. intros Hr He. destruct r as [a|e]; [by apply Hr|by apply He]. Qed.

Lemma wp_timed {A} k (o : option A) (Q : A -> list Command -> Prop) P q :
  (forall a, o = Some a -> Q a q) -> (o = None -> P (ConnectTimeout k) q) -> wp (timed (R := R) k o) Q P q.
Proof. intros Ho Hn. destruct o as [a|]; [by apply Ho|by apply Hn]. Qed.

(** What a task is started with. *)
Definition opened (host : str) (o : OptionsT C) (data : TransceiverBuildData T) : Prop :=
  let hp := split_host host (default_port o) in
  exists conn addrs addr stream,
    create_connection (connection_cfg o) (take hp.2 hp.1) = Ok conn /\
    lookup_host (dns_timeout o) hp.1 = Some (Ok addrs) /\ chosen o addrs addr /\
    socket_connect (tcp_connect_timeout o) addr = Some (Ok stream) /\
    (opt_no_delay o = true -> set_nodelay stream = Ok tt) /\
    data = mkBuildData (create_transport stream conn) (frame TConnect 0 (ConnectPacket_body (connect_packet o)))
             (from_secs (opt_keep_alive o)) ClientShared_new (Z.max (packets_resend_delay o) (from_secs 1)).

(** Why it was not started. *)
Definition not_opened (host : str) (o : OptionsT C) (e : ConnectError R) : Prop :=
  let hp := split_host host (default_port o) in
  let looked_up addrs := lookup_host (dns_timeout o) hp.1 = Some (Ok addrs) in
  create_connection (connection_cfg o) (take hp.2 hp.1) = Err e \/
  match e with
  | LookupHostError x => lookup_host (dns_timeout o) hp.1 = Some (Err x)
  | HostnameNotFound =>
    exists addrs, looked_up addrs /\ Forall (fun a => supports (enabled_ip_versions o) a = false) addrs
  | IoError x =>
    exists addrs addr, looked_up addrs /\ chosen o addrs addr /\
      (socket_new (is_ipv6 addr) = Err x \/ socket_connect (tcp_connect_timeout o) addr = Some (Err x) \/
       exists stream, socket_connect (tcp_connect_timeout o) addr = Some (Ok stream) /\ set_nodelay stream = Err x)
  | ConnectTimeout DnsLookup => lookup_host (dns_timeout o) hp.1 = None
  | ConnectTimeout TcpConnect =>
    exists addrs addr, looked_up addrs /\ chosen o addrs addr /\ socket_connect (tcp_connect_timeout o) addr = None
  | _ => False
  end.

Lemma wp_open host (o : OptionsT C) q : options_ok o ->
  wp (open_connection host o) (fun data q' => q' = q /\ opened host o data)
    (fun e q' => q' = q /\ not_opened host o e) q.
Proof.
  intros [Hv Hl]. unfold open_connection. apply wp_bind, wp_ret. unfold opened, not_opened, default_port.
  cbn [opt_default_port map_connection_cfg]. destruct (split_host host (opt_default_port o)) as [hp pos]. cbn [fst snd].
  apply wp_bind, wp_map_err; [intros conn Ec|intros e Ec; by split; [|left]].
  apply wp_bind, wp_timed; [intros found El|intros El; by split; [|right]].
  apply wp_bind, wp_map_err; [intros addrs ->|intros e ->; by split; [|right]].
  apply wp_bind. cbn [enabled_ip_versions map_connection_cfg].
  destruct (filter (fun a => supports (enabled_ip_versions o) a = true) addrs) as [|addr rest] eqn:Ef.
  { split; [done|right]. exists addrs. split; [done|]. apply Forall_forall. intros a Ha.
    destruct (supports _ a) eqn:Ea; [|done]. exfalso. apply (not_elem_of_nil a). rewrite <- Ef.
    by apply list_elem_of_filter. }
  apply wp_ret. apply first_supported in Ef. fold (chosen o addrs addr) in Ef.
  apply wp_bind, wp_map_err; [intros _ _|intros e Es; split; [done|right]; exists addrs, addr; by split_and!; [| |left]].
  apply wp_bind, wp_timed; [intros r Es|intros Es; split; [done|right]; by exists addrs, addr].
  apply wp_bind, wp_map_err;
    [intros stream ->|intros e ->; split; [done|right]; exists addrs, addr; by split_and!; [| |right; left]].
  apply wp_bind. cbn [opt_no_delay map_connection_cfg].
  eapply (wp_mono _ (fun _ q' => q' = q /\ (opt_no_delay o = true -> set_nodelay stream = Ok tt)));
    [destruct (opt_no_delay o); [apply wp_map_err|done]| |intros e q' He; exact He].
  - by intros [] ->.
  - intros e Ee. split; [done|right]. exists addrs, addr. split_and!; [done|done|]. right; right. by exists stream.
  - intros _ q1 [-> Hd]. apply wp_bind.
    eapply wp_infallible; [exact (make_arc_packet_frame (connect_packet o) Hv Hl)|]. apply wp_ret.
    split; [done|]. exists conn, addrs, addr, stream. split_and!; done.
Qed.

(** C22: Opening a connection with options that fit in a CONNECT packet never
    panics. It succeeds with the stream to the first address of an enabled
    version that the host, with the default port if it has none, resolves to;
    the task is started with a CONNECT packet that the broker decodes to the
    options, the keep-alive as its ping interval and a resend delay of a second
    or more. Otherwise it fails with the error of the step that failed. *)
Theorem open_connection_correct host (o : OptionsT C) q :
  options_ok o -> ConnectPacket_strs (connect_packet o) ->
  (exists data body, open_connection host o q = (Ret data, q) /\ opened host o data /\
     bd_connect_packet data = frame TConnect 0 body /\
     broker_from_bytes (frame_ctrl TConnect 0) body = (Ret (BrConnect (connect_packet o)), []) /\
     from_secs 1 <= bd_packet_resend_delay data) \/
  (exists e, open_connection host o q = (Throw e, q) /\ not_opened host o e).
Proof.
  intros Ho Hs. destruct (wp_run _ _ _ _ (wp_open host o q Ho)) as [(data & q' & E & -> & Hd)|(e & q' & E & -> & He)];
    [left|right; by exists e].
  exists data, (ConnectPacket_body (connect_packet o)). split; [done|]. split; [done|].
  destruct Hd as (conn & addrs & addr & stream & _ & _ & _ & _ & _ & ->). cbn.
  split; [done|]. split; [by apply connect_decodes; [apply Ho| |apply Ho]|lia].
Qed.
End connecting.

(* ------------------------------------------------------------------ *)
(** ** The broker's answer                                             *)
(* ------------------------------------------------------------------ *)

Section answer.
#[local] Existing Instance production.
Context `{ClockOk} {T X : Type} `{TransportOk T} `{RecipientsOk X}.
Implicit Types (s : Transceiver T X) (ps : list Handled).

(** Handling a packet, as far as the connection is concerned. *)
Lemma handle_conn p s b s' : tr_ok s -> IncomingPacket_wf p -> process_packet p s = (Ret b, s') ->
  connect_sig s' = false /\
  conn_results s' = conn_results s ++ (if connect_sig s then [connect_answer p] else []).
Proof.
  intros Hok Hwf E. destruct (connect_sig s) eqn:Hc.
  { rewrite process_packet_connecting in E by done. injection E as _ <-. done. }
  rewrite app_nil_r. assert (unchanged s s') as (_ & _ & -> & ->); [|done].
  assert ((exists a, p = InSubAck a) \/ (forall a, p <> InSubAck a)) as [[a ->]|Hns]
    by (destruct p; [right|left|right..]; by eauto).
  - destruct (wp_run_ret _ _ _ (wp_suback a s Hok Hwf)) as ([] & s1 & Es & Hr).
    unfold process_packet, mbind, stm_bind in E. cbn in E. rewrite Hc, Es in E. injection E as _ <-.
    by destruct (suback_reacted_ok _ _ _ Hok Hr) as (_ & Hu & _).
  - by destruct (wp_inv _ _ _ _ _ _ (wp_packet p s Hok Hc Hwf Hns) E) as (_ & _ & Hu & _).
Qed.

(** What a run has told the client. *)
Definition told s ps s' : Prop :=
  connect_sig s' = (connect_sig s && bool_decide (ps = [])) /\
  conn_results s' = conn_results s ++ (if connect_sig s then take 1 (connect_answer ∘ fst <$> ps) else []).

Lemma told_quiet s s1 ps s' : quiet s s1 -> told s1 ps s' -> told s ps s'.
Proof. intros (_ & (_ & _ & Hc & Hr) & _) [Hc' Hr']. unfold told. by rewrite Hc', Hr', Hc, Hr. Qed.

Lemma run_told s ps s' : tr_ok s -> run s ps s' -> told s ps s'.
Proof.
  intros Hok Hrun. induction Hrun as [s|s o rt ps s' E _ _ IH|s rt p b s1 ps s' E Ep _ IH|s r st s1 ps s' E _ IH
    |s b s1 ps s' E _ IH|s c st s1 ps s' Hen Hc E _ IH|s st s1 ps s' E _ IH|s sh ps s' Hsh _ IH].
  - split; [by rewrite andb_true_r|]. by destruct (connect_sig s); rewrite app_nil_r.
  - destruct (recv_ok s _ _ Hok E) as (Hok1 & _). exact (IH Hok1).
  - destruct (recv_ok s _ _ Hok E) as (Hok1 & _ & Hwf & _). specialize (Hwf _ eq_refl).
    destruct (handle_ok p _ _ _ Hok1 Hwf Ep) as (Hok2 & _). destruct (handle_conn p _ _ _ Hok1 Hwf Ep) as [Hc1 Hr1].
    destruct (IH Hok2) as [Hc2 Hr2]. rewrite Hc1 in Hc2, Hr2. rewrite app_nil_r in Hr2. split.
    + rewrite Hc2. by rewrite andb_false_r.
    + rewrite Hr2, Hr1. done.
  - pose proof (quiet_write _ _ _ _ Hok E) as Hq. exact (told_quiet _ _ _ _ Hq (IH (proj1 Hq))).
  - pose proof (quiet_pre_read _ _ _ Hok E) as Hq. exact (told_quiet _ _ _ _ Hq (IH (proj1 Hq))).
  - pose proof (quiet_command _ _ _ _ Hok Hen Hc E) as Hq. exact (told_quiet _ _ _ _ Hq (IH (proj1 Hq))).
  - pose proof (quiet_alarm _ _ _ Hok E) as Hq. exact (told_quiet _ _ _ _ Hq (IH (proj1 Hq))).
  - pose proof (quiet_client _ _ Hok Hsh) as Hq. exact (told_quiet _ _ _ _ Hq (IH (proj1 Hq))).
Qed.

(** What the receiver of the answer resolves to, given the state of the task
    and whether it has ended. *)
Definition conn_rx (ended : bool) s : option (result (result bool ServerConnectError) unit) :=
  match conn_results s with
  | r :: _ => Some (Ok r)
  | [] => if ended then Some (Err tt) else None
  end.

(** A task that has just been started with the data of a connection. *)
Definition started (data : TransceiverBuildData T) (clk : nat) (x : X) s1 : Prop :=
  exists s, spawn (bd_transport data) (bd_connect_packet data) (bd_ping_interval data) (bd_shared data)
              (bd_packet_resend_delay data) clk x = Ret s /\ bootstrap s = (Ret tt, s1).

Lemma started_ok data clk x s1 : shared_ok (bd_shared data) -> bd_connect_packet data <> [] ->
  started data clk x s1 ->
  tr_ok s1 /\ connect_sig s1 = true /\ conn_results s1 = [] /\
  stream s1 = sent (bd_transport data) ++ bd_connect_packet data /\ pending_packets s1 = ∅ /\ pending_subs s1 = ∅.
Proof.
  intros Hsh Hb (s & Es & Eb).
  destruct (spawn_fresh (bd_transport data) (bd_connect_packet data) (bd_ping_interval data) (bd_shared data)
    (bd_packet_resend_delay data) clk x Hsh Hb) as (s0 & Es0 & Hf & _ & _ & Hst).
  assert (s0 = s) as -> by congruence.
  pose proof Hf as (_ & _ & _ & _ & Hcs & Hcr & _).
  destruct (wp_inv _ _ _ _ _ _ (wp_bootstrap _ s Hf) Eb) as (Hok1 & Hst1 & (_ & _ & Hc1 & Hr1) & _ & Hp1 & Hps1).
  refine (conj Hok1 (conj _ (conj _ (conj _ (conj Hp1 Hps1))))); congruence.
Qed.
End answer.

Section outcome.
#[local] Existing Instance production.
Context {C S N R : Type} `{ClockOk} {T X : Type} `{TransportOk T} `{RecipientsOk X}.
Context `{ConnectionConfig C S N T R} `{Network S}.
Implicit Types (s : Transceiver T X) (ps : list Handled).

(** C21: What connecting reports. The task first sends the CONNECT packet.
    Whatever happens on the connection until the wait is over, the result is
    the broker's first packet: success with its session flag if it is an
    accepting CONNACK, the broker's error if it is another one and a protocol
    error if it is anything else. If no packet has come, the result is
    [OneshotRecvError] if the task has ended, and otherwise a timeout, after
    which a Disconnect command is sent. *)
Theorem connect_reports_first_answer host (o : OptionsT C) q data clk (x : X) s1 ps s' (ended : bool) :
  options_ok o -> open_connection host o q = (Ret data, q) -> started data clk x s1 -> run s1 ps s' ->
  stream s1 = sent (bd_transport data) ++ bd_connect_packet data /\
  connect host o (fun _ => conn_rx ended s') q
  = match ps with
    | (InConnAck a, _) :: _ =>
      match conn_result a with
      | Ok present => (Ret (mkClientHandle present ClientShared_new), q)
      | Err e => (Throw (ServerError e), q)
      end
    | _ :: _ => (Throw (ServerError ProtocolError), q)
    | [] => if ended then (Throw OneshotRecvError, q)
            else (Throw (ConnectTimeout MqttConnect), q ++ [CDisconnect])
    end.
Proof.
  intros Ho E Hs Hr. destruct (wp_inv _ _ _ _ _ _ (wp_open host o q Ho) E) as [_ (conn & addrs & addr & st & _ & _ & _ & _ & _ & Ed)].
  destruct (started_ok data clk x s1) as (Hok & Hc & Hcr & Hst & _); [by rewrite Ed; apply shared_ok_new|by rewrite Ed|done|].
  split; [exact Hst|]. destruct (run_told s1 ps s' Hok Hr) as [_ Hans]. rewrite Hc, Hcr in Hans. cbn [app] in Hans.
  unfold connect, mbind, stm_bind. rewrite E. unfold conn_rx. rewrite Hans.
  destruct ps as [|[p set] ps]; [by destruct ended|]. cbn. rewrite Ed. cbn.
  destruct p; try done. cbn. by destruct (conn_result p).
Qed.

(** C39: After a timeout the Disconnect command is not taken: as long as the
    broker sends nothing, the task accepts no command, in any run. *)
Theorem connect_timeout_leaves_task host (o : OptionsT C) q data clk (x : X) s1 s' c :
  options_ok o -> open_connection host o q = (Ret data, q) -> started data clk x s1 -> run s1 [] s' ->
  connect host o (fun _ => conn_rx false s') q = (Throw (ConnectTimeout MqttConnect), q ++ [CDisconnect]) /\
  event_enabled s' (CommandReceived c) = false.
Proof.
  intros Ho E Hs Hr. destruct (wp_inv _ _ _ _ _ _ (wp_open host o q Ho) E) as [_ (conn & addrs & addr & st & _ & _ & _ & _ & _ & Ed)].
  destruct (started_ok data clk x s1) as (Hok & Hc & Hcr & Hst & _); [by rewrite Ed; apply shared_ok_new|by rewrite Ed|done|].
  destruct (run_told s1 [] s' Hok Hr) as [Hc' Hans]. rewrite Hc in *. rewrite Hcr in Hans. cbn in Hans, Hc'. split.
  - unfold connect, mbind, stm_bind. rewrite E. unfold conn_rx. by rewrite Hans.
  - cbn. unfold connected. rewrite Hc'. by destruct (cmd_queue_closed s').
Qed.
End outcome.

(* ------------------------------------------------------------------ *)
(** ** Concrete instances                                              *)
(* ------------------------------------------------------------------ *)

(** A network on which every host has an IPv6 and an IPv4 address, and a broker
    that accepts the connection or says nothing. *)
Definition sample_net (arrivals : list bytes) : Network SimStream := {|
  lookup_host _ _ := Some (Ok [SocketV6 1 1883; SocketV4 2 1883]);
  socket_new _ := Ok tt;
  socket_connect _ _ := Some (Ok (mkSim arrivals [100%nat] [] []));
  set_nodelay _ := Ok tt
|}.

Definition sample_options : OptionsT unit :=
  set_no_delay (disable_ipv6 (set_username [117] (Options_new [99]))).

Lemma sample_options_ok : options_ok sample_options.
Proof.
  split; [|vm_compute; reflexivity]. unfold ConnectPacket_valid, wire_len_ok, is_u16. cbn. split_and!; lia || done.
Qed.

Section samples.
#[local] Existing Instances production sample_clock sample_clock_ok.

Lemma open_connection_correct_witness :
  exists data, open_connection (R := Empty_set) (H0 := sample_net []) [104] sample_options [] = (Ret data, []) /\
    from_secs 1 <= bd_packet_resend_delay data.
Proof.
  destruct (open_connection_correct (R := Empty_set) (H0 := sample_net []) [104] sample_options [] sample_options_ok)
    as [(data & body & E & _ & _ & _ & Hd)|(e & E & _)].
  - split_and!; reflexivity.
  - exists data. exact (conj E Hd).
  - vm_compute in E. discriminate.
Defined.

(** What the task is started with, and its state after the bootstrap. *)
Definition sample_data (arrivals : list bytes) : TransceiverBuildData (TcpTransport SimStream) :=
  mkBuildData (mkTcpTransport (mkSim arrivals [100%nat] [] []))
    (frame TConnect 0 (ConnectPacket_body (connect_packet sample_options))) (from_secs 30) ClientShared_new (from_secs 1).

Definition sample_spawned (arrivals : list bytes) : SampleTransceiver :=
  let d := sample_data arrivals in
  match spawn (bd_transport d) (bd_connect_packet d) (bd_ping_interval d) (bd_shared d) (bd_packet_resend_delay d) 0
          (mkSimRecipients [] [] []) with
  | Ret s => (bootstrap s).2
  | _ => sample_tr true sample_in
  end.

Lemma sample_started arrivals : started (sample_data arrivals) 0 (mkSimRecipients [] [] []) (sample_spawned arrivals).
Proof. eexists. split; vm_compute; reflexivity. Qed.

Lemma connect_reports_first_answer_witness :
  exists s', connect (R := Empty_set) (H0 := sample_net [[0x20; 2; 1; 0]]) [104] sample_options
    (fun _ => conn_rx (T := TcpTransport SimStream) (X := SimRecipients) false s') []
  = (Ret (mkClientHandle true ClientShared_new), []).
Proof.
  set (s1 := sample_spawned [[0x20; 2; 1; 0]]).
  assert (exists a set s', conn_result a = Ok true /\ run s1 [(InConnAck a, set)] s') as (a & set & s' & Ha & Hr).
  { eexists _, _, _. split; [|eapply run_recv; [vm_compute; reflexivity|exact I|];
      eapply run_handle; [vm_compute; reflexivity|vm_compute; reflexivity|apply run_nil]].
    vm_compute. reflexivity. }
  exists s'.
  destruct (connect_reports_first_answer (R := Empty_set) (H6 := sample_net [[0x20; 2; 1; 0]]) [104] sample_options []
    (sample_data [[0x20; 2; 1; 0]]) 0 (mkSimRecipients [] [] []) s1 [(InConnAck a, set)] s' false sample_options_ok) as [_ E].
  - vm_compute. reflexivity.
  - apply sample_started.
  - exact Hr.
  - rewrite E, Ha. reflexivity.
Defined.

Lemma connect_timeout_leaves_task_witness :
  connect (R := Empty_set) (H0 := sample_net []) [104] sample_options
    (fun _ => conn_rx (T := TcpTransport SimStream) (X := SimRecipients) false (sample_spawned [])) []
  = (Throw (ConnectTimeout MqttConnect), [CDisconnect]) /\
  event_enabled (sample_spawned []) (CommandReceived (Some CDisconnect)) = false.
Proof.
  apply (connect_timeout_leaves_task (R := Empty_set) (H6 := sample_net []) [104] sample_options []
    (sample_data []) 0 (mkSimRecipients [] [] []) (sample_spawned [])).
  - exact sample_options_ok.
  - vm_compute. reflexivity.
  - apply sample_started.
  - apply run_nil.
Defined.
End samples.
