(* ===== verification/Wire.v ===== *)
(** * What the client puts on the wire

    Every byte that the main loop of a task sends belongs to a packet that the
    broker decodes: first the CONNECT packet, then packets other than CONNECT
    and DISCONNECT, and after a regular end one DISCONNECT.
    The invariant is that whatever the transceiver holds to send again is such
    a packet, and stays one when it is marked as a duplicate. *)

From Stdlib Require Import ZArith Lia.
From stdpp Require Import base list numbers gmap.
From S2P Require Import Prelude Base ByteIO Packets PacketProps Transport PacketReader.
From S2P Require Import Subscription Shared Transceiver TransceiverOut TransceiverProps Samples.
From S2P Require Import TransceiverRuns Shutdown Futures Client Connect.

Local Open Scope Z_scope.

(* ------------------------------------------------------------------ *)
(** ** Packets that the broker decodes                                 *)
(* ------------------------------------------------------------------ *)

(** [fr] is one packet on the wire, which the broker decodes to [q]. *)
Definition to_broker (fr : bytes) (q : IncomingBrokerPacket) : Prop :=
  exists t f body, fr = frame t f body /\ 0 <= f < 16 /\ len body < MAX_CONTENT /\
    broker_from_bytes (frame_ctrl t f) body = (Ret q, []).

(** The packets of an established session. *)
Definition in_session (q : IncomingBrokerPacket) : Prop :=
  match q with BrConnect _ | BrDisconnect _ => False | _ => True end.

Definition session_packet (fr : bytes) : Prop := exists q, to_broker fr q /\ in_session q.

(** A sequence of such packets. *)
Definition speaks (out : bytes) : Prop :=
  exists frs qs, out = concat frs /\ Forall2 (fun fr q => to_broker fr q /\ in_session q) frs qs.

Lemma speaks_nil : speaks [].
Proof. exists [], []. by split. Qed.

Lemma speaks_app a b : speaks a -> speaks b -> speaks (a ++ b).
Proof.
  intros (fa & qa & -> & Ha) (fb & qb & -> & Hb). exists (fa ++ fb), (qa ++ qb).
  split; [by rewrite concat_app|by apply Forall2_app].
Qed.

Lemma speaks_packet fr : session_packet fr -> speaks fr.
Proof. intros (q & Hq & Hs). exists [fr], [q]. split; [symmetry; apply app_nil_r|by repeat constructor]. Qed.

Lemma speaks_concat frs : Forall speaks frs -> speaks (concat frs).
Proof. induction 1; [apply speaks_nil|by apply speaks_app]. Qed.

Create HintDb wire.
#[export] Hint Resolve speaks_nil speaks_app speaks_packet speaks_concat : wire.

(** A frame that is decoded by [m] into a packet of a session. *)
Lemma session_frame t f body q : 0 <= f < 16 -> len body < MAX_CONTENT ->
  broker_from_bytes (frame_ctrl t f) body = (Ret q, []) -> in_session q -> session_packet (frame t f body).
Proof. intros. exists q. split; [|done]. by exists t, f, body. Qed.

(** *** Acknowledgements, PINGREQ, SUBSCRIBE and UNSUBSCRIBE *)

Lemma ack_packet (k : SimpleKind) i : is_u16 i -> k <> KUnsubAck -> session_packet (ack_of k i).
Proof.
  intros Hi Hk. assert (exists q, broker_from_bytes (frame_ctrl (simple_type k) (simple_flags k)) (wire_u16 i)
    = (Ret q, []) /\ in_session q) as (q & Hd & Hq); [|by eapply session_frame; [destruct k; cbn; lia| | |]].
  unfold broker_from_bytes, frame_ctrl. rewrite !is_type_ctrl by (destruct k; cbn; lia).
  destruct k; [| | | |done]; eexists; (split; [cbn [simple_type simple_flags]; decide_types; apply reads_end;
    apply (reads_then_ret _ (fun x => _ x)); by apply reads_simple|done]).
Qed.

Lemma ping_packet : session_packet (frame TPingReq 0 []).
Proof. eapply session_frame; [lia|done|vm_compute; reflexivity|done]. Qed.

Lemma sub_session i cmd : is_u16 i -> wire_len_ok (subcmd_topic cmd) -> is_str (subcmd_topic cmd) ->
  session_packet (sub_packet i cmd).
Proof.
  intros Hi Hl Hs. pose proof (wire_bytes_bound _ Hl).
  assert (len (SubscribePacket_body (mkSubscribePacket i [(subcmd_topic cmd, subcmd_qos cmd)])) < MAX_CONTENT) as Hb.
  { unfold SubscribePacket_body, MAX_CONTENT. cbn [sub_topics sub_packet_id fmap list_fmap concat].
    unfold sub_topic_wire. rewrite !length_app, wire_u16_length. cbn [fst snd length]. lia. }
  destruct (subscribe_roundtrip (mkSubscribePacket i [(subcmd_topic cmd, subcmd_qos cmd)])) as [_ Hd]; [done| |done|].
  { apply Forall_singleton. by split. }
  by eapply session_frame; [lia| |exact Hd|].
Qed.

Lemma unsub_session i t : is_u16 i -> wire_len_ok t -> is_str t -> session_packet (unsub_packet i t).
Proof.
  intros Hi Hl Hs. pose proof (wire_bytes_bound _ Hl).
  assert (len (UnsubscribePacket_body (mkUnsubscribePacket i [t])) < MAX_CONTENT) as Hb.
  { unfold UnsubscribePacket_body, MAX_CONTENT. cbn [unsub_topics unsub_packet_id fmap list_fmap concat].
    rewrite !length_app, wire_u16_length. cbn [length]. lia. }
  destruct (unsubscribe_roundtrip (mkUnsubscribePacket i [t])) as [_ Hd]; [done| |done|].
  { apply Forall_singleton. by split. }
  by eapply session_frame; [lia| |exact Hd|].
Qed.

(** *** PUBLISH, with and without the DUP flag *)

(** The packet of a publication. *)
Definition publish_frame (b : bytes) : Prop :=
  exists p, OutgoingPublish_valid p /\ is_str (out_topic p) /\ len (OutgoingPublish_body p) < MAX_CONTENT /\
    b = frame TPublish (flags_byte (out_flags p)) (OutgoingPublish_body p).

Lemma publish_session b : publish_frame b -> session_packet b.
Proof.
  intros (p & Hv & Hs & Hl & ->). destruct (publish_decodes p Hv Hs) as [_ Hd].
  destruct Hv as ((Hf & _) & _). by eapply session_frame.
Qed.

(** The same packet, sent again. *)
Definition as_duplicate (p : OutgoingPublishPacket) : OutgoingPublishPacket :=
  mkOutgoingPublish (mkPublishFlags (Z.lor (flags_byte (out_flags p)) DUP)) (out_topic p) (out_packet_id p) (out_payload p).

Lemma dup_flags f : 0 <= f < 16 ->
  Z.lor (16 * PacketType_as_u8 TPublish + f) DUP = 16 * PacketType_as_u8 TPublish + Z.lor f DUP /\
  0 <= Z.lor f DUP < 16 /\ flags_qos (mkPublishFlags (Z.lor f DUP)) = flags_qos (mkPublishFlags f).
Proof.
  intros Hf. assert (f ∈ seqZ 0 16) as Hin by (apply elem_of_seqZ; lia). revert Hin. clear Hf.
  repeat (rewrite seqZ_cons by lia; rewrite elem_of_cons; intros [->|Hin]; [vm_compute; split_and!; congruence|revert Hin]).
  rewrite seqZ_nil by lia. intros []%not_elem_of_nil.
Qed.

Lemma publish_duplicate b : publish_frame b -> publish_frame (wire b true).
Proof.
  intros (p & ((Hf & Hq) & Hw & Hi) & Hs & Hl & ->). destruct (dup_flags _ Hf) as (Hc & Hr & Hdq).
  assert (OutgoingPublish_body (as_duplicate p) = OutgoingPublish_body p) as Hb.
  { unfold OutgoingPublish_body, publish_id_wire. cbn [out_flags out_topic out_packet_id out_payload as_duplicate].
    rewrite Hdq. by destruct (out_flags p). }
  exists (as_duplicate p). rewrite Hb. split_and!; [|done|done|].
  - split_and!; [|done|done]. split; [exact Hr|]. cbn. rewrite Hdq. by destruct (out_flags p).
  - cbn [wire frame]. by rewrite Hc.
Qed.

(** What is kept to be sent again. *)
Definition held_ok (i : IdType) (b : bytes) : Prop :=
  if decide (ty i = TPublish) then publish_frame b else session_packet b.

Lemma held_session i b : held_ok i b -> session_packet b.
Proof. unfold held_ok. case_decide; [apply publish_session|done]. Qed.

Lemma held_resend i b : held_ok i b -> session_packet (wire b (bool_decide (ty i = TPublish))).
Proof.
  unfold held_ok. case_decide as Ht.
  - rewrite bool_decide_true by done. intros Hb. by apply publish_session, publish_duplicate.
  - rewrite bool_decide_false by done. by rewrite wire_false.
Qed.

#[export] Hint Resolve ping_packet ack_packet publish_session held_session held_resend : wire.

(* ------------------------------------------------------------------ *)
(** ** The steps of the main loop                                      *)
(* ------------------------------------------------------------------ *)

(** What the client promises of its commands: publications are encoded
    messages, and topics are strings that fit. *)
Definition Command_wire (c : Command) : Prop :=
  match c with
  | CPublish cmd => publish_frame (cmd_packet cmd)
  | CSubscribe cmd => wire_len_ok (subcmd_topic cmd) /\ is_str (subcmd_topic cmd)
  | CUnsub cmd => wire_len_ok (unsubcmd_topic cmd) /\ is_str (unsubcmd_topic cmd)
  | CDisconnect => True
  end.

Lemma Command_wire_ok c : Command_wire c -> Command_ok c.
Proof. destruct c; cbn; [by intros (p & _ & _ & _ & ->)|by intros [? _]|by intros [? _]|done]. Qed.

(** The client keeps the promise. *)
Lemma publish_cmd_wire t d q retain sh : shared_ok sh -> wire_len_ok t -> is_str t ->
  len t + len d < MAX_CONTENT - 4 -> Command_wire (CPublish (publish_cmd t d q retain sh)).
Proof.
  intros Hsh Ht Hs Hl. exists (outgoing t d q retain sh).
  split_and!; [by apply outgoing_valid|done|by apply outgoing_length|done].
Qed.

Section wire.
#[local] Existing Instance production.
Context `{ClockOk} {T X : Type} `{TransportOk T} `{RecipientsOk X}.
Implicit Types (s : Transceiver T X) (ps : list Handled).

Definition wire_ok s : Prop :=
  map_Forall held_ok (pending_packets s) /\
  map_Forall (fun _ sub => session_packet (ps_packet sub)) (pending_subs s).

(** A step that sends packets of a session and keeps the invariant. *)
Definition spoken s s' : Prop := wire_ok s' /\ exists out, stream s' = stream s ++ out /\ speaks out.

Lemma spoken_trans s s1 s2 : spoken s s1 -> spoken s1 s2 -> spoken s s2.
Proof.
  intros [_ (o1 & E1 & H1')] [Hw (o2 & E2 & H2')]. split; [done|]. exists (o1 ++ o2).
  rewrite E2, E1, <- (assoc_L (++)). split; [done|]. by apply speaks_app.
Qed.

Lemma spoken_same s s' : wire_ok s -> stream s' = stream s -> pending_packets s' = pending_packets s ->
  pending_subs s' = pending_subs s -> spoken s s'.
Proof.
  intros [Hp Hs] Est Ep Eb. split; [by unfold wire_ok; rewrite Ep, Eb|].
  exists []. rewrite app_nil_r. auto with wire.
Qed.

Lemma msg_id_ok m : IncomingPacket_wf (InPublish m) -> is_u16 (msg_id m).
Proof. intros (_ & _ & (i & Hi & _ & Hid) & _). unfold msg_id. by rewrite Hi. Qed.

Lemma reply_speaks s p : wire_ok s -> IncomingPacket_wf p -> speaks (reply s p).
Proof.
  intros [Hp _] Hwf.
  assert (forall i k j, is_u16 j -> k <> KUnsubAck -> session_packet (default (ack_of k j) (pending_packets s !! i))) as Hd.
  { intros i k j Hj Hk. destruct (pending_packets s !! i) as [b|] eqn:E; cbn; [|by apply ack_packet].
    by apply (held_session i), Hp. }
  destruct p; cbn [reply]; auto with wire.
  pose proof (msg_id_ok p Hwf) as Hi. destruct (msg_qos p) as [[]|]; auto with wire.
Qed.

Lemma pending_after_held s p : wire_ok s -> IncomingPacket_wf p -> map_Forall held_ok (pending_after s p).
Proof.
  intros [Hp _] Hwf.
  assert (forall i k j, ty i <> TPublish -> is_u16 j -> k <> KUnsubAck ->
    map_Forall held_ok (<[i := default (ack_of k j) (pending_packets s !! i)]> (pending_packets s))) as Hins.
  { intros i k j Hi Hj Hk. apply map_Forall_insert_2; [|done].
    destruct (pending_packets s !! i) as [b|] eqn:E; cbn; [by apply Hp|].
    unfold held_ok. rewrite decide_False by done. by apply ack_packet. }
  destruct p; cbn [pending_after]; [done|done| |by apply map_Forall_delete|..|done].
  - pose proof (msg_id_ok p Hwf) as Hi. destruct (msg_qos p) as [[]|]; [done|done| |done]. by apply Hins.
  - apply map_Forall_delete. by apply Hins.
  - by apply map_Forall_delete.
  - by apply map_Forall_delete.
  - by apply map_Forall_delete.
Qed.

(** Handling a packet. *)
Lemma handle_spoken p s b s' : tr_ok s -> wire_ok s -> IncomingPacket_wf p -> process_packet p s = (Ret b, s') -> spoken s s'.
Proof.
  intros Hok Hw Hwf E. destruct (connect_sig s) eqn:Hc.
  { rewrite process_packet_connecting in E by done. injection E as _ <-. by apply spoken_same. }
  assert ((exists a, p = InSubAck a) \/ (forall a, p <> InSubAck a)) as [[a ->]|Hns]
    by (destruct p; [right|left|right..]; by eauto).
  - destruct (wp_run_ret _ _ _ (wp_suback a s Hok Hwf)) as ([] & s1 & Es & Hr).
    unfold process_packet, mbind, stm_bind in E. cbn in E. rewrite Hc, Es in E. injection E as _ <-.
    destruct (suback_reacted_ok _ _ _ Hok Hr) as (_ & _ & Hst & Hp & _).
    assert (pending_subs s1 = pending_subs s \/ pending_subs s1 = delete (suback_packet_id a) (pending_subs s)) as Hps.
    { unfold suback_reacted in Hr. destruct (pending_subs s !! _) as [q|]; [|by left; subst s1].
      destruct (sub_results a) as [[|r rs]| | | |]; [by right; subst s1| |by left; subst s1..].
      right. destruct Hr as (_ & _ & ->). done. }
    destruct Hw as [Hwp Hws]. split; [|exists []; rewrite app_nil_r; auto with wire].
    split; [by rewrite Hp|]. destruct Hps as [-> | ->]; [done|by apply map_Forall_delete].
  - destruct (wp_inv _ _ _ _ _ _ (wp_packet p s Hok Hc Hwf Hns) E) as (_ & _ & _ & Hst & Hp & Hps & _).
    split; [|exists (reply s p); split; [exact Hst|by apply reply_speaks]].
    split; [rewrite Hp; by apply pending_after_held|]. rewrite Hps. apply Hw.
Qed.

(** Taking a command. *)
Lemma command_spoken c s st s' : tr_ok s -> wire_ok s -> event_enabled s (CommandReceived c) = true ->
  (forall cmd, c = Some cmd -> Command_wire cmd) -> on_command c s = (Ret st, s') -> spoken s s'.
Proof.
  intros Hok Hw Hen Hc E. cbn in Hen. rewrite !andb_true_iff in Hen. destruct Hen as [_ Htx].
  apply bool_decide_eq_true in Htx. pose proof (id_range s Hok) as Hid.
  assert (forall cmd, c = Some cmd -> Command_ok cmd) as Hc' by (intros cmd Hcmd; by apply Command_wire_ok, Hc).
  destruct (wp_inv _ _ _ _ _ _ (wp_command c s Hok Htx Hc') E) as (_ & _ & Hd).
  destruct c as [[cmd|cmd|cmd|]|]; cbn [command_done] in Hd; try specialize (Hc _ eq_refl); cbn in Hc.
  - destruct Hd as (_ & Hst & Hse & Hp). apply session_eq in Hse as (Hps & _).
    split; [|exists (cmd_packet cmd); auto with wire]. split; [|rewrite Hps; apply Hw].
    rewrite Hp. case_decide; [apply Hw|]. apply map_Forall_insert_2; [|apply Hw]. exact Hc.
  - destruct Hc as [Hl Hs]. destruct Hd as [_ Hd]. destruct Hd as [Hv|set' sub' f Hsub Hadd Himp|s1 i _ Hst Hps _ Hp _ _ _ _].
    + by apply spoken_same.
    + by apply spoken_same.
    + split; [|exists (sub_packet i cmd); split; [exact Hst|by apply speaks_packet, sub_session]].
      split; [rewrite Hp; apply Hw|]. rewrite Hps. apply map_Forall_insert_2; [by apply sub_session|apply Hw].
  - destruct Hc as [Hl Hs]. destruct Hd as [_ Hd].
    destruct Hd as [j set' f _ _|set' _ _ _|s1 f i _ _ _ Hst Hp _ Hps _ _].
    + by apply spoken_same.
    + by apply spoken_same.
    + split; [|exists (unsub_packet i (unsubcmd_topic cmd)); split; [exact Hst|by apply speaks_packet, unsub_session]].
      split; [|rewrite Hps; apply Hw]. rewrite Hp. apply map_Forall_insert_2; [|apply Hw]. by apply unsub_session.
  - destruct Hd as [_ ->]. by apply spoken_same.
  - destruct Hd as [_ ->]. by apply spoken_same.
Qed.

(** The alarm. *)
Lemma resend_speaks s i : wire_ok s -> speaks (resend_wire s i).
Proof.
  intros [Hp Hs]. unfold resend_wire. destruct (unanswered s i) as [b|] eqn:E; [|auto with wire].
  rewrite <- wire_again. apply speaks_packet. unfold unanswered in E. destruct (decide (ty i = TSubscribe)) as [Ht|Ht].
  - rewrite Ht in E |- *. apply fmap_Some in E as (sub & Esub & ->). rewrite wire_false. exact (Hs _ _ Esub).
  - apply held_resend, Hp. by destruct (ty i).
Qed.

Lemma alarm_speaks s k : tr_ok s -> wire_ok s -> speaks (ping_due s ++ concat (resend_wire s <$> take k (timeout_ids s))).
Proof.
  intros Hok Hw. apply speaks_app.
  - unfold ping_due. case_match; [|auto with wire]. destruct Hok as (_ & _ & _ & _ & _ & _ & ->). auto with wire.
  - apply speaks_concat, Forall_fmap, Forall_forall. intros i _. by apply resend_speaks.
Qed.

Lemma alarm_spoken s st s' : tr_ok s -> wire_ok s -> on_alarm s = (Ret st, s') -> spoken s s'.
Proof.
  intros Hok Hw E. destruct (wp_inv _ _ _ _ _ _ (wp_any_alarm s Hok) E) as (_ & [Ha| ->]); [|by apply spoken_same].
  destruct Ha as (_ & _ & Hse & Hp & k & Hst & _). apply session_eq in Hse as (Hps & _).
  split; [by unfold wire_ok; rewrite Hp, Hps|]. eexists. split; [exact Hst|]. by apply alarm_speaks.
Qed.

Lemma out_spoken s s' : wire_ok s -> out_frame s s' -> stream s' = stream s -> spoken s s'.
Proof. intros Hw Hf Hst. destruct (out_frame_fields s s' Hf) as (E1 & E2 & _). by apply spoken_same. Qed.

Lemma run_spoken s ps s' : tr_ok s -> wire_ok s -> run_of Command_wire s ps s' -> spoken s s'.
Proof.
  intros Hok Hw Hrun. induction Hrun as [s|s o rt ps s' E _ _ IH|s rt p b s1 ps s' E Ep _ IH|s r st s1 ps s' E _ IH
    |s b s1 ps s' E _ IH|s c st s1 ps s' Hen Hc E _ IH|s st s1 ps s' E _ IH|s sh ps s' Hsh _ IH].
  - by apply spoken_same.
  - destruct (recv_ok s _ _ Hok E) as (Hok1 & Hst & _). apply (spoken_trans _ (with_reader rt s)); [by apply spoken_same|].
    by apply IH.
  - destruct (recv_ok s _ _ Hok E) as (Hok1 & Hst & Hwf & _). specialize (Hwf _ eq_refl).
    assert (spoken s (with_reader rt s)) as Hr by (by apply spoken_same).
    pose proof (handle_spoken p _ _ _ Hok1 (proj1 Hr) Hwf Ep) as Hh.
    apply (spoken_trans _ _ _ (spoken_trans _ _ _ Hr Hh)), IH; [|apply Hh]. by eapply handle_ok.
  - pose proof (quiet_write _ _ _ _ Hok E) as Hq. assert (tx_ok s) as Htx by (destruct Hok as (_ & _ & ? & _); assumption).
    destruct (wp_inv _ _ _ _ _ _ (wp_write_ready r s Htx) E) as (Hf & _ & Hst & _).
    pose proof (out_spoken _ _ Hw Hf Hst) as Hs. exact (spoken_trans _ _ _ Hs (IH (proj1 Hq) (proj1 Hs))).
  - pose proof (quiet_pre_read _ _ _ Hok E) as Hq.
    destruct (io_only_frame s s1 (wp_inv _ _ _ _ _ _ (wp_pre_read s) E)) as (Hf & Hst & _).
    pose proof (out_spoken _ _ Hw Hf Hst) as Hs. exact (spoken_trans _ _ _ Hs (IH (proj1 Hq) (proj1 Hs))).
  - assert (forall cmd, c = Some cmd -> Command_ok cmd) as Hc' by (intros cmd Hcmd; by apply Command_wire_ok, Hc).
    pose proof (quiet_command _ _ _ _ Hok Hen Hc' E) as Hq. pose proof (command_spoken _ _ _ _ Hok Hw Hen Hc E) as Hs.
    exact (spoken_trans _ _ _ Hs (IH (proj1 Hq) (proj1 Hs))).
  - pose proof (quiet_alarm _ _ _ Hok E) as Hq. pose proof (alarm_spoken _ _ _ Hok Hw E) as Hs.
    exact (spoken_trans _ _ _ Hs (IH (proj1 Hq) (proj1 Hs))).
  - pose proof (quiet_client _ _ Hok Hsh) as Hq. assert (spoken s (with_shared sh s)) as Hs by (by apply spoken_same).
    exact (spoken_trans _ _ _ Hs (IH (proj1 Hq) (proj1 Hs))).
Qed.

(** What a step that fails was about to send. *)
Lemma sending_speaks s out : tr_ok s -> wire_ok s -> sending Command_wire s out -> speaks out.
Proof.
  intros Hok Hw. pose proof (id_range s Hok) as Hid.
  destruct 1 as [|p Hwf|cmd Hc|k]; [auto with wire|by apply reply_speaks| |by apply alarm_speaks].
  destruct cmd as [cmd|cmd|cmd|]; cbn in Hc |- *; [auto with wire|destruct Hc..|auto with wire].
  - by apply speaks_packet, sub_session.
  - by apply speaks_packet, unsub_session.
Qed.

Lemma fails_spoken s e s' : tr_ok s -> wire_ok s -> fails Command_wire s e s' ->
  exists out, speaks out /\ sent_prefix (stream s ++ out) s'.
Proof.
  intros Hok Hw Hf. destruct (fails_post Command_wire s e s' Command_wire_ok Hok Hf) as (_ & out & Hs & Hp).
  exists out. split; [by apply (sending_speaks s)|done].
Qed.
End wire.

(* ------------------------------------------------------------------ *)
(** ** A whole connection                                              *)
(* ------------------------------------------------------------------ *)

Section connection.
#[local] Existing Instance production.
Context {C S N R : Type} `{ClockOk} {T X : Type} `{TransportOk T} `{RecipientsOk X}.
Context `{ConnectionConfig C S N T R} `{Network S}.
Implicit Types (s : Transceiver T X) (ps : list Handled).

(** C15: Everything that the main loop of a started task sends, up to any
    moment and whatever the broker, the transport and other tasks do, is a
    sequence of packets that the broker decodes: first the CONNECT packet with
    the options of the client, then packets that are neither CONNECT nor
    DISCONNECT; what has been handed to the transport is a prefix of it. A step
    that fails still leaves a prefix of such a sequence. If the loop ends
    without an error, the disconnection adds nothing but one DISCONNECT at the
    end, or a part of it. (After an error the DISCONNECT may follow a packet
    that is not complete, see [failed_resend_then_disconnect].) *)
Theorem connection_speaks_mqtt host (o : OptionsT C) q data clk (x : X) s1 ps s' :
  options_ok o -> ConnectPacket_strs (connect_packet o) -> open_connection host o q = (Ret data, q) ->
  started data clk x s1 -> run_of Command_wire s1 ps s' ->
  exists frs qs, let said := sent (bd_transport data) ++ concat frs in
    Forall2 to_broker frs (BrConnect (connect_packet o) :: qs) /\ Forall in_session qs /\
    sent (transport s') ++ pending_out s' = said /\
    (forall e s'', fails Command_wire s' e s'' -> exists more, speaks more /\ sent_prefix (said ++ more) s'') /\
    (forall evs1 evs2, exists r s'', disconnect_sequence evs1 evs2 s' = (Ret r, s'') /\
       sent_prefix (said ++ disconnect_bytes) s'').
Proof.
  intros Ho Hstr E Hs Hr. destruct (wp_inv _ _ _ _ _ _ (wp_open host o q Ho) E) as [_ (conn & addrs & addr & st & _ & _ & _ & _ & _ & Ed)].
  destruct (started_ok data clk x s1) as (Hok & _ & _ & Hst & Hp & Hps); [by rewrite Ed; apply shared_ok_new|by rewrite Ed|done|].
  destruct (run_spoken s1 ps s' Hok) as (Hw & out & Hout & frs & qs & -> & Hfq); [|done|].
  { split; [rewrite Hp|rewrite Hps]; apply map_Forall_empty. }
  assert (tr_ok s') as Hok' by (eapply run_ok; [exact Hok|eapply run_weaken; [exact Command_wire_ok|exact Hr]]).
  assert (stream s' = sent (bd_transport data) ++ concat (frame TConnect 0 (ConnectPacket_body (connect_packet o)) :: frs)) as Hsaid.
  { rewrite Hout, Hst, Ed. cbn [bd_connect_packet concat]. by rewrite <- (assoc_L (++)). }
  exists (frame TConnect 0 (ConnectPacket_body (connect_packet o)) :: frs), qs. cbv zeta. rewrite <- Hsaid. split_and!.
  - constructor; [|by eapply Forall2_impl; [exact Hfq|by intros ? ? [? _]]].
    exists TConnect, 0, (ConnectPacket_body (connect_packet o)). split_and!; [done|lia|lia|apply Ho|].
    by apply connect_decodes; [apply Ho| |apply Ho].
  - eapply Forall2_Forall_r; [exact Hfq|]. apply Forall_forall. by intros fr _ q' [_ ?].
  - done.
  - intros e s''. by apply fails_spoken.
  - intros evs1 evs2. destruct (wp_run_ret _ _ _ (wp_disconnect evs1 evs2 s' (tr_ok_weak _ Hok'))) as (r & s'' & Ed' & _ & Hpre).
    exists r, s''. split; [done|]. by rewrite <- disconnect_stream_ok.
Qed.
End connection.

Section samples.
#[local] Existing Instances production sample_clock sample_clock_ok.

Abbreviation answered_tr := (sample_spawned [[0x20; 2; 1; 0]]).
Definition sample_command : Command := CPublish (publish_cmd [97] [120] AtLeastOnce false ClientShared_new).

(** The broker accepts the connection, and the client publishes a message. *)
Lemma sample_session : exists ps s', run_of Command_wire answered_tr ps s' /\
  length (sent (transport s') ++ pending_out s') = 26%nat.
Proof.
  eexists _, _. split.
  - eapply run_recv; [vm_compute; reflexivity|exact I|].
    eapply run_handle; [vm_compute; reflexivity|vm_compute; reflexivity|].
    eapply (run_command _ _ (Some sample_command)); [vm_compute; reflexivity| |vm_compute; reflexivity|apply run_nil].
    intros cmd [= <-]. apply publish_cmd_wire; [exact shared_ok_new|exact sample_topic|reflexivity|reflexivity].
  - vm_compute. reflexivity.
Qed.

Lemma connection_speaks_mqtt_witness :
  exists frs qs, Forall2 to_broker frs (BrConnect (connect_packet sample_options) :: qs) /\
    Forall in_session qs /\ length (concat frs) = 26%nat /\
    exists ps s' r s'', run_of Command_wire answered_tr ps s' /\
      disconnect_sequence [FWrite (Ok tt)] [] s' = (Ret r, s'') /\ sent_prefix (concat frs ++ disconnect_bytes) s''.
Proof.
  destruct sample_session as (ps & s' & Hr & Hl).
  destruct (connection_speaks_mqtt (R := Empty_set) (H6 := sample_net [[0x20; 2; 1; 0]]) [104] sample_options []
    (sample_data [[0x20; 2; 1; 0]]) 0 (mkSimRecipients [] [] []) answered_tr ps s') as (frs & qs & Hf & Hs & E & _ & Hd).
  - exact sample_options_ok.
  - split_and!; reflexivity.
  - vm_compute. reflexivity.
  - apply sample_started.
  - exact Hr.
  - exists frs, qs. rewrite E in Hl. refine (conj Hf (conj Hs (conj Hl _))).
    destruct (Hd [FWrite (Ok tt)] []) as (r & s'' & Er & Hpre). exists ps, s', r, s''. exact (conj Hr (conj Er Hpre)).
Defined.
End samples.
