(* ===== verification/Discipline.v ===== *)
(** * What a task may do to the shared state

    A discipline that every method of the client obeys between any two of its
    steps: a task only touches the notifier entries of the packet ID it has
    taken, holds the future of an entry as long as the entry is its own, gives
    up the entry when it is gone, sends only commands that the transceiver can
    handle, and never panics, except in the polling of a subscription. It is
    stated once as a predicate on programs, closed under sequencing. *)

From Stdlib Require Import ZArith Lia.
From stdpp Require Import base list numbers gmap.
From S2P Require Import Prelude Base ByteIO Packets PacketProps Transport PacketReader.
From S2P Require Import Subscription Shared Transceiver TransceiverOut TransceiverProps Samples.
From S2P Require Import TransceiverRuns Shutdown Futures Client Connect Wire.

Local Open Scope Z_scope.

(** An entry in the map of a stage: waiting for its answer, or failed by the
    transceiver at its end. *)
Inductive Entry : Type := Waiting (k : Stage) | FailedEntry (k : Stage).

(** What a task has taken: nothing, or a packet ID, and perhaps an entry. *)
Abbreviation Own := (option (Z * option Entry)).

(** How a step changes the notifier maps and what its task owns. *)
Inductive owns : Own -> Own -> ClientShared -> ClientShared -> Prop :=
| own_same o sh sh' :
    (forall k, access_notifier_map k sh' = access_notifier_map k sh) ->
    next_packet_id sh' = next_packet_id sh -> owns o o sh sh'
| own_fetch sh sh' :
    (forall k, access_notifier_map k sh' = access_notifier_map k sh) ->
    next_packet_id sh' = wrap16 (next_packet_id sh + 1) -> owns None (Some (next_packet_id sh, None)) sh sh'
| own_register i k sh :
    owns (Some (i, None)) (Some (i, Some (Waiting k))) sh
      (set_notifier_map k (<[i := WithoutWaker]> (access_notifier_map k sh)) sh)
| own_drop i k sh :
    owns (Some (i, Some (Waiting k))) (Some (i, None)) sh
      (set_notifier_map k (delete i (access_notifier_map k sh)) sh).

(** The future that belongs to an entry. *)
Definition held_by (o : Own) (f : PublishFuture) : Prop :=
  o = Some (fut_packet_id f, Some (Waiting (fut_notifier f))) /\ fut_result f = None.

(** A task without an entry. *)
Definition no_entry (o : Own) : Prop := match o with Some (_, Some _) => False | _ => True end.

Section discipline.
Context {Q : Type} `{CommandQueueOk Q}.
Implicit Types (wd : World Q) (w : Waker) (o : Own).

(** [tame R o p]: a task that owns [o] can run [p], which ends, if it does, in
    an [a] and owning an [o'] with [R o' a]. A wait for an acknowledgement ends
    with [false] when the entry is gone, and with [true] when the transceiver
    has failed it, and then the entry stays ([poll_ends]). *)
Fixpoint tame {A} (R : Own -> A -> Prop) o (p : prog Q A) : Prop :=
  match p with
  | Done a => R o a
  | Act m => forall wd, shared_ok (w_shared wd) ->
    match m wd with
    | (Ret p', wd') =>
      shared_ok (w_shared wd') /\
      (exists cs, enqueued (w_queue wd') = enqueued (w_queue wd) ++ cs /\ Forall Command_wire cs) /\
      exists o', owns o o' (w_shared wd) (w_shared wd') /\ tame R o' p'
    | _ => False
    end
  | SendCmd c held k =>
    Command_wire c /\ match held with Some f => held_by o f | None => no_entry o end /\ forall r, tame R o (k r)
  | AwaitPublish f k =>
    held_by o f /\ tame R (Some (fut_packet_id f, None)) (k false) /\
    tame R (Some (fut_packet_id f, Some (FailedEntry (fut_notifier f)))) (k true)
  | AwaitSub f k => no_entry o /\ sf_result f = None /\ forall r, tame R o (k r)
  end.

(** What ends the wait for an acknowledgement leaves the shared state alone; the
    entry is gone, or failed. *)
Lemma poll_ends {E} w f b f' sh sh' : fut_result f = None ->
  PublishFuture_poll (E := E) w (f, sh) = (Ret (Ready b), (f', sh')) ->
  sh' = sh /\ fut_result f' = Some b /\
  access_notifier_map (fut_notifier f) sh !! fut_packet_id f = if b then Some Failed else None.
Proof.
  intros Hr. unfold PublishFuture_poll, mbind, stm_bind. cbn. rewrite Hr.
  destruct (access_notifier_map _ _ !! _) as [[| |]|]; cbn; intros [= <- <- <-]; done.
Qed.

(** Induction on programs, through what their steps return. *)
Lemma prog_induction {A} (P : prog Q A -> Prop) :
  (forall a, P (Done a)) ->
  (forall m, (forall wd p wd', m wd = (Ret p, wd') -> P p) -> P (Act m)) ->
  (forall c held k, (forall r, P (k r)) -> P (SendCmd c held k)) ->
  (forall f k, (forall r, P (k r)) -> P (AwaitPublish f k)) ->
  (forall f k, (forall r, P (k r)) -> P (AwaitSub f k)) -> forall p, P p.
Proof.
  intros HD HA HS HP HW. fix IH 1. intros [a|m|c held k|f k|f k].
  - apply HD.
  - apply HA. intros wd p wd'. destruct (m wd) as [[p1|e| | |] wd1]; intros [= <- <-]. apply IH.
  - apply HS. intros r. apply IH.
  - apply HP. intros r. apply IH.
  - apply HW. intros r. apply IH.
Qed.

Lemma tame_bind {A B} (R : Own -> B -> Prop) o (p : prog Q A) (k : A -> prog Q B) :
  tame (fun o a => tame R o (k a)) o p -> tame R o (p ≫= k).
Proof.
  unfold mbind, prog_mbind. revert o.
  induction p as [a|m IH|c held k' IH|f k' IH|f k' IH] using prog_induction; intros o; cbn.
  - done.
  - intros Hm wd Hsh. specialize (Hm wd Hsh). destruct (m wd) as [[p'|e| | |] wd'] eqn:E; try done.
    destruct Hm as (Hs & Hq & o' & Ho & Hp). split_and!; [done|done|]. exists o'. split; [done|]. by eapply IH.
  - intros (Hc & Hh & Hk). split_and!; [done|done|]. intros r. by apply IH.
  - intros (Hf & Hk & Hk'). split_and!; [done|by apply IH..].
  - intros (Ho & Hf & Hk). split_and!; [done|done|]. intros r. by apply IH.
Qed.

Lemma tame_mono {A} (R R' : Own -> A -> Prop) o (p : prog Q A) :
  (forall o a, R o a -> R' o a) -> tame R o p -> tame R' o p.
Proof.
  intros HR. revert o. induction p as [a|m IH|c held k IH|f k IH|f k IH] using prog_induction; intros o; cbn.
  - apply HR.
  - intros Hm wd Hsh. specialize (Hm wd Hsh). destruct (m wd) as [[p'|e| | |] wd'] eqn:E; try done.
    destruct Hm as (Hs & Hq & o' & Ho & Hp). split_and!; [done|done|]. exists o'. split; [done|]. by eapply IH.
  - intros (Hc & Hh & Hk). split_and!; [done|done|]. intros r. by apply IH.
  - intros (Hf & Hk & Hk'). split_and!; [done|by apply IH..].
  - intros (Ho & Hf & Hk). split_and!; [done|done|]. intros r. by apply IH.
Qed.

(** A method's end: it has no entry, but one that the transceiver has failed, and
    then its answer is [err]. *)
Definition returns {A} (err : A) o (a : A) : Prop :=
  match o with
  | Some (_, Some (Waiting _)) => False
  | Some (_, Some (FailedEntry _)) => a = err
  | _ => True
  end.

Lemma no_entry_returns {A} (err : A) o a : no_entry o -> returns err o a.
Proof. by destruct o as [[i [e|]]|]. Qed.

(** A single step on the shared state. *)
Lemma tame_shared {A} (R : Own -> A -> Prop) o (m : stm ClientShared Empty_set A) :
  (forall sh, shared_ok sh -> exists a sh' o', m sh = (Ret a, sh') /\ shared_ok sh' /\ owns o o' sh sh' /\ R o' a) ->
  tame R o (act (in_shared m)).
Proof.
  intros Hm wd Hsh. destruct (Hm _ Hsh) as (a & sh' & o' & E & Hs & Ho & HR).
  unfold in_shared, zoom, mbind, stm_bind. rewrite E. split_and!; [done| |by exists o'].
  exists []. by rewrite app_nil_r.
Qed.

Lemma tame_send (R : Own -> result unit unit -> Prop) o c held : Command_wire c ->
  match held with Some f => held_by o f | None => no_entry o end -> (forall r, R o r) -> tame R o (send_cmd c held).
Proof. done. Qed.

(** A step that leaves the world alone, but for the counter of callbacks. *)
Lemma tame_pure {A} (R : Own -> A -> Prop) o (m : stm (World Q) Empty_set A) :
  (forall wd, exists a n, m wd = (Ret a, with_w_shared (set_next_callback_id (wrap32 n) (w_shared wd)) wd) \/ m wd = (Ret a, wd)) ->
  (forall a, R o a) -> tame R o (act m).
Proof.
  intros Hm HR wd Hsh. destruct (Hm wd) as (a & n & [E|E]); unfold mbind, stm_bind; rewrite E; cbn.
  all: split_and!; [| |exists o; split; [by apply own_same; [intros []|]|apply HR]].
  - destruct Hsh. split; [done|apply wrap32_ok].
  - exists []. by rewrite app_nil_r.
  - done.
  - exists []. by rewrite app_nil_r.
Qed.
End discipline.

(* ------------------------------------------------------------------ *)
(** ** The methods                                                     *)
(* ------------------------------------------------------------------ *)

(** The calls that the user of a client can make. *)
Inductive Call : Type :=
| CallTryPublish (topic : str) (payload : bytes) (qos : QoS) (retain : bool)
| CallPublishNoWait (topic : str) (payload : bytes) (qos : QoS) (retain : bool)
| CallPublishQos0 (topic : str) (payload : bytes) (retain : bool)
| CallPublishQos1 (topic : str) (payload : bytes) (retain await_ack : bool)
| CallPublishQos2 (topic : str) (payload : bytes) (retain : bool) (await_event : PublishEvent)
| CallSubscribeVoid (topic : str) (qos_hint : QoS)
| CallSubscribeLossy (topic : str) (qos_hint : QoS) (queue_cap : usize) (tx rx : Sender)
| CallSubscribeUnbounded (topic : str) (qos_hint : QoS) (tx rx : UnboundedSender)
| CallSubscribeFastCallback (topic : str) (qos_hint : QoS) (callback : Closure)
| CallGetSubscriptionStatus (topic : str)
| CallUnsubscribe (topic : str)
| CallRemoveCallback (c : Callback)
| CallDisconnect.

Inductive Answer : Type :=
| AnsPublish (r : result unit PublishError)
| AnsTryPublish (r : result unit TryPublishError)
| AnsSubscribeVoid (r : result QoS SubscribeError)
| AnsSubscribeLossy (r : result (Sender * QoS) SubscribeError)
| AnsSubscribeUnbounded (r : result (UnboundedSender * QoS) SubscribeError)
| AnsSubscribeCallback (r : result (Callback * QoS) SubscribeError)
| AnsStatus (r : SubscriptionStatus)
| AnsUnit.

Definition run_call {Q} `{CommandQueue Q} (c : Call) : prog Q Answer :=
  match c with
  | CallTryPublish t d q r => x ← act (try_publish t d q r); mret (AnsTryPublish x)
  | CallPublishNoWait t d q r => x ← publish_no_wait t d q r; mret (AnsPublish x)
  | CallPublishQos0 t d r => x ← publish_qos_0 t d r; mret (AnsPublish x)
  | CallPublishQos1 t d r a => x ← publish_qos_1 t d r a; mret (AnsPublish x)
  | CallPublishQos2 t d r e => x ← publish_qos_2 t d r e; mret (AnsPublish x)
  | CallSubscribeVoid t q => x ← subscribe_void t q; mret (AnsSubscribeVoid x)
  | CallSubscribeLossy t q cap tx rx => x ← subscribe_lossy t q cap tx rx; mret (AnsSubscribeLossy x)
  | CallSubscribeUnbounded t q tx rx => x ← subscribe_unbounded t q tx rx; mret (AnsSubscribeUnbounded x)
  | CallSubscribeFastCallback t q cb => x ← subscribe_fast_callback t q cb; mret (AnsSubscribeCallback x)
  | CallGetSubscriptionStatus t => x ← act (get_subscription_status t); mret (AnsStatus x)
  | CallUnsubscribe t => unsubscribe t;; mret AnsUnit
  | CallRemoveCallback c => remove_callback c;; mret AnsUnit
  | CallDisconnect => disconnect;; mret AnsUnit
  end.

(** What the user promises: topics are strings whose length fits, messages fit
    in a packet, and queues have room, no more than tokio allows. *)
Definition topic_ok (t : str) : Prop := wire_len_ok t /\ is_str t.
Definition message_ok (t : str) (d : bytes) : Prop := topic_ok t /\ len t + len d < MAX_CONTENT - 4.

Definition Call_ok (c : Call) : Prop :=
  match c with
  | CallTryPublish t d _ _ | CallPublishNoWait t d _ _ | CallPublishQos0 t d _
  | CallPublishQos1 t d _ _ | CallPublishQos2 t d _ _ => message_ok t d
  | CallSubscribeLossy t _ cap _ _ => topic_ok t /\ 0 < cap <= MAX_PERMITS
  | CallSubscribeVoid t _ | CallSubscribeUnbounded t _ _ _ | CallSubscribeFastCallback t _ _
  | CallUnsubscribe t => topic_ok t
  | CallRemoveCallback c => topic_ok (callback_topic c)
  | CallGetSubscriptionStatus _ | CallDisconnect => True
  end.

Section methods.
Context {Q : Type} `{CommandQueueOk Q}.
Implicit Types (o : Own).

Lemma publish_shared_ok q sh : shared_ok sh -> shared_ok (publish_shared q sh).
Proof. intros [H1 H2]. unfold publish_shared. case_decide; [done|]. split; [apply wrap16_ok|done]. Qed.

Lemma publish_owns q sh : owns None (if decide (q = AtMostOnce) then None else Some (publish_id q sh, None)) sh (publish_shared q sh).
Proof.
  unfold publish_shared, publish_id. case_decide; [by apply own_same|]. by apply own_fetch; [intros []|].
Qed.

(** Building a publish command takes an ID, above QoS 0. *)
Lemma tame_make_publish (R : Own -> PublishCommand -> Prop) t d q retain : message_ok t d ->
  (forall i cmd, cmd_packet_id cmd = i -> Command_wire (CPublish cmd) ->
     R (if decide (q = AtMostOnce) then None else Some (i, None)) cmd) ->
  tame (Q := Q) R None (act (in_shared (make_publish_cmd t d q retain))).
Proof.
  intros [[Ht Hs] Hl] HR. apply tame_shared. intros sh Hsh. eexists _, _, _. split_and!.
  - by apply make_publish_cmd_run.
  - by apply publish_shared_ok.
  - apply publish_owns.
  - apply HR; [done|]. by apply publish_cmd_wire.
Qed.

Lemma tame_ret {A} (R : Own -> A -> Prop) o (a : A) : R o a -> tame (Q := Q) R o (mret a).
Proof. done. Qed.

(** The answer to a publication that failed. *)
Abbreviation terminated := (Err PublishTaskTerminated).

(** Registering, sending and waiting. *)
Lemma tame_publish_and_wait cmd stage : Command_wire (CPublish cmd) ->
  tame (Q := Q) (returns terminated) (Some (cmd_packet_id cmd, None)) (publish_and_wait cmd stage).
Proof.
  intros Hc. unfold publish_and_wait. destruct stage as [k|]; apply tame_bind.
  - apply tame_bind, tame_shared. intros sh Hsh. eexists _, _, _. split_and!;
      [reflexivity|by apply set_notifier_ok|apply own_register|].
    apply tame_ret, tame_bind, tame_send; [done|done|]. intros [[]|[]]; apply tame_bind.
    + by split_and!.
    + apply tame_shared. intros sh' Hsh'. eexists _, _, _. split_and!;
        [reflexivity|by apply set_notifier_ok|apply own_drop|done].
  - apply tame_ret, tame_bind, tame_send; [done|done|]. by intros [[]|[]].
Qed.

Lemma tame_publish t d q retain (k : PublishCommand -> prog Q (result unit PublishError)) : message_ok t d ->
  (forall cmd, Command_wire (CPublish cmd) ->
     tame (returns terminated) (if decide (q = AtMostOnce) then None else Some (cmd_packet_id cmd, None)) (k cmd)) ->
  tame (returns terminated) None (act (in_shared (make_publish_cmd t d q retain)) ≫= k).
Proof. intros Hm Hk. apply tame_bind, tame_make_publish; [done|]. intros i cmd <- Hc. by apply Hk. Qed.

Lemma tame_try_publish t d q retain : message_ok t d ->
  tame (Q := Q) (fun o _ => no_entry o) None (act (try_publish t d q retain)).
Proof.
  intros [[Ht Hs] Hl] wd Hsh. unfold try_publish, in_shared, zoom, mbind, stm_bind. rewrite make_publish_cmd_run by done.
  cbn. destruct (cq_try_send _ _) as [r q'] eqn:E. apply cq_try_send_ok in E as (He & _). cbn. split_and!.
  - by apply publish_shared_ok.
  - eexists. split; [exact He|]. destruct r; repeat constructor. by apply publish_cmd_wire.
  - eexists. split; [apply publish_owns|]. by case_decide.
Qed.

Lemma tame_finish_subscribe {R} t q (func : stm (World Q) Empty_set (R * SubscriptionKind)) actual_qos :
  topic_ok t -> tame (fun o _ => o = None) None (act func) ->
  tame (fun o _ => no_entry o) None (finish_subscribe t q func actual_qos).
Proof.
  intros Ht Hf. unfold finish_subscribe. apply tame_bind. eapply tame_mono; [|exact Hf]. cbn beta. intros o rk ->.
  apply tame_bind, tame_send; [done|done|]. intros [[]|[]]; [|done]. destruct actual_qos; [done|].
  apply tame_bind. split_and!; [done|done|]. by intros [|[]].
Qed.

Lemma tame_subscribe {R} t q (func : stm (World Q) Empty_set (R * SubscriptionKind)) :
  topic_ok t -> tame (fun o _ => o = None) None (act func) ->
  tame (fun o _ => no_entry o) None (subscribe t q func).
Proof.
  intros Ht Hf. unfold subscribe. apply tame_bind, tame_shared. intros sh Hsh.
  assert (forall wt, tame (fun o _ => no_entry o) None
    match wt with
    | DontWait x => finish_subscribe t q func (Some x)
    | Before => r ← await_sub (SubscribeFuture_new t);
        match r with Ok x => finish_subscribe t q func (Some x) | Err _ => mret (Err RefusedByBroker) end
    | After => finish_subscribe t q func None
    end) as Hk.
  { intros [x| |]; try by apply tame_finish_subscribe.
    apply tame_bind. split_and!; [done|done|]. intros [x|[]]; [by apply tame_finish_subscribe|done]. }
  unfold begin_subscribe, mbind, stm_bind. cbn.
  destruct (subs sh !! t) as [[x|ws]|]; eexists _, _, None; (split_and!; [reflexivity|done|by apply own_same; [intros []|]|apply Hk]).
Qed.

Lemma tame_topic_command (c : Command) : Command_wire c ->
  tame (Q := Q) (fun o (_ : unit) => no_entry o) None (send_cmd c None;; mret tt).
Proof. intros Hc. apply tame_bind, tame_send; [done|done|]. done. Qed.

(** The answer of a call that has left its entry behind. *)
Definition entry_failed : Answer := AnsPublish terminated.

Lemma tame_answer {A} (g : A -> Answer) (p : prog Q A) :
  tame (fun o _ => no_entry o) None p -> tame (returns entry_failed) None (x ← p; mret (g x)).
Proof. intros Hp. apply tame_bind. eapply tame_mono; [|exact Hp]. intros o a. apply no_entry_returns. Qed.

Lemma tame_answer_publish (p : prog Q (result unit PublishError)) :
  tame (returns terminated) None p -> tame (returns entry_failed) None (x ← p; mret (AnsPublish x)).
Proof. intros Hp. apply tame_bind. eapply tame_mono; [|exact Hp]. intros [[i [[k|k]|]]|] a; cbn; [done|by intros ->|done|done]. Qed.

Lemma call_tame c : Call_ok c -> tame (Q := Q) (returns entry_failed) None (run_call c).
Proof.
  destruct c as [t d q r|t d q r|t d r|t d r a|t d r e|t q|t q cap tx rx|t q tx rx|t q cb|t|t|c|]; cbn [Call_ok run_call];
    intros Hc; first [apply tame_answer_publish|apply tame_answer|idtac].
  - by apply tame_try_publish.
  - apply tame_publish; [done|]. intros cmd Hw. apply tame_bind, tame_send; [done|by case_decide|].
    intros []; by case_decide.
  - apply tame_publish; [done|]. intros cmd Hw. apply tame_bind, tame_send; [done|done|]. by intros [].
  - apply tame_publish; [done|]. intros cmd Hw. by apply tame_publish_and_wait.
  - apply tame_publish; [done|]. intros cmd Hw. by apply tame_publish_and_wait.
  - apply tame_bind, tame_subscribe; [done|]. apply tame_pure; [|done]. intros wd. eexists _, 0. by right.
  - destruct Hc as [Ht [Hcap%Z.ltb_lt Hmax%Z.leb_le]]. apply tame_subscribe; [done|]. apply tame_pure; [|done].
    intros wd. eexists _, 0. right. unfold assert_. by rewrite Hcap, Hmax.
  - apply tame_subscribe; [done|]. apply tame_pure; [|done]. intros wd. eexists _, 0. by right.
  - apply tame_bind, tame_subscribe; [done|]. apply tame_pure; [|done].
    intros wd. eexists _, _. left. reflexivity.
  - apply tame_pure; [|done]. intros wd. eexists _, 0. by right.
  - by apply tame_topic_command.
  - by apply tame_topic_command.
  - by apply tame_topic_command.
Qed.

End methods.

