(* ===== verification/System.v ===== *)
(** * The whole system

    Any number of tasks that call the methods of the client, the queue of
    commands, and the transceiver, interleaved in any order, from the start of
    the task to its end. The theorems show that the assumptions under which
    the transceiver was studied hold of the system, so that what was proved of
    its runs holds here, and that no task that waits for an acknowledgement is
    forgotten. *)

From Stdlib Require Import ZArith Lia.
From stdpp Require Import base list numbers gmap relations.
From S2P Require Import Prelude Base ByteIO Packets PacketProps Transport PacketReader.
From S2P Require Import Subscription Shared Transceiver TransceiverOut TransceiverProps Samples.
From S2P Require Import TransceiverRuns Shutdown Futures Wakers Client Connect Wire Discipline.

Local Open Scope Z_scope.

(* ------------------------------------------------------------------ *)
(** ** States and steps                                                *)
(* ------------------------------------------------------------------ *)

(** The receiving end of the queue of commands: it gives what was sent, and
    closing it leaves the history alone. *)
Class CommandReceiver (Q : Type) `{CommandQueueOk Q} : Type := {
  cq_recv : Q -> Poll (option Command) * Q;
  cq_close : Q -> Q;
  cq_recv_ok q r q' : cq_recv q = (r, q') ->
    enqueued q' = enqueued q /\ forall c, r = Ready (Some c) -> c ∈ enqueued q;
  cq_close_ok q : enqueued (cq_close q) = enqueued q /\ cq_is_closed (cq_close q) = true
}.

(** The task of the transceiver: waiting in its main loop, in the loop that reads
    from the connection, leaving the main loop, with an error or without,
    disconnected with what [disconnect_sequence] returned, or over with its
    status. *)
Inductive Phase : Type :=
| Running
| Reading
| Stopping (failed : bool)
| Disconnected (ret : option bool)
| Over (status : ShutdownStatus).

(** tokio's [JoinError]: the task panicked or was aborted. *)
Inductive JoinError : Type := JoinAborted.

(** [ClientShutdownHandle::disconnect] between two polls: sending its command,
    waiting for the task, or done. *)
Inductive ClientShutdownHandle : Type :=
| HandleIdle
| HandleSending
| HandleJoining
| HandleDone (r : result ShutdownStatus JoinError).

(** One poll; [join] is what the [JoinHandle] answers, if the task is over. *)
Definition ClientShutdownHandle_disconnect {Q} `{CommandQueue Q} (join : option (result ShutdownStatus JoinError))
    (h : ClientShutdownHandle) (q : Q) : ClientShutdownHandle * Q :=
  match h with
  | HandleSending =>
    match cq_send CDisconnect q with
    | (Ready _, q) => (HandleJoining, q)
    | (PollPending, q) => (HandleSending, q)
    end
  | HandleJoining => (match join with Some r => HandleDone r | None => HandleJoining end, q)
  | HandleIdle | HandleDone _ => (h, q)
  end.

Definition join_of (ph : Phase) : option (result ShutdownStatus JoinError) :=
  match ph with Over st => Some (Ok st) | _ => None end.

Section system.
#[local] Existing Instance production.
Context `{ClockOk} {T X : Type} `{TransportOk T} `{RecipientsOk X}.
Context {Q : Type} `{CommandQueueOk Q} `{!CommandReceiver Q}.

(** A task of the user: what is left of its call, and, if its last poll left
    it pending, how many wake-ups there had been until then. *)
Record Task : Type := mkTask { t_prog : prog Q Answer; t_parked : option nat }.

Record System : Type := mkSystem {
  s_tr : Transceiver T X;
  s_queue : Q;
  s_phase : Phase;
  s_handle : ClientShutdownHandle;
  s_tasks : gmap nat Task
}.
Implicit Types (σ : System) (s : Transceiver T X) (t : Task).

Definition world_of σ : World Q := mkWorld (shared (s_tr σ)) (s_queue σ).

(** The system after a task has acted on the world. *)
Definition acted σ (wd : World Q) (tasks : gmap nat Task) : System :=
  mkSystem (with_shared (w_shared wd) (s_tr σ)) (w_queue wd) (s_phase σ) (s_handle σ) tasks.

(** Polling leaves the program waiting for the same thing. *)
Definition suspends (w : Waker) (p : prog Q Answer) (wd : World Q) : bool :=
  match p with
  | Done _ | Act _ => false
  | SendCmd c _ _ => match cq_send c (w_queue wd) with (PollPending, _) => true | _ => false end
  | AwaitPublish f _ =>
    match PublishFuture_poll (E := Empty_set) w (f, w_shared wd) with (Ret PollPending, _) => true | _ => false end
  | AwaitSub f _ =>
    match SubscribeFuture_poll (E := Empty_set) w (f, w_shared wd) with (Ret PollPending, _) => true | _ => false end
  end.

(** A program stopped at an [await]. *)
Definition at_await (p : prog Q Answer) : bool :=
  match p with Done _ | Act _ => false | _ => true end.

(** Where a [TaskState] leads. *)
Definition after_step (st : TaskState) : Phase :=
  match st with
  | WantContinue => Running
  | WantStop => Stopping false
  | TConnectionClosed => Over (mkShutdownStatus false false)
  end.

Definition outcome_map {E A B} (g : A -> B) (o : outcome E A) : outcome E B := outcome_bind o (fun a => Ret (g a)).

(** A step of the task of the transceiver in its main loop, with the phase in
    which it is taken, how it ends and what it takes from the queue. Between
    the turns of the loop that reads, other tasks can act; it ends when the
    transport would block, and nothing says that it does. *)
Inductive loop_step s (q : Q) : Phase -> outcome io_error Phase -> Transceiver T X -> Q -> Prop :=
| loop_write r o s' :
    event_enabled s (WriteReady r) = true -> on_write_ready r s = (o, s') ->
    loop_step s q Running (outcome_map after_step o) s' q
| loop_read_error e :
    event_enabled s (ReadReady (Err e)) = true -> loop_step s q Running (Throw e) s q
| loop_pre_read o s' :
    event_enabled s (ReadReady (Ok tt)) = true -> on_transport pre_read s = (o, s') ->
    loop_step s q Running (outcome_map (fun b : bool => if b then Reading else Running) o) s' q
| loop_recv o rt :
    recv (rx_pkt s, transport s) = (o, rt) -> (forall p, o <> Ret (Incoming p)) ->
    loop_step s q Reading
      match o with
      | Ret ConnectionClosed => Ret (after_step TConnectionClosed)
      | Ret _ => Ret Reading
      | Throw e => if is_would_block e then Ret (after_step WantContinue) else Throw e
      | Panic => Panic
      | UB => UB
      | OutOfFuel => OutOfFuel
      end (with_reader rt s) q
| loop_handle rt p o s' :
    recv (rx_pkt s, transport s) = (Ret (Incoming p), rt) ->
    process_packet p (with_reader rt s) = (o, s') ->
    loop_step s q Reading (outcome_map (fun stop : bool => if stop then after_step WantStop else Reading) o) s' q
| loop_command c o s' q' :
    event_enabled s (CommandReceived c) = true -> cq_recv q = (Ready c, q') -> on_command c s = (o, s') ->
    loop_step s q Running (outcome_map after_step o) s' q'
| loop_alarm o s' : on_alarm s = (o, s') -> loop_step s q Running (outcome_map after_step o) s' q.

(** Where the task goes from there; a panic is not a step. *)
Definition next_phase (o : outcome io_error Phase) : option Phase :=
  match o with
  | Ret ph => Some ph
  | Throw _ => Some (Stopping true)
  | _ => None
  end.

(** *** The steps are those of [task_step] *)

(** A step that returns and takes nothing from the queue. *)
Definition turn (q : Q) (a b : Phase * Transceiver T X) : Prop := loop_step a.2 q a.1 (Ret b.1) b.2 q.

(** The loop that reads, run to its end, is a sequence of turns; run for as many
    turns as one likes without coming to its end, it is that many turns. *)
Lemma read_loop_steps fuel s q o s' : read_loop fuel s = (o, s') ->
  (exists s1, rtc (turn q) (Reading, s) (Reading, s1) /\ loop_step s1 q Reading (outcome_map after_step o) s' q) \/
  (o = OutOfFuel /\ nsteps (turn q) fuel (Reading, s) (Reading, s')).
Proof.
  assert (forall s s1 fuel o s', turn q (Reading, s) (Reading, s1) ->
    (exists s2, rtc (turn q) (Reading, s1) (Reading, s2) /\ loop_step s2 q Reading (outcome_map after_step o) s' q) \/
    (o = OutOfFuel /\ nsteps (turn q) fuel (Reading, s1) (Reading, s')) ->
    (exists s2, rtc (turn q) (Reading, s) (Reading, s2) /\ loop_step s2 q Reading (outcome_map after_step o) s' q) \/
    (o = OutOfFuel /\ nsteps (turn q) (S fuel) (Reading, s) (Reading, s'))) as Hgo.
  { intros s0 s1 n o1 s2 Ht [(s3 & Hr & Hl)|[-> Hn]]; [left; exists s3; split; [by eapply rtc_l|done]|right].
    split; [done|]. by eapply nsteps_l. }
  revert s. induction fuel as [|fuel IH]; intros s; cbn [read_loop].
  { intros [= <- <-]. right. split; [done|constructor]. }
  unfold mbind at 1, stm_bind at 1, attempt, zoom. destruct (recv (rx_pkt s, transport s)) as [o1 rt] eqn:E.
  fold (with_reader rt s). destruct o1 as [[p| |]|e| | |]; cbn [fst snd].
  - unfold mbind, stm_bind. destruct (process_packet p (with_reader rt s)) as [o2 s2] eqn:Ep.
    pose proof (loop_handle s q rt p o2 s2 E Ep) as Hl. destruct o2 as [[|]|e| | |]; try (intros [= <- <-]; left; by exists s).
    intros Er. apply (Hgo s s2 fuel o s' Hl). by apply IH.
  - intros [= <- <-]. left. exists s. split; [done|]. exact (loop_recv s q _ rt E ltac:(done)).
  - intros Er. apply (Hgo s (with_reader rt s) fuel o s'); [exact (loop_recv s q _ rt E ltac:(done))|]. by apply IH.
  - pose proof (loop_recv s q _ rt E ltac:(done)) as Hl. cbn in Hl.
    destruct (is_would_block e); intros [= <- <-]; left; by exists s.
  - intros [= <- <-]. left. exists s. split; [done|]. exact (loop_recv s q _ rt E ltac:(done)).
  - intros [= <- <-]. left. exists s. split; [done|]. exact (loop_recv s q _ rt E ltac:(done)).
  - intros [= <- <-]. left. exists s. split; [done|]. exact (loop_recv s q _ rt E ltac:(done)).
Qed.

(** An iteration of the main loop on an event that was enabled, from the queue
    [q], which a command was taken from if the event is one. *)
Definition taken (ev : Event) (q q' : Q) : Prop :=
  match ev with CommandReceived c => cq_recv q = (Ready c, q') | _ => q' = q end.

Lemma task_step_steps fuel ev s q q' o s' : (forall f, ev <> ClientActs f) ->
  event_enabled s ev = true -> taken ev q q' -> task_step fuel ev s = (o, s') ->
  (exists ph s1, rtc (turn q) (Running, s) (ph, s1) /\ loop_step s1 q ph (outcome_map after_step o) s' q') \/
  (o = OutOfFuel /\ exists s1, turn q (Running, s) (Reading, s1) /\ nsteps (turn q) fuel (Reading, s1) (Reading, s')).
Proof.
  intros Hc Hen Ht. destruct ev as [r|r|c| |f]; cbn [task_step taken] in *; try subst q'.
  - intros E. left. exists Running, s. split; [done|]. by eapply loop_write.
  - unfold on_read_ready, mbind, stm_bind. destruct r as [[]|e]; cbn [check_ready mret stm_ret throw].
    + destruct (on_transport pre_read s) as [o1 s1] eqn:Ep. pose proof (loop_pre_read s q o1 s1 Hen Ep) as Hl.
      destruct o1 as [[|]|e| | |]; try (intros [= <- <-]; left; by exists Running, s).
      intros E. destruct (read_loop_steps fuel s1 q o s' E) as [(s2 & Hr & Hl')|[-> Hn]]; [left|right; split; [done|by exists s1]].
      exists Reading, s2. split; [|done]. by apply (rtc_l _ _ (Reading, s1)).
    + intros [= <- <-]. left. exists Running, s. split; [done|]. by apply loop_read_error.
  - intros E. left. exists Running, s. split; [done|]. by eapply loop_command.
  - intros E. left. exists Running, s. split; [done|]. by apply loop_alarm.
  - by destruct (Hc f).
Qed.

(** Task [w] makes a call. *)
Definition calling (w : nat) (c : Call) σ : System :=
  mkSystem (s_tr σ) (s_queue σ) (s_phase σ) (s_handle σ) (<[w := mkTask (run_call c) None]> (s_tasks σ)).

Inductive sys_step σ : System -> Prop :=
| sys_call w c : s_tasks σ !! w = None -> Call_ok c -> sys_step σ (calling w c σ)
| sys_poll w t p wd :
    s_tasks σ !! w = Some t -> advance w (t_prog t) (world_of σ) = (Ret p, wd) ->
    sys_step σ (acted σ wd (<[w := mkTask p
      (if suspends w (t_prog t) (world_of σ) then Some (length (woken (s_tr σ))) else None)]> (s_tasks σ)))
| sys_return w t a :
    s_tasks σ !! w = Some t -> t_prog t = Done a ->
    sys_step σ (mkSystem (s_tr σ) (s_queue σ) (s_phase σ) (s_handle σ) (delete w (s_tasks σ)))
| sys_cancel w t wd :
    s_tasks σ !! w = Some t -> at_await (t_prog t) = true -> cancel (t_prog t) (world_of σ) = (Ret tt, wd) ->
    sys_step σ (acted σ wd (delete w (s_tasks σ)))
| sys_loop o s' q' ph :
    loop_step (s_tr σ) (s_queue σ) (s_phase σ) o s' q' -> next_phase o = Some ph ->
    sys_step σ (mkSystem s' q' ph (s_handle σ) (s_tasks σ))
| sys_disconnect failed evs1 evs2 r s' :
    s_phase σ = Stopping failed -> disconnect_sequence evs1 evs2 (s_tr σ) = (Ret r, s') ->
    sys_step σ (mkSystem s' (s_queue σ) (Disconnected r) (s_handle σ) (s_tasks σ))
| sys_release r s' :
    s_phase σ = Disconnected r -> release_waiters (s_tr σ) = (Ret tt, s') ->
    sys_step σ (mkSystem s' (s_queue σ) (Over (mkShutdownStatus (disconnect_sent s') (default false r)))
      (s_handle σ) (s_tasks σ))
| sys_close st :
    s_phase σ = Over st -> sys_step σ (mkSystem (s_tr σ) (cq_close (s_queue σ)) (Over st) (s_handle σ) (s_tasks σ))
| sys_shutdown :
    s_handle σ = HandleIdle ->
    sys_step σ (mkSystem (s_tr σ) (s_queue σ) (s_phase σ) HandleSending (s_tasks σ))
| sys_handle h q' :
    ClientShutdownHandle_disconnect (join_of (s_phase σ)) (s_handle σ) (s_queue σ) = (h, q') ->
    sys_step σ (mkSystem (s_tr σ) q' (s_phase σ) h (s_tasks σ)).

(** The counter of packet IDs does not start again. *)
Definition below σ σ' : Prop := next_packet_id (shared (s_tr σ)) <= next_packet_id (shared (s_tr σ')).

(* ------------------------------------------------------------------ *)
(** ** The steps of a task                                             *)
(* ------------------------------------------------------------------ *)

(** A change of the notifier maps outside of what a task owns. *)
Definition local_to (o : Own) (sh sh' : ClientShared) : Prop :=
  forall k i, (forall k', o <> Some (i, k')) -> access_notifier_map k sh' !! i = access_notifier_map k sh !! i.

(** What a task owns after a step, and the counter. *)
Definition owns_next (o o' : Own) (sh sh' : ClientShared) : Prop :=
  (next_packet_id sh' = next_packet_id sh /\
     (o' = None \/ exists i k k', o = Some (i, k) /\ o' = Some (i, k'))) \/
  (o = None /\ o' = Some (next_packet_id sh, None) /\ next_packet_id sh' = wrap16 (next_packet_id sh + 1)).

Lemma set_access_ne k k' m sh i : k' <> k -> access_notifier_map k' (set_notifier_map k m sh) !! i = access_notifier_map k' sh !! i.
Proof. by destruct k, k'. Qed.

Lemma set_notifier_id k m sh : next_packet_id (set_notifier_map k m sh) = next_packet_id sh.
Proof. by destruct k. Qed.

(** Writing one entry. *)
Lemma local_set i k0 k (m : NotifierMap) sh :
  (forall j, j <> i -> m !! j = access_notifier_map k sh !! j) ->
  local_to (Some (i, k0)) sh (set_notifier_map k m sh).
Proof.
  intros Hm k' j Hj. destruct (decide (k' = k)) as [->|Hk]; [|by apply set_access_ne].
  rewrite access_set. apply Hm. intros ->. by apply (Hj k0).
Qed.

Lemma local_refl o sh : local_to o sh sh.
Proof. by intros k i _. Qed.

Lemma owns_local o o' sh sh' : owns o o' sh sh' -> local_to o sh sh' /\ owns_next o o' sh sh'.
Proof.
  intros [o1 sh1 sh2 Hm Hn|sh1 sh2 Hm Hn|i k sh1|i k sh1].
  - split; [by intros k i _; rewrite Hm|]. left. split; [done|]. destruct o1 as [[i k]|]; eauto 6.
  - split; [by intros k i _; rewrite Hm|]. right. done.
  - split; [apply local_set; intros j Hj; by apply lookup_insert_ne|]. left. split; [apply set_notifier_id|]. eauto 6.
  - split; [apply local_set; intros j Hj; by apply lookup_delete_ne|]. left. split; [apply set_notifier_id|]. eauto 6.
Qed.

Abbreviation tamed := (tame (Q := Q) (A := Answer) (returns entry_failed)).

(** What the invariant needs to know of a step of task [w]. *)
Definition stepped (o : Own) (wd wd' : World Q) (o' : Own) : Prop :=
  shared_ok (w_shared wd') /\ local_to o (w_shared wd) (w_shared wd') /\
  owns_next o o' (w_shared wd) (w_shared wd') /\
  exists cs, enqueued (w_queue wd') = enqueued (w_queue wd) ++ cs /\ Forall Command_wire cs.

Lemma same_owns_next o sh : owns_next o o sh sh.
Proof. left. split; [done|]. destruct o as [[i k]|]; eauto 6. Qed.

Lemma no_commands (q q' : Q) : enqueued q' = enqueued q -> exists cs, enqueued q' = enqueued q ++ cs /\ Forall Command_wire cs.
Proof. intros ->. exists []. by rewrite app_nil_r. Qed.

Lemma advance_send o w c held k wd p wd' : tamed o (SendCmd c held k) -> shared_ok (w_shared wd) ->
  advance w (SendCmd c held k) wd = (Ret p, wd') -> exists o', tamed o' p /\ stepped o wd wd' o'.
Proof.
  intros (Hc & Hh & Hk) Hsh. cbn. destruct (cq_send c (w_queue wd)) as [r q] eqn:E. intros [= <- <-].
  apply cq_send_ok in E as (He & _). exists o. split; [by destruct r|].
  split_and!; [done|apply local_refl|apply same_owns_next|]. eexists. split; [exact He|].
  destruct r as [[|]|]; repeat constructor; done.
Qed.

Lemma advance_publish o w f k wd p wd' : tamed o (AwaitPublish f k) -> shared_ok (w_shared wd) ->
  advance w (AwaitPublish f k) wd = (Ret p, wd') ->
  (exists o', tamed o' p /\ stepped o wd wd' o') /\
  (suspends w (AwaitPublish f k) wd = true -> p = AwaitPublish f k /\
     has_waker (w_shared wd') (fut_notifier f) (fut_packet_id f) w).
Proof.
  intros ([-> Hr] & Hk & Hk') Hsh. cbn [advance suspends].
  destruct (access_notifier_map (fut_notifier f) (w_shared wd) !! fut_packet_id f) as [r|] eqn:Ha.
  - assert (r = Failed \/ r <> Failed) as [->|Hf] by (destruct r; auto).
    + unfold PublishFuture_poll, mbind, stm_bind. cbn. rewrite Hr, Ha. cbn. intros [= <- <-]. split; [|done].
      eexists. split; [exact Hk'|]. split_and!; [done|apply local_refl| |by apply no_commands].
      left. split; [done|]. eauto 6.
    + rewrite !(poll_waiting f w r) by done. intros [= <- <-]. split.
      * eexists. split; [by split|]. split_and!; [by apply set_notifier_ok| | |by apply no_commands].
        -- apply local_set. intros j Hj. by apply lookup_insert_ne.
        -- left. split; [apply set_notifier_id|]. eauto 6.
      * intros _. split; [done|]. unfold has_waker. cbn. by rewrite access_set, lookup_insert_eq.
  - rewrite !poll_gone by done. intros [= <- <-]. split; [|done].
    eexists. split; [exact Hk|]. split_and!; [done|apply local_refl| |by apply no_commands].
    left. split; [done|]. eauto 6.
Qed.

(** Polling a subscription only touches the map of subscriptions. *)
Lemma sub_poll_local w f sh o f' sh' : sf_result f = None ->
  SubscribeFuture_poll (E := Empty_set) w (f, sh) = (o, (f', sh')) ->
  (forall k, access_notifier_map k sh' = access_notifier_map k sh) /\ next_packet_id sh' = next_packet_id sh /\
  (shared_ok sh -> shared_ok sh') /\ (o = Ret PollPending -> sf_result f' = None).
Proof.
  intros Hf. unfold SubscribeFuture_poll, vec_set, assert_, mbind, stm_bind. cbn -[Nat.ltb]. rewrite Hf.
  destruct (subs sh !! sf_topic f) as [[q|ws]|]; cbn -[Nat.ltb]; [by intros [= <- <- <-]| |by intros [= <- <- <-]].
  destruct (waker_index f) as [i|]; [destruct (i <? length ws)%nat|]; cbn.
  all: intros [= <- <- <-]; split_and!; [intros k; by destruct k|done..].
Qed.

Lemma advance_sub o w f k wd p wd' : tamed o (AwaitSub f k) -> shared_ok (w_shared wd) ->
  advance w (AwaitSub f k) wd = (Ret p, wd') -> exists o', tamed o' p /\ stepped o wd wd' o'.
Proof.
  intros (Ho & Hf & Hk) Hsh. cbn [advance].
  destruct (SubscribeFuture_poll w (f, w_shared wd)) as [r [f' sh']] eqn:E.
  destruct (sub_poll_local w f _ r f' sh' Hf E) as (Hm & Hi & Hok & Hf'). intros Hp. exists o.
  assert (stepped o wd (with_w_shared sh' wd) o) as Hst.
  { split_and!; [by apply Hok|by intros j i _; cbn; rewrite Hm| |by apply no_commands].
    left. split; [done|]. destruct o as [[i j]|]; eauto 6. }
  destruct r as [[r|]|e| | |]; try discriminate Hp; injection Hp as Hp Hw; subst p wd'; (split; [|exact Hst]); [apply Hk|].
  split_and!; [done|by apply Hf'|done].
Qed.

Lemma advance_step o w p wd p' wd' : tamed o p -> shared_ok (w_shared wd) ->
  advance w p wd = (Ret p', wd') -> exists o', tamed o' p' /\ stepped o wd wd' o'.
Proof.
  destruct p as [a|m|c held k|f k|f k].
  - intros Hp Hsh [= <- <-]. exists o. split; [exact Hp|].
    split_and!; [done|apply local_refl|apply same_owns_next|by apply no_commands].
  - intros Hp Hsh E. specialize (Hp wd Hsh). cbn [advance] in E. rewrite E in Hp.
    destruct Hp as (Hok & Hq & o' & Ho & Hp). exists o'. split; [done|].
    destruct (owns_local _ _ _ _ Ho) as [Hl Hn]. by split_and!.
  - apply advance_send.
  - intros Hp Hsh E. by apply (advance_publish o w f k wd p' wd').
  - apply advance_sub.
Qed.

(** Dropping a future where it waits. *)
Lemma sub_drop_local f sh o sh' : SubscribeFuture_drop (E := Empty_set) f sh = (o, sh') ->
  (forall k, access_notifier_map k sh' = access_notifier_map k sh) /\ next_packet_id sh' = next_packet_id sh /\
  (shared_ok sh -> shared_ok sh').
Proof.
  unfold SubscribeFuture_drop, vec_set, assert_, mbind, stm_bind.
  destruct (sf_result f) as [r|]; [by intros [= <- <-]|]. destruct (waker_index f) as [i|]; [|by intros [= <- <-]].
  cbn -[Nat.ltb]. destruct (subs sh !! sf_topic f) as [[q|ws]|]; [by intros [= <- <-]| |by intros [= <- <-]].
  destruct (i <? length ws)%nat; cbn; intros [= <- <-]; split_and!; [intros k; by destruct k|done..].
Qed.

Lemma stepped_outside o wd sh' : (forall k, access_notifier_map k sh' = access_notifier_map k (w_shared wd)) ->
  next_packet_id sh' = next_packet_id (w_shared wd) -> shared_ok sh' -> stepped o wd (with_w_shared sh' wd) None.
Proof.
  intros Hm Hi Hsh. split_and!; [done|by intros k i _; cbn; rewrite Hm| |by apply no_commands].
  left. split; [done|by left].
Qed.

Lemma cancel_step o p wd wd' : tamed o p -> at_await p = true -> shared_ok (w_shared wd) ->
  cancel p wd = (Ret tt, wd') -> stepped o wd wd' None.
Proof.
  intros Hp Ha Hsh.
  assert (forall f, held_by o f -> in_shared (PublishFuture_drop f) wd = (Ret tt, wd') -> stepped o wd wd' None) as Hdrop.
  { intros f [-> Hr]. unfold in_shared, zoom, PublishFuture_drop. rewrite Hr. cbn. intros [= <-].
    split_and!; [by apply set_notifier_ok|apply local_set; intros j Hj; by apply lookup_delete_ne| |by apply no_commands].
    left. split; [apply set_notifier_id|by left]. }
  destruct p as [a|m|c [f|] k|f k|f k]; try done; cbn [tame cancel] in *; intros E.
  - apply (Hdrop f); [apply Hp|done].
  - injection E as <-. destruct wd as [sh q]. by apply (stepped_outside o (mkWorld sh q) sh).
  - apply (Hdrop f); [apply Hp|done].
  - unfold in_shared, zoom in E. destruct (SubscribeFuture_drop f (w_shared wd)) as [r sh'] eqn:Ed.
    injection E as -> <-. destruct (sub_drop_local f _ _ _ Ed) as (Hm & Hi & Hok).
    apply stepped_outside; [done|done|by apply Hok].
Qed.

(* ------------------------------------------------------------------ *)
(** ** The invariant                                                   *)
(* ------------------------------------------------------------------ *)

(** A task whose publication waits has its waker registered, unless it has been
    woken since. *)
Definition waker_kept (sh : ClientShared) (wk : list Waker) (w : Waker) t : Prop :=
  match t_prog t, t_parked t with
  | AwaitPublish f _, Some n =>
    (n <= length wk)%nat /\ (has_waker sh (fut_notifier f) (fut_packet_id f) w \/ w ∈ drop n wk)
  | _, _ => True
  end.

(** Different tasks own different IDs, all of them taken from the counter. *)
Definition own_ok (own : nat -> Own) (sh : ClientShared) : Prop :=
  (forall w i k, own w = Some (i, k) -> i < next_packet_id sh) /\
  (forall w w' i k k', own w = Some (i, k) -> own w' = Some (i, k') -> w = w').

(** The invariant; what it says of IDs holds as long as the counter has not
    started again, which [B] says. *)
Definition sys_ok (B : Prop) σ : Prop :=
  let sh := shared (s_tr σ) in
  shared_ok sh /\ Forall Command_wire (enqueued (s_queue σ)) /\
  exists own, (B -> own_ok own sh) /\ (forall w, s_tasks σ !! w = None -> own w = None) /\
    forall w t, s_tasks σ !! w = Some t -> tamed (own w) (t_prog t) /\ (B -> waker_kept sh (woken (s_tr σ)) w t).

Lemma waker_kept_local o sh sh' wk w t o' : tamed o (t_prog t) -> local_to o' sh sh' ->
  (forall i k k', o = Some (i, k) -> o' <> Some (i, k')) -> waker_kept sh wk w t -> waker_kept sh' wk w t.
Proof.
  intros Hp Hl Ho. unfold waker_kept. destruct (t_prog t) as [| | |f k|]; try done. destruct (t_parked t) as [n|]; [|done].
  intros (Hn & [Hw|Hw]); split; auto. left. unfold has_waker in *. rewrite Hl; [done|].
  destruct Hp as [[-> _] _]. intros k'. by eapply Ho.
Qed.

Lemma waker_kept_keeps s s' w t : keeps s s' -> waker_kept (shared s) (woken s) w t -> waker_kept (shared s') (woken s') w t.
Proof.
  intros (_ & ws & Hw & Hk). unfold waker_kept. destruct (t_prog t) as [| | |f k|]; try done.
  destruct (t_parked t) as [n|]; [|done]. intros (Hn & Hr). rewrite Hw, length_app. split; [lia|].
  rewrite drop_app_le, elem_of_app by done. destruct Hr as [Hr|]; [|auto]. destruct (Hk _ _ _ Hr); auto.
Qed.

(** The new owner of an ID. *)
Lemma own_ok_step own sh sh' w o' : own_ok own sh -> owns_next (own w) o' sh sh' -> shared_ok sh ->
  next_packet_id sh <= next_packet_id sh' -> own_ok (fun x => if decide (x = w) then o' else own x) sh'.
Proof.
  intros [Hb Hd] Hn [Hid _] Hle.
  assert (forall i k, o' = Some (i, k) ->
    (exists k0, own w = Some (i, k0)) \/ (i = next_packet_id sh /\ next_packet_id sh < next_packet_id sh')) as Ho.
  { intros i k ->. destruct Hn as [[Hi [?|(i' & k1 & k2 & Ho & [= -> ->])]]|(Ho & [= -> ->] & Hi)]; [done|eauto|].
    right. split; [done|]. rewrite Hi in *. unfold is_u16, wrap16 in *.
    destruct (decide (next_packet_id sh = 65535)) as [E|]; [rewrite E in Hle; by destruct Hle|]. rewrite Z.mod_small; lia. }
  split.
  - intros x i k. case_decide; [|intros Hx; specialize (Hb x i k Hx); lia].
    intros Hx. destruct (Ho i k Hx) as [[k0 Hk0]|[-> ?]]; [specialize (Hb w i k0 Hk0); lia|done].
  - intros x y i k k'. do 2 case_decide; subst; intros Hx Hy; [done| | |by eapply Hd].
    + destruct (Ho i k Hx) as [[k0 Hk0]|[-> _]]; [by eapply Hd|]. specialize (Hb y _ _ Hy). lia.
    + destruct (Ho i k' Hy) as [[k0 Hk0]|[-> _]]; [by eapply Hd|]. specialize (Hb x _ _ Hx). lia.
Qed.

(** A step of task [w], after which it is [ot]. *)
Lemma task_ok_step (B : Prop) σ w t wd o' ot own :
  sys_ok B σ -> (B -> own_ok own (shared (s_tr σ))) -> (forall w, s_tasks σ !! w = None -> own w = None) ->
  (forall w t, s_tasks σ !! w = Some t ->
     tamed (own w) (t_prog t) /\ (B -> waker_kept (shared (s_tr σ)) (woken (s_tr σ)) w t)) ->
  s_tasks σ !! w = Some t -> stepped (own w) (world_of σ) wd o' ->
  (B -> next_packet_id (shared (s_tr σ)) <= next_packet_id (w_shared wd)) ->
  match ot with
  | Some t' => tamed o' (t_prog t') /\ waker_kept (w_shared wd) (woken (s_tr σ)) w t'
  | None => o' = None
  end ->
  sys_ok B (acted σ wd (partial_alter (fun _ => ot) w (s_tasks σ))).
Proof.
  intros (Hsh & Hq & _) Hown Hnone Htasks Ht (Hsh' & Hl & Hn & cs & Hcs & Hwire) Hle Hot.
  split_and!; [done|by cbn; rewrite Hcs; apply Forall_app|].
  exists (fun x => if decide (x = w) then o' else own x). split_and!.
  - intros HB. by apply (own_ok_step own (shared (s_tr σ))); auto.
  - intros x. cbn [acted s_tasks]. case_decide; subst.
    + rewrite lookup_partial_alter_eq. by intros ->.
    + rewrite lookup_partial_alter_ne by done. apply Hnone.
  - intros x t'. cbn [acted s_tasks s_tr with_shared shared woken]. case_decide as Hx; subst.
    + rewrite lookup_partial_alter_eq. intros ->. destruct Hot. by split.
    + rewrite lookup_partial_alter_ne by done. intros Hx'. destruct (Htasks x t' Hx') as [Hp Hk]. split; [done|].
      intros HB. eapply waker_kept_local; [done|done| |by apply Hk].
      intros i k k' Ho Ho'. apply Hx. by eapply (proj2 (Hown HB)).
Qed.

(** Polling leaves the waker of the task where it has to be. *)
Lemma poll_kept o w p wd p' wd' wk : tamed o p -> shared_ok (w_shared wd) -> advance w p wd = (Ret p', wd') ->
  waker_kept (w_shared wd') wk w (mkTask p' (if suspends w p wd then Some (length wk) else None)).
Proof.
  intros Hp Hsh E. destruct (suspends w p wd) eqn:Hs; [|unfold waker_kept; cbn; by destruct p'].
  destruct p as [a|m|c held k|f k|f k]; try done.
  - cbn in Hs, E. destruct (cq_send c (w_queue wd)) as [[r|] q]; [done|]. by injection E as <- _.
  - destruct (advance_publish _ _ _ _ _ _ _ Hp Hsh E) as [_ Hk]. destruct (Hk Hs) as [-> Hr]. split; [done|by left].
  - cbn [suspends advance] in Hs, E. destruct (SubscribeFuture_poll w (f, w_shared wd)) as [[[r|]|e| | |] [f' sh']]; try done.
    by injection E as <- _.
Qed.

(** A step of the transceiver. *)
Lemma tr_ok_step (B : Prop) σ s' q' ph h : sys_ok B σ -> keeps (s_tr σ) s' -> Forall Command_wire (enqueued q') ->
  (B -> next_packet_id (shared (s_tr σ)) <= next_packet_id (shared s')) -> sys_ok B (mkSystem s' q' ph h (s_tasks σ)).
Proof.
  intros (Hsh & Hq & own & Hown & Hnone & Htasks) Hk He Hle.
  split_and!; [by apply Hk|done|]. exists own. split_and!; [|done|].
  - intros HB. specialize (Hle HB). destruct (Hown HB) as [Hb Hd]. split; [|done].
    intros w i k Hw. specialize (Hb w i k Hw). cbn. lia.
  - intros w t Hw. destruct (Htasks w t Hw) as [Hp Hkt]. split; [done|]. intros HB.
    apply (waker_kept_keeps (s_tr σ)); auto.
Qed.

Lemma loop_keeps s q ph o s' q' : loop_step s q ph o s' q' -> keeps s s' /\ enqueued q' = enqueued q.
Proof.
  intros [r o' s1 _ Ew|e _|o' s1 _ Er|o' rt E _|rt p o' s1 E Ep|c o' s1 q1 _ Eq Ec|o' s1 Ea].
  - split; [|done]. by eapply respects_run; [apply gentle_write_ready|].
  - split; [by apply keeps_same|done].
  - split; [|done]. eapply respects_run; [|exact Er]. apply respects_zoom. intros. by apply keeps_same.
  - split; [by apply keeps_same|done].
  - split; [|done]. trans (with_reader rt s); [by apply keeps_same|]. by eapply respects_run; [apply gentle_packet|].
  - split; [by eapply respects_run; [apply gentle_command|]|]. by apply cq_recv_ok in Eq as [? _].
  - split; [|done]. by eapply respects_run; [apply gentle_alarm|].
Qed.

(** The handle sends one command. *)
Lemma handle_wire join h h' (q q' : Q) : ClientShutdownHandle_disconnect join h q = (h', q') ->
  Forall Command_wire (enqueued q) -> Forall Command_wire (enqueued q').
Proof.
  destruct h as [| | |r]; cbn; [by intros [= _ <-]| |by intros [= _ <-]|by intros [= _ <-]].
  destruct (cq_send CDisconnect q) as [r q1] eqn:E. apply cq_send_ok in E as (He & _).
  intros Hh Hq. assert (q' = q1) as -> by (by destruct r; injection Hh). rewrite He. apply Forall_app. split; [done|].
  by destruct r as [[]|]; repeat constructor.
Qed.

Lemma sys_ok_step (B : Prop) σ σ' : sys_ok B σ -> sys_step σ σ' -> (B -> below σ σ') -> sys_ok B σ'.
Proof.
  intros Hσ Hstep Hle. pose proof Hσ as (Hsh & Hq & own & Hown & Hnone & Htasks). destruct Hstep as
    [w c Hw Hc|w t p wd Hw Hp|w t a Hw Hp|w t wd Hw Ha Hp|o s' q' ph Hl Ho|fl evs1 evs2 r s' Hph Hd|r s' Hph Hr|st Hph|Hh|h q' Hh].
  - split_and!; [done|done|]. exists own. split_and!; [done| |]; intros x; cbn.
    + rewrite lookup_insert_None. intros [? _]. auto.
    + intros t. rewrite lookup_insert_Some. intros [[<- <-]|[_ Hx]]; [|by apply Htasks].
      split; [rewrite (Hnone w Hw); by apply call_tame|]. intros _. unfold waker_kept. cbn. by destruct (run_call c).
  - destruct (Htasks w t Hw) as [Htm Hk]. destruct (advance_step _ w _ (world_of σ) p wd Htm Hsh Hp) as (o' & Hp' & Hst).
    eapply (task_ok_step B σ w t wd o' (Some _) own); try done. split; [done|]. by apply (poll_kept (own w) w (t_prog t) (world_of σ)).
  - destruct (Htasks w t Hw) as [Htm _].
    replace (mkSystem _ _ _ _ _) with (acted σ (world_of σ) (delete w (s_tasks σ))) by (by destruct σ as [[] ? ? ? ?]).
    eapply (task_ok_step B σ w t (world_of σ) None None own); try done.
    split_and!; [done|apply local_refl| |by apply no_commands]. left. split; [done|by left].
  - destruct (Htasks w t Hw) as [Htm _].
    by eapply (task_ok_step B σ w t wd None None own); [..|by apply (cancel_step (own w) (t_prog t) (world_of σ) wd)| |].
  - destruct (loop_keeps _ _ _ _ _ _ Hl) as [Hk He]. apply tr_ok_step; [done|done|by rewrite He|done].
  - apply tr_ok_step; [done| |done|done]. by eapply respects_run; [apply gentle_disconnect|].
  - apply tr_ok_step; [done| |done|done]. by eapply respects_run; [apply gentle_release|].
  - apply tr_ok_step; [done|done| |done]. by rewrite (proj1 (cq_close_ok _)).
  - by apply tr_ok_step.
  - apply tr_ok_step; [done|done| |done]. by eapply handle_wire.
Qed.

(* ------------------------------------------------------------------ *)
(** ** Executions                                                      *)
(* ------------------------------------------------------------------ *)

(** The task has just been set up; nobody has called anything. *)
Definition initial σ : Prop :=
  tr_ok (s_tr σ) /\ wire_ok (s_tr σ) /\ enqueued (s_queue σ) = [] /\ s_phase σ = Running /\ s_tasks σ = ∅.

Lemma initial_ok B σ : initial σ -> sys_ok B σ.
Proof.
  intros (Hok & _ & Hq & _ & Ht). split_and!.
  - destruct Hok as (_ & _ & _ & ? & _). assumption.
  - by rewrite Hq.
  - exists (fun _ => None). split_and!; [by intros _; split|done|]. intros w t. by rewrite Ht, lookup_empty.
Qed.

(** What the transceiver takes from the queue keeps the promise. *)
Lemma taken_wire B σ c q' : sys_ok B σ -> cq_recv (s_queue σ) = (Ready c, q') -> forall cmd, c = Some cmd -> Command_wire cmd.
Proof.
  intros (_ & Hq & _) E cmd ->. apply cq_recv_ok in E as [_ Hin]. rewrite Forall_forall in Hq. by apply Hq, Hin.
Qed.

(** A step of the main loop that returns is a step of a run, and one that does
    not is one that fails. *)
Lemma loop_runs B σ ph o s' q' : sys_ok B σ -> loop_step (s_tr σ) (s_queue σ) ph o s' q' ->
  match o with
  | Ret _ => exists ps, run_of Command_wire (s_tr σ) ps s'
  | Throw e => fails Command_wire (s_tr σ) e s'
  | _ => True
  end.
Proof.
  intros Hσ Hl. destruct Hl as [r o s1 _ Ew|e _|o s1 _ Er|o rt E Hn|rt p o s1 E Ep|c o s1 q1 He Eq Ec|o s1 Ea].
  - destruct o; try done; cbn; [eexists; by eapply run_write; [exact Ew|apply run_nil]|by eapply fails_write].
  - apply fails_read_ready.
  - destruct o; try done; cbn; [eexists; by eapply run_pre_read; [exact Er|apply run_nil]|by apply fails_pre_read].
  - destruct o as [[p| |]|e| | |]; try done; [by destruct (Hn p)|..].
    + eexists. by eapply run_recv; [exact E|done|apply run_nil].
    + eexists. by eapply run_recv; [exact E|done|apply run_nil].
    + destruct (is_would_block e) eqn:He; [|by apply fails_recv].
      eexists. by eapply run_recv; [exact E|done|apply run_nil].
  - destruct o; try done; cbn; [eexists; by eapply run_handle; [exact E|exact Ep|apply run_nil]|by eapply fails_handle].
  - destruct o; try done; cbn; [eexists|by eapply fails_command; [exact He|by eapply taken_wire|]].
    by eapply run_command; [exact He|by eapply taken_wire|exact Ec|apply run_nil].
  - destruct o; try done; cbn; [eexists; by eapply run_alarm; [exact Ea|apply run_nil]|by apply fails_alarm].
Qed.

(** No outcome of a step is a panic or worse. *)
Lemma loop_safe B σ ph o s' q' : sys_ok B σ -> tr_ok (s_tr σ) -> loop_step (s_tr σ) (s_queue σ) ph o s' q' ->
  match o with Ret _ | Throw _ => True | _ => False end.
Proof.
  intros Hσ Hok Hl. assert (forall A A' (g : A -> A') (m : stm (Transceiver T X) io_error A) Q' R' s r s1,
    wp m Q' R' s -> m s = (r, s1) -> match outcome_map g r with Ret _ | Throw _ => True | _ => False end) as Hwp.
  { intros A A' g m Q' R' s r s1 Hw E. unfold wp in Hw. rewrite E in Hw. by destruct r. }
  destruct Hl as [r o s1 _ Ew|e _|o s1 _ Er|o rt E Hn|rt p o s1 E Ep|c o s1 q1 He Eq Ec|o s1 Ea].
  - assert (tx_ok (s_tr σ)) as Htx by (destruct Hok as (_ & _ & ? & _); assumption).
    exact (Hwp _ _ _ _ _ _ _ _ _ (wp_write_ready r _ Htx) Ew).
  - done.
  - exact (Hwp _ _ _ _ _ _ _ _ _ (wp_pre_read _) Er).
  - destruct (recv_ok _ _ _ Hok E) as (_ & _ & _ & _ & H1' & H2' & H3').
    destruct o as [[p| |]|e| | |]; try done. by destruct (is_would_block e).
  - destruct (recv_ok _ _ _ Hok E) as (Hok1 & _ & Hwf & _).
    exact (Hwp _ _ _ _ _ _ _ _ _ (wp_packet_ok p _ Hok1 (Hwf p eq_refl)) Ep).
  - assert (tx_pkt (s_tr σ) = None) as Htx.
    { cbn in He. rewrite !andb_true_iff, bool_decide_eq_true in He. apply He. }
    exact (Hwp _ _ _ _ _ _ _ _ _ (wp_command c _ Hok Htx
      (fun cmd E => Command_wire_ok cmd (taken_wire _ _ _ _ Hσ Eq cmd E))) Ec).
  - exact (Hwp _ _ _ _ _ _ _ _ _ (wp_any_alarm _ Hok) Ea).
Qed.

(** What the transceiver has done, by the phase of its task: a run, up to the
    regular end of the main loop; or a run and a step that failed, since when
    only the shared state has changed. *)
Definition has_run (s0 : Transceiver T X) (ph : Phase) s : Prop :=
  match ph with
  | Running | Reading | Stopping false => exists ps, run_of Command_wire s0 ps s
  | Stopping true =>
    tr_weak s /\ exists ps s1 e s2 sh, run_of Command_wire s0 ps s1 /\ fails Command_wire s1 e s2 /\ s = with_shared sh s2
  | Disconnected _ | Over _ => tr_weak s
  end.

Lemma tr_weak_shared s sh : tr_weak s -> shared_ok sh -> tr_weak (with_shared sh s).
Proof. intros (I1 & I2 & I3 & _ & I5 & I6) Hsh. exact (conj I1 (conj I2 (conj I3 (conj Hsh (conj I5 I6))))). Qed.

Lemma run_wire_ok s0 ps s : tr_ok s0 -> run_of Command_wire s0 ps s -> tr_ok s.
Proof. intros Hok Hr. eapply run_ok; [exact Hok|]. eapply run_weaken; [|exact Hr]. apply Command_wire_ok. Qed.

Lemma has_run_weak s0 ph s : tr_ok s0 -> has_run s0 ph s -> tr_weak s.
Proof.
  intros Hok. assert ((exists ps, run_of Command_wire s0 ps s) -> tr_weak s) as Hrun.
  { intros [ps Hr]. by eapply tr_ok_weak, run_wire_ok. }
  destruct ph as [| |[|]|r|st]; [exact Hrun|exact Hrun|by intros [? _]|exact Hrun|exact id|exact id].
Qed.

(** Other tasks change the shared state only. *)
Lemma has_run_shared s0 ph s sh : tr_ok s0 -> shared_ok sh -> has_run s0 ph s -> has_run s0 ph (with_shared sh s).
Proof.
  intros Hok Hsh Hr. pose proof (tr_weak_shared s sh (has_run_weak _ _ _ Hok Hr) Hsh) as Hwk.
  assert ((exists ps, run_of Command_wire s0 ps s) -> exists ps, run_of Command_wire s0 ps (with_shared sh s)) as Hrun.
  { intros [ps Hps]. eexists. eapply run_trans; [exact Hps|]. eapply run_client; [exact Hsh|apply run_nil]. }
  destruct ph as [| |[|]|r|st]; [exact (Hrun Hr)|exact (Hrun Hr)|split; [exact Hwk|]|exact (Hrun Hr)|exact Hwk|exact Hwk].
  destruct Hr as (_ & ps & s1 & e & s2 & sh' & Hr & Hf & ->). by exists ps, s1, e, s2, sh.
Qed.

Lemma release_weak s s' : tr_weak s -> shared_ok (shared s') -> release_waiters s = (Ret tt, s') -> tr_weak s'.
Proof.
  intros Hwk Hsh E. assert (wp release_waiters (fun _ s' => s' = with_woken (woken s') (with_shared (shared s') s))
    (fun _ _ => False) s) as Hw.
  { unfold release_waiters, fail_notify_map. apply wp_bind, wp_gets, wp_bind, wp_modify, wp_wake_all. done. }
  rewrite (wp_inv _ _ _ _ _ _ Hw E). by apply (tr_weak_shared s).
Qed.

Lemma loop_phase s q ph o s' q' : loop_step s q ph o s' q' -> ph = Running \/ ph = Reading.
Proof. destruct 1; auto. Qed.

(** In which phases a step of the main loop ends. *)
Definition loop_end (ph : Phase) : Prop :=
  ph = Running \/ ph = Reading \/ ph = Stopping false \/ ph = Over (mkShutdownStatus false false).

Lemma after_step_end st : loop_end (after_step st).
Proof. unfold loop_end. destruct st; auto. Qed.

Lemma loop_ends s q ph o s' q' : loop_step s q ph o s' q' -> match o with Ret ph' => loop_end ph' | _ => True end.
Proof.
  assert (forall b : bool, loop_end (if b then Reading else Running)) as Hb by (unfold loop_end; intros []; auto).
  assert (forall b : bool, loop_end (if b then after_step WantStop else Reading)) as Hb' by (unfold loop_end; intros []; auto).
  intros [r o1 s1 ? ?|? ?|o1 s1 ? ?|o1 rt ? ?|rt p o1 s1 ? ?|c o1 s1 q1 ? ? ?|o1 s1 ?]; try (destruct o1; try done; apply after_step_end).
  - done.
  - destruct o1 as [b| | | |]; try done. apply Hb.
  - destruct o1 as [[?| |]|e| | |]; try done; [unfold loop_end; cbn; auto..|].
    destruct (is_would_block e); [apply (after_step_end WantContinue)|done].
  - destruct o1 as [b| | | |]; try done. apply Hb'.
Qed.

Lemma has_run_loop B σ s0 o s' q' ph : tr_ok s0 -> sys_ok B σ -> has_run s0 (s_phase σ) (s_tr σ) ->
  loop_step (s_tr σ) (s_queue σ) (s_phase σ) o s' q' -> next_phase o = Some ph -> has_run s0 ph s'.
Proof.
  intros Hok Hσ Hr Hl Ho. pose proof (loop_runs _ _ _ _ _ _ Hσ Hl) as Hs.
  assert (exists ps, run_of Command_wire s0 ps (s_tr σ)) as [ps Hps] by (by destruct (loop_phase _ _ _ _ _ _ Hl) as [E|E]; rewrite E in Hr).
  destruct o as [ph'|e| | |]; try done; injection Ho as <-.
  - destruct Hs as [ps' Hs]. pose proof (run_trans _ _ _ _ _ _ Hps Hs) as Hr'.
    destruct (loop_ends _ _ _ _ _ _ Hl) as [->|[->|[->| ->]]]; [by eexists..|].
    by eapply tr_ok_weak, run_wire_ok.
  - split; [by apply (fails_post _ _ _ _ Command_wire_ok (run_wire_ok _ _ _ Hok Hps) Hs)|].
    exists ps, (s_tr σ), e, s', (shared s'). split_and!; [done|done|by destruct s'].
Qed.

Lemma has_run_step B σ0 σ σ' : initial σ0 -> sys_ok B σ -> sys_ok B σ' -> sys_step σ σ' ->
  has_run (s_tr σ0) (s_phase σ) (s_tr σ) -> has_run (s_tr σ0) (s_phase σ') (s_tr σ').
Proof.
  intros [Hok _] Hσ Hσ' Hstep Hr. destruct Hσ' as [Hsh' _]. destruct Hstep as
    [w c Hw Hc|w t p wd Hw Hp|w t a Hw Hp|w t wd Hw Ha Hp|o s' q' ph Hl Ho|fl evs1 evs2 r s' Hph Hd|r s' Hph Hrel|st Hph|Hh|h q' Hh];
    cbn [s_phase s_tr acted calling] in *.
  - exact Hr.
  - exact (has_run_shared _ _ _ _ Hok Hsh' Hr).
  - exact Hr.
  - exact (has_run_shared _ _ _ _ Hok Hsh' Hr).
  - exact (has_run_loop _ _ _ _ _ _ _ Hok Hσ Hr Hl Ho).
  - pose proof (has_run_weak _ _ _ Hok Hr) as Hwk. exact (proj1 (wp_inv _ _ _ _ _ _ (wp_disconnect evs1 evs2 _ Hwk) Hd)).
  - exact (release_weak _ _ (has_run_weak _ _ _ Hok Hr) Hsh' Hrel).
  - rewrite Hph in Hr. exact Hr.
  - exact Hr.
  - exact Hr.
Qed.

Lemma steps_ok σ0 σ : initial σ0 -> rtc sys_step σ0 σ -> sys_ok False σ /\ has_run (s_tr σ0) (s_phase σ) (s_tr σ).
Proof.
  intros Hi Hs. revert σ Hs. apply rtc_ind_r.
  - split; [by apply initial_ok|]. destruct Hi as (_ & _ & _ & -> & _). eexists. apply run_nil.
  - intros σ σ' _ Hstep [Hok Hrun]. assert (sys_ok False σ') as Hok' by (by eapply sys_ok_step). split; [done|].
    exact (has_run_step _ _ _ _ Hi Hok Hok' Hstep Hrun).
Qed.

(** A task never gets stuck, but for the panic of a subscription. *)
Lemma advance_safe o w p (wd : World Q) : tamed o p -> shared_ok (w_shared wd) -> (forall f k, p <> AwaitSub f k) ->
  exists p' wd', advance w p wd = (Ret p', wd').
Proof.
  intros Hp Hsh Hn. destruct p as [a|m|c held k|f k|f k]; cbn [advance].
  - by eexists _, _.
  - specialize (Hp wd Hsh). destruct (m wd) as [[p'|e| | |] wd']; by eauto.
  - destruct (cq_send c (w_queue wd)). eauto.
  - destruct Hp as [[_ Hr] _]. unfold PublishFuture_poll, mbind, stm_bind. cbn. rewrite Hr.
    destruct (access_notifier_map _ _ !! _) as [[| |]|]; cbn; eauto.
  - by destruct (Hn f k).
Qed.

Lemma cancel_safe o p (wd : World Q) : tamed o p -> at_await p = true -> (forall f k, p <> AwaitSub f k) ->
  exists wd', cancel p wd = (Ret tt, wd').
Proof.
  intros Hp Ha Hn. destruct p as [a|m|c [f|] k|f k|f k]; try done; cbn [cancel].
  - unfold in_shared, zoom, PublishFuture_drop. destruct (fut_result f); by eexists.
  - by eexists.
  - unfold in_shared, zoom, PublishFuture_drop. destruct (fut_result f); by eexists.
  - by destruct (Hn f k).
Qed.

(** C12: Composed with the tasks that call the client's methods, as [Call_ok]
    asks, and with the handle that shuts it down, in every interleaving, the
    transceiver does nothing but take the steps of a run in which every command
    encodes a valid packet. The assumptions of the theorems on runs hold in the
    system, and so do their conclusions: as long as the task is in its main
    loop, and when it leaves it without an error, the invariant holds, and all
    that is to be sent since the start decodes to the packets of a session;
    when it leaves it with an error, there was such a run and then one step that
    failed, what has been sent is a prefix of such packets, and the part of
    the invariant holds that the disconnection needs, as it does until the end. *)
Theorem system_refines_runs σ0 σ : initial σ0 -> rtc sys_step σ0 σ ->
  let spoken_to s := exists ps out, run_of Command_wire (s_tr σ0) ps s /\ tr_ok s /\
    stream s = stream (s_tr σ0) ++ out /\ speaks out in
  match s_phase σ with
  | Running | Reading | Stopping false => spoken_to (s_tr σ)
  | Stopping true =>
    tr_weak (s_tr σ) /\ exists s1 e s2 sh more, spoken_to s1 /\ fails Command_wire s1 e s2 /\
      s_tr σ = with_shared sh s2 /\ speaks more /\ sent_prefix (stream s1 ++ more) (s_tr σ)
  | Disconnected _ | Over _ => tr_weak (s_tr σ)
  end.
Proof.
  intros Hi Hs spoken_to. destruct (steps_ok σ0 σ Hi Hs) as [_ Hr]. destruct Hi as (Hok & Hw & _).
  assert (forall s, (exists ps, run_of Command_wire (s_tr σ0) ps s) -> spoken_to s) as Hrun.
  { intros s [ps Hps]. destruct (run_spoken _ _ _ Hok Hw Hps) as [_ (out & Hst & Hsp)].
    exists ps, out. split_and!; [done|by eapply run_wire_ok|done|done]. }
  destruct (s_phase σ) as [| |[|]|r|st]; [exact (Hrun _ Hr)|exact (Hrun _ Hr)| |exact (Hrun _ Hr)|exact Hr|exact Hr].
  destruct Hr as (Hwk & ps & s1 & e & s2 & sh & Hr & Hf & Es). split; [done|].
  destruct (run_spoken _ _ _ Hok Hw Hr) as [Hw1 _].
  destruct (fails_spoken s1 e s2 (run_wire_ok _ _ _ Hok Hr) Hw1 Hf) as (more & Hm & Hpre).
  exists s1, e, s2, sh, more. split_and!; [by apply Hrun; exists ps|done|done|done|]. by rewrite Es.
Qed.

(** C13: In every state that the system reaches, with calls as [Call_ok] asks,
    nothing panics, accesses a buffer out of range or reads an uninitialised
    byte: no step of the main loop, whatever the connection and the queue give
    it, and no step of a task that is polled or cancelled, except where it waits
    for a subscription. Once the main loop has ended, with an error or
    without, the disconnection and the release of those who wait always come to
    their end. (The loop that reads from the connection need not, see
    [malformed_header_spins]: here its turns are steps of their own.) *)
Theorem system_safe σ0 σ : initial σ0 -> rtc sys_step σ0 σ ->
  (forall o s' q', loop_step (s_tr σ) (s_queue σ) (s_phase σ) o s' q' ->
     match o with Ret _ | Throw _ => True | _ => False end) /\
  (forall failed evs1 evs2, s_phase σ = Stopping failed -> exists r s', disconnect_sequence evs1 evs2 (s_tr σ) = (Ret r, s')) /\
  (forall r, s_phase σ = Disconnected r -> exists s', release_waiters (s_tr σ) = (Ret tt, s')) /\
  (forall w t, s_tasks σ !! w = Some t -> (forall f k, t_prog t <> AwaitSub f k) ->
     (exists p wd, advance w (t_prog t) (world_of σ) = (Ret p, wd)) /\
     (at_await (t_prog t) = true -> exists wd, cancel (t_prog t) (world_of σ) = (Ret tt, wd))).
Proof.
  intros Hi Hs. destruct (steps_ok σ0 σ Hi Hs) as [Hσ Hr]. destruct Hi as [Hok _]. split_and!.
  - intros o s' q' Hl. eapply loop_safe; [exact Hσ| |exact Hl].
    destruct (loop_phase _ _ _ _ _ _ Hl) as [E|E]; rewrite E in Hr; destruct Hr as [ps Hr]; by eapply run_wire_ok.
  - intros failed evs1 evs2 _.
    destruct (wp_run_ret _ _ _ (wp_disconnect evs1 evs2 _ (has_run_weak _ _ _ Hok Hr))) as (r & s' & E & _). by exists r, s'.
  - intros r _. destruct (release_run (s_tr σ)) as (s' & E & _). by exists s'.
  - intros w t Hw Hn. destruct Hσ as (Hsh & _ & own & _ & _ & Htasks). destruct (Htasks w t Hw) as [Hp _]. split.
    + by apply (advance_safe (own w)).
    + intros Ha. by apply (cancel_safe (own w)).
Qed.

(** C14: No task that waits for an acknowledgement is forgotten. In every
    execution in which the counter of packet IDs has not started again, a task
    whose last poll left it waiting has its waker registered at its stage, or
    has been woken since; and if the transceiver releases those who wait in
    that state, then it has. *)
Theorem no_waiter_forgotten σ0 σ w t f k n :
  initial σ0 -> rtc (fun σ σ' => sys_step σ σ' /\ below σ σ') σ0 σ ->
  s_tasks σ !! w = Some t -> t_prog t = AwaitPublish f k -> t_parked t = Some n ->
  (has_waker (shared (s_tr σ)) (fut_notifier f) (fut_packet_id f) w \/ w ∈ drop n (woken (s_tr σ))) /\
  forall s', release_waiters (s_tr σ) = (Ret tt, s') -> w ∈ drop n (woken s').
Proof.
  intros Hi Hs Hw Hp Hn. assert (sys_ok True σ) as (_ & _ & own & _ & _ & Htasks).
  { revert σ Hs t Hw Hp Hn. intros σ Hs _ _ _ _. revert σ Hs. apply rtc_ind_r; [by apply initial_ok|].
    intros σ1 σ2 _ [Hstep Hb] Hok. by eapply sys_ok_step. }
  destruct (Htasks w t Hw) as [_ Hk]. specialize (Hk I). split.
  - unfold waker_kept in Hk. rewrite Hp, Hn in Hk. apply Hk.
  - intros s' E. pose proof (waker_kept_keeps _ _ w t (respects_run _ _ _ _ gentle_release E) Hk) as Hk'.
    unfold waker_kept in Hk'. rewrite Hp, Hn in Hk'. destruct Hk' as [_ [Hr|]]; [|done].
    destruct (release_run (s_tr σ)) as (s1 & E1 & (R1 & R2 & R3 & _) & _). rewrite E in E1. injection E1 as <-.
    exfalso. unfold has_waker in Hr. destruct (fut_notifier f); cbn in Hr;
      rewrite ?R1, ?R2, ?R3, lookup_fmap, fmap_Some in Hr; by destruct Hr as (? & _ & [=]).
Qed.

(** Once the task is over it stays so, and wakes nobody. *)
Lemma over_step σ σ' st : s_phase σ = Over st -> sys_step σ σ' ->
  s_phase σ' = Over st /\ woken (s_tr σ') = woken (s_tr σ).
Proof.
  intros Hph [| | | |? ? ? ? Hl|? ? ? ? ? Hr|? ? Hr|st' Hr| |]; cbn; try done; try (split; congruence).
  destruct (loop_phase _ _ _ _ _ _ Hl); congruence.
Qed.

Lemma over_steps σ σ' st : s_phase σ = Over st -> rtc sys_step σ σ' ->
  s_phase σ' = Over st /\ woken (s_tr σ') = woken (s_tr σ).
Proof.
  intros Hph. revert σ'. apply rtc_ind_r; [done|]. intros σ1 σ2 _ Hstep [Hp Hw].
  destruct (over_step _ _ _ Hp Hstep) as [? Hw']. split; [done|congruence].
Qed.


(** Shutting down through the handle. Its future is done only when the
    task is over, and returns exactly the status the task ended with, whether
    or not its command was still accepted; it waits for nothing else: once the
    task is over, one more poll after the command finishes it. *)
Theorem shutdown_handle_status σ0 σ : initial σ0 -> s_handle σ0 = HandleIdle -> rtc sys_step σ0 σ ->
  (forall r, s_handle σ = HandleDone r -> exists st, r = Ok st /\ s_phase σ = Over st) /\
  (forall st, s_phase σ = Over st -> s_handle σ = HandleJoining ->
     sys_step σ (mkSystem (s_tr σ) (s_queue σ) (Over st) (HandleDone (Ok st)) (s_tasks σ))).
Proof.
  intros Hi Hidle Hs. split.
  - revert σ Hs. apply (rtc_ind_r (fun σ => forall r, s_handle σ = HandleDone r -> exists st, r = Ok st /\ s_phase σ = Over st));
      [by intros r; rewrite Hidle|]. intros σ σ' _ Hstep IH r.
    destruct Hstep as [| | | |o s' q' ph Hl|fl evs1 evs2 b s' Hph|b s' Hph|st Hph| |h q' Hh]; cbn;
      try apply IH; try done; try (intros Hr; destruct (IH _ Hr) as (st' & -> & Hst); exists st'; split; [done|congruence]).
    { intros Hr. destruct (IH _ Hr) as (st' & _ & Hst). destruct (loop_phase _ _ _ _ _ _ Hl); congruence. }
    intros ->. destruct (s_handle σ) as [| | |r0]; cbn in Hh; [done| | |injection Hh as <- _; by apply IH].
    + by destruct (cq_send CDisconnect (s_queue σ)) as [[|] ?].
    + destruct (s_phase σ) as [| | | |st]; cbn in Hh; try done. injection Hh as <- _. by exists st.
  - intros st Hph Hh. rewrite <- Hph. apply sys_handle. by rewrite Hph, Hh.
Qed.

(** *** A publication after the end *)

Lemma advance_map {A B} w (p p' : prog Q A) (g : A -> B) (wd wd' : World Q) : advance w p wd = (Ret p', wd') ->
  advance w (x ← p; mret (g x)) wd = (Ret (x ← p'; mret (g x)), wd').
Proof.
  destruct p as [a|m|c held k|f k|f k]; cbn [advance mbind prog_mbind prog_bind].
  - by intros [= <- <-].
  - intros E. by rewrite E.
  - destruct (cq_send c (w_queue wd)) as [[r|] q]; by intros [= <- <-].
  - destruct (PublishFuture_poll w (f, w_shared wd)) as [[[r|]|e| | |] [f' sh]]; try done; by intros [= <- <-].
  - destruct (SubscribeFuture_poll w (f, w_shared wd)) as [[[r|]|e| | |] [f' sh]]; try done; by intros [= <- <-].
Qed.

(** Polling a task again and again. *)
Lemma poll_steps {A} (g : A -> Answer) n w (p p' : prog Q A) σ t wd :
  s_tasks σ !! w = Some t -> t_prog t = (x ← p; mret (g x)) -> advances n w p (world_of σ) = (Ret p', wd) ->
  exists σ' t', rtc sys_step σ σ' /\ s_tasks σ' !! w = Some t' /\ t_prog t' = (x ← p'; mret (g x)) /\
    world_of σ' = wd /\ s_phase σ' = s_phase σ /\ woken (s_tr σ') = woken (s_tr σ).
Proof.
  revert σ t p. induction n as [|n IH]; intros σ t p Ht Hp E; cbn [advances] in E.
  - injection E as <- <-. by exists σ, t.
  - unfold mbind at 1, stm_bind in E. destruct (advance w p (world_of σ)) as [[p1|e| | |] wd1] eqn:E1; try done.
    pose proof (advance_map w p p1 g _ _ E1) as Ea. rewrite <- Hp in Ea.
    pose proof (sys_poll σ w t _ _ Ht Ea) as Hstep. set (σ1 := acted σ wd1 _) in Hstep.
    assert (world_of σ1 = wd1) as Hw1 by (by destruct wd1). rewrite <- Hw1 in E.
    destruct (IH σ1 _ p1 (lookup_insert_eq _ _ _) eq_refl E) as (σ' & t' & Hs & Ht' & Hp' & Hw & Hph & Hk).
    exists σ', t'. split_and!; [by eapply rtc_l|done..].
Qed.

(** C37: A publication can be made after the task has released those who wait
    and before its queue is closed. It is accepted, and then waits for ever:
    its waker is registered with a task that is over, and nobody is woken any
    more, whatever happens. *)
Theorem late_publication_waits_forever σ st w (topic : str) (payload : bytes) (retain : bool) :
  s_phase σ = Over st -> shared_ok (shared (s_tr σ)) -> accepts (s_queue σ) -> message_ok topic payload ->
  s_tasks σ !! w = None ->
  let σ1 := calling w (CallPublishQos1 topic payload retain true) σ in
  sys_step σ σ1 /\ exists σ' f k, rtc sys_step σ1 σ' /\
    s_tasks σ' !! w = Some (mkTask (AwaitPublish f k) (Some (length (woken (s_tr σ))))) /\
    has_waker (shared (s_tr σ')) (fut_notifier f) (fut_packet_id f) w /\
    forall σ'', rtc sys_step σ' σ'' -> w ∉ drop (length (woken (s_tr σ))) (woken (s_tr σ'')).
Proof.
  intros Hph Hsh Ha Hm Hw σ1. split; [by apply sys_call|]. destruct Hm as [[Ht _] Hl].
  set (cmd := publish_cmd topic payload AtLeastOnce retain (shared (s_tr σ))).
  destruct (publish_method_waits 0 w topic payload AtLeastOnce retain AckStage (world_of σ1) Hsh Ht Hl Ha) as (q & _ & E).
  fold cmd in E. destruct (poll_steps AnsPublish _ w _ _ σ1 _ _ (lookup_insert_eq _ _ _) eq_refl E)
    as (σ2 & t2 & Hs & Ht2 & Hp2 & Hw2 & Hph2 & Hk2). clear E.
  set (f := Client.future_of cmd AckStage) in *. set (k := fun b => x ← publish_result (Q := Q) b; mret (AnsPublish x)).
  set (p := AwaitPublish (Q := Q) f k).
  assert (access_notifier_map AckStage (shared (s_tr σ2)) !! cmd_packet_id cmd = Some WithoutWaker) as Hent.
  { change (shared (s_tr σ2)) with (w_shared (world_of σ2)). rewrite Hw2. apply registered_lookup. }
  pose proof (poll_waiting (E := Empty_set) f w WithoutWaker (shared (s_tr σ2)) eq_refl Hent ltac:(done)) as Hpoll.
  assert (t_prog t2 = p) as Hp by exact Hp2.
  assert (advance w (t_prog t2) (world_of σ2) = (Ret p, with_w_shared (set_notifier_map AckStage
    (<[cmd_packet_id cmd := WithWaker w]> (access_notifier_map AckStage (shared (s_tr σ2)))) (shared (s_tr σ2))) (world_of σ2))) as Ea.
  { rewrite Hp. cbn [advance p w_shared world_of]. by rewrite Hpoll. }
  assert (suspends w (t_prog t2) (world_of σ2) = true) as Hsus.
  { rewrite Hp. cbn [suspends p w_shared world_of]. by rewrite Hpoll. }
  pose proof (sys_poll σ2 w t2 _ _ Ht2 Ea) as Hstep. rewrite Hsus, Hk2 in Hstep.
  eexists _, f, k. split_and!.
  - eapply rtc_r; [exact Hs|exact Hstep].
  - apply lookup_insert_eq.
  - unfold has_waker. cbn. by rewrite lookup_insert_eq.
  - intros σ'' Hs''. eapply over_steps in Hs'' as [_ Hwk]; [|cbn; rewrite Hph2; exact Hph].
    rewrite Hwk. cbn. rewrite Hk2. cbn. rewrite drop_all. apply not_elem_of_nil.
Qed.
End system.
