(* ===== verification/SystemRuns.v ===== *)
(** * Executions of the system

    A scheduler that follows a list of decisions, sound for the steps of the
    system, and with it concrete executions on which the theorems about the
    system are instantiated: a publication that is acknowledged, a connection
    that the broker closes, a shutdown through the handle, and a publication
    that comes too late. *)

From Stdlib Require Import ZArith Lia.
From stdpp Require Import base list numbers gmap relations.
From S2P Require Import Prelude Base ByteIO Packets PacketProps Transport PacketReader.
From S2P Require Import Subscription Shared Transceiver TransceiverOut TransceiverProps Samples.
From S2P Require Import TransceiverRuns Shutdown Futures Wakers Client Connect Wire Discipline System.

Local Open Scope Z_scope.

Inductive Decision : Type :=
| DoCall (w : nat) (c : Call)
| DoPoll (w : nat)
| DoReadReady
| DoRead
| DoCommand
| DoDisconnect (evs1 evs2 : list FlushEvent)
| DoRelease
| DoShutdown
| DoHandle.

Section schedule.
#[local] Existing Instance production.
Context `{ClockOk} {T X : Type} `{TransportOk T} `{RecipientsOk X}.
Context {Q : Type} `{CommandQueueOk Q} `{!CommandReceiver Q}.
Abbreviation system := (System (T := T) (X := X) (Q := Q)).
Implicit Types (σ : system).

(** The system after a step of the main loop that ends in [o]. *)
Definition looped (o : outcome io_error Phase) (s' : Transceiver T X) (q' : Q) σ : option system :=
  match next_phase o with Some ph => Some (mkSystem s' q' ph (s_handle σ) (s_tasks σ)) | None => None end.

Definition decide_step (a : Decision) σ : option system :=
  match a with
  | DoCall w c => match s_tasks σ !! w with None => Some (calling w c σ) | Some _ => None end
  | DoPoll w =>
    match s_tasks σ !! w with
    | Some t =>
      match advance w (t_prog t) (world_of σ) with
      | (Ret p, wd) => Some (acted σ wd (<[w := mkTask p
          (if suspends w (t_prog t) (world_of σ) then Some (length (woken (s_tr σ))) else None)]> (s_tasks σ)))
      | _ => None
      end
    | None => None
    end
  | DoReadReady =>
    match s_phase σ with
    | Running =>
      if event_enabled (s_tr σ) (ReadReady (Ok tt)) then
        let '(o, s') := on_transport pre_read (s_tr σ) in
        looped (outcome_map (fun b : bool => if b then Reading else Running) o) s' (s_queue σ) σ
      else None
    | _ => None
    end
  | DoRead =>
    match s_phase σ, recv (rx_pkt (s_tr σ), transport (s_tr σ)) with
    | Reading, (Ret (Incoming p), rt) =>
      let '(o, s') := process_packet p (with_reader rt (s_tr σ)) in
      looped (outcome_map (fun stop : bool => if stop then after_step WantStop else Reading) o) s' (s_queue σ) σ
    | Reading, (Ret NeedMoreData, rt) => looped (Ret Reading) (with_reader rt (s_tr σ)) (s_queue σ) σ
    | Reading, (Ret ConnectionClosed, rt) =>
      looped (Ret (after_step TConnectionClosed)) (with_reader rt (s_tr σ)) (s_queue σ) σ
    | Reading, (Throw e, rt) =>
      looped (if is_would_block e then Ret (after_step WantContinue) else Throw e) (with_reader rt (s_tr σ)) (s_queue σ) σ
    | _, _ => None
    end
  | DoCommand =>
    match s_phase σ, cq_recv (s_queue σ) with
    | Running, (Ready c, q') =>
      if event_enabled (s_tr σ) (CommandReceived c) then
        let '(o, s') := on_command c (s_tr σ) in looped (outcome_map after_step o) s' q' σ
      else None
    | _, _ => None
    end
  | DoDisconnect evs1 evs2 =>
    match s_phase σ, disconnect_sequence evs1 evs2 (s_tr σ) with
    | Stopping _, (Ret r, s') => Some (mkSystem s' (s_queue σ) (Disconnected r) (s_handle σ) (s_tasks σ))
    | _, _ => None
    end
  | DoRelease =>
    match s_phase σ, release_waiters (s_tr σ) with
    | Disconnected r, (Ret tt, s') =>
      Some (mkSystem s' (s_queue σ) (Over (mkShutdownStatus (disconnect_sent s') (default false r))) (s_handle σ) (s_tasks σ))
    | _, _ => None
    end
  | DoShutdown =>
    match s_handle σ with
    | HandleIdle => Some (mkSystem (s_tr σ) (s_queue σ) (s_phase σ) HandleSending (s_tasks σ))
    | _ => None
    end
  | DoHandle =>
    let '(h, q') := ClientShutdownHandle_disconnect (join_of (s_phase σ)) (s_handle σ) (s_queue σ) in
    Some (mkSystem (s_tr σ) q' (s_phase σ) h (s_tasks σ))
  end.

Definition decision_ok (a : Decision) : Prop := match a with DoCall _ c => Call_ok c | _ => True end.

Lemma looped_sound o s' q' σ σ' : loop_step (s_tr σ) (s_queue σ) (s_phase σ) o s' q' -> looped o s' q' σ = Some σ' -> sys_step σ σ'.
Proof. unfold looped. intros Hl. destruct (next_phase o) eqn:Ho; [|done]. intros [= <-]. by eapply sys_loop. Qed.

Lemma decide_sound a σ σ' : decision_ok a -> decide_step a σ = Some σ' -> sys_step σ σ'.
Proof.
  destruct a as [w c|w| | | |evs1 evs2| | |]; cbn -[looped event_enabled]; intros Ha E.
  - destruct (s_tasks σ !! w) eqn:Hw; [done|]. injection E as <-. by apply sys_call.
  - destruct (s_tasks σ !! w) as [t|] eqn:Hw; [|done].
    destruct (advance w (t_prog t) (world_of σ)) as [[p|e| | |] wd] eqn:Ep; try done. injection E as <-. by apply sys_poll.
  - destruct (s_phase σ) eqn:Hp; try done. destruct (event_enabled _ _) eqn:He; [|done].
    destruct (on_transport pre_read (s_tr σ)) as [o s'] eqn:Er. eapply looped_sound; [|exact E]. rewrite Hp. by apply loop_pre_read.
  - destruct (s_phase σ) eqn:Hp; try done. destruct (recv _) as [o rt] eqn:Er.
    destruct o as [[p| |]|e| | |]; try done; try (eapply looped_sound; [|exact E]; rewrite Hp; exact (loop_recv _ _ _ rt Er ltac:(done))).
    destruct (process_packet p _) as [o s'] eqn:Ep. eapply looped_sound; [|exact E]. rewrite Hp. by eapply loop_handle.
  - destruct (s_phase σ) eqn:Hp; try done. destruct (cq_recv (s_queue σ)) as [[c|] q'] eqn:Eq; [|done].
    destruct (event_enabled _ _) eqn:He; [|done]. destruct (on_command c (s_tr σ)) as [o s'] eqn:Ec.
    eapply looped_sound; [|exact E]. rewrite Hp. by eapply loop_command.
  - destruct (s_phase σ) eqn:Hp; try done. destruct (disconnect_sequence _ _ _) as [[r|e| | |] s'] eqn:Ed; try done.
    injection E as <-. by eapply sys_disconnect.
  - destruct (s_phase σ) eqn:Hp; try done. destruct (release_waiters _) as [[[]|e| | |] s'] eqn:Er; try done.
    injection E as <-. by eapply sys_release.
  - destruct (s_handle σ) eqn:Hh; try done. injection E as <-. by apply sys_shutdown.
  - destruct (ClientShutdownHandle_disconnect _ _ _) as [h q'] eqn:Eh. injection E as <-. by apply sys_handle.
Qed.

(** Following a list of decisions, as long as the counter of IDs only grows. *)
Fixpoint schedule (acts : list Decision) σ : option system :=
  match acts with
  | [] => Some σ
  | a :: acts =>
    match decide_step a σ with
    | Some σ' =>
      if next_packet_id (shared (s_tr σ)) <=? next_packet_id (shared (s_tr σ')) then schedule acts σ' else None
    | None => None
    end
  end.

Lemma schedule_sound acts σ σ' : Forall decision_ok acts -> schedule acts σ = Some σ' ->
  rtc (fun σ σ' => sys_step σ σ' /\ below σ σ') σ σ'.
Proof.
  intros Ha. revert σ. induction Ha as [|a acts Ha Hacts IH]; intros σ; cbn.
  - intros [= <-]. reflexivity.
  - destruct (decide_step a σ) as [σ1|] eqn:E1; [|done]. destruct (_ <=? _) eqn:Hb; [|done]. intros E.
    eapply rtc_l; [|by apply IH]. split; [by eapply decide_sound|]. unfold below. by apply Z.leb_le.
Qed.

Lemma schedule_steps acts σ σ' : Forall decision_ok acts -> schedule acts σ = Some σ' -> rtc sys_step σ σ'.
Proof.
  intros Ha E. eapply rtc_subrel; [|by eapply schedule_sound]. by intros ? ? [? _].
Qed.
End schedule.

(* ------------------------------------------------------------------ *)
(** ** Concrete executions                                             *)
(* ------------------------------------------------------------------ *)

(** A queue with room for everything, and the number of commands taken. *)
Record FifoQueue : Type := mkFifo { fq_taken : nat; fq_closed : bool; fq_history : list Command }.

#[global] Instance Fifo_queue : CommandQueue FifoQueue := {|
  cq_try_send c q :=
    if fq_closed q then (Closed, q) else (Sent, mkFifo (fq_taken q) false (fq_history q ++ [c]));
  cq_send c q :=
    if fq_closed q then (Ready (Err tt), q) else (Ready (Ok tt), mkFifo (fq_taken q) false (fq_history q ++ [c]));
  cq_is_closed := fq_closed
|}.

#[global] Instance Fifo_ok : CommandQueueOk FifoQueue.
Proof.
  refine {| enqueued := fq_history |}; intros c q r q'; cbn; destruct (fq_closed q) eqn:Ec;
    intros [= <- <-]; rewrite ?app_nil_r; split_and!; cbn; by rewrite ?Ec.
Defined.

Lemma Fifo_accepts (q : FifoQueue) : fq_closed q = false -> accepts q.
Proof. intros Hc c. cbn. rewrite Hc. by eexists. Qed.

#[global] Instance Fifo_receiver : CommandReceiver FifoQueue.
Proof.
  refine {|
    cq_recv q := match fq_history q !! fq_taken q with
                 | Some c => (Ready (Some c), mkFifo (S (fq_taken q)) (fq_closed q) (fq_history q))
                 | None => (PollPending, q)
                 end;
    cq_close q := mkFifo (fq_taken q) true (fq_history q) |}.
  - intros q r q'. destruct (fq_history q !! fq_taken q) as [c|] eqn:E; intros [= <- <-]; (split; [done|]).
    + intros c' [= <-]. cbn. by eapply list_elem_of_lookup_2.
    + done.
  - done.
Defined.

Section samples.
#[local] Existing Instances production sample_clock sample_clock_ok.
Abbreviation sample_system := (System (T := TcpTransport SimStream) (X := SimRecipients) (Q := FifoQueue)).

Definition sample_on (arrivals : list bytes) : sample_system :=
  mkSystem (sample_spawned arrivals) (mkFifo 0 false []) Running HandleIdle ∅.

Lemma sample_on_initial arrivals : initial (sample_on arrivals).
Proof.
  destruct (started_ok (sample_data arrivals) 0 (mkSimRecipients [] [] []) (sample_spawned arrivals)
    shared_ok_new ltac:(done) (sample_started _)) as (Hok & _ & _ & _ & Hp & Hs).
  refine (conj Hok (conj _ (conj eq_refl (conj eq_refl eq_refl)))). split; cbn.
  - rewrite Hp. apply map_Forall_empty.
  - rewrite Hs. apply map_Forall_empty.
Qed.

(** A connection that the broker accepts. *)
Definition sample_start : sample_system := sample_on [[0x20; 2; 1; 0]].

Lemma sample_initial : initial sample_start.
Proof. apply sample_on_initial. Qed.

(** The broker accepts the connection; task 40 publishes with QoS 1, and its
    command is taken. *)
Definition sample_decisions : list Decision :=
  [DoReadReady; DoRead; DoRead; DoRead; DoCall 40 (CallPublishQos1 [97] [120] false true); DoPoll 40; DoPoll 40; DoPoll 40; DoPoll 40; DoCommand].

Lemma sample_decisions_ok : Forall decision_ok sample_decisions.
Proof. repeat constructor; try done; apply sample_topic. Qed.

(** Or the client is shut down at once, on a stream that accepts nothing more
    before the time is over. *)
Definition sample_shutdown : list Decision :=
  [DoReadReady; DoRead; DoRead; DoRead; DoShutdown; DoHandle; DoCommand; DoDisconnect [] []; DoRelease].

Lemma sample_shutdown_ok : Forall decision_ok sample_shutdown.
Proof. by repeat constructor. Qed.

Definition reached (acts : list Decision) : sample_system := default sample_start (schedule acts sample_start).

Definition completes (acts : list Decision) : bool :=
  match schedule acts sample_start with Some _ => true | None => false end.

Lemma reached_eq acts : completes acts = true -> schedule acts sample_start = Some (reached acts).
Proof. unfold completes, reached. by destruct (schedule acts sample_start). Qed.

(** Task 40 waits for its acknowledgement. *)
Definition sample_parked (σ : sample_system) : option (PublishFuture * option nat) :=
  t ← s_tasks σ !! 40%nat; match t_prog t with AwaitPublish f _ => Some (f, t_parked t) | _ => None end.

Lemma parked_inv σ f n : sample_parked σ = Some (f, n) ->
  exists t k, s_tasks σ !! 40%nat = Some t /\ t_prog t = AwaitPublish f k /\ t_parked t = n.
Proof.
  unfold sample_parked. destruct (s_tasks σ !! 40%nat) as [t|]; [|done]. cbn.
  destruct (t_prog t) as [| | |f' k|] eqn:Ht; try done. intros [= <- <-]. by exists t, k.
Qed.

Lemma system_refines_runs_witness : exists ps, run_of Command_wire (s_tr sample_start) ps (s_tr (reached sample_decisions)) /\
  length (stream (s_tr (reached sample_decisions))) = 26%nat.
Proof.
  pose proof (system_refines_runs sample_start (reached sample_decisions) sample_initial) as Hs. cbv zeta in Hs.
  assert (s_phase (reached sample_decisions) = Running) as E by (vm_compute; reflexivity). rewrite E in Hs.
  destruct Hs as (ps & out & Hr & _).
  - eapply schedule_steps; [exact sample_decisions_ok|]. apply reached_eq. vm_compute. reflexivity.
  - exists ps. split; [exact Hr|]. vm_compute. reflexivity.
Defined.

Lemma system_safe_witness : exists p wd wd',
  let t := default (mkTask (Done AnsUnit) None) (s_tasks (reached sample_decisions) !! 40%nat) in
  advance 40 (t_prog t) (world_of (reached sample_decisions)) = (Ret p, wd) /\
  cancel (t_prog t) (world_of (reached sample_decisions)) = (Ret tt, wd').
Proof.
  destruct (system_safe sample_start (reached sample_decisions) sample_initial) as (_ & _ & _ & Ht).
  { eapply schedule_steps; [exact sample_decisions_ok|]. apply reached_eq. vm_compute. reflexivity. }
  assert (sample_parked (reached sample_decisions) = Some (mkPublishFuture 1 AckStage None, Some 0%nat)) as Hp
    by (vm_compute; reflexivity).
  apply parked_inv in Hp as (t & k & Hw & Hp & _). rewrite Hw. cbn [default].
  destruct (Ht 40%nat t Hw) as [(p & wd & Ea) Hc]; [intros f' k'; by rewrite Hp|].
  destruct Hc as [wd' Ec]; [by rewrite Hp|]. exists p, wd, wd'. exact (conj Ea Ec).
Defined.

Lemma no_waiter_forgotten_witness :
  has_waker (shared (s_tr (reached sample_decisions))) AckStage 1 40 \/
  40%nat ∈ drop 0 (woken (s_tr (reached sample_decisions))).
Proof.
  assert (sample_parked (reached sample_decisions) = Some (mkPublishFuture 1 AckStage None, Some 0%nat)) as Hp
    by (vm_compute; reflexivity).
  apply parked_inv in Hp as (t & k & Hw & Hp & Hn).
  apply (no_waiter_forgotten sample_start (reached sample_decisions) 40 t (mkPublishFuture 1 AckStage None) k 0 sample_initial);
    [|exact Hw|exact Hp|exact Hn].
  eapply schedule_sound; [exact sample_decisions_ok|]. apply reached_eq. vm_compute. reflexivity.
Defined.

(** A broker that accepts the connection and closes it; between the two, task 40
    publishes. *)
Definition sample_closing : sample_system :=
  default sample_start (schedule
    [DoReadReady; DoRead; DoRead; DoCall 40 (CallPublishQos1 [97] [120] false true); DoPoll 40; DoPoll 40; DoPoll 40; DoPoll 40]
    (sample_on [[0x20; 2; 1; 0]; []])).


(** The task is over, the handle waits for it. *)
Lemma shutdown_handle_status_witness :
  let σ := reached sample_shutdown in let st := mkShutdownStatus false false in
  sys_step σ (mkSystem (s_tr σ) (s_queue σ) (Over st) (HandleDone (Ok st)) (s_tasks σ)).
Proof.
  intros σ st. apply (shutdown_handle_status sample_start σ sample_initial).
  - reflexivity.
  - eapply schedule_steps; [exact sample_shutdown_ok|]. apply reached_eq. vm_compute. reflexivity.
  - vm_compute. reflexivity.
  - vm_compute. reflexivity.
Defined.

(** Task 41 publishes when the task is over and the queue is still open. *)
Lemma late_publication_waits_forever_witness :
  let σ := reached sample_shutdown in
  exists σ' f k, s_tasks σ' !! 41%nat = Some (mkTask (AwaitPublish f k) (Some (length (woken (s_tr σ))))) /\
    forall σ'', rtc sys_step σ' σ'' -> 41%nat ∉ drop (length (woken (s_tr σ))) (woken (s_tr σ'')).
Proof.
  intros σ.
  destruct (late_publication_waits_forever σ (mkShutdownStatus false false) 41 [97] [120] false) as (_ & σ' & f & k & _ & Ht & _ & Hn).
  - vm_compute. reflexivity.
  - split; vm_compute; split; congruence.
  - apply Fifo_accepts. vm_compute. reflexivity.
  - split; [split; [apply sample_topic|reflexivity]|reflexivity].
  - vm_compute. reflexivity.
  - exists σ', f, k. exact (conj Ht Hn).
Defined.
End samples.
