(* ===== verification/TlsConfig.v ===== *)
(** * [tls/] and the TLS part of [options.rs]: certificates and keys

    Loading certificates and private keys, client authentication, and the
    constructors of options with TLS. rustls, rustls-pemfile and webpki are
    parameters. The theorems relate the loop that looks for a private key to
    the sections of a PEM file, and say what each constructor changes. *)

From Stdlib Require Import ZArith Lia.
From stdpp Require Import base list numbers.
From S2P Require Import Prelude Base ByteIO Packets PacketProps Transport PacketReader.
From S2P Require Import Subscription Shared Transceiver TransceiverOut TransceiverProps Samples.
From S2P Require Import TransceiverRuns Shutdown Connect.

Local Open Scope Z_scope.

(* ------------------------------------------------------------------ *)
(** ** Data                                                            *)
(* ------------------------------------------------------------------ *)

Inductive CryptoBytes : Type :=
| Der (b : bytes)
| Pem (b : bytes).

(** [B] is webpki's error. *)
Inductive CryptoError (B : Type) : Type :=
| BadCert (e : B)
| CryptoIoError (e : io_error)
| NoValidItemsInPem
| InvalidPrivateKey.
Arguments BadCert {B} e.
Arguments CryptoIoError {B} e.
Arguments NoValidItemsInPem {B}.
Arguments InvalidPrivateKey {B}.

(** [rustls_pemfile::Item], as far as the crate tells its variants apart. *)
Inductive Item : Type :=
| PKCS8Key (der : bytes)
| RSAKey (der : bytes)
| ECKey (der : bytes)
| OtherItem.

(** [CertifiedKey]: a chain of certificates and a signing key. *)
Record CertifiedKey (K : Type) : Type := mkCertifiedKey { cert_chain : list bytes; signing_key : K }.
Arguments mkCertifiedKey {K} cert_chain signing_key.
Arguments cert_chain {K} c.
Arguments signing_key {K} c.

Record ClientCertResolver (K : Type) : Type := mkResolver { resolver_key : CertifiedKey K }.
Arguments mkResolver {K} resolver_key.
Arguments resolver_key {K} c.

(** How the server's certificate is verified: with a store of roots, or by
    [SkipServerCertVerification]. *)
Inductive Verifier (Store : Type) : Type :=
| RootCertificates (store : Store)
| SkipServerCertVerification.
Arguments RootCertificates {Store} store.
Arguments SkipServerCertVerification {Store}.

(** The libraries: [certs] and [read_one] of rustls-pemfile, the second on a
    reader that holds the bytes that are left; the store of roots with
    [add_parsable_certificates], which tells how many were added and how many
    ignored; webpki's [TrustAnchor]; the native certificates; and what the
    crate uses of [ClientConfig]. *)
Class CryptoLib (B A Store K D : Type) : Type := {
  pem_certs : bytes -> result (list bytes) io_error;
  read_one : bytes -> result (option Item) io_error * bytes;
  trust_anchor : bytes -> result A B;
  empty_store : Store;
  push_root : A -> Store -> Store;
  add_parsable_certificates : list bytes -> Store -> (nat * nat) * Store;
  load_native_certs : result (list bytes) io_error;
  any_supported_type : bytes -> option K;
  client_config : Verifier Store -> D;
  set_cert_resolver : ClientCertResolver K -> D -> D
}.

(** Every section that is read takes bytes from the reader. *)
Class CryptoLibOk (B A Store K D : Type) `{CryptoLib B A Store K D} : Prop :=
  read_one_consumes : forall rd x rd', read_one rd = (Ok (Some x), rd') -> (length rd' < length rd)%nat.

(* ------------------------------------------------------------------ *)
(** ** Operations                                                      *)
(* ------------------------------------------------------------------ *)

Section operations.
Context {B A Store K D St : Type} `{CryptoLib B A Store K D}.
Abbreviation crypto X := (stm St (CryptoError B) X).

Definition crypto_err {X E} (f : E -> CryptoError B) (r : result X E) : crypto X :=
  match r with Ok x => mret x | Err e => throw (f e) end.

(** The loop over the sections of a PEM file. *)
Fixpoint key_loop (fuel : nat) (rd : bytes) (opt_der : option bytes) : crypto (option bytes) :=
  match fuel with
  | O => out_of_fuel
  | S fuel =>
    let '(r, rd) := read_one rd in
    let next der := key_loop fuel rd (match opt_der with None => der | Some _ => opt_der end) in
    match r with
    | Ok (Some (PKCS8Key x)) => next (Some x)
    | Ok (Some (RSAKey x)) => next (Some x)
    | Ok (Some (ECKey x)) => next (Some x)
    | Ok (Some OtherItem) => next None
    | Ok None => mret opt_der
    | Err err => throw (CryptoIoError err)
    end
  end.

(** [cert] and [pk_der] of [from_bytes]. *)
Definition read_certs (cert_bytes : CryptoBytes) : crypto (list bytes) :=
  match cert_bytes with
  | Der bytes => mret [bytes]
  | Pem bytes => crypto_err CryptoIoError (pem_certs bytes)
  end.

Definition read_key (pk_bytes : CryptoBytes) : crypto bytes :=
  match pk_bytes with
  | Der bytes => mret bytes
  | Pem bytes =>
    opt_der ← key_loop (S (length bytes)) bytes None;
    match opt_der with Some der => mret der | None => throw NoValidItemsInPem end
  end.

Definition from_bytes (cert_bytes pk_bytes : CryptoBytes) : crypto (ClientCertResolver K) :=
  cert ← read_certs cert_bytes;
  pk_der ← read_key pk_bytes;
  match any_supported_type pk_der with
  | Some key => mret (mkResolver (mkCertifiedKey cert key))
  | None => throw InvalidPrivateKey
  end.

(** [ResolvesClientCert for ClientCertResolver]. *)
Definition has_certs (r : ClientCertResolver K) : bool := true.
Definition resolve (r : ClientCertResolver K) (acceptable_issuers : list bytes) (sigschemes : list Z)
    : option (CertifiedKey K) := Some (resolver_key r).

(** [ServerCertVerifier for SkipServerCertVerification]. *)
Definition verify_server_cert {E} (end_entity : bytes) (intermediates : list bytes) (server_name : str)
    : result unit E := Ok tt.

(** [self.connection_cfg.client_auth_cert_resolver = ..]. *)
Definition set_client_auth (r : ClientCertResolver K) (o : OptionsT D) : OptionsT D :=
  map_connection_cfg (set_cert_resolver r) o.

Definition enable_dangerous_non_verified_tls (o : OptionsT unit) : OptionsT D :=
  enable_tls_ex (client_config (Store := Store) SkipServerCertVerification) o.

Definition enable_tls (o : OptionsT unit) : result (OptionsT D) io_error :=
  match load_native_certs with
  | Err e => Err e
  | Ok certs =>
    let '(_, store) := add_parsable_certificates certs empty_store in
    Ok (enable_tls_ex (client_config (RootCertificates store)) o)
  end.

Definition enable_tls_custom_ca_cert (ca_cert_bytes : CryptoBytes) (o : OptionsT unit) : crypto (OptionsT D) :=
  store ← match ca_cert_bytes with
          | Der bytes =>
            ca ← crypto_err BadCert (trust_anchor bytes);
            mret (push_root ca empty_store)
          | Pem bytes =>
            certs ← crypto_err CryptoIoError (pem_certs bytes);
            let '((added, _), store) := add_parsable_certificates certs empty_store in
            if (added <? 1)%nat then throw NoValidItemsInPem else mret store
          end;
  mret (enable_tls_ex (client_config (RootCertificates store)) o).
End operations.

(** This one changes options that have TLS already. *)
Definition enable_tls_client_auth {B A Store K D} `{CryptoLib B A Store K D} (cert_bytes pk_bytes : CryptoBytes)
    : stm (OptionsT D) (CryptoError B) unit :=
  r ← from_bytes cert_bytes pk_bytes;
  modify (set_client_auth r).

(* ------------------------------------------------------------------ *)
(** ** The sections of a PEM file                                      *)
(* ------------------------------------------------------------------ *)

(** What keys a section holds. *)
Definition key_of (x : Item) : option bytes :=
  match x with PKCS8Key k | RSAKey k | ECKey k => Some k | OtherItem => None end.

Section pem.
Context {B A Store K D St : Type} `{CryptoLib B A Store K D}.
Implicit Types (rd : bytes) (xs : list Item) (e : option io_error) (s : St).

(** The reader [rd] gives the items [xs], and then its end or a failure. *)
Inductive sections : bytes -> list Item -> option io_error -> Prop :=
| sections_end rd rd' : read_one rd = (Ok None, rd') -> sections rd [] None
| sections_failed rd rd' err : read_one rd = (Err err, rd') -> sections rd [] (Some err)
| sections_item rd rd' x xs e :
    read_one rd = (Ok (Some x), rd') -> sections rd' xs e -> sections rd (x :: xs) e.

Lemma sections_functional rd xs e xs' e' : sections rd xs e -> sections rd xs' e' -> xs = xs' /\ e = e'.
Proof.
  intros Hs. revert xs' e'. induction Hs as [| |rd rd' x xs e Hr Hs IH]; inversion 1; subst;
    repeat match goal with H1 : read_one ?r = _, H2 : read_one ?r = _ |- _ => rewrite H1 in H2 end;
    simplify_eq/=; try done.
  match goal with Hs' : sections _ _ _ |- _ => by destruct (IH _ _ Hs') as [-> ->] end.
Qed.

Lemma sections_total `{!CryptoLibOk B A Store K D} rd : exists xs e, sections rd xs e.
Proof.
  induction rd as [rd IH] using (induction_ltof1 _ (@length Z)).
  destruct (read_one rd) as [[[x|]|err] rd'] eqn:Hr.
  - destruct (IH rd' (read_one_consumes _ _ _ Hr)) as (xs & e & Hs). eauto using sections.
  - eauto using sections.
  - eauto using sections.
Qed.

(** The key of a file, by what it holds. *)
Definition key_of_sections xs e : result bytes (CryptoError B) :=
  match e, omap key_of xs with
  | Some err, _ => Err (CryptoIoError err)
  | None, k :: _ => Ok k
  | None, [] => Err NoValidItemsInPem
  end.

Definition from_result {X E} (r : result X E) : outcome E X :=
  match r with Ok x => Ret x | Err err => Throw err end.

(** The loop, with fuel for every byte, keeps the first key. *)
Lemma key_loop_sections `{!CryptoLibOk B A Store K D} fuel rd xs e found s :
  sections rd xs e -> (length rd < fuel)%nat ->
  key_loop fuel rd found s =
    (match e with
     | Some err => Throw (CryptoIoError err)
     | None => Ret (match found with Some k => Some k | None => omap key_of xs !! 0%nat end)
     end, s).
Proof.
  intros Hs. revert fuel found. induction Hs as [rd rd' Hr|rd rd' err Hr|rd rd' x xs e Hr Hs IH];
    intros [|fuel] found Hf; try lia; cbn; rewrite Hr.
  - by destruct found.
  - done.
  - pose proof (read_one_consumes _ _ _ Hr).
    destruct x; rewrite IH by lia; destruct e, found; done.
Qed.

Lemma read_key_sections `{!CryptoLibOk B A Store K D} b xs e s :
  sections b xs e -> read_key (Pem b) s = (from_result (key_of_sections xs e), s).
Proof.
  intros Hs. unfold read_key, mbind, stm_bind. rewrite (key_loop_sections _ _ _ _ _ _ Hs) by lia.
  unfold key_of_sections. destruct e; [done|]. by destruct (omap key_of xs).
Qed.

(** The result of [from_bytes] from those of its parts. *)
Definition resolver_of (certs : result (list bytes) io_error) (key : result bytes (CryptoError B))
    : result (ClientCertResolver K) (CryptoError B) :=
  match certs, key with
  | Err err, _ => Err (CryptoIoError err)
  | Ok _, Err err => Err err
  | Ok chain, Ok der =>
    match any_supported_type der with
    | Some k => Ok (mkResolver (mkCertifiedKey chain k))
    | None => Err InvalidPrivateKey
    end
  end.

Definition certs_of (c : CryptoBytes) : result (list bytes) io_error :=
  match c with Der b => Ok [b] | Pem b => pem_certs b end.

(** The key that a private key argument stands for. *)
Definition key_source (p : CryptoBytes) (r : result bytes (CryptoError B)) : Prop :=
  match p with
  | Der b => r = Ok b
  | Pem b => exists xs e, sections b xs e /\ r = key_of_sections xs e
  end.

Lemma key_source_total `{!CryptoLibOk B A Store K D} p : exists r, key_source p r.
Proof.
  destruct p as [b|b]; cbn; [eauto|].
  destruct (sections_total b) as (xs & e & Hs). eauto 6.
Qed.

Lemma from_bytes_spec `{!CryptoLibOk B A Store K D} c p r s :
  key_source p r -> from_bytes c p s = (from_result (resolver_of (certs_of c) r), s).
Proof.
  intros Hr. assert (read_certs c s = (match certs_of c with
      | Ok l => Ret l | Err err => Throw (CryptoIoError err) end, s)) as Hc.
  { destruct c as [b|b]; cbn; [done|]. by destruct (pem_certs b). }
  assert (read_key p s = (from_result r, s)) as Hk.
  { destruct p as [b|b]; cbn in Hr; [by subst|].
    destruct Hr as (xs & e & Hs & ->). by apply read_key_sections. }
  unfold from_bytes, mbind, stm_bind. rewrite Hc. destruct (certs_of c); [|done].
  rewrite Hk. destruct r; [|done]. cbn. by destruct (any_supported_type _).
Qed.
End pem.

(* ------------------------------------------------------------------ *)
(** ** Theorems                                                        *)
(* ------------------------------------------------------------------ *)

Section theorems.
Context {B A Store K D : Type} `{CryptoLib B A Store K D}.

(** C29: Enabling client authentication is equivalent to a reference
    definition, on every branch. Reading a PEM file as the list of its
    sections up to the end or the first malformed one, the loop that looks for
    a key always ends and gives the first key of the list, in whichever of
    the three formats it is, [NoValidItemsInPem] if there is none, and
    [IoError] if a section is malformed, even one after the key. The errors of
    the certificates come before those of the key, and those before
    [InvalidPrivateKey]. On success only the resolver of the TLS configuration
    changes; it always presents the certificates and the key read. On an
    error the options are as they were. *)
Theorem enable_tls_client_auth_correct `{!CryptoLibOk B A Store K D} cert_bytes pk_bytes (o : OptionsT D) :
  exists r, key_source pk_bytes r /\ (forall r', key_source pk_bytes r' -> r' = r) /\
  match resolver_of (certs_of cert_bytes) r with
  | Ok rs =>
    enable_tls_client_auth cert_bytes pk_bytes o = (Ret tt, map_connection_cfg (set_cert_resolver rs) o) /\
    has_certs rs = true /\
    (forall issuers schemes, exists c, resolve rs issuers schemes = Some c /\
      certs_of cert_bytes = Ok (cert_chain c) /\ exists der, r = Ok der /\ any_supported_type der = Some (signing_key c))
  | Err err => enable_tls_client_auth cert_bytes pk_bytes o = (Throw err, o)
  end.
Proof.
  destruct (key_source_total pk_bytes) as [r Hr]. exists r. split; [done|]. split.
  { destruct pk_bytes as [b|b]; cbn in Hr; [intros r' Hr'; cbn in Hr'; congruence|].
    destruct Hr as (xs & e & Hs & ->). intros r' (xs' & e' & Hs' & ->).
    by destruct (sections_functional _ _ _ _ _ Hs Hs') as [-> ->]. }
  unfold enable_tls_client_auth, mbind, stm_bind. rewrite (from_bytes_spec _ _ _ _ Hr).
  destruct (resolver_of _ r) as [rs|err] eqn:Hrs; [|done]. cbn. split_and!; [done|done|].
  intros issuers schemes. exists (resolver_key rs). split; [done|]. unfold resolver_of in Hrs.
  destruct (certs_of cert_bytes), r as [der|]; try done.
  destruct (any_supported_type der) eqn:Hk; simplify_eq. eauto.
Qed.

(** A PEM file in which there is no certificate at all, a private key for
    instance, is accepted as the client's certificate: the chain of the
    resolver is empty and nothing is reported. *)
Theorem client_auth_without_certificate `{!CryptoLibOk B A Store K D} cert_pem der key (o : OptionsT D) :
  pem_certs cert_pem = Ok [] -> any_supported_type der = Some key ->
  enable_tls_client_auth (Pem cert_pem) (Der der) o =
    (Ret tt, map_connection_cfg (set_cert_resolver (mkResolver (mkCertifiedKey [] key))) o).
Proof.
  intros Hc Hk. unfold enable_tls_client_auth, mbind, stm_bind.
  rewrite (from_bytes_spec _ (Der der) (Ok der) _ eq_refl).
  unfold resolver_of, certs_of. rewrite Hc. by rewrite Hk.
Qed.

(** Options without TLS, converted to [tls_config]: every option is kept, but
    for the port if the user did not choose one. *)
Definition converted (o : OptionsT unit) (o' : OptionsT D) (tls_config : D) : Prop :=
  connection_cfg o' = tls_config /\ default_port_changed o' = default_port_changed o /\
  default_port o' = (if default_port_changed o then default_port o else 8883) /\
  forall port changed, with_port port changed (map_connection_cfg (fun _ => tt) o') =
    with_port port changed (map_connection_cfg (fun _ => tt) o).

Lemma enable_tls_ex_converts tls_config o : converted o (enable_tls_ex tls_config o) tls_config.
Proof. unfold converted, enable_tls_ex. by destruct o as [? ? ? ? ? ? ? ? ? ? ? ? ? ? []]. Qed.

(** The store of roots for the certificate of an authority. *)
Definition ca_store (ca : CryptoBytes) : result Store (CryptoError B) :=
  match ca with
  | Der b => match trust_anchor b with Ok a => Ok (push_root a empty_store) | Err e => Err (BadCert e) end
  | Pem b =>
    match pem_certs b with
    | Err e => Err (CryptoIoError e)
    | Ok certs =>
      match add_parsable_certificates certs empty_store with
      | ((O, _), _) => Err NoValidItemsInPem
      | ((S _, _), store) => Ok store
      end
    end
  end.

(** The constructors with TLS keep every other option, take the port 8883
    exactly if no port was set, and configure the verification of the server
    as asked: with the one authority given, which must be valid and, in a PEM
    file, hold at least one usable certificate; with the native certificates,
    which must load, those that do not parse being ignored; or not at all,
    and only by the constructor that says so. *)
Theorem tls_constructors_correct {St} (o : OptionsT unit) (ca : CryptoBytes) (s : St) :
  (match ca_store ca with
   | Ok store => exists o', enable_tls_custom_ca_cert ca o s = (Ret o', s) /\
       converted o o' (client_config (RootCertificates store))
   | Err e => enable_tls_custom_ca_cert ca o s = (Throw e, s)
   end) /\
  (match load_native_certs with
   | Ok certs => exists o', enable_tls o = Ok o' /\
       converted o o' (client_config (RootCertificates (add_parsable_certificates certs empty_store).2))
   | Err e => enable_tls o = Err e
   end) /\
  converted o (enable_dangerous_non_verified_tls o) (client_config SkipServerCertVerification).
Proof.
  split_and!.
  - unfold ca_store, enable_tls_custom_ca_cert, mbind, stm_bind. destruct ca as [b|b].
    + destruct (trust_anchor b); [|done]. cbn. eauto using enable_tls_ex_converts.
    + destruct (pem_certs b) as [certs|]; [|done]. cbn.
      destruct (add_parsable_certificates certs empty_store) as [[[|n] ignored] store]; [done|].
      cbn. eauto using enable_tls_ex_converts.
  - unfold enable_tls. destruct load_native_certs as [certs|]; [|done].
    destruct (add_parsable_certificates certs empty_store) as [? store]. eauto using enable_tls_ex_converts.
  - apply enable_tls_ex_converts.
Qed.
End theorems.

(** A format of two bytes a section, a tag and the content: 0 is a
    certificate, 1, 2 and 3 are keys, anything else is not a section. *)
Definition sample_read_one (rd : bytes) : result (option Item) io_error * bytes :=
  match rd with
  | [] => (Ok None, [])
  | 0 :: _ :: rd => (Ok (Some OtherItem), rd)
  | 1 :: x :: rd => (Ok (Some (PKCS8Key [x])), rd)
  | 2 :: x :: rd => (Ok (Some (RSAKey [x])), rd)
  | 3 :: x :: rd => (Ok (Some (ECKey [x])), rd)
  | _ => (Err (mkIoError Other None), [])
  end.

Fixpoint sample_certs (b : bytes) : result (list bytes) io_error :=
  match b with
  | [] => Ok []
  | t :: b =>
    match b with
    | x :: b =>
      match sample_certs b with
      | Ok l => Ok (if t =? 0 then [x] :: l else l)
      | Err e => Err e
      end
    | [] => Err (mkIoError Other None)
    end
  end.

#[local] Instance sample_crypto : CryptoLib unit bytes (list bytes) bytes (Verifier (list bytes) * option (ClientCertResolver bytes)) := {|
  pem_certs := sample_certs;
  read_one := sample_read_one;
  trust_anchor b := Ok b;
  empty_store := [];
  push_root a st := a :: st;
  add_parsable_certificates l st := ((length l, O), l ++ st);
  load_native_certs := Ok [[1]];
  any_supported_type k := if decide (k = [9]) then None else Some k;
  client_config v := (v, None);
  set_cert_resolver r c := (c.1, Some r)
|}.

#[local] Instance sample_crypto_ok : CryptoLibOk unit bytes (list bytes) bytes (Verifier (list bytes) * option (ClientCertResolver bytes)).
Proof.
  intros rd x rd' Hr. cbn in Hr. unfold sample_read_one in Hr.
  repeat (split_match; simplify_eq/=; try lia).
Qed.

Definition sample_tls_options : OptionsT (Verifier (list bytes) * option (ClientCertResolver bytes)) :=
  enable_dangerous_non_verified_tls (Options_new [99]).

(** A certificate, an RSA key, an EC key: the RSA key is used; and with a
    malformed section at the end, nothing is. *)
Lemma enable_tls_client_auth_correct_witness :
  enable_tls_client_auth (Pem [0; 7]) (Pem [0; 7; 2; 5; 3; 6]) sample_tls_options =
    (Ret tt, map_connection_cfg (set_cert_resolver (mkResolver (mkCertifiedKey [[7]] [5]))) sample_tls_options) /\
  enable_tls_client_auth (Pem [0; 7]) (Pem [2; 5; 8]) sample_tls_options =
    (Throw (CryptoIoError (mkIoError Other None)), sample_tls_options).
Proof.
  split.
  - destruct (enable_tls_client_auth_correct (Pem [0; 7]) (Pem [0; 7; 2; 5; 3; 6]) sample_tls_options)
      as (r & _ & Hu & Hm).
    rewrite <- (Hu (Ok [5])) in Hm; [apply Hm|].
    exists [OtherItem; RSAKey [5]; ECKey [6]], None. split; [|done].
    repeat (eapply sections_item; [done|]). by eapply sections_end.
  - destruct (enable_tls_client_auth_correct (Pem [0; 7]) (Pem [2; 5; 8]) sample_tls_options)
      as (r & _ & Hu & Hm).
    rewrite <- (Hu (Err (CryptoIoError (mkIoError Other None)))) in Hm; [apply Hm|].
    exists [RSAKey [5]], (Some (mkIoError Other None)). split; [|done].
    eapply sections_item; [done|]. by eapply sections_failed.
Defined.

Lemma client_auth_without_certificate_witness :
  enable_tls_client_auth (Pem [2; 5]) (Der [5]) sample_tls_options =
    (Ret tt, map_connection_cfg (set_cert_resolver (mkResolver (mkCertifiedKey [] [5]))) sample_tls_options).
Proof. apply client_auth_without_certificate; reflexivity. Defined.
